(** * ParticleListAction: genealogy and trajectory bookkeeping

    A shallow embedding of [larg4/pluginActions/ParticleListAction.cc]
    (class [ParticleListActionService]) and the properties of its event,
    tracking and stepping hooks.

    Conventions of the embedding:
    - a C++ [int] is a [Z] in the 32-bit two's-complement range; arithmetic
      on it is followed by [wrap32];
    - a [double] is a binary64 [float];
    - [std::map]/[std::unordered_map] members are [gmap]s, [std::set<int>] is
      a [gset Z];
    - a [simb::MCParticle*] is an index into [heap], the store of the records
      allocated by [new]; the particle lists and the active-particle slot
      hold such indices, so a point added through the slot is seen through
      the list;
    - a hook that may throw, hit an assertion or loop returns an [Outcome];
    - diagnostic logging ([mf::Log...]) has no effect on the state and is
      left out. *)

From Stdlib Require Import ZArith String Floats Lia.
From stdpp Require Import gmap strings list fin_maps sorting.

Local Open Scope Z_scope.

(** ** Machine integers and collaborator constants *)

(** Two's-complement reduction of an [int] result. *)
Definition wrap32 (z : Z) : Z := (z + 2 ^ 31) mod 2 ^ 32 - 2 ^ 31.

Definition int_range (z : Z) : Prop := - 2 ^ 31 <= z < 2 ^ 31.

(** [sim::NoParticleId] (lardataobj, [Simulation/sim.h]):
    [std::numeric_limits<int>::min()]. *)
Definition NoParticleId : Z := - 2 ^ 31.

(** [simb::NoGeneratedParticleIndex] (nusimdata): the largest [size_t]. *)
Definition NoGeneratedParticleIndex : N := (2 ^ 64 - 1)%N.

Definition isGeneratedParticleIndex (i : N) : bool :=
  negb (i =? NoGeneratedParticleIndex)%N.

(** CLHEP units: millimetre, nanosecond and MeV are 1. *)
Module CLHEP.
Definition cm : float := 10%float.
Definition ns : float := 1%float.
Definition GeV : float := 1000%float.
End CLHEP.

(** ** Strings *)

(** [s.find(p) != std::string::npos]. *)
Definition string_contains (p s : string) : bool :=
  match String.index 0 p s with Some _ => true | None => false end.

(** [s.find(p) == 0]. *)
Definition string_find_at_0 (p s : string) : bool :=
  match String.index 0 p s with Some O => true | _ => false end.

(** ** Geometry and particle records (ROOT, nusimdata) *)

Record G4ThreeVector := mkG4ThreeVector { x : float; y : float; z : float }.

Record TVector3 := mkTVector3 { v3_x : float; v3_y : float; v3_z : float }.

Record TLorentzVector := mkTLorentzVector {
  lv_x : float; lv_y : float; lv_z : float; lv_t : float
}.

(** One trajectory sample: position, momentum and the step's process. *)
Record TrajectoryPoint := mkTrajectoryPoint {
  tp_position : TLorentzVector;
  tp_momentum : TLorentzVector;
  tp_process : string;
  tp_keepTransportation : bool
}.

(** The members of [simb::MCParticle] that the service reads or writes. *)
Record MCParticle := mkMCParticle {
  TrackId : Z;
  PdgCode : Z;
  Process : string;
  Mother : Z;
  Mass : float;
  StatusCode : Z;
  Weight : float;
  Polarization : TVector3;
  EndProcess : string;
  Trajectory : list TrajectoryPoint;
  Daughters : gset Z
}.

Definition NumberTrajectoryPoints (p : MCParticle) : nat := length (Trajectory p).

(** [new simb::MCParticle{trackID, pdgCode, process_name, parentID, mass}];
    the remaining members take the constructor's defaults.  The
    constructor is declared in nusimdata's [MCParticle.h], outside this
    repository, with [const int status = 1] as its last argument: a
    record that no one touches afterwards passes the status test of
    line 804, as section 4.4 of the specification expects. *)
Definition new_MCParticle (trackID pdgCode : Z) (process_name : string)
    (parentID : Z) (mass : float) : MCParticle :=
  mkMCParticle trackID pdgCode process_name parentID mass 1 0%float
    (mkTVector3 0 0 0) EmptyString [] ∅.

Definition SetWeight (w : float) (p : MCParticle) : MCParticle :=
  mkMCParticle (TrackId p) (PdgCode p) (Process p) (Mother p) (Mass p)
    (StatusCode p) w (Polarization p) (EndProcess p) (Trajectory p) (Daughters p).

Definition SetPolarization (v : TVector3) (p : MCParticle) : MCParticle :=
  mkMCParticle (TrackId p) (PdgCode p) (Process p) (Mother p) (Mass p)
    (StatusCode p) (Weight p) v (EndProcess p) (Trajectory p) (Daughters p).

Definition SetEndProcess (e : string) (p : MCParticle) : MCParticle :=
  mkMCParticle (TrackId p) (PdgCode p) (Process p) (Mother p) (Mass p)
    (StatusCode p) (Weight p) (Polarization p) e (Trajectory p) (Daughters p).

Definition SetTrajectory (t : list TrajectoryPoint) (p : MCParticle) : MCParticle :=
  mkMCParticle (TrackId p) (PdgCode p) (Process p) (Mother p) (Mass p)
    (StatusCode p) (Weight p) (Polarization p) (EndProcess p) t (Daughters p).

(** [AddTrajectoryPoint(pos, mom, process, keepTransportation)] appends one
    sample. *)
Definition AddTrajectoryPoint (pos mom : TLorentzVector) (process : string)
    (keepTransportation : bool) (p : MCParticle) : MCParticle :=
  SetTrajectory
    (Trajectory p ++ [mkTrajectoryPoint pos mom process keepTransportation]) p.

Definition AddDaughter (d : Z) (p : MCParticle) : MCParticle :=
  mkMCParticle (TrackId p) (PdgCode p) (Process p) (Mother p) (Mass p)
    (StatusCode p) (Weight p) (Polarization p) (EndProcess p) (Trajectory p)
    ({[d]} ∪ Daughters p).

(** [sim::MCParticleLite]: the reduced record of a dropped particle. *)
Record MCParticleLite := mkMCParticleLite {
  lite_TrackID : Z;
  lite_PdgCode : Z;
  lite_Origin : Z
}.

(** ** The particle store and [sim::ParticleList] *)

(** A [simb::MCParticle*]. *)
Abbreviation ptr := nat (only parsing).

(** [sim::ParticleList] (lardataobj) at the interface the service uses: an
    ordered map from track ID to particle pointer, where an archived entry
    keeps its key with a null pointer and leaves its parent ID in the
    archive.  Look-ups ([find], [KnownParticle], [erase]) take the absolute
    value of the key, which is what lets the service ask for the negated
    ID of an ancestor. *)
Record ParticleList := mkParticleList {
  m_particleList : gmap Z (option ptr);
  m_archive : gmap Z Z
}.

Module PList.
Definition empty : ParticleList := mkParticleList ∅ ∅.

Definition find (key : Z) (pl : ParticleList) : option (option ptr) :=
  m_particleList pl !! wrap32 (Z.abs key).

Definition KnownParticle (pl : ParticleList) (trackID : Z) : bool :=
  bool_decide (is_Some (find trackID pl)).

Definition size (pl : ParticleList) : nat := size (m_particleList pl).

(** [key(part)]: the particle's own track ID. *)
Definition key (h : list MCParticle) (p : ptr) : option Z :=
  TrackId <$> h !! p.

Definition Add (k : Z) (p : ptr) (pl : ParticleList) : ParticleList :=
  mkParticleList (<[k := Some p]> (m_particleList pl)) (m_archive pl).

Definition erase (k : Z) (pl : ParticleList) : ParticleList :=
  mkParticleList (delete (wrap32 (Z.abs k)) (m_particleList pl)) (m_archive pl).

(** [Archive(part)]: the entry's pointer becomes null and the parent ID
    is kept in the archive. *)
Definition Archive (k mother : Z) (pl : ParticleList) : ParticleList :=
  mkParticleList (<[k := None]> (m_particleList pl)) (<[k := mother]> (m_archive pl)).

(** The keys in iteration order ([begin()] to [end()]), ascending. *)
Definition keys (pl : ParticleList) : list Z :=
  merge_sort Z.le (elements (dom (m_particleList pl))).

(** The entries in iteration order. *)
Definition entries (pl : ParticleList) : list (Z * option ptr) :=
  omap (λ k, (k,.) <$> m_particleList pl !! k) (keys pl).
End PList.

(** ** What the transport engine and the generator stage hand in *)

(** [g4b::PrimaryParticleInformation]. *)
Record PrimaryParticleInformation := mkPrimaryParticleInformation {
  MCParticleIndex : N;
  MCTruthIndex : N;
  GetMCParticle_Process : string
}.

(** [G4PrimaryParticle]; [GetUserInformation] is the result of the
    [dynamic_cast] to [g4b::PrimaryParticleInformation], null when the
    user information is of another kind. *)
Record G4PrimaryParticle := mkG4PrimaryParticle {
  GetUserInformation : option PrimaryParticleInformation
}.

Record G4StepPoint := mkG4StepPoint {
  GetProcessDefinedStep : option string;
  GetPosition : G4ThreeVector;
  GetGlobalTime : float;
  GetMomentum : G4ThreeVector;
  GetTotalEnergy : float
}.

Definition SetGlobalTime (t : float) (p : G4StepPoint) : G4StepPoint :=
  mkG4StepPoint (GetProcessDefinedStep p) (GetPosition p) t (GetMomentum p)
    (GetTotalEnergy p).

(** [G4Step], without the back pointer to its track. *)
Record G4Step := mkG4Step {
  GetPreStepPoint : G4StepPoint;
  GetPostStepPoint : G4StepPoint;
  GetStepLength : float;
  GetDeltaTime : float
}.

(** [G4Track].  A [const G4Step* step] is represented by its track [trk],
    with [step = GetStep trk] and [step->GetTrack() = trk]. *)
Record G4Track := mkG4Track {
  GetTrackID : Z;
  GetParentID : Z;
  GetPDGEncoding : Z;
  GetPrimaryParticle : option G4PrimaryParticle;
  GetCreatorProcess : option string;
  GetMass : float;
  GetKineticEnergy : float;
  GetPolarization : G4ThreeVector;
  GetProperTime : float;
  GetWeight : float;
  GetTrackGlobalTime : float;
  GetVelocity : float;
  GetStep : G4Step
}.

Definition SetStep (st : G4Step) (t : G4Track) : G4Track :=
  mkG4Track (GetTrackID t) (GetParentID t) (GetPDGEncoding t)
    (GetPrimaryParticle t) (GetCreatorProcess t) (GetMass t)
    (GetKineticEnergy t) (GetPolarization t) (GetProperTime t) (GetWeight t)
    (GetTrackGlobalTime t) (GetVelocity t) st.

(** [simb::MCTruth] and a handle on one generator's truth records;
    [label] is [provenance()->inputTag().label()]. *)
Record MCTruth := mkMCTruth { NParticles : nat; Origin : Z }.

Record MCListHandle := mkMCListHandle {
  label : string;
  truths : list MCTruth
}.

(** One entry of the truth-to-particle association: the truth record
    (handle and position), the position in [partCol_] and the generated
    particle index. *)
Record Assn := mkAssn {
  assn_handle : nat;
  assn_truth : nat;
  assn_particle : nat;
  assn_truthInfo : N
}.

(** ** Configuration *)

(** The [fhicl::ParameterSet] keys the constructor reads; an absent key is
    [None]. *)
Record ParameterSet := mkParameterSet {
  p_EnergyCut : option float;
  p_storeTrajectories : option bool;
  p_keepGenTrajectories : option (list string);
  p_keepEMShowerDaughters : option bool;
  p_NotStoredPhysics : option (list string);
  p_keepOnlyPrimaryFullTrajectories : option bool;
  p_SparsifyTrajectories : option bool;
  p_SparsifyMargin : option float;
  p_KeepTransportation : option bool;
  p_KeepSecondToLast : option bool;
  p_StoreDroppedMCParticles : option bool
}.

Record Config := mkConfig {
  fenergyCut : float;
  fstoreTrajectories : bool;
  fkeepGenTrajectories : list string;
  fKeepEMShowerDaughters : bool;
  fNotStoredPhysics : list string;
  fkeepOnlyPrimaryFullTraj : bool;
  fSparsifyTrajectories : bool;
  fSparsifyMargin : float;
  fKeepTransportation : bool;
  fKeepSecondToLast : bool;
  fStoreDroppedMCParticles : bool
}.

(** Modelled from the spec: [ParticleInfo_t] is declared in
    [ParticleListAction_service.h], which is not among the sources.  It is
    the single "active particle" slot: the pointer to the record that the
    stepping and track-end hooks write to (null when none is active), the
    keep-full-trajectory flag fixed at creation, and the index of the
    particle in the generator's truth record. *)
Record ParticleInfo_t := mkParticleInfo {
  particle : option ptr;
  keepFullTrajectory : bool;
  truthIndex : N
}.

(** Modelled from the spec: [clear()] of the missing header empties the
    slot; no particle, no full trajectory, no truth index. *)
Definition ParticleInfo_clear : ParticleInfo_t :=
  mkParticleInfo None false NoGeneratedParticleIndex.

(** Modelled from the spec: [hasParticle()] of the missing header, "no-op
    if none is active". *)
Definition hasParticle (i : ParticleInfo_t) : bool :=
  match particle i with Some _ => true | None => false end.

(** Modelled from the spec: [isPrimary()] of the missing header; the
    particle comes from a primary when a generated-particle index was
    recorded for it. *)
Definition isPrimary (i : ParticleInfo_t) : bool :=
  isGeneratedParticleIndex (truthIndex i).

(** Modelled from the spec: [truthInfoIndex()] of the missing header, the
    generated-particle index of the slot. *)
Definition truthInfoIndex (i : ParticleInfo_t) : N := truthIndex i.

(** ** The service state

    The data members of [ParticleListActionService], with the types that
    their uses in the source show (the class declaration is in the header
    that is not among the sources), the store of the allocated records,
    and the four output collections. *)

Record State := mkState {
  config : Config;
  fMCLists : list MCListHandle;
  heap : list MCParticle;
  fCurrentParticle : ParticleInfo_t;
  fParticleList : ParticleList;
  fParentIDMap : gmap Z Z;
  fTargetIDMap : gmap Z Z;
  fMCTIndexMap : gmap Z N;
  fMCTPrimProcessKeepMap : gmap Z bool;
  fCurrentTrackID : Z;
  fTrackIDOffset : Z;
  fPrimaryTruthMap : gmap Z N;
  fMCTIndexToGeneratorMap : gmap N (string * bool);
  fNotStoredCounterUMap : gmap string Z;
  fdroppedTracksMap : gmap Z (gset Z);
  fdroppedParticleList : option ParticleList;
  partCol_ : option (list MCParticle);
  droppedCol_ : option (gmap Z (gset Z));
  droppedPartCol_ : option (list MCParticleLite);
  tpassn_ : option (list Assn)
}.

(** Field assignments ([s.f = v]), one per mutable member. *)
Definition set_fMCLists (v : list MCListHandle) (s : State) : State :=
  mkState (config s) v (heap s) (fCurrentParticle s) (fParticleList s)
    (fParentIDMap s) (fTargetIDMap s) (fMCTIndexMap s)
    (fMCTPrimProcessKeepMap s) (fCurrentTrackID s) (fTrackIDOffset s)
    (fPrimaryTruthMap s) (fMCTIndexToGeneratorMap s) (fNotStoredCounterUMap s)
    (fdroppedTracksMap s) (fdroppedParticleList s) (partCol_ s)
    (droppedCol_ s) (droppedPartCol_ s) (tpassn_ s).
Definition set_heap (v : list MCParticle) (s : State) : State :=
  mkState (config s) (fMCLists s) v (fCurrentParticle s) (fParticleList s)
    (fParentIDMap s) (fTargetIDMap s) (fMCTIndexMap s)
    (fMCTPrimProcessKeepMap s) (fCurrentTrackID s) (fTrackIDOffset s)
    (fPrimaryTruthMap s) (fMCTIndexToGeneratorMap s) (fNotStoredCounterUMap s)
    (fdroppedTracksMap s) (fdroppedParticleList s) (partCol_ s)
    (droppedCol_ s) (droppedPartCol_ s) (tpassn_ s).
Definition set_fCurrentParticle (v : ParticleInfo_t) (s : State) : State :=
  mkState (config s) (fMCLists s) (heap s) v (fParticleList s)
    (fParentIDMap s) (fTargetIDMap s) (fMCTIndexMap s)
    (fMCTPrimProcessKeepMap s) (fCurrentTrackID s) (fTrackIDOffset s)
    (fPrimaryTruthMap s) (fMCTIndexToGeneratorMap s) (fNotStoredCounterUMap s)
    (fdroppedTracksMap s) (fdroppedParticleList s) (partCol_ s)
    (droppedCol_ s) (droppedPartCol_ s) (tpassn_ s).
Definition set_fParticleList (v : ParticleList) (s : State) : State :=
  mkState (config s) (fMCLists s) (heap s) (fCurrentParticle s) v
    (fParentIDMap s) (fTargetIDMap s) (fMCTIndexMap s)
    (fMCTPrimProcessKeepMap s) (fCurrentTrackID s) (fTrackIDOffset s)
    (fPrimaryTruthMap s) (fMCTIndexToGeneratorMap s) (fNotStoredCounterUMap s)
    (fdroppedTracksMap s) (fdroppedParticleList s) (partCol_ s)
    (droppedCol_ s) (droppedPartCol_ s) (tpassn_ s).
Definition set_fParentIDMap (v : gmap Z Z) (s : State) : State :=
  mkState (config s) (fMCLists s) (heap s) (fCurrentParticle s)
    (fParticleList s) v (fTargetIDMap s) (fMCTIndexMap s)
    (fMCTPrimProcessKeepMap s) (fCurrentTrackID s) (fTrackIDOffset s)
    (fPrimaryTruthMap s) (fMCTIndexToGeneratorMap s) (fNotStoredCounterUMap s)
    (fdroppedTracksMap s) (fdroppedParticleList s) (partCol_ s)
    (droppedCol_ s) (droppedPartCol_ s) (tpassn_ s).
Definition set_fTargetIDMap (v : gmap Z Z) (s : State) : State :=
  mkState (config s) (fMCLists s) (heap s) (fCurrentParticle s)
    (fParticleList s) (fParentIDMap s) v (fMCTIndexMap s)
    (fMCTPrimProcessKeepMap s) (fCurrentTrackID s) (fTrackIDOffset s)
    (fPrimaryTruthMap s) (fMCTIndexToGeneratorMap s) (fNotStoredCounterUMap s)
    (fdroppedTracksMap s) (fdroppedParticleList s) (partCol_ s)
    (droppedCol_ s) (droppedPartCol_ s) (tpassn_ s).
Definition set_fMCTIndexMap (v : gmap Z N) (s : State) : State :=
  mkState (config s) (fMCLists s) (heap s) (fCurrentParticle s)
    (fParticleList s) (fParentIDMap s) (fTargetIDMap s) v
    (fMCTPrimProcessKeepMap s) (fCurrentTrackID s) (fTrackIDOffset s)
    (fPrimaryTruthMap s) (fMCTIndexToGeneratorMap s) (fNotStoredCounterUMap s)
    (fdroppedTracksMap s) (fdroppedParticleList s) (partCol_ s)
    (droppedCol_ s) (droppedPartCol_ s) (tpassn_ s).
Definition set_fMCTPrimProcessKeepMap (v : gmap Z bool) (s : State) : State :=
  mkState (config s) (fMCLists s) (heap s) (fCurrentParticle s)
    (fParticleList s) (fParentIDMap s) (fTargetIDMap s) (fMCTIndexMap s) v
    (fCurrentTrackID s) (fTrackIDOffset s) (fPrimaryTruthMap s)
    (fMCTIndexToGeneratorMap s) (fNotStoredCounterUMap s)
    (fdroppedTracksMap s) (fdroppedParticleList s) (partCol_ s)
    (droppedCol_ s) (droppedPartCol_ s) (tpassn_ s).
Definition set_fCurrentTrackID (v : Z) (s : State) : State :=
  mkState (config s) (fMCLists s) (heap s) (fCurrentParticle s)
    (fParticleList s) (fParentIDMap s) (fTargetIDMap s) (fMCTIndexMap s)
    (fMCTPrimProcessKeepMap s) v (fTrackIDOffset s) (fPrimaryTruthMap s)
    (fMCTIndexToGeneratorMap s) (fNotStoredCounterUMap s)
    (fdroppedTracksMap s) (fdroppedParticleList s) (partCol_ s)
    (droppedCol_ s) (droppedPartCol_ s) (tpassn_ s).
Definition set_fTrackIDOffset (v : Z) (s : State) : State :=
  mkState (config s) (fMCLists s) (heap s) (fCurrentParticle s)
    (fParticleList s) (fParentIDMap s) (fTargetIDMap s) (fMCTIndexMap s)
    (fMCTPrimProcessKeepMap s) (fCurrentTrackID s) v (fPrimaryTruthMap s)
    (fMCTIndexToGeneratorMap s) (fNotStoredCounterUMap s)
    (fdroppedTracksMap s) (fdroppedParticleList s) (partCol_ s)
    (droppedCol_ s) (droppedPartCol_ s) (tpassn_ s).
Definition set_fPrimaryTruthMap (v : gmap Z N) (s : State) : State :=
  mkState (config s) (fMCLists s) (heap s) (fCurrentParticle s)
    (fParticleList s) (fParentIDMap s) (fTargetIDMap s) (fMCTIndexMap s)
    (fMCTPrimProcessKeepMap s) (fCurrentTrackID s) (fTrackIDOffset s) v
    (fMCTIndexToGeneratorMap s) (fNotStoredCounterUMap s)
    (fdroppedTracksMap s) (fdroppedParticleList s) (partCol_ s)
    (droppedCol_ s) (droppedPartCol_ s) (tpassn_ s).
Definition set_fMCTIndexToGeneratorMap (v : gmap N (string * bool)) (s : State) : State :=
  mkState (config s) (fMCLists s) (heap s) (fCurrentParticle s)
    (fParticleList s) (fParentIDMap s) (fTargetIDMap s) (fMCTIndexMap s)
    (fMCTPrimProcessKeepMap s) (fCurrentTrackID s) (fTrackIDOffset s)
    (fPrimaryTruthMap s) v (fNotStoredCounterUMap s) (fdroppedTracksMap s)
    (fdroppedParticleList s) (partCol_ s) (droppedCol_ s) (droppedPartCol_ s)
    (tpassn_ s).
Definition set_fNotStoredCounterUMap (v : gmap string Z) (s : State) : State :=
  mkState (config s) (fMCLists s) (heap s) (fCurrentParticle s)
    (fParticleList s) (fParentIDMap s) (fTargetIDMap s) (fMCTIndexMap s)
    (fMCTPrimProcessKeepMap s) (fCurrentTrackID s) (fTrackIDOffset s)
    (fPrimaryTruthMap s) (fMCTIndexToGeneratorMap s) v (fdroppedTracksMap s)
    (fdroppedParticleList s) (partCol_ s) (droppedCol_ s) (droppedPartCol_ s)
    (tpassn_ s).
Definition set_fdroppedTracksMap (v : gmap Z (gset Z)) (s : State) : State :=
  mkState (config s) (fMCLists s) (heap s) (fCurrentParticle s)
    (fParticleList s) (fParentIDMap s) (fTargetIDMap s) (fMCTIndexMap s)
    (fMCTPrimProcessKeepMap s) (fCurrentTrackID s) (fTrackIDOffset s)
    (fPrimaryTruthMap s) (fMCTIndexToGeneratorMap s) (fNotStoredCounterUMap s)
    v (fdroppedParticleList s) (partCol_ s) (droppedCol_ s)
    (droppedPartCol_ s) (tpassn_ s).
Definition set_fdroppedParticleList (v : option ParticleList) (s : State) : State :=
  mkState (config s) (fMCLists s) (heap s) (fCurrentParticle s)
    (fParticleList s) (fParentIDMap s) (fTargetIDMap s) (fMCTIndexMap s)
    (fMCTPrimProcessKeepMap s) (fCurrentTrackID s) (fTrackIDOffset s)
    (fPrimaryTruthMap s) (fMCTIndexToGeneratorMap s) (fNotStoredCounterUMap s)
    (fdroppedTracksMap s) v (partCol_ s) (droppedCol_ s) (droppedPartCol_ s)
    (tpassn_ s).
Definition set_partCol_ (v : option (list MCParticle)) (s : State) : State :=
  mkState (config s) (fMCLists s) (heap s) (fCurrentParticle s)
    (fParticleList s) (fParentIDMap s) (fTargetIDMap s) (fMCTIndexMap s)
    (fMCTPrimProcessKeepMap s) (fCurrentTrackID s) (fTrackIDOffset s)
    (fPrimaryTruthMap s) (fMCTIndexToGeneratorMap s) (fNotStoredCounterUMap s)
    (fdroppedTracksMap s) (fdroppedParticleList s) v (droppedCol_ s)
    (droppedPartCol_ s) (tpassn_ s).
Definition set_droppedCol_ (v : option (gmap Z (gset Z))) (s : State) : State :=
  mkState (config s) (fMCLists s) (heap s) (fCurrentParticle s)
    (fParticleList s) (fParentIDMap s) (fTargetIDMap s) (fMCTIndexMap s)
    (fMCTPrimProcessKeepMap s) (fCurrentTrackID s) (fTrackIDOffset s)
    (fPrimaryTruthMap s) (fMCTIndexToGeneratorMap s) (fNotStoredCounterUMap s)
    (fdroppedTracksMap s) (fdroppedParticleList s) (partCol_ s) v
    (droppedPartCol_ s) (tpassn_ s).
Definition set_droppedPartCol_ (v : option (list MCParticleLite)) (s : State) : State :=
  mkState (config s) (fMCLists s) (heap s) (fCurrentParticle s)
    (fParticleList s) (fParentIDMap s) (fTargetIDMap s) (fMCTIndexMap s)
    (fMCTPrimProcessKeepMap s) (fCurrentTrackID s) (fTrackIDOffset s)
    (fPrimaryTruthMap s) (fMCTIndexToGeneratorMap s) (fNotStoredCounterUMap s)
    (fdroppedTracksMap s) (fdroppedParticleList s) (partCol_ s)
    (droppedCol_ s) v (tpassn_ s).
Definition set_tpassn_ (v : option (list Assn)) (s : State) : State :=
  mkState (config s) (fMCLists s) (heap s) (fCurrentParticle s)
    (fParticleList s) (fParentIDMap s) (fTargetIDMap s) (fMCTIndexMap s)
    (fMCTPrimProcessKeepMap s) (fCurrentTrackID s) (fTrackIDOffset s)
    (fPrimaryTruthMap s) (fMCTIndexToGeneratorMap s) (fNotStoredCounterUMap s)
    (fdroppedTracksMap s) (fdroppedParticleList s) (partCol_ s)
    (droppedCol_ s) (droppedPartCol_ s) v.

(** ** Outcomes of a hook *)

Inductive Exception :=
| LogicError_MCTIndex (parentID : Z)
    (** [art::errors::LogicError], "Could not locate MCT Index for parent
        trackID of ..." *)
| LogicError_PrimaryMatch (handle : nat)
    (** [art::errors::LogicError], "Failed to match primary particle" *)
| cet_exception_ParticleListAction
    (** "dropped particle list not build by user request" *)
| std_out_of_range.
    (** a checked look-up of the particle list missed *)

Definition is_LogicError (e : Exception) : bool :=
  match e with
  | LogicError_MCTIndex _ | LogicError_PrimaryMatch _ => true
  | _ => false
  end.

Inductive Abort := AssertionFailed | NullDereference.

(** A call returns a value and the new state, leaves by an exception,
    aborts, or never returns. *)
Inductive Outcome (A : Type) :=
| Returned (a : A) (s : State)
| Thrown (e : Exception) (s : State)
| Aborted (why : Abort) (s : State)
| Diverges.

Arguments Returned {A} a s.
Arguments Thrown {A} e s.
Arguments Aborted {A} why s.
Arguments Diverges {A}.

Definition bind {A B} (o : Outcome A) (k : A -> State -> Outcome B) : Outcome B :=
  match o with
  | Returned a s => k a s
  | Thrown e s => Thrown e s
  | Aborted w s => Aborted w s
  | Diverges => Diverges
  end.

(** The state a call leaves behind, when it comes back at all. *)
Definition final_state {A} (o : Outcome A) : option State :=
  match o with
  | Returned _ s | Thrown _ s | Aborted _ s => Some s
  | Diverges => None
  end.

(** [m[k]] on a map: a missing key is first inserted with the default. *)
Definition subscript `{Countable K} {V} (d : V) (k : K) (m : gmap K V) : V * gmap K V :=
  match m !! k with
  | Some v => (v, m)
  | None => (d, <[k := d]> m)
  end.

(** [m.emplace(k, v)]: no effect on a key that is present. *)
Definition emplace `{Countable K} {V} (k : K) (v : V) (m : gmap K V) : gmap K V :=
  match m !! k with
  | Some _ => m
  | None => <[k := v]> m
  end.

(** Access to a particle through its pointer. *)
Definition deref (p : ptr) (s : State) : option MCParticle := heap s !! p.

Definition through (p : ptr) (f : MCParticle -> MCParticle) (s : State) : State :=
  set_heap (alter f p (heap s)) s.

(** [new simb::MCParticle{...}]: the record goes to the end of the store. *)
Definition allocate (rec : MCParticle) (s : State) : ptr * State :=
  (length (heap s), set_heap (heap s ++ [rec]) s).

(** ** Constructor (lines 66-131) *)

Definition default_NotStoredPhysics : list string :=
  ["conv"; "LowEnConversion"; "Pair"; "compt"; "Compt"; "Brem"; "phot";
   "Photo"; "Ion"; "annihil"]%string.

Definition is_nil {A} (l : list A) : bool :=
  match l with [] => true | _ => false end.

Definition make_Config (p : ParameterSet) : Config :=
  let keepEM := default true (p_keepEMShowerDaughters p) in
  let given := default [] (p_NotStoredPhysics p) in
  let customNotStored := negb (is_nil given) in
  mkConfig
    (default (0 * CLHEP.GeV)%float (p_EnergyCut p))
    (default true (p_storeTrajectories p))
    (default [] (p_keepGenTrajectories p))
    keepEM
    (if negb keepEM && negb customNotStored then default_NotStoredPhysics else given)
    (default false (p_keepOnlyPrimaryFullTrajectories p))
    (default false (p_SparsifyTrajectories p))
    (default 0x1.eb851eb851eb8p-7%float (p_SparsifyMargin p))
    (default false (p_KeepTransportation p))
    (default false (p_KeepSecondToLast p))
    (default false (p_StoreDroppedMCParticles p)).

(** The members without an initialiser in the constructor start from
    whatever [fCurrentTrackID0] and [fTrackIDOffset0] are; the truth
    handles are attached afterwards with [set_fMCLists]. *)
Definition ParticleListActionService (p : ParameterSet)
    (fCurrentTrackID0 fTrackIDOffset0 : Z) : State :=
  let c := make_Config p in
  mkState c [] [] ParticleInfo_clear PList.empty ∅ ∅ ∅ ∅
    fCurrentTrackID0 fTrackIDOffset0 ∅ ∅
    (if negb (fKeepEMShowerDaughters c)
     then foldl (λ m i, emplace i 0 m) ∅ (fNotStoredPhysics c) else ∅)
    ∅
    (if fStoreDroppedMCParticles c then Some PList.empty else None)
    None None None None.

(** ** [beginOfEventAction] (lines 135-212) *)

(** Whether trajectory points are storable for a generator label
    (lines 178-194). *)
Definition keepGen (c : Config) (generator_name : string) : bool :=
  let customKeepTraj := negb (is_nil (fkeepGenTrajectories c)) in
  if fstoreTrajectories c then
    if negb customKeepTraj then true
    else existsb (String.eqb generator_name) (fkeepGenTrajectories c)
  else false.

(** The loop over [fMCLists], from index [mcti] on. *)
Fixpoint build_generator_map (c : Config) (mcti : N) (handles : list MCListHandle)
    (m : gmap N (string * bool)) : gmap N (string * bool) :=
  match handles with
  | [] => m
  | h :: rest =>
      build_generator_map c (mcti + 1)%N rest
        (emplace mcti (label h, keepGen c (label h)) m)
  end.

Definition beginOfEventAction (s : State) : State :=
  let s := set_fCurrentParticle ParticleInfo_clear s in
  let s := set_fParticleList PList.empty s in
  let s := set_fParentIDMap ∅ s in
  let s := set_fTargetIDMap ∅ s in
  let s := set_fMCTIndexMap ∅ s in
  let s := set_fMCTPrimProcessKeepMap ∅ s in
  let s := set_fCurrentTrackID NoParticleId s in
  let s := set_fTrackIDOffset 0 s in
  let s := set_fPrimaryTruthMap ∅ s in
  let s := set_fMCTIndexToGeneratorMap ∅ s in
  let s := set_fNotStoredCounterUMap ∅ s in
  let s := set_fdroppedTracksMap ∅ s in
  let s := set_fdroppedParticleList
             ((λ _, PList.empty) <$> fdroppedParticleList s) s in
  set_fMCTIndexToGeneratorMap
    (build_generator_map (config s) 0 (fMCLists s) ∅) s.

(** ** [GetParentage] (lines 219-234) *)

(** The [while] loop: [itr] is [fParentIDMap.find(key)]; each turn stores
    the mapped parent and looks that parent up.  [fuel] bounds the turns;
    [None] stands for a loop that is still running when it is used up. *)
Fixpoint GetParentage_loop (fuel : nat) (m : gmap Z Z) (key parentid : Z) : option Z :=
  match fuel with
  | O => None
  | S fuel =>
      match m !! key with
      | None => Some parentid
      | Some second => GetParentage_loop fuel m second second
      end
  end.

(** The walk terminates with [r] when some number of turns is enough. *)
Definition GetParentage_terminates (m : gmap Z Z) (trackid r : Z) : Prop :=
  ∃ fuel, GetParentage_loop fuel m trackid NoParticleId = Some r.

(** A walk that comes back visits each key of the map at most once, so
    [size m + 1] turns decide it; a walk that needs more never ends. *)
Definition GetParentage (trackid : Z) (s : State) : Outcome Z :=
  match GetParentage_loop (S (size (fParentIDMap s))) (fParentIDMap s)
          trackid NoParticleId with
  | Some parentid => Returned parentid s
  | None => Diverges
  end.

(** ** [preUserTrackingAction] (lines 238-448) *)

(** Lines 286-303: the process label of a track with primary provenance
    and whether it counts as coming from the "primary" process. *)
Definition primary_process_name (mct_primary_process : string) : string * bool :=
  if String.eqb mct_primary_process "primary" then ("primary"%string, true)
  else if string_find_at_0 "primary" mct_primary_process
       then (mct_primary_process, false)
       else ("primary"%string, true).

(** [fdroppedTracksMap[ancestor].insert(trackID)]. *)
Definition insert_dropped (ancestor trackID : Z) (m : gmap Z (gset Z)) : gmap Z (gset Z) :=
  <[ancestor := {[trackID]} ∪ default ∅ (m !! ancestor)]> m.

(** Lines 328-331: one more rejection for the matched process. *)
Definition count_NotStored (p : string) (m : gmap string Z) : gmap string Z :=
  <[p := wrap32 (default 0 (m !! p) + 1)]> m.

(** Lines 322-355: the process-exclusion filter; the result is
    [notstore]. *)
Definition processExclusion (trackID parentID : Z) (process_name : string)
    (s : State) : Outcome bool :=
  if negb (fKeepEMShowerDaughters (config s)) then
    match List.find (λ p, string_contains p process_name)
            (fNotStoredPhysics (config s)) with
    | Some p =>
        let s := set_fNotStoredCounterUMap
                   (count_NotStored p (fNotStoredCounterUMap s)) s in
        let s := set_fParentIDMap (<[trackID := parentID]> (fParentIDMap s)) s in
        bind (GetParentage trackID s) (λ ancestor s,
          let s := set_fCurrentTrackID (wrap32 (-1 * ancestor)) s in
          let s := if negb (PList.KnownParticle (fParticleList s) (fCurrentTrackID s))
                   then set_fCurrentTrackID NoParticleId s else s in
          let s := set_fTargetIDMap
                     (<[trackID := fCurrentTrackID s]> (fTargetIDMap s)) s in
          bind (GetParentage trackID s) (λ ancestor s,
            Returned true
              (set_fdroppedTracksMap
                 (insert_dropped ancestor trackID (fdroppedTracksMap s)) s)))
    | None => Returned false s
    end
  else Returned false s.

(** Lines 361-368: the branch taken by a track under the energy cut. *)
Definition energyCutDrop (trackID parentID : Z) (s : State) : Outcome unit :=
  bind (GetParentage trackID s) (λ ancestor s,
    let s := set_fdroppedTracksMap
               (insert_dropped ancestor trackID (fdroppedTracksMap s)) s in
    let s := set_fCurrentParticle ParticleInfo_clear s in
    let s := set_fParentIDMap (<[trackID := parentID]> (fParentIDMap s)) s in
    bind (GetParentage trackID s) (λ ancestor s,
      let s := set_fCurrentTrackID (wrap32 (-1 * ancestor)) s in
      let s := set_fTargetIDMap
                 (<[trackID := fCurrentTrackID s]> (fTargetIDMap s)) s in
      Returned tt s)).

(** [fdroppedParticleList && fdroppedParticleList->KnownParticle(id)]. *)
Definition droppedKnown (s : State) (id : Z) : bool :=
  match fdroppedParticleList s with
  | Some dl => PList.KnownParticle dl id
  | None => false
  end.

(** Lines 375-393: the parent that the record will name. *)
Definition resolveParent (trackID parentID : Z) (s : State) : Outcome Z :=
  if negb (PList.KnownParticle (fParticleList s) parentID)
     && negb (droppedKnown s parentID) then
    let s := set_fParentIDMap (<[trackID := parentID]> (fParentIDMap s)) s in
    bind (GetParentage parentID s) (λ pid s,
      if negb (PList.KnownParticle (fParticleList s) pid)
         && negb (droppedKnown s parentID)
      then Returned parentID s
      else Returned pid s)
  else Returned parentID s.

(** Lines 423-432: the conditional chain; the generator map is only
    subscripted when trajectories are stored at all. *)
Definition decide_keepFullTrajectory (primarymctIndex : N)
    (isFromMCTProcessPrimary : bool) (s : State) : bool * State :=
  if negb (fstoreTrajectories (config s)) then (false, s)
  else
    let '(gen, m) := subscript (EmptyString, false) primarymctIndex
                       (fMCTIndexToGeneratorMap s) in
    let s := set_fMCTIndexToGeneratorMap m s in
    if negb (snd gen) then (false, s)
    else if negb (fkeepOnlyPrimaryFullTraj (config s)) then (true, s)
    else if isFromMCTProcessPrimary then (true, s)
    else (false, s).

(** Lines 409-447: the record is created and, unless the proper time is
    nonzero, put into the dropped or the retained list. *)
Definition createParticle (track : G4Track) (trackID pdgCode : Z)
    (process_name : string) (parentID : Z) (primaryIndex primarymctIndex : N)
    (isFromMCTProcessPrimary notstore : bool) (s : State) : Outcome unit :=
  let mass := (GetMass track / CLHEP.GeV)%float in
  let s := set_fCurrentParticle ParticleInfo_clear s in
  let '(p, s) := allocate (new_MCParticle trackID pdgCode process_name parentID mass) s in
  let s := set_fCurrentParticle
             (mkParticleInfo (Some p) (keepFullTrajectory (fCurrentParticle s))
                primaryIndex) s in
  let s := set_fMCTIndexMap (<[trackID := primarymctIndex]> (fMCTIndexMap s)) s in
  let s := set_fMCTPrimProcessKeepMap
             (<[trackID := isFromMCTProcessPrimary]> (fMCTPrimProcessKeepMap s)) s in
  let '(keep, s) := decide_keepFullTrajectory primarymctIndex isFromMCTProcessPrimary s in
  let s := set_fCurrentParticle
             (mkParticleInfo (particle (fCurrentParticle s)) keep
                (truthIndex (fCurrentParticle s))) s in
  let polarization := GetPolarization track in
  let s := through p (SetPolarization
             (mkTVector3 (x polarization) (y polarization) (z polarization))) s in
  if negb (GetProperTime track =? 0)%float then Returned tt s
  else if notstore then
    Returned tt
      (set_fdroppedParticleList (PList.Add trackID p <$> fdroppedParticleList s) s)
  else Returned tt (set_fParticleList (PList.Add trackID p (fParticleList s)) s).

(** Lines 321-406: a track that no [G4PrimaryParticle] stands behind. *)
Definition admitSecondary (track : G4Track) (trackID parentID pdgCode : Z)
    (process_name : string) (s : State) : Outcome unit :=
  bind (processExclusion trackID parentID process_name s) (λ notstore s,
    let energy := GetKineticEnergy track in
    if (energy <? fenergyCut (config s))%float && negb (pdgCode =? 0) then
      energyCutDrop trackID parentID s
    else
      bind (resolveParent trackID parentID s) (λ parentID s,
        match fMCTIndexMap s !! parentID with
        | Some primarymctIndex =>
            let '(isFromMCTProcessPrimary, m) :=
              subscript false parentID (fMCTPrimProcessKeepMap s) in
            let s := set_fMCTPrimProcessKeepMap m s in
            createParticle track trackID pdgCode process_name parentID
              NoGeneratedParticleIndex primarymctIndex isFromMCTProcessPrimary
              notstore s
        | None => Thrown (LogicError_MCTIndex parentID) s
        end)).

Definition preUserTrackingAction (track : G4Track) (s : State) : Outcome unit :=
  let pdgCode := GetPDGEncoding track in
  let trackID := wrap32 (GetTrackID track + fTrackIDOffset s) in
  let s := set_fCurrentTrackID trackID s in
  let s := set_fTargetIDMap (<[trackID := fCurrentTrackID s]> (fTargetIDMap s)) s in
  let parentID := wrap32 (GetParentID track + fTrackIDOffset s) in
  match GetPrimaryParticle track with
  | Some primaryParticle =>
      match GetUserInformation primaryParticle with
      | Some ppi =>
          let '(process_name, isFromMCTProcessPrimary) :=
            primary_process_name (GetMCParticle_Process ppi) in
          createParticle track trackID pdgCode process_name 0
            (MCParticleIndex ppi) (MCTruthIndex ppi) isFromMCTProcessPrimary
            false s
      | None =>
          createParticle track trackID pdgCode "unknown" parentID
            NoGeneratedParticleIndex 0 false false s
      end
  | None =>
      match GetCreatorProcess track with
      | Some process_name =>
          admitSecondary track trackID parentID pdgCode process_name s
      | None => Aborted NullDereference s
      end
  end.

(** ** [AddPointToCurrentParticle] (lines 729-735) *)

Definition AddPointToCurrentParticle (p : ptr) (pos mom : TLorentzVector)
    (process : string) (s : State) : State :=
  through p (AddTrajectoryPoint pos mom process (fKeepTransportation (config s))) s.

(** The sample of a step point in cm, ns and GeV. *)
Definition fourPos (pt : G4StepPoint) : TLorentzVector :=
  let position := GetPosition pt in
  mkTLorentzVector (x position / CLHEP.cm) (y position / CLHEP.cm)
    (z position / CLHEP.cm) (GetGlobalTime pt / CLHEP.ns).

Definition fourMom (pt : G4StepPoint) : TLorentzVector :=
  let momentum := GetMomentum pt in
  mkTLorentzVector (x momentum / CLHEP.GeV) (y momentum / CLHEP.GeV)
    (z momentum / CLHEP.GeV) (GetTotalEnergy pt / CLHEP.GeV).

(** ** [userSteppingAction] (lines 522-611) *)

(** Lines 532-541: the time of the post-step point is rewritten in place
    for a zero-code track whose two velocities disagree by more than
    0.0001 (the literal below is that [double]). *)
Definition fix_step_time (trk : G4Track) : G4Track :=
  let step := GetStep trk in
  let globalTime := GetTrackGlobalTime trk in
  let velocity_G4 := GetVelocity trk in
  let velocity_step := (GetStepLength step / GetDeltaTime step)%float in
  if (GetPDGEncoding trk =? 0)
     && (0x1.a36e2eb1c432dp-14 <? abs (velocity_G4 - velocity_step))%float
  then
    SetStep
      (mkG4Step (GetPreStepPoint step)
         (SetGlobalTime
            (globalTime - GetDeltaTime step + GetStepLength step / velocity_G4)%float
            (GetPostStepPoint step))
         (GetStepLength step) (GetDeltaTime step)) trk
  else trk.

(** The step is given by its track; the track returned carries the step
    as the call leaves it. *)
Definition userSteppingAction (trk : G4Track) (s : State) : Outcome G4Track :=
  match particle (fCurrentParticle s),
        GetProcessDefinedStep (GetPostStepPoint (GetStep trk)) with
  | Some p, Some process =>
      let trk := fix_step_time trk in
      let step := GetStep trk in
      match deref p s with
      | None => Aborted NullDereference s
      | Some rec =>
          let s := if (NumberTrajectoryPoints rec =? 0)%nat
                   then AddPointToCurrentParticle p
                          (fourPos (GetPreStepPoint step))
                          (fourMom (GetPreStepPoint step)) "Start" s
                   else s in
          let ignoreProcess := string_contains "StepLimiter" process in
          let s := if negb ignoreProcess && keepFullTrajectory (fCurrentParticle s)
                   then AddPointToCurrentParticle p
                          (fourPos (GetPostStepPoint step))
                          (fourMom (GetPostStepPoint step)) process s
                   else s in
          Returned trk s
      end
  | _, _ => Returned trk s
  end.

(** ** [postUserTrackingAction] (lines 451-518) *)

Section Sparsify.

(** [simb::MCTrajectory::Sparsify(margin, keep_second_to_last)]
    (nusimdata): a geometric reduction of the point list. *)
Variable Sparsify : float -> bool -> list TrajectoryPoint -> list TrajectoryPoint.

Definition SparsifyTrajectory (margin : float) (keep_second_to_last : bool)
    (p : MCParticle) : MCParticle :=
  SetTrajectory (Sparsify margin keep_second_to_last (Trajectory p)) p.

(** Lines 512-515. *)
Definition storeTruthRecord (p : ptr) (s : State) : Outcome unit :=
  if isPrimary (fCurrentParticle s) then
    match deref p s with
    | Some rec =>
        Returned tt
          (set_fPrimaryTruthMap
             (<[TrackId rec := truthInfoIndex (fCurrentParticle s)]>
                (fPrimaryTruthMap s)) s)
    | None => Aborted NullDereference s
    end
  else Returned tt s.

(** Lines 460-477: the track ended on a step that no process defined. *)
Definition discardCurrentParticle (p : ptr) (rec : MCParticle) (s : State) : State :=
  let key_to_erase := TrackId rec in
  let s := set_fParticleList (PList.erase key_to_erase (fParticleList s)) s in
  let s := if negb (keepFullTrajectory (fCurrentParticle s))
           then set_fdroppedParticleList
                  (PList.Archive (TrackId rec) (Mother rec) <$> fdroppedParticleList s) s
           else s in
  set_fCurrentParticle ParticleInfo_clear s.

Definition postUserTrackingAction (aTrack : option G4Track) (s : State) : Outcome unit :=
  match particle (fCurrentParticle s) with
  | None => Returned tt s
  | Some p =>
      match aTrack with
      | Some aTrack =>
          match deref p s with
          | None => Aborted NullDereference s
          | Some _ =>
              let s := through p (SetWeight (GetWeight aTrack)) s in
              let postStepPoint := GetPostStepPoint (GetStep aTrack) in
              match GetProcessDefinedStep postStepPoint, deref p s with
              | _, None => Aborted NullDereference s
              | None, Some rec => Returned tt (discardCurrentParticle p rec s)
              | Some process, Some _ =>
                  let s := through p (SetEndProcess process) s in
                  let s :=
                    if negb (keepFullTrajectory (fCurrentParticle s)) then
                      AddPointToCurrentParticle p (fourPos postStepPoint)
                        (fourMom postStepPoint) process s
                    else if fSparsifyTrajectories (config s) then
                      through p (SparsifyTrajectory (fSparsifyMargin (config s))
                                   (fKeepSecondToLast (config s))) s
                    else s in
                  storeTruthRecord p s
              end
          end
      | None => storeTruthRecord p s
      end
  end.

End Sparsify.

(** ** [UpdateDaughterInformation] (lines 616-655) *)

(** [particleList->GetMotherOf(id)]: the parent recorded by the live
    particle, or by the archive when the entry is archived. *)
Definition GetMotherOf (pl : ParticleList) (particleID : Z) (s : State) : option Z :=
  match PList.find particleID pl with
  | Some (Some p) => Mother <$> deref p s
  | Some None => m_archive pl !! wrap32 (Z.abs particleID)
  | None => None
  end.

Definition UpdateDaughterInformation (particleID : Z) (s : State) : Outcome unit :=
  match GetMotherOf (fParticleList s) particleID s with
  | None => Thrown std_out_of_range s
  | Some parentID =>
      if parentID <=? 0 then Returned tt s
      else
        match PList.find parentID (fParticleList s) with
        | None => Returned tt s
        | Some None => Returned tt s
        | Some (Some parent) => Returned tt (through parent (AddDaughter particleID) s)
        end
  end.

(** [std::for_each] over a key list. *)
Fixpoint for_each {K} (f : K -> State -> Outcome unit) (l : list K) (s : State) : Outcome unit :=
  match l with
  | [] => Returned tt s
  | k :: rest => bind (f k s) (λ _ s, for_each f rest s)
  end.

(** ** [GetPrimaryTruthIndex] (lines 658-662) *)

Definition GetPrimaryTruthIndex (trackId : Z) (s : State) : N :=
  default NoGeneratedParticleIndex (fPrimaryTruthMap s !! trackId).

(** ** [YieldList] and [YieldDroppedList] (lines 666-720) *)

(** The scan for the highest key of a list, from a starting value. *)
Definition highest (pl : ParticleList) (highestID : Z) : Z :=
  foldl (λ h k, if h <? k then k else h) highestID (PList.keys pl).

Definition YieldList (s : State) : Outcome ParticleList :=
  let highestID := highest (fParticleList s) 0 in
  let highestID :=
    match fdroppedParticleList s with
    | Some dl => highest dl highestID
    | None => highestID
    end in
  let s := if negb (PList.size (fParticleList s) =? 0)%nat
           then set_fTrackIDOffset (wrap32 (highestID + 1)) s else s in
  Returned (fParticleList s) s.

Definition YieldDroppedList (s : State) : Outcome ParticleList :=
  match fdroppedParticleList s with
  | None => Thrown cet_exception_ParticleListAction s
  | Some dl =>
      let highestID := highest (fParticleList s) 0 in
      let highestID := highest dl highestID in
      let s := if negb (PList.size (fParticleList s) =? 0)%nat
               then set_fTrackIDOffset (wrap32 (highestID + 1)) s else s in
      Returned dl s
  end.

(** ** [isDropped] (lines 724-727) *)

Definition isDropped (p : option MCParticle) : bool :=
  match p with
  | None => true
  | Some rec => is_nil (Trajectory rec)
  end.

(** ** [endOfEventAction] (lines 739-818) *)

(** Lines 778-800: one entry of the yielded list against the truth record
    counted [nMCTruths].  [nGeneratedParticles] only feeds a log line. *)
Definition collectParticle (mcl m : nat) (nMCTruths : N) (entry : Z * option ptr)
    (s : State) : Outcome unit :=
  match entry.2 ≫= (λ p, deref p s) with
  | None => Aborted NullDereference s
  | Some rec =>
      let '(gen_index, im) := subscript 0%N (TrackId rec) (fMCTIndexMap s) in
      let s := set_fMCTIndexMap im s in
      if negb (gen_index =? nMCTruths)%N then Returned tt s
      else if (NumberTrajectoryPoints rec =? 0)%nat then Aborted AssertionFailed s
      else
        let truthInfo := GetPrimaryTruthIndex (TrackId rec) s in
        if negb (isGeneratedParticleIndex truthInfo) && (Mother rec =? 0)
        then Thrown (LogicError_PrimaryMatch mcl) s
        else
          let col := default [] (partCol_ s) ++ [rec] in
          let s := set_partCol_ (Some col) s in
          Returned tt
            (set_tpassn_
               (Some (default [] (tpassn_ s)
                      ++ [mkAssn mcl m (length col - 1) truthInfo])) s)
  end.

(** Lines 802-810: one entry of the yielded dropped list. *)
Definition collectDropped (origin : Z) (entry : Z * option ptr) (s : State) : Outcome unit :=
  match entry.2 with
  | None => Returned tt s
  | Some p =>
      match deref p s with
      | None => Aborted NullDereference s
      | Some rec =>
          if isDropped (Some rec) then Returned tt s
          else if negb (StatusCode rec =? 1) then Returned tt s
          else
            Returned tt
              (set_droppedPartCol_
                 (Some (default [] (droppedPartCol_ s)
                        ++ [mkMCParticleLite (TrackId rec) (PdgCode rec) origin])) s)
      end
  end.

(** Lines 775-815: the truth records of one handle, from position [m]. *)
Fixpoint truths_loop (mcl m : nat) (ts : list MCTruth)
    (particleList droppedParticleList : list (Z * option ptr)) (nMCTruths : N)
    (s : State) : Outcome N :=
  match ts with
  | [] => Returned nMCTruths s
  | mct :: rest =>
      bind (for_each (collectParticle mcl m nMCTruths) particleList s) (λ _ s,
      bind (if fStoreDroppedMCParticles (config s)
               && bool_decide (is_Some (droppedPartCol_ s))
            then for_each (collectDropped (Origin mct)) droppedParticleList s
            else Returned tt s) (λ _ s,
        let s := set_droppedCol_ (Some (fdroppedTracksMap s)) s in
        truths_loop mcl (S m) rest particleList droppedParticleList
          ((nMCTruths + 1) mod 2 ^ 32)%N s))
  end.

(** Lines 772-816: the handles, from position [mcl]. *)
Fixpoint handles_loop (mcl : nat) (hs : list MCListHandle)
    (particleList droppedParticleList : list (Z * option ptr)) (nMCTruths : N)
    (s : State) : Outcome N :=
  match hs with
  | [] => Returned nMCTruths s
  | h :: rest =>
      bind (truths_loop mcl 0 (truths h) particleList droppedParticleList nMCTruths s)
        (λ nMCTruths s,
           handles_loop (S mcl) rest particleList droppedParticleList nMCTruths s)
  end.

(** The two lists are moved out of the service by the caller of
    [YieldList] and [YieldDroppedList], which leaves the members empty. *)
Definition endOfEventAction (s : State) : Outcome unit :=
  let s := set_partCol_ (Some []) s in
  let s := set_droppedCol_ (Some ∅) s in
  let s := set_droppedPartCol_ (Some []) s in
  let s := set_tpassn_ (Some []) s in
  bind (for_each UpdateDaughterInformation (PList.keys (fParticleList s)) s) (λ _ s,
  bind (YieldList s) (λ particleList s,
    let s := set_fParticleList PList.empty s in
    bind (match fdroppedParticleList s with
          | Some _ =>
              bind (YieldDroppedList s) (λ droppedParticleList s,
                Returned droppedParticleList
                  (set_fdroppedParticleList (Some PList.empty) s))
          | None => Returned PList.empty s
          end) (λ droppedParticleList s,
      bind (handles_loop 0 (fMCLists s) (PList.entries particleList)
              (PList.entries droppedParticleList) 0 s) (λ _ s,
        Returned tt (set_fTrackIDOffset 0 s))))).

(** ** The engine's call protocol

    The transport engine calls [preUserTrackingAction] when a track is
    created, [userSteppingAction] after each of its steps and
    [postUserTrackingAction] when it ends, on the track as the last step
    left it; an event is [beginOfEventAction], its tracks in order of
    creation, and [endOfEventAction]. *)

Fixpoint stepping (steps : list G4Track) (last : G4Track) (s : State) : Outcome G4Track :=
  match steps with
  | [] => Returned last s
  | trk :: rest => bind (userSteppingAction trk s) (λ trk s, stepping rest trk s)
  end.

Section Protocol.

Variable Sparsify : float -> bool -> list TrajectoryPoint -> list TrajectoryPoint.

Definition processOneTrack (track : G4Track * list G4Track) (s : State) : Outcome unit :=
  bind (preUserTrackingAction track.1 s) (λ _ s,
  bind (stepping track.2 track.1 s) (λ last s,
    postUserTrackingAction Sparsify (Some last) s)).

Definition processEvent (tracks : list (G4Track * list G4Track)) (s : State) : Outcome unit :=
  bind (for_each processOneTrack tracks (beginOfEventAction s)) (λ _ s,
    endOfEventAction s).

End Protocol.

(** ** Derived notions used in the statements *)

(** The ordered decision for keeping a full trajectory, in the words of
    the specification: storage disabled gives false; else a generator not
    marked storable gives false; else a disabled only-primary policy gives
    true; else the from-primary-process flag decides. *)
Definition keep_chain (store storable onlyPrimary fromPrimary : bool) : bool :=
  if negb store then false
  else if negb storable then false
  else if negb onlyPrimary then true
  else fromPrimary.

(** Whether the Generator Keep-Map marks the generator of truth record
    [mctIndex] as storable; a record it does not list is not. *)
Definition storable (s : State) (mctIndex : N) : bool :=
  snd (default (EmptyString, false) (fMCTIndexToGeneratorMap s !! mctIndex)).

(** The record as [preUserTrackingAction] leaves it in the store. *)
Definition created (track : G4Track) (trackID pdgCode : Z) (process_name : string)
    (parentID : Z) : MCParticle :=
  SetPolarization
    (mkTVector3 (x (GetPolarization track)) (y (GetPolarization track))
       (z (GetPolarization track)))
    (new_MCParticle trackID pdgCode process_name parentID
       (GetMass track / CLHEP.GeV)%float).

(** The walk as [preUserTrackingAction] runs it on a map. *)
Definition parentage (m : gmap Z Z) (trackid : Z) : option Z :=
  GetParentage_loop (S (size m)) m trackid NoParticleId.

(** The identity a process-exclusion drop leaves in [fCurrentTrackID]. *)
Definition excluded_identity (pl : ParticleList) (ancestor : Z) : Z :=
  if negb (PList.KnownParticle pl (wrap32 (-1 * ancestor)))
  then NoParticleId else wrap32 (-1 * ancestor).

(** The state after a process-exclusion drop matched on [p]. *)
Definition excluded_state (trackID parentID ancestor : Z) (p : string) (s : State) : State :=
  set_fdroppedTracksMap (insert_dropped ancestor trackID (fdroppedTracksMap s))
    (set_fTargetIDMap
       (<[trackID := excluded_identity (fParticleList s) ancestor]> (fTargetIDMap s))
       (set_fCurrentTrackID (excluded_identity (fParticleList s) ancestor)
          (set_fParentIDMap (<[trackID := parentID]> (fParentIDMap s))
             (set_fNotStoredCounterUMap
                (count_NotStored p (fNotStoredCounterUMap s)) s)))).

Definition excluded_by (c : Config) (process_name : string) : option string :=
  if negb (fKeepEMShowerDaughters c)
  then List.find (λ p, string_contains p process_name) (fNotStoredPhysics c)
  else None.

(** The state after an energy-cut drop: [a0] is the walk before the
    track is entered in [fParentIDMap], [a] the walk after. *)
Definition cut_state (trackID parentID a0 a : Z) (s : State) : State :=
  set_fTargetIDMap (<[trackID := wrap32 (-1 * a)]> (fTargetIDMap s))
    (set_fCurrentTrackID (wrap32 (-1 * a))
       (set_fParentIDMap (<[trackID := parentID]> (fParentIDMap s))
          (set_fCurrentParticle ParticleInfo_clear
             (set_fdroppedTracksMap
                (insert_dropped a0 trackID (fdroppedTracksMap s)) s)))).


(** The IDs of lines 248 and 252, after the offset. *)
Definition trackID_of (track : G4Track) (s : State) : Z :=
  wrap32 (GetTrackID track + fTrackIDOffset s).

Definition parentID_of (track : G4Track) (s : State) : Z :=
  wrap32 (GetParentID track + fTrackIDOffset s).

(** The state after lines 248-252. *)
Definition entered (track : G4Track) (s : State) : State :=
  set_fTargetIDMap (<[trackID_of track s := trackID_of track s]> (fTargetIDMap s))
    (set_fCurrentTrackID (trackID_of track s) s).

(** The test of line 360. *)
Definition below_energyCut (track : G4Track) (s : State) : bool :=
  (GetKineticEnergy track <? fenergyCut (config s))%float
  && negb (GetPDGEncoding track =? 0).

(** The track is one that the energy cut drops: no primary particle
    stands behind it and the test of line 360 holds. *)
Definition cut_by_energy (track : G4Track) (s : State) : Prop :=
  GetPrimaryParticle track = None ∧ below_energyCut track s = true.

(** What the filters and the parent resolution of an admission leave
    untouched: the store, both lists, the slot, the offset and the truth
    maps; the primary-process map only gains entries. *)
Definition admission_frame (s s1 : State) : Prop :=
  config s1 = config s ∧ fMCLists s1 = fMCLists s ∧ heap s1 = heap s
  ∧ fCurrentParticle s1 = fCurrentParticle s
  ∧ fParticleList s1 = fParticleList s
  ∧ fdroppedParticleList s1 = fdroppedParticleList s
  ∧ fTrackIDOffset s1 = fTrackIDOffset s
  ∧ fMCTIndexMap s1 = fMCTIndexMap s
  ∧ fMCTIndexToGeneratorMap s1 = fMCTIndexToGeneratorMap s
  ∧ fPrimaryTruthMap s1 = fPrimaryTruthMap s
  ∧ fMCTPrimProcessKeepMap s ⊆ fMCTPrimProcessKeepMap s1.

(** ** Sample inputs *)

Definition zero3 : G4ThreeVector := mkG4ThreeVector 0 0 0.

(** A step point at the origin, on a step defined by [process]. *)
Definition point (process : option string) : G4StepPoint :=
  mkG4StepPoint process zero3 0 zero3 0.

Definition a_step (process : option string) : G4Step :=
  mkG4Step (point None) (point process) 1 1.

(** An electron seeded from truth record 0, generated particle 0, with
    generator process [label]; no step taken yet. *)
Definition primary_track (id : Z) (label : string) (energy : float) : G4Track :=
  mkG4Track id 0 11
    (Some (mkG4PrimaryParticle (Some (mkPrimaryParticleInformation 0 0 label))))
    None 0x1p-1 energy zero3 0 1 0 1 (a_step None).

(** A track made by [process] from the track [parent]. *)
Definition secondary_track (id parent pdg : Z) (process : string) (energy : float) : G4Track :=
  mkG4Track id parent pdg None (Some process) 0x1p-1 energy zero3 0 1 0 1 (a_step None).

(** The track as its step leaves it. *)
Definition after_step (process : option string) (t : G4Track) : G4Track :=
  SetStep (a_step process) t.

Definition default_parameters : ParameterSet :=
  mkParameterSet None None None None None None None None None None None.

(** One generator with one truth record. *)
Definition one_generator : list MCListHandle :=
  [mkMCListHandle "generator" [mkMCTruth 1 0]].

(** A service configured by [p], at the start of an event. *)
Definition new_event (p : ParameterSet) : State :=
  beginOfEventAction (set_fMCLists one_generator (ParticleListActionService p 0 0)).

(** A stand-in for the trajectory reduction. *)
Definition keep_all_points (margin : float) (keep_second_to_last : bool)
    (t : list TrajectoryPoint) : list TrajectoryPoint := t.

(** The state a call leaves, or [s] when it does not come back. *)
Definition state_after {A} (o : Outcome A) (s : State) : State :=
  default s (final_state o).

(** Dropped particles are kept and no trajectory is stored. *)
Definition store_dropped_no_trajectories : ParameterSet :=
  mkParameterSet None (Some false) None None None None None None None None
    (Some true).

(** An energy cut of 1 (in the engine's unit). *)
Definition energy_cut_1 : ParameterSet :=
  mkParameterSet (Some 1%float) None None None None None None None None None
    None.

(** Shower daughters are filtered with the built-in process list. *)
Definition no_shower_daughters : ParameterSet :=
  mkParameterSet None None None (Some false) None None None None None None
    None.

(** A freshly constructed service with its truth handles attached. *)
Definition service (p : ParameterSet) : State :=
  set_fMCLists one_generator (ParticleListActionService p 0 0).

(** An event of one primary track with ID 1 that takes one step. *)
Definition one_primary : list (G4Track * list G4Track) :=
  [(primary_track 1 "primary" 1,
    [after_step (Some "Transportation"%string) (primary_track 1 "primary" 1)])].

(** No trajectory is stored beyond the start and the end. *)
Definition no_trajectories : ParameterSet :=
  mkParameterSet None (Some false) None None None None None None None None
    None.

(** A primary track 1 that takes two steps, and its daughter 2 that takes
    one. *)
Definition two_tracks : list (G4Track * list G4Track) :=
  [(primary_track 1 "primary" 1,
    [after_step (Some "eIoni"%string) (primary_track 1 "primary" 1);
     after_step (Some "Transportation"%string) (primary_track 1 "primary" 1)]);
   (secondary_track 2 1 11 "eIoni" 1,
    [after_step (Some "eIoni"%string) (secondary_track 2 1 11 "eIoni" 1)])].

(** [M] is the highest ID that the scans of [YieldList] and
    [YieldDroppedList] arrive at over [ids], starting from 0: no ID
    exceeds it, and it is one of the IDs unless all of them are
    negative, when it is 0. *)
Definition highest_of (ids : list Z) (M : Z) : Prop :=
  (∀ k, k ∈ ids -> k <= M)
  ∧ (M ∈ ids ∨ (M = 0 ∧ ∀ k, k ∈ ids -> k < 0)).

(** The same track with another kinetic energy. *)
Definition SetKineticEnergy (e : float) (t : G4Track) : G4Track :=
  mkG4Track (GetTrackID t) (GetParentID t) (GetPDGEncoding t)
    (GetPrimaryParticle t) (GetCreatorProcess t) (GetMass t) e
    (GetPolarization t) (GetProperTime t) (GetWeight t)
    (GetTrackGlobalTime t) (GetVelocity t) (GetStep t).

(** The parent ID that line 397 looks up for a track made by
    [process_name], and the state at that point: the process-exclusion
    filter followed by the parent resolution. *)
Definition resolvedParent (process_name : string) (track : G4Track) (s : State) : Outcome Z :=
  bind (processExclusion (trackID_of track s) (parentID_of track s) process_name
          (entered track s))
    (λ _ s1, resolveParent (trackID_of track s) (parentID_of track s) s1).

(** What no hook between the start and the end of an event changes: the
    configuration, the truth handles and the track-ID offset. *)
Definition session_frame (s s' : State) : Prop :=
  config s' = config s ∧ fMCLists s' = fMCLists s
  ∧ fTrackIDOffset s' = fTrackIDOffset s.

(** The IDs scanned by [YieldList]: the retained list and, when it
    exists, the dropped list. *)
Definition yielded_ids (s : State) : list Z :=
  PList.keys (fParticleList s)
  ++ match fdroppedParticleList s with
     | Some dl => PList.keys dl
     | None => []
     end.

(** Admission in causal order as the parent-substitution map sees it:
    every entry maps a track to a strictly smaller ID. *)
Definition causal (m : gmap Z Z) : Prop :=
  ∀ k v, m !! k = Some v -> v < k.

(** [y] leads to [z] along the entries of the map. *)
Inductive reaches (m : gmap Z Z) : Z -> Z -> Prop :=
| reaches_here y : reaches m y y
| reaches_next y w z : m !! y = Some w -> reaches m w z -> reaches m y z.

(** The track that [userSteppingAction] hands back: the post-step time
    is only rewritten on a step that a process defined. *)
Definition step_result (trk : G4Track) : G4Track :=
  match GetProcessDefinedStep (GetPostStepPoint (GetStep trk)) with
  | Some _ => fix_step_time trk
  | None => trk
  end.

(** What [userSteppingAction] does to the record of the active particle
    (lines 548-610). *)
Definition stepped (c : Config) (keep : bool) (trk : G4Track) (rec : MCParticle) : MCParticle :=
  match GetProcessDefinedStep (GetPostStepPoint (GetStep trk)) with
  | None => rec
  | Some process =>
      let step := GetStep (fix_step_time trk) in
      let rec1 :=
        if (NumberTrajectoryPoints rec =? 0)%nat
        then AddTrajectoryPoint (fourPos (GetPreStepPoint step))
               (fourMom (GetPreStepPoint step)) "Start" (fKeepTransportation c) rec
        else rec in
      if negb (string_contains "StepLimiter" process) && keep
      then AddTrajectoryPoint (fourPos (GetPostStepPoint step))
             (fourMom (GetPostStepPoint step)) process (fKeepTransportation c) rec1
      else rec1
  end.

(** The track as the last of [steps] leaves it, [last] when there is
    none. *)
Definition last_step (steps : list G4Track) (last : G4Track) : G4Track :=
  foldl (λ _ trk, step_result trk) last steps.

(** The engine takes at least one step of a track before it ends it,
    unless the step the track starts with is the one it ends on, which no
    process defined. *)
Definition takes_a_step (track : G4Track * list G4Track) : Prop :=
  track.2 ≠ []
  ∨ GetProcessDefinedStep (GetPostStepPoint (GetStep track.1)) = None.

(** The keep-full-trajectory decision for the record of track [k], read
    from the maps. *)
Definition keepFull_of (s : State) (k : Z) : bool :=
  keep_chain (fstoreTrajectories (config s))
    (storable s (default 0%N (fMCTIndexMap s !! k)))
    (fkeepOnlyPrimaryFullTraj (config s))
    (default false (fMCTPrimProcessKeepMap s !! k)).

(** A trajectory of the start point and one end point. *)
Definition start_and_end (rec : MCParticle) : Prop :=
  ∃ a b, Trajectory rec = [a; b] ∧ tp_process a = "Start"%string
         ∧ tp_process b = EndProcess rec.

(** A trajectory of the start point alone. *)
Definition start_only (rec : MCParticle) : Prop :=
  ∃ a, Trajectory rec = [a] ∧ tp_process a = "Start"%string.

(** Every entry of the list [pl] holds a live record under the record's
    own track ID, the truth maps have the track, and a record whose
    keep-full-trajectory decision is false has the start point and one
    end point. *)
Definition records_invariant (pl : ParticleList) (s : State) : Prop :=
  ∀ k op, m_particleList pl !! k = Some op ->
    ∃ p rec, op = Some p ∧ heap s !! p = Some rec ∧ TrackId rec = k
      ∧ is_Some (fMCTIndexMap s !! k)
      ∧ is_Some (fMCTPrimProcessKeepMap s !! k)
      ∧ (keepFull_of s k = false -> start_and_end rec).

Definition retained_invariant (s : State) : Prop :=
  records_invariant (fParticleList s) s.

(** A record of the retained output: it has a sample, and the start
    point and one end point when its keep-full-trajectory decision is
    false. *)
Definition well_sampled (s : State) (rec : MCParticle) : Prop :=
  (1 <= NumberTrajectoryPoints rec)%nat
  ∧ (keepFull_of s (TrackId rec) = false -> start_and_end rec).

(** The engine's tracks of one event: IDs that are [int]s, not negative
    and different from track to track, and at least one step each. *)
Definition engine_tracks (tracks : list (G4Track * list G4Track)) : Prop :=
  NoDup (GetTrackID ∘ fst <$> tracks)
  ∧ Forall (λ t, 0 <= GetTrackID t.1 < 2 ^ 31) tracks
  ∧ Forall takes_a_step tracks.

(** What the loops of [endOfEventAction] keep: the records the list
    points to are sound and every record collected so far is well
    sampled and listed under its track ID. *)
Definition collecting (pl : ParticleList) (s : State) : Prop :=
  records_invariant pl s
  ∧ ∀ rec, rec ∈ default [] (partCol_ s)
           -> well_sampled s rec
              ∧ is_Some (fMCTIndexMap s !! TrackId rec)
              ∧ is_Some (fMCTPrimProcessKeepMap s !! TrackId rec)
              ∧ is_Some (m_particleList pl !! TrackId rec).

Section Ended.

Variable Sparsify : float -> bool -> list TrajectoryPoint -> list TrajectoryPoint.

(** What [postUserTrackingAction] does to the record of the active
    particle on a final step that [process] defined (lines 456-509). *)
Definition ended (c : Config) (keep : bool) (aTrack : G4Track) (process : string)
    (rec : MCParticle) : MCParticle :=
  let postStepPoint := GetPostStepPoint (GetStep aTrack) in
  let rec1 := SetEndProcess process (SetWeight (GetWeight aTrack) rec) in
  if negb keep then
    AddTrajectoryPoint (fourPos postStepPoint) (fourMom postStepPoint) process
      (fKeepTransportation c) rec1
  else if fSparsifyTrajectories c then
    SparsifyTrajectory Sparsify (fSparsifyMargin c) (fKeepSecondToLast c) rec1
  else rec1.

End Ended.

(** Lines 513-515 on the record [rec] of the active particle. *)
Definition truth_recorded (rec : MCParticle) (s : State) : State :=
  if isPrimary (fCurrentParticle s) then
    set_fPrimaryTruthMap
      (<[TrackId rec := truthInfoIndex (fCurrentParticle s)]> (fPrimaryTruthMap s)) s
  else s.

(** ** Steps as [userSteppingAction] sees them *)

(** A step that a process defined. *)
Definition defined_step (trk : G4Track) : bool :=
  match GetProcessDefinedStep (GetPostStepPoint (GetStep trk)) with
  | Some _ => true
  | None => false
  end.

(** The process of a step whose post-step point goes into a full
    trajectory: a process defined the step and its name does not contain
    "StepLimiter" (lines 579-587). *)
Definition recorded_process (trk : G4Track) : option string :=
  match GetProcessDefinedStep (GetPostStepPoint (GetStep trk)) with
  | Some process =>
      if string_contains "StepLimiter" process then None else Some process
  | None => None
  end.

(** ** The loops of [endOfEventAction] *)

(** The truth records of all handles, in the order in which the loops of
    lines 772-775 come to them. *)
Definition all_truths (hs : list MCListHandle) : list MCTruth :=
  flat_map truths hs.

(** The running number of the truth record at position [m] of handle
    [mcl]. *)
Definition truth_number (hs : list MCListHandle) (mcl m : nat) : nat :=
  (length (all_truths (take mcl hs)) + m)%nat.

(** [nMCTruths], an [unsigned int], after [i] increments from 0. *)
Definition truth_counter (i : nat) : N := (N.of_nat i mod 2 ^ 32)%N.

(** The truth index that line 779 reads for a track ID; the subscript
    gives 0 for a track without an entry. *)
Definition truth_index_of (s : State) (trackId : Z) : N :=
  default 0%N (fMCTIndexMap s !! trackId).

(** The records behind the entries of a list, in iteration order; an
    archived entry has none. *)
Definition records_of (pl : ParticleList) (s : State) : list MCParticle :=
  omap (λ entry : Z * option nat, entry.2 ≫= (λ p, deref p s)) (PList.entries pl).

(** A record with its daughter set emptied. *)
Definition without_daughters (p : MCParticle) : MCParticle :=
  mkMCParticle (TrackId p) (PdgCode p) (Process p) (Mother p) (Mass p)
    (StatusCode p) (Weight p) (Polarization p) (EndProcess p) (Trajectory p) ∅.

(** The records that the loop of lines 778-800 takes for the truth record
    with running number [i]. *)
Definition collected_for (s : State) (recs : list MCParticle) (i : nat) : list MCParticle :=
  filter (λ rec, truth_index_of s (TrackId rec) = truth_counter i) recs.

(** The tests of lines 803-804 on a record of the dropped list. *)
Definition kept_dropped (rec : MCParticle) : bool :=
  negb (isDropped (Some rec)) && (StatusCode rec =? 1).

(** The reduced record of lines 806-807: a [sim::MCParticleLite] made
    from the record, with the truth record's origin. *)
Definition lite (origin : Z) (rec : MCParticle) : MCParticleLite :=
  mkMCParticleLite (TrackId rec) (PdgCode rec) origin.

(** What the collecting loops leave as it was. *)
Definition collect_frame (s s' : State) : Prop :=
  heap s' = heap s ∧ config s' = config s ∧ fMCLists s' = fMCLists s
  ∧ fdroppedTracksMap s' = fdroppedTracksMap s
  ∧ fPrimaryTruthMap s' = fPrimaryTruthMap s
  ∧ ∀ trackId, truth_index_of s' trackId = truth_index_of s trackId.

(** An association entry [a] made for the record [rec], read against the
    state [s0] at the start of [endOfEventAction]: it carries the record's
    generated-particle index, which is a real index unless the record has
    a parent, and it names an existing truth record whose running number
    is the record's truth index. *)
Definition association_of (s0 : State) (a : Assn) (rec : MCParticle) : Prop :=
  assn_truthInfo a = GetPrimaryTruthIndex (TrackId rec) s0
  ∧ (isGeneratedParticleIndex (assn_truthInfo a) = true ∨ Mother rec ≠ 0)
  ∧ (∃ h mct, fMCLists s0 !! assn_handle a = Some h
              ∧ truths h !! assn_truth a = Some mct)
  ∧ truth_index_of s0 (TrackId rec)
    = truth_counter (truth_number (fMCLists s0) (assn_handle a) (assn_truth a)).

(** The association list and the particle collection run in step. *)
Definition associated (s0 s : State) : Prop :=
  length (default [] (tpassn_ s)) = length (default [] (partCol_ s))
  ∧ ∀ i a, default [] (tpassn_ s) !! i = Some a ->
      assn_particle a = i
      ∧ ∃ rec, default [] (partCol_ s) !! i = Some rec ∧ association_of s0 a rec.

(** ** Daughters *)

(** Every entry of the list [pl] points to a record that carries the
    entry's key as its track ID; the keys are [int]s that are not
    negative and the parent IDs are [int]s. *)
Definition well_keyed (pl : ParticleList) (s : State) : Prop :=
  ∀ k op, m_particleList pl !! k = Some op ->
    0 <= k < 2 ^ 31
    ∧ ∃ p rec, op = Some p ∧ heap s !! p = Some rec ∧ TrackId rec = k
               ∧ int_range (Mother rec).

(** The track [d] is in the list [pl] with a record that names [k] as
    its parent. *)
Definition daughter_of (pl : ParticleList) (s : State) (k d : Z) : Prop :=
  ∃ q r, m_particleList pl !! d = Some (Some q) ∧ heap s !! q = Some r
         ∧ Mother r = k.

(** ** The tracks of an event *)

(** The process filter drops the track. *)
Definition excluded_track (c : Config) (track : G4Track) : Prop :=
  GetPrimaryParticle track = None
  ∧ ∃ pn, GetCreatorProcess track = Some pn ∧ is_Some (excluded_by c pn).

(** A track whose record enters the retained list and stays there: the
    energy cut and the process filter let it through, its proper time is
    zero and a process defined its final step. *)
Definition retained_track (s : State) (track : G4Track * list G4Track) : Prop :=
  ¬ cut_by_energy track.1 s
  ∧ ¬ excluded_track (config s) track.1
  ∧ (GetProperTime track.1 =? 0)%float = true
  ∧ defined_step (last_step track.2 track.1) = true.

(** A call that comes back, or leaves by a logic error. *)
Definition completes_or_LogicError {A} (o : Outcome A) : Prop :=
  match o with
  | Returned _ _ => True
  | Thrown e _ => is_LogicError e = true
  | Aborted _ _ | Diverges => False
  end.

(** The trajectory reduction leaves a point of a trajectory that has
    one. *)
Definition keeps_a_point
    (Sparsify : float -> bool -> list TrajectoryPoint -> list TrajectoryPoint) : Prop :=
  ∀ margin keep_second_to_last t, t ≠ [] -> Sparsify margin keep_second_to_last t ≠ [].

(** The engine's tracks without a primary particle: each has a creator
    process and a parent ID that is an [int] below its own ID. *)
Definition engine_secondaries (tracks : list (G4Track * list G4Track)) : Prop :=
  Forall (λ t : G4Track * list G4Track,
            GetPrimaryParticle t.1 = None ->
            is_Some (GetCreatorProcess t.1)
            ∧ - 2 ^ 31 <= GetParentID t.1 < GetTrackID t.1) tracks.

(** Every record of the retained list has a trajectory point. *)
Definition sampled (s : State) : Prop :=
  ∀ k q rec, m_particleList (fParticleList s) !! k = Some (Some q) ->
             heap s !! q = Some rec -> Trajectory rec ≠ [].

(** Every live entry of the dropped list points into the store. *)
Definition dropped_valid (s : State) : Prop :=
  ∀ dl k q, fdroppedParticleList s = Some dl ->
            m_particleList dl !! k = Some (Some q) -> (q < length (heap s))%nat.

(** What holds between the tracks of an event; [ids] are the IDs of the
    tracks seen so far. *)
Definition event_invariant (ids : list Z) (s : State) : Prop :=
  retained_invariant s
  ∧ fTrackIDOffset s = 0
  ∧ (∀ k, is_Some (m_particleList (fParticleList s) !! k) -> k ∈ ids)
  ∧ (∀ k, k ∈ ids -> 0 <= k < 2 ^ 31)
  ∧ sampled s ∧ dropped_valid s ∧ causal (fParentIDMap s).

(** The energy cut or the process filter drops the track. *)
Definition dropped_track (s : State) (track : G4Track) : Prop :=
  cut_by_energy track s ∨ excluded_track (config s) track.

(** The track ID [k] is filed in an ancestry map, under some ancestor. *)
Definition filed (m : gmap Z (gset Z)) (k : Z) : Prop :=
  ∃ ancestor ids, m !! ancestor = Some ids ∧ k ∈ ids.

(** ** The rejection counters *)

(** The name of [NotStoredPhysics] that the process filter finds for the
    track (lines 322-334): the first one that occurs in the creator
    process name of a track without a primary particle. *)
Definition matched_name (c : Config) (track : G4Track) : option string :=
  match GetPrimaryParticle track with
  | Some _ => None
  | None => GetCreatorProcess track ≫= excluded_by c
  end.

(** The number of tracks for which the filter finds the name [q]. *)
Definition matches_of (c : Config) (q : string) (tracks : list (G4Track * list G4Track)) : nat :=
  length (filter (λ t : G4Track * list G4Track, matched_name c t.1 = Some q) tracks).

(** The entry of [fNotStoredCounterUMap] after [n] increments of an
    [int] from no entry. *)
Definition counter_of (n : nat) : option Z :=
  if (n =? 0)%nat then None else Some (wrap32 (Z.of_nat n)).

(** ** The order of the retained output *)

(** The record [r1] stands before [r2]: its truth index is smaller, or
    the truth indices are equal and its track ID is smaller. *)
Definition before_in_output (s : State) (r1 r2 : MCParticle) : Prop :=
  (truth_index_of s (TrackId r1) < truth_index_of s (TrackId r2))%N
  ∨ truth_index_of s (TrackId r1) = truth_index_of s (TrackId r2)
    ∧ TrackId r1 < TrackId r2.

(** ** Parents and daughters *)

(** Every parent in the parent map is an [int]. *)
Definition ranged (m : gmap Z Z) : Prop := ∀ k v, m !! k = Some v -> int_range v.

(** The records allocated from position [base] on name a parent that is
    an [int] and have no daughters, the entries of the retained list
    point to such records, and the parent map holds [int]s. *)
Definition genealogy (base : nat) (s : State) : Prop :=
  (∀ q rec, (base <= q)%nat -> heap s !! q = Some rec ->
            int_range (Mother rec) ∧ Daughters rec = ∅)
  ∧ (∀ k q, m_particleList (fParticleList s) !! k = Some (Some q) -> (base <= q)%nat)
  ∧ ranged (fParentIDMap s).

(** ** The truth index of a track *)

(** The truth index that line 401 or lines 283 and 314 give a track
    whose record names the parent [mother], read from the map [m]: the
    [MCTruthIndex] of the track's [PrimaryParticleInformation], 0 for a
    primary particle without one, and the entry of the parent for a track
    without a primary particle. *)
Definition expected_index (track : G4Track) (m : gmap Z N) (mother : Z) : option N :=
  match GetPrimaryParticle track with
  | Some primaryParticle =>
      Some match GetUserInformation primaryParticle with
           | Some ppi => MCTruthIndex ppi
           | None => 0%N
           end
  | None => m !! mother
  end.

(** The truth-index map has entries for the IDs [ids] only, and the
    record of every track of [all] allocated from position [base] on has
    the truth index that [expected_index] gives. *)
Definition inheriting (base : nat) (all : list (G4Track * list G4Track)) (ids : list Z)
    (s : State) : Prop :=
  (∀ k, is_Some (fMCTIndexMap s !! k) -> k ∈ ids)
  ∧ ∀ q rec, (base <= q)%nat -> heap s !! q = Some rec ->
      TrackId rec ∈ ids
      ∧ is_Some (fMCTIndexMap s !! TrackId rec)
      ∧ ∀ t, t ∈ all -> GetTrackID t.1 = TrackId rec ->
             fMCTIndexMap s !! TrackId rec
             = expected_index t.1 (fMCTIndexMap s) (Mother rec).
(** ** More sample inputs *)

(** A track with a [G4PrimaryParticle] that carries no user information,
    with kinetic energy one half. *)
Definition bare_primary_track (id : Z) : G4Track :=
  mkG4Track id 0 11 (Some (mkG4PrimaryParticle None)) None 0x1p-1 0x1p-1 zero3
    0 1 0 1 (a_step None).

(** The state after the tracks [tracks] of an event of a service
    configured by [p], before the event ends. *)
Definition after_tracks (p : ParameterSet) (tracks : list (G4Track * list G4Track)) : State :=
  state_after (for_each (processOneTrack keep_all_points) tracks (new_event p))
    (new_event p).

(** A daughter of track 1 with kinetic energy one half, made by "eIoni",
    that takes one step. *)
Definition low_energy_daughter (id : Z) : G4Track * list G4Track :=
  (secondary_track id 1 11 "eIoni" 0x1p-1,
   [after_step (Some "eIoni"%string) (secondary_track id 1 11 "eIoni" 0x1p-1)]).

(** The tracks of [two_tracks] and a second daughter of track 1, with
    kinetic energy one half. *)
Definition three_tracks : list (G4Track * list G4Track) :=
  two_tracks ++ [low_energy_daughter 3].

(** A track whose parent, track 7, the event never saw. *)
Definition orphan_event : list (G4Track * list G4Track) :=
  [(secondary_track 9 7 11 "eIoni" 1,
    [after_step (Some "eIoni"%string) (secondary_track 9 7 11 "eIoni" 1)])].

(** One generator with two truth records, of origins 1 and 2. *)
Definition two_origins : list MCListHandle :=
  [mkMCListHandle "generator" [mkMCTruth 1 1; mkMCTruth 1 2]].

(** Shower daughters are filtered with the built-in process list and the
    dropped particles are kept. *)
Definition store_dropped_no_showers : ParameterSet :=
  mkParameterSet None None None (Some false) None None None None None None
    (Some true).

(** The state after the tracks of [two_tracks], in an event with the
    truth records of [two_origins] and a service that keeps the dropped
    shower daughters, before the event ends. *)
Definition after_dropped_daughter : State :=
  let s := beginOfEventAction
             (set_fMCLists two_origins
                (ParticleListActionService store_dropped_no_showers 0 0)) in
  state_after (for_each (processOneTrack keep_all_points) two_tracks s) s.
(** ** The generator of a truth record *)

(** The handle under which the loops of lines 772-775 come to the truth
    record with running number [i], and the handle's position:
    [nMCTruths] (line 767) counts the truth records across the handles,
    here from the handle at position [mcl] on. *)
Fixpoint handle_of_truth (hs : list MCListHandle) (mcl i : nat) : option (nat * MCListHandle) :=
  match hs with
  | [] => None
  | h :: rest =>
      if (i <? length (truths h))%nat then Some (mcl, h)
      else handle_of_truth rest (S mcl) (i - length (truths h))
  end.

(** Whether trajectory points are storable for the generator that the
    truth record [mctIndex] comes from (lines 178-194, for the label of
    that record's handle). *)
Definition originating_storable (s : State) (mctIndex : N) : bool :=
  match handle_of_truth (fMCLists s) 0 (N.to_nat mctIndex) with
  | Some (_, h) => keepGen (config s) (label h)
  | None => false
  end.

(** Generator "A" with two truth records and generator "B" with one. *)
Definition two_handles : list MCListHandle :=
  [mkMCListHandle "A" [mkMCTruth 1 0; mkMCTruth 1 0];
   mkMCListHandle "B" [mkMCTruth 1 0]].

(** Trajectories are stored for generator "A" only. *)
Definition keep_generator_A : ParameterSet :=
  mkParameterSet None None (Some ["A"%string]) None None None None None None
    None None.

(** An electron seeded from truth record [mctIndex], generated particle
    0, with generator process "primary". *)
Definition primary_of_truth (id : Z) (mctIndex : N) : G4Track :=
  mkG4Track id 0 11
    (Some (mkG4PrimaryParticle
             (Some (mkPrimaryParticleInformation 0 mctIndex "primary"))))
    None 0x1p-1 1 zero3 0 1 0 1 (a_step None).

(** * Properties *)

(** ** Strings and outcomes *)

Lemma string_find_at_0_prefix (p s : string) :
  string_find_at_0 p s = String.prefix p s.
Proof.
  unfold string_find_at_0.
  destruct s as [|b s'].
  - destruct p; reflexivity.
  - cbn [index]. destruct (String.prefix p (String b s')); [reflexivity|].
    destruct (index 0 p s'); reflexivity.
Qed.

Lemma bind_Returned {A B} (o : Outcome A) (k : A -> State -> Outcome B) b s' :
  bind o k = Returned b s' ->
  ∃ a s1, o = Returned a s1 ∧ k a s1 = Returned b s'.
Proof. destruct o; cbn; intros; try discriminate. eauto. Qed.

Lemma bind_Thrown {A B} (o : Outcome A) (k : A -> State -> Outcome B) e s' :
  bind o k = Thrown e s' ->
  o = Thrown e s' ∨ ∃ a s1, o = Returned a s1 ∧ k a s1 = Thrown e s'.
Proof. destruct o; cbn; intros; try discriminate; [eauto|left; congruence]. Qed.

(** ** The store *)

Lemma lookup_alter_fresh {A} (f : A -> A) (l : list A) (a : A) :
  alter f (length l) (l ++ [a]) !! length l = Some (f a).
Proof.
  rewrite list_lookup_alter_eq, lookup_app_r, Nat.sub_diag by lia. reflexivity.
Qed.

Lemma alter_fresh {A} (f : A -> A) (l : list A) (a : A) :
  alter f (length l) (l ++ [a]) = l ++ [f a].
Proof.
  induction l as [|b l IH]; [reflexivity|]. cbn. f_equal. exact IH.
Qed.

(** ** Record creation *)

Lemma set_fMCTIndexToGeneratorMap_same s :
  set_fMCTIndexToGeneratorMap (fMCTIndexToGeneratorMap s) s = s.
Proof. destruct s; reflexivity. Qed.

Lemma decide_keepFullTrajectory_spec pmi flag s :
  ∃ m, decide_keepFullTrajectory pmi flag s
       = (keep_chain (fstoreTrajectories (config s))
            (snd (default (EmptyString, false) (m !! pmi)))
            (fkeepOnlyPrimaryFullTraj (config s)) flag,
          set_fMCTIndexToGeneratorMap m s)
     ∧ ∀ i, snd (default (EmptyString, false) (m !! i))
            = snd (default (EmptyString, false) (fMCTIndexToGeneratorMap s !! i)).
Proof.
  unfold decide_keepFullTrajectory, subscript, keep_chain.
  destruct (fstoreTrajectories (config s)); cbn [negb].
  2:{ exists (fMCTIndexToGeneratorMap s). by rewrite set_fMCTIndexToGeneratorMap_same. }
  destruct (fMCTIndexToGeneratorMap s !! pmi) as [gen|] eqn:Hg.
  - exists (fMCTIndexToGeneratorMap s). rewrite Hg, set_fMCTIndexToGeneratorMap_same. cbn.
    split; [|done].
    destruct (snd gen); cbn; [|done].
    destruct (fkeepOnlyPrimaryFullTraj (config s)); cbn; [|done]. by destruct flag.
  - exists (<[pmi := (EmptyString, false)]> (fMCTIndexToGeneratorMap s)).
    rewrite lookup_insert_eq. split; [reflexivity|].
    intros i. destruct (decide (pmi = i)) as [<-|Hne].
    + by rewrite lookup_insert_eq, Hg.
    + by rewrite lookup_insert_ne.
Qed.

Lemma createParticle_spec track trackID pdgCode pn parentID pi pmi flag notstore s :
  ∃ s', createParticle track trackID pdgCode pn parentID pi pmi flag notstore s = Returned tt s'
    ∧ fCurrentParticle s' =
        mkParticleInfo (Some (length (heap s)))
          (keep_chain (fstoreTrajectories (config s)) (storable s' pmi)
             (fkeepOnlyPrimaryFullTraj (config s)) flag) pi
    ∧ heap s' = heap s ++ [created track trackID pdgCode pn parentID]
    ∧ fMCTIndexMap s' = <[trackID := pmi]> (fMCTIndexMap s)
    ∧ fMCTPrimProcessKeepMap s' = <[trackID := flag]> (fMCTPrimProcessKeepMap s)
    ∧ fParticleList s' =
        (if negb (GetProperTime track =? 0)%float || notstore then fParticleList s
         else PList.Add trackID (length (heap s)) (fParticleList s))
    ∧ fdroppedParticleList s' =
        (if negb (negb (GetProperTime track =? 0)%float) && notstore
         then PList.Add trackID (length (heap s)) <$> fdroppedParticleList s
         else fdroppedParticleList s)
    ∧ config s' = config s ∧ fMCLists s' = fMCLists s
    ∧ fTrackIDOffset s' = fTrackIDOffset s
    ∧ fParentIDMap s' = fParentIDMap s
    ∧ fTargetIDMap s' = fTargetIDMap s
    ∧ fCurrentTrackID s' = fCurrentTrackID s
    ∧ fdroppedTracksMap s' = fdroppedTracksMap s
    ∧ fPrimaryTruthMap s' = fPrimaryTruthMap s
    ∧ ∀ i, storable s' i = storable s i.
Proof.
  unfold createParticle, allocate, through.
  match goal with |- context [decide_keepFullTrajectory pmi flag ?s1] =>
    destruct (decide_keepFullTrajectory_spec pmi flag s1) as (m & -> & Hm) end.
  cbn -[new_MCParticle alter].
  rewrite alter_fresh.
  destruct (GetProperTime track =? 0)%float; cbn -[new_MCParticle];
    [destruct notstore|]; cbn -[new_MCParticle]; eexists; (split; [reflexivity|]);
    cbn -[new_MCParticle]; unfold storable; cbn; done.
Qed.

(** Projections of assigned states. *)
Ltac state_simpl :=
  cbn [config fMCLists heap fCurrentParticle fParticleList
       fParentIDMap fTargetIDMap fMCTIndexMap fMCTPrimProcessKeepMap
       fCurrentTrackID
       fTrackIDOffset fPrimaryTruthMap fMCTIndexToGeneratorMap
       fNotStoredCounterUMap fdroppedTracksMap
       fdroppedParticleList partCol_ droppedCol_ droppedPartCol_ tpassn_
       set_fMCLists set_heap set_fCurrentParticle set_fParticleList
       set_fParentIDMap set_fTargetIDMap set_fMCTIndexMap set_fMCTPrimProcessKeepMap
       set_fCurrentTrackID set_fTrackIDOffset set_fPrimaryTruthMap
       set_fMCTIndexToGeneratorMap
       set_fNotStoredCounterUMap set_fdroppedTracksMap set_fdroppedParticleList
       set_partCol_
       set_droppedCol_ set_droppedPartCol_ set_tpassn_
       through allocate deref bind fst snd
       particle keepFullTrajectory truthIndex] in *.

(** ** The branches of admission *)

Lemma GetParentage_Returned trackid s a s1 :
  GetParentage trackid s = Returned a s1 ->
  s1 = s ∧ parentage (fParentIDMap s) trackid = Some a.
Proof.
  unfold GetParentage, parentage.
  destruct (GetParentage_loop _ _ _ _); intros [=]; subst; done.
Qed.

Lemma GetParentage_parentage trackid s :
  GetParentage trackid s =
    match parentage (fParentIDMap s) trackid with
    | Some a => Returned a s
    | None => Diverges
    end.
Proof. reflexivity. Qed.

Lemma processExclusion_eq trackID parentID pn s :
  processExclusion trackID parentID pn s =
    match excluded_by (config s) pn with
    | None => Returned false s
    | Some p =>
        match parentage (<[trackID := parentID]> (fParentIDMap s)) trackID with
        | Some a => Returned true (excluded_state trackID parentID a p s)
        | None => Diverges
        end
    end.
Proof.
  unfold processExclusion, excluded_by.
  destruct (fKeepEMShowerDaughters (config s)); cbn [negb]; [reflexivity|].
  destruct (List.find _ _) as [p|]; [|reflexivity].
  rewrite GetParentage_parentage. state_simpl.
  destruct (parentage _ trackID) as [a|] eqn:Ha; [|reflexivity].
  state_simpl. unfold excluded_state, excluded_identity.
  destruct (PList.KnownParticle _ _); cbn [negb];
    rewrite GetParentage_parentage; state_simpl; rewrite Ha; reflexivity.
Qed.

Lemma energyCutDrop_eq trackID parentID s :
  energyCutDrop trackID parentID s =
    match parentage (fParentIDMap s) trackID,
          parentage (<[trackID := parentID]> (fParentIDMap s)) trackID with
    | Some a0, Some a => Returned tt (cut_state trackID parentID a0 a s)
    | _, _ => Diverges
    end.
Proof.
  unfold energyCutDrop. rewrite GetParentage_parentage.
  destruct (parentage (fParentIDMap s) trackID) as [a0|]; [|reflexivity].
  state_simpl. rewrite GetParentage_parentage. state_simpl.
  destruct (parentage _ trackID) as [a|]; reflexivity.
Qed.

Lemma resolveParent_Returned trackID parentID s pid s1 :
  resolveParent trackID parentID s = Returned pid s1 ->
  s1 = s ∨ s1 = set_fParentIDMap (<[trackID := parentID]> (fParentIDMap s)) s.
Proof.
  unfold resolveParent.
  destruct (_ && _); [|intros [=]; subst; by left].
  rewrite GetParentage_parentage.
  destruct (parentage _ _); cbn [bind]; [|discriminate].
  destruct (_ && _); intros [=]; subst; by right.
Qed.

Lemma admission_frame_refl s : admission_frame s s.
Proof. unfold admission_frame. split_and!; done. Qed.

Lemma admission_frame_trans s s1 s2 :
  admission_frame s s1 -> admission_frame s1 s2 -> admission_frame s s2.
Proof.
  unfold admission_frame. intros H1 H2. destruct_and!.
  split_and!; try congruence. etrans; eassumption.
Qed.

Lemma admission_frame_entered track s : admission_frame s (entered track s).
Proof. unfold admission_frame, entered. state_simpl. split_and!; done. Qed.

Lemma admission_frame_excluded t p a q s : admission_frame s (excluded_state t p a q s).
Proof. unfold admission_frame, excluded_state. state_simpl. split_and!; done. Qed.

Lemma admission_frame_set_fParentIDMap m s : admission_frame s (set_fParentIDMap m s).
Proof. unfold admission_frame. state_simpl. split_and!; done. Qed.

Lemma subscript_subseteq `{Countable K} {V} (d : V) (k : K) (m : gmap K V) :
  m ⊆ (subscript d k m).2.
Proof.
  unfold subscript. destruct (m !! k) eqn:Hk; cbn; [done|].
  by apply insert_subseteq.
Qed.

Lemma subscript_lookup `{Countable K} {V} (d : V) (k : K) (m : gmap K V) :
  (subscript d k m).2 !! k = Some (subscript d k m).1.
Proof.
  unfold subscript. destruct (m !! k) eqn:Hk; cbn; [done|].
  by rewrite lookup_insert_eq.
Qed.

Lemma subscript_value `{Countable K} {V} (d : V) (k : K) (m : gmap K V) :
  (subscript d k m).1 = default d (m !! k).
Proof. unfold subscript. by destruct (m !! k). Qed.

Lemma admission_frame_set_fMCTPrimProcessKeepMap d k s :
  admission_frame s
    (set_fMCTPrimProcessKeepMap (subscript d k (fMCTPrimProcessKeepMap s)).2 s).
Proof.
  unfold admission_frame. state_simpl. split_and!; try done.
  apply subscript_subseteq.
Qed.

Lemma processExclusion_Returned t p pn s b s1 :
  processExclusion t p pn s = Returned b s1 ->
  admission_frame s s1
  ∧ match excluded_by (config s) pn with
    | None => b = false ∧ s1 = s
    | Some q => b = true ∧ ∃ a, parentage (<[t := p]> (fParentIDMap s)) t = Some a
                               ∧ s1 = excluded_state t p a q s
    end.
Proof.
  rewrite processExclusion_eq.
  destruct (excluded_by (config s) pn) as [q|].
  - destruct (parentage _ _) as [a|]; [|discriminate].
    intros [= <- <-]. split; [apply admission_frame_excluded|]. eauto.
  - intros [= <- <-]. split; [apply admission_frame_refl|done].
Qed.

Lemma resolveParent_frame t p s pid s1 :
  resolveParent t p s = Returned pid s1 -> admission_frame s s1.
Proof.
  intros [->| ->]%resolveParent_Returned;
    [apply admission_frame_refl|apply admission_frame_set_fParentIDMap].
Qed.

(** What a returning admission did: it created a record, or it took the
    energy-cut branch. *)
Lemma preUserTrackingAction_Returned track s s' :
  preUserTrackingAction track s = Returned tt s' ->
  (∃ s1 pn parentID pi pmi flag notstore,
      createParticle track (trackID_of track s) (GetPDGEncoding track) pn
        parentID pi pmi flag notstore s1 = Returned tt s'
      ∧ admission_frame s s1
      ∧ (GetPrimaryParticle track = None -> below_energyCut track s = false)
      ∧ (notstore = true -> GetPrimaryParticle track = None ∧
           ∃ pn, GetCreatorProcess track = Some pn ∧ is_Some (excluded_by (config s) pn)))
  ∨ (GetPrimaryParticle track = None ∧ below_energyCut track s = true
     ∧ ∃ s1 a0 a, s' = cut_state (trackID_of track s) (parentID_of track s) a0 a s1
                  ∧ parentage (fParentIDMap s1) (trackID_of track s) = Some a0
                  ∧ admission_frame s s1).
Proof.
  unfold preUserTrackingAction.
  fold (trackID_of track s). state_simpl. fold (parentID_of track s).
  fold (entered track s).
  pose proof (admission_frame_entered track s) as Hent.
  destruct (GetPrimaryParticle track) as [pp|] eqn:Hpp.
  - destruct (GetUserInformation pp) as [ppi|].
    + destruct (primary_process_name _) as [pn flag].
      intros Hc. left. do 7 eexists. split; [exact Hc|]. split; [done|].
      split; [done|]. discriminate.
    + intros Hc. left. do 7 eexists. split; [exact Hc|]. split; [done|].
      split; [done|]. discriminate.
  - destruct (GetCreatorProcess track) as [pn|] eqn:Hcp; [|discriminate].
    unfold admitSecondary.
    intros (notstore & s1 & Hex & Hk)%bind_Returned.
    apply processExclusion_Returned in Hex as [Hf1 Hex].
    assert (config s1 = config s) as Hcfg.
    { destruct Hf1 as [Hc _]. exact Hc. }
    fold (below_energyCut track s1) in Hk.
    assert (below_energyCut track s1 = below_energyCut track s) as Hb
      by (unfold below_energyCut; rewrite Hcfg; done).
    destruct (below_energyCut track s1) eqn:Hcut.
    + right. split; [done|]. split; [done|].
      rewrite energyCutDrop_eq in Hk.
      destruct (parentage (fParentIDMap s1) _) as [a0|] eqn:Ha0; [|discriminate].
      destruct (parentage (<[_:=_]> (fParentIDMap s1)) _) as [a|]; [|discriminate].
      injection Hk as <-. exists s1, a0, a. split; [done|]. split; [done|].
      exact (admission_frame_trans _ _ _ Hent Hf1).
    + left.
      apply bind_Returned in Hk as (parent & s2 & Hres & Hk).
      apply resolveParent_frame in Hres.
      destruct (fMCTIndexMap s2 !! parent) as [idx|]; [|discriminate].
      destruct (subscript false parent (fMCTPrimProcessKeepMap s2)) as [flag m] eqn:Hsub.
      do 7 eexists. split; [exact Hk|]. split.
      { eapply admission_frame_trans; [exact Hent|].
        eapply admission_frame_trans; [exact Hf1|].
        eapply admission_frame_trans; [exact Hres|].
        replace m with (subscript false parent (fMCTPrimProcessKeepMap s2)).2
          by (rewrite Hsub; done).
        apply admission_frame_set_fMCTPrimProcessKeepMap. }
      split; [done|]. intros ->. split; [done|]. exists pn. split; [done|].
      change (config (entered track s)) with (config s) in Hex.
      destruct (excluded_by (config s) pn); [done|]. by destruct Hex.
Qed.

(** ** Primary provenance (C7) *)

(** C7.  A track admitted with primary-particle provenance gets a record
    whose parent ID is 0, and its process label is normalised in three
    exclusive cases: the label "primary" is kept and the
    from-primary-process flag is true; a label that starts with "primary"
    without being equal to it is kept and the flag is false; any other
    label becomes "primary" and the flag is true. *)
Theorem primary_provenance_normalised (track : G4Track) (s : State)
    (primaryParticle : G4PrimaryParticle) (ppi : PrimaryParticleInformation) :
  GetPrimaryParticle track = Some primaryParticle ->
  GetUserInformation primaryParticle = Some ppi ->
  let mct_primary_process := GetMCParticle_Process ppi in
  ∃ s' p rec flag,
    preUserTrackingAction track s = Returned tt s'
    ∧ particle (fCurrentParticle s') = Some p
    ∧ deref p s' = Some rec
    ∧ TrackId rec = trackID_of track s
    ∧ Mother rec = 0
    ∧ fMCTPrimProcessKeepMap s' !! trackID_of track s = Some flag
    ∧ (mct_primary_process = "primary"%string ->
         Process rec = "primary"%string ∧ flag = true)
    ∧ (mct_primary_process ≠ "primary"%string ->
       String.prefix "primary" mct_primary_process = true ->
         Process rec = mct_primary_process ∧ flag = false)
    ∧ (String.prefix "primary" mct_primary_process = false ->
         Process rec = "primary"%string ∧ flag = true).
Proof.
  intros Hpp Hppi lbl.
  unfold preUserTrackingAction. rewrite Hpp, Hppi.
  fold (trackID_of track s). state_simpl.
  destruct (primary_process_name (GetMCParticle_Process ppi)) as [pn flag] eqn:Hn.
  match goal with |- context [createParticle ?t ?i ?c ?n ?m ?pi ?pmi ?f ?ns ?st] =>
    destruct (createParticle_spec t i c n m pi pmi f ns st)
      as (s' & Hc & Hslot & Hheap & _ & Hkeep & _) end.
  exists s', (length (heap s)),
    (created track (trackID_of track s) (GetPDGEncoding track) pn 0), flag.
  split; [exact Hc|]. split; [by rewrite Hslot|].
  split. { unfold deref. rewrite Hheap. state_simpl. by rewrite lookup_app_r, Nat.sub_diag. }
  split; [reflexivity|]. split; [reflexivity|].
  split. { rewrite Hkeep. state_simpl. by rewrite lookup_insert_eq. }
  unfold primary_process_name in Hn. rewrite string_find_at_0_prefix in Hn.
  fold lbl in Hn. cbn [created SetPolarization new_MCParticle Process].
  destruct (String.eqb_spec lbl "primary") as [Heq|Hne].
  - injection Hn as <- <-. split; [done|]. split; [done|].
    rewrite Heq. discriminate.
  - destruct (String.prefix "primary" lbl); injection Hn as <- <-;
      (split; [done|]); split; done.
Qed.

(** A track labelled "primaryBackground" keeps its label and is not
    flagged. *)
Lemma primary_provenance_normalised_witness :
  let track := primary_track 1 "primaryBackground" 1 in
  let s := new_event default_parameters in
  ∃ s' p rec flag,
    preUserTrackingAction track s = Returned tt s'
    ∧ particle (fCurrentParticle s') = Some p
    ∧ deref p s' = Some rec
    ∧ Mother rec = 0
    ∧ Process rec = "primaryBackground"%string ∧ flag = false.
Proof.
  intros track s.
  destruct (primary_provenance_normalised track s
              (mkG4PrimaryParticle
                 (Some (mkPrimaryParticleInformation 0 0 "primaryBackground")))
              (mkPrimaryParticleInformation 0 0 "primaryBackground")
              eq_refl eq_refl)
    as (s' & p & rec & flag & H1 & H2 & H3 & _ & H5 & _ & _ & H8 & _).
  exists s', p, rec, flag. split; [exact H1|]. split; [exact H2|].
  split; [exact H3|]. split; [exact H5|].
  apply H8; [discriminate|reflexivity].
Defined.

(** ** The keep-full-trajectory decision (C6) *)

(** The chain as the code evaluates it.  For every record that
    [preUserTrackingAction] creates, the keep-full-trajectory flag of the
    slot is the result of the ordered chain: false when trajectory storage
    is disabled; else false when the entry that the generator map holds
    under the record's truth index is not marked storable; else true when
    the only-primary policy is disabled; else the record's
    from-primary-process flag.  The generator map is keyed by the position
    of a handle (lines 167-195), so this entry belongs to the record's
    generator only while every handle before it holds one truth
    record. *)
Lemma keepFullTrajectory_decision (track : G4Track) (s s' : State) (p : ptr) :
  preUserTrackingAction track s = Returned tt s' ->
  particle (fCurrentParticle s') = Some p ->
  ∃ mctIndex fromPrimary,
    fMCTIndexMap s' !! trackID_of track s = Some mctIndex
    ∧ fMCTPrimProcessKeepMap s' !! trackID_of track s = Some fromPrimary
    ∧ keepFullTrajectory (fCurrentParticle s') =
        keep_chain (fstoreTrajectories (config s')) (storable s' mctIndex)
          (fkeepOnlyPrimaryFullTraj (config s')) fromPrimary.
Proof.
  intros Hpre Hp.
  apply preUserTrackingAction_Returned in Hpre as [Hc|Hcut].
  - destruct Hc as (s1 & pn & parentID & pi & pmi & flag & notstore & Hc & Hf & _).
    match type of Hc with createParticle ?t ?i ?c ?n ?m ?pi ?pmi ?f ?ns ?st = _ =>
      destruct (createParticle_spec t i c n m pi pmi f ns st)
        as (s'' & Hc' & Hslot & _ & Hidx & Hkeep & _ & _ & Hcfg & _) end.
    rewrite Hc in Hc'. injection Hc' as <-.
    exists pmi, flag. rewrite Hidx, Hkeep, !lookup_insert_eq, Hslot, Hcfg.
    done.
  - destruct Hcut as (_ & _ & s1 & a0 & a & -> & _). discriminate Hp.
Qed.

Lemma keepFullTrajectory_decision_witness :
  let track := primary_track 1 "primary" 1 in
  let s := new_event default_parameters in
  let s' := state_after (preUserTrackingAction track s) s in
  preUserTrackingAction track s = Returned tt s'
  ∧ particle (fCurrentParticle s') = Some 0%nat
  ∧ keepFullTrajectory (fCurrentParticle s') = true.
Proof.
  intros track s s'.
  assert (preUserTrackingAction track s = Returned tt s') as Hpre
    by (vm_compute; reflexivity).
  assert (particle (fCurrentParticle s') = Some 0%nat) as Hp
    by (vm_compute; reflexivity).
  split; [exact Hpre|]. split; [exact Hp|].
  destruct (keepFullTrajectory_decision track s s' 0%nat Hpre Hp)
    as (i & f & Hi & Hf & ->).
  vm_compute in Hi, Hf. injection Hi as <-. injection Hf as <-.
  vm_compute. reflexivity.
Defined.

(** The running number that [endOfEventAction] gives the truth record at
    position [m] of the handle at position [mcl] leads back to that
    handle. *)
Lemma handle_of_truth_number (hs : list MCListHandle) :
  ∀ mcl0 mcl h m,
    hs !! mcl = Some h -> (m < length (truths h))%nat ->
    handle_of_truth hs mcl0 (truth_number hs mcl m) = Some ((mcl0 + mcl)%nat, h).
Proof.
  unfold truth_number, all_truths.
  induction hs as [|h0 hs IH]; intros mcl0 mcl h m Hh Hm; [done|].
  destruct mcl as [|mcl]; cbn [handle_of_truth take flat_map length].
  - injection Hh as ->. cbn [Nat.add]. rewrite (proj2 (Nat.ltb_lt _ _) Hm).
    by rewrite Nat.add_0_r.
  - cbn in Hh. rewrite length_app.
    rewrite (proj2 (Nat.ltb_ge _ _)) by lia.
    replace (length (truths h0) + length (flat_map truths (take mcl hs)) + m
             - length (truths h0))%nat
      with (length (flat_map truths (take mcl hs)) + m)%nat by lia.
    rewrite (IH (S mcl0) mcl h m Hh Hm). do 2 f_equal. lia.
Qed.

(** C6.  The flag misses the originating generator.  Generator "A" has
    two truth records and generator "B" one, and trajectories are kept for
    "A" only.  A primary particle of the second truth record of "A" has
    truth index 1; [endOfEventAction] associates it with handle 0, truth
    record 1, and "A" is storable, so the chain gives true.  The generator
    map holds "B" under key 1, and the code (line 426) reads that entry:
    the flag is false and the particle is put out with its start and end
    point only. *)
Theorem keepFullTrajectory_misses_generator :
  let sv := set_fMCLists two_handles (ParticleListActionService keep_generator_A 0 0) in
  let s := beginOfEventAction sv in
  let track := primary_of_truth 1 1 in
  let steps := [after_step (Some "eIoni"%string) track;
                after_step (Some "Transportation"%string) track] in
  originating_storable s 1 = true
  ∧ storable s 1 = false
  ∧ (∃ s', preUserTrackingAction track s = Returned tt s'
           ∧ fMCTIndexMap s' !! 1 = Some 1%N
           ∧ fMCTPrimProcessKeepMap s' !! 1 = Some true
           ∧ keepFullTrajectory (fCurrentParticle s') = false
           ∧ keep_chain (fstoreTrajectories (config s')) (originating_storable s 1)
               (fkeepOnlyPrimaryFullTraj (config s')) true = true)
  ∧ ∃ s', processEvent keep_all_points [(track, steps)] sv = Returned tt s'
          ∧ tpassn_ s' = Some [mkAssn 0 1 0 0]
          ∧ (λ r, tp_process <$> Trajectory r) <$> default [] (partCol_ s')
            = [["Start"; "Transportation"]%string].
Proof.
  intros sv s track steps.
  split; [vm_compute; reflexivity|]. split; [vm_compute; reflexivity|]. split.
  - eexists. split; [vm_compute; reflexivity|].
    split; [vm_compute; reflexivity|]. split; [vm_compute; reflexivity|].
    split; vm_compute; reflexivity.
  - eexists. split; [vm_compute; reflexivity|].
    split; vm_compute; reflexivity.
Qed.

(** ** The yielded lists and the offset (C10) *)

Lemma foldl_highest (l : list Z) (h0 : Z) :
  let r := foldl (λ h k, if h <? k then k else h) h0 l in
  h0 <= r ∧ (∀ k, k ∈ l -> k <= r) ∧ (r = h0 ∨ r ∈ l).
Proof.
  revert h0. induction l as [|a l IH]; intros h0; cbn.
  - split; [lia|]. split; [|by left]. intros k Hk. by apply elem_of_nil in Hk.
  - destruct (IH (if h0 <? a then a else h0)) as (H1 & H2 & H3).
    destruct (Z.ltb_spec h0 a) as [Hlt|Hge].
    + split; [lia|]. split.
      * intros k [->|Hk]%elem_of_cons; [exact H1|by apply H2].
      * right. destruct H3 as [->|H3]; [left|right]; done.
    + split; [lia|]. split.
      * intros k [->|Hk]%elem_of_cons; [lia|by apply H2].
      * destruct H3 as [H3|H3]; [by left|right; by right].
Qed.

Lemma highest_of_two (pl dl : ParticleList) :
  highest_of (PList.keys pl ++ PList.keys dl) (highest dl (highest pl 0)).
Proof.
  unfold highest.
  destruct (foldl_highest (PList.keys pl) 0) as (H1 & H2 & H3).
  destruct (foldl_highest (PList.keys dl)
              (foldl (λ h k, if h <? k then k else h) 0 (PList.keys pl)))
    as (G1 & G2 & G3).
  cbn zeta in *.
  set (a := foldl _ 0 (PList.keys pl)) in *.
  set (b := foldl _ a (PList.keys dl)) in *.
  split.
  - intros k [Hk|Hk]%elem_of_app; [apply H2 in Hk; lia|by apply G2].
  - destruct G3 as [G3|G3]; [|left; apply elem_of_app; by right].
    destruct H3 as [H3|H3]; [|left; apply elem_of_app; left; by rewrite G3].
    destruct (decide (0 ∈ PList.keys pl ++ PList.keys dl)) as [Hin|Hnin].
    + left. by rewrite G3, H3.
    + right. split; [by rewrite G3, H3|].
      intros k Hk. assert (k <= 0).
      { apply elem_of_app in Hk as [Hk|Hk]; [apply H2 in Hk|apply G2 in Hk]; lia. }
      assert (k ≠ 0) by (intros ->; done). lia.
Qed.

Lemma highest_of_one (pl : ParticleList) :
  highest_of (PList.keys pl) (highest pl 0).
Proof.
  pose proof (highest_of_two pl PList.empty) as H.
  replace (PList.keys PList.empty) with (@nil Z) in H by reflexivity.
  rewrite app_nil_r in H. exact H.
Qed.

Lemma wrap32_id (z : Z) : int_range z -> wrap32 z = z.
Proof.
  unfold int_range, wrap32. intros H.
  rewrite Z.mod_small by lia. lia.
Qed.

(** C10.  The constructor builds the dropped list exactly when
    [StoreDroppedMCParticles] is set.  When no dropped list was built,
    [YieldDroppedList] throws and leaves the state, hence the retained
    list and the offset, as it was.  When one was built, the call returns
    it and, if the retained list is not empty, sets the offset to one more
    than the highest ID over both lists (and leaves it alone otherwise). *)
Theorem YieldDroppedList_offset :
  (∀ p fCurrentTrackID0 fTrackIDOffset0,
     fdroppedParticleList (ParticleListActionService p fCurrentTrackID0 fTrackIDOffset0)
     = if default false (p_StoreDroppedMCParticles p) then Some PList.empty else None)
  ∧ ∀ s,
    match fdroppedParticleList s with
    | None => YieldDroppedList s = Thrown cet_exception_ParticleListAction s
    | Some dl =>
        ∃ s', YieldDroppedList s = Returned dl s'
          ∧ fParticleList s' = fParticleList s
          ∧ fdroppedParticleList s' = Some dl
          ∧ if (PList.size (fParticleList s) =? 0)%nat then s' = s
            else ∃ M, highest_of (PList.keys (fParticleList s) ++ PList.keys dl) M
                      ∧ fTrackIDOffset s' = wrap32 (M + 1)
                      ∧ (M < 2 ^ 31 - 1 -> fTrackIDOffset s' = M + 1)
    end.
Proof.
  split; [reflexivity|]. intros s.
  unfold YieldDroppedList.
  destruct (fdroppedParticleList s) as [dl|] eqn:Hdl; [|reflexivity].
  destruct (PList.size (fParticleList s) =? 0)%nat eqn:Hsz; cbn [negb].
  - exists s. done.
  - eexists. split; [reflexivity|]. state_simpl.
    split; [done|]. split; [done|].
    exists (highest dl (highest (fParticleList s) 0)).
    pose proof (highest_of_two (fParticleList s) dl) as HM.
    split; [exact HM|]. split; [done|].
    intros Hlt. apply wrap32_id. unfold int_range.
    assert (0 <= highest dl (highest (fParticleList s) 0)).
    { destruct HM as [_ [Hin|[-> _]]]; [|lia].
      unfold highest. 
      destruct (foldl_highest (PList.keys (fParticleList s)) 0) as (H1 & _).
      destruct (foldl_highest (PList.keys dl)
                  (foldl (λ h k, if h <? k then k else h) 0
                     (PList.keys (fParticleList s)))) as (G1 & _).
      cbn zeta in *. lia. }
    lia.
Qed.

(** ** A track that ends on an undefined step (C8) *)

Lemma KnownParticle_erase (k : Z) (pl : ParticleList) :
  PList.KnownParticle (PList.erase k pl) k = false.
Proof.
  unfold PList.KnownParticle, PList.find, PList.erase. cbn.
  rewrite lookup_delete_eq. apply bool_decide_eq_false. by intros [? ?].
Qed.

(** C8.  At track end with an active particle, when no process defined
    the final step, the particle's entry is erased from the retained list
    (the key is gone, not mapped to a null pointer), the dropped list
    archives the particle exactly when it exists and the particle's
    keep-full-trajectory flag is false, the slot is cleared, and the
    record gets no end process and no further sample (only its weight is
    set). *)
Theorem undefined_final_step_discards
    (Sparsify : float -> bool -> list TrajectoryPoint -> list TrajectoryPoint)
    (aTrack : G4Track) (s : State) (p : ptr) (rec : MCParticle) :
  particle (fCurrentParticle s) = Some p ->
  deref p s = Some rec ->
  GetProcessDefinedStep (GetPostStepPoint (GetStep aTrack)) = None ->
  ∃ s', postUserTrackingAction Sparsify (Some aTrack) s = Returned tt s'
    ∧ m_particleList (fParticleList s') =
        delete (wrap32 (Z.abs (TrackId rec))) (m_particleList (fParticleList s))
    ∧ PList.KnownParticle (fParticleList s') (TrackId rec) = false
    ∧ fdroppedParticleList s' =
        match fdroppedParticleList s with
        | Some dl =>
            if keepFullTrajectory (fCurrentParticle s) then Some dl
            else Some (PList.Archive (TrackId rec) (Mother rec) dl)
        | None => None
        end
    ∧ fCurrentParticle s' = ParticleInfo_clear
    ∧ deref p s' = Some (SetWeight (GetWeight aTrack) rec)
    ∧ EndProcess (SetWeight (GetWeight aTrack) rec) = EndProcess rec
    ∧ Trajectory (SetWeight (GetWeight aTrack) rec) = Trajectory rec
    ∧ fPrimaryTruthMap s' = fPrimaryTruthMap s.
Proof.
  intros Hp Hrec Hnone.
  unfold postUserTrackingAction. rewrite Hp, Hrec, Hnone.
  assert (deref p (through p (SetWeight (GetWeight aTrack)) s)
          = Some (SetWeight (GetWeight aTrack) rec)) as Hw.
  { unfold deref, through in *. state_simpl.
    rewrite list_lookup_alter_eq, Hrec. reflexivity. }
  rewrite Hw. eexists. split; [reflexivity|].
  unfold discardCurrentParticle.
  cbn [TrackId Mother SetWeight].
  destruct (keepFullTrajectory (fCurrentParticle s)) eqn:Hk;
    state_simpl; rewrite ?Hk; cbn [negb]; state_simpl;
    (split; [reflexivity|]); (split; [apply KnownParticle_erase|]);
    (split; [by destruct (fdroppedParticleList s)|]);
    (split; [reflexivity|]); (split; [|done]);
    unfold deref in *; state_simpl; by rewrite list_lookup_alter_eq, Hrec.
Qed.

Lemma undefined_final_step_discards_witness :
  let track := primary_track 1 "primary" 1 in
  let s := state_after (preUserTrackingAction track
                          (new_event store_dropped_no_trajectories))
             (new_event store_dropped_no_trajectories) in
  particle (fCurrentParticle s) = Some 0%nat
  ∧ PList.KnownParticle (fParticleList s) 1 = true
  ∧ ∃ s', postUserTrackingAction keep_all_points (Some track) s = Returned tt s'
      ∧ PList.KnownParticle (fParticleList s') 1 = false
      ∧ ∃ dl, fdroppedParticleList s' = Some dl
              ∧ m_particleList dl !! 1 = Some None ∧ m_archive dl !! 1 = Some 0.
Proof.
  intros track s.
  assert (particle (fCurrentParticle s) = Some 0%nat) as Hp by (vm_compute; reflexivity).
  split; [exact Hp|]. split; [vm_compute; reflexivity|].
  destruct (undefined_final_step_discards keep_all_points track s 0%nat
              (created track 1 11 "primary" 0) Hp
              ltac:(vm_compute; reflexivity) ltac:(vm_compute; reflexivity))
    as (s' & H1 & _ & H3 & H4 & _).
  exists s'. split; [exact H1|]. split; [exact H3|].
  eexists. split; [rewrite H4; vm_compute; reflexivity|].
  split; vm_compute; reflexivity.
Defined.

(** ** The energy cut (C9) *)

Lemma userSteppingAction_idle trk s :
  particle (fCurrentParticle s) = None ->
  userSteppingAction trk s = Returned trk s.
Proof. unfold userSteppingAction. by intros ->. Qed.

Lemma stepping_idle steps last s :
  particle (fCurrentParticle s) = None ->
  ∃ last', stepping steps last s = Returned last' s.
Proof.
  intros Hp. revert last. induction steps as [|trk steps IH]; intros last; cbn.
  - by exists last.
  - rewrite userSteppingAction_idle by done. cbn. apply IH.
Qed.

Lemma postUserTrackingAction_idle Sparsify aTrack s :
  particle (fCurrentParticle s) = None ->
  postUserTrackingAction Sparsify aTrack s = Returned tt s.
Proof. unfold postUserTrackingAction. by intros ->. Qed.

(** The outcomes of the admission of a track under the energy cut. *)
Lemma preUserTrackingAction_below_cut track s :
  GetPrimaryParticle track = None ->
  below_energyCut track s = true ->
  match preUserTrackingAction track s with
  | Returned _ s' =>
      ∃ s1 a0 a, s' = cut_state (trackID_of track s) (parentID_of track s) a0 a s1
                 ∧ parentage (fParentIDMap s1) (trackID_of track s) = Some a0
                 ∧ admission_frame s s1
  | Thrown _ _ => False
  | Aborted _ s' => s' = entered track s
  | Diverges => True
  end.
Proof.
  intros Hpp Hcut.
  destruct (preUserTrackingAction track s) as [[] s'|e s'|w s'|] eqn:Hpre; [| | |done].
  - apply preUserTrackingAction_Returned in Hpre as [Hc|Hc].
    + destruct Hc as (s1 & pn & parentID & pi & pmi & flag & notstore & _ & _ & Hb & _).
      rewrite Hb in Hcut by done. discriminate.
    + destruct Hc as (_ & _ & Hc). exact Hc.
  - unfold preUserTrackingAction in Hpre. rewrite Hpp in Hpre.
    destruct (GetCreatorProcess track) as [pn|]; [|discriminate].
    unfold admitSecondary in Hpre. state_simpl.
    fold (trackID_of track s) (parentID_of track s) in Hpre.
    fold (entered track s) in Hpre.
    apply bind_Thrown in Hpre as [Hpre|(notstore & s1 & Hex & Hk)].
    { rewrite processExclusion_eq in Hpre.
      destruct (excluded_by _ _); [destruct (parentage _ _)|]; discriminate. }
    apply processExclusion_Returned in Hex as [[Hcfg _] _].
    fold (below_energyCut track s1) in Hk.
    replace (below_energyCut track s1) with true in Hk
      by (unfold below_energyCut in *; rewrite Hcfg; done).
    rewrite energyCutDrop_eq in Hk.
    destruct (parentage (fParentIDMap s1) _); [|discriminate].
    destruct (parentage (<[_:=_]> (fParentIDMap s1)) _); discriminate.
  - unfold preUserTrackingAction in Hpre. rewrite Hpp in Hpre.
    destruct (GetCreatorProcess track) as [pn|]; [|by injection Hpre as <- <-].
    unfold admitSecondary in Hpre. state_simpl.
    fold (trackID_of track s) (parentID_of track s) in Hpre.
    fold (entered track s) in Hpre. exfalso.
    rewrite processExclusion_eq in Hpre.
    destruct (excluded_by _ _) as [q|] eqn:Hq.
    + destruct (parentage _ _) as [a|]; [|discriminate]. state_simpl.
      fold (below_energyCut track
              (excluded_state (trackID_of track s) (parentID_of track s) a q
                 (entered track s))) in Hpre.
      change (below_energyCut track (excluded_state _ _ a q (entered track s)))
        with (below_energyCut track s) in Hpre.
      rewrite Hcut, energyCutDrop_eq in Hpre.
      destruct (parentage (fParentIDMap _) _); [|discriminate].
      destruct (parentage (<[_:=_]> (fParentIDMap _)) _); discriminate.
    + state_simpl.
      change ((GetKineticEnergy track <? fenergyCut (config (entered track s)))%float
              && negb (GetPDGEncoding track =? 0)) with (below_energyCut track s) in Hpre.
      rewrite Hcut, energyCutDrop_eq in Hpre.
      destruct (parentage (fParentIDMap _) _); [|discriminate].
      destruct (parentage (<[_:=_]> (fParentIDMap _)) _); discriminate.
Qed.

Lemma createParticle_energy e track trackID pdgCode pn parentID pi pmi flag notstore s :
  createParticle (SetKineticEnergy e track) trackID pdgCode pn parentID pi pmi
    flag notstore s
  = createParticle track trackID pdgCode pn parentID pi pmi flag notstore s.
Proof.
  unfold createParticle.
  cbn [SetKineticEnergy GetMass GetPolarization GetProperTime]. reflexivity.
Qed.

Lemma processOneTrack_below_cut Sparsify track steps s :
  GetPrimaryParticle track = None ->
  below_energyCut track s = true ->
  match processOneTrack Sparsify (track, steps) s with
  | Returned _ s' =>
      fParticleList s' = fParticleList s ∧ heap s' = heap s
      ∧ particle (fCurrentParticle s') = None
  | Thrown _ _ => False
  | Aborted _ s' => s' = entered track s
  | Diverges => True
  end.
Proof.
  intros Hpp Hcut.
  pose proof (preUserTrackingAction_below_cut track s Hpp Hcut) as Hpre.
  unfold processOneTrack. cbn [fst snd].
  destruct (preUserTrackingAction track s) as [[] s1|e s1|w s1|]; cbn [bind]; try done.
  destruct Hpre as (s0 & a0 & a & -> & _ & Hf).
  destruct (stepping_idle steps track (cut_state (trackID_of track s)
              (parentID_of track s) a0 a s0) eq_refl) as [last ->].
  cbn [bind]. rewrite postUserTrackingAction_idle by reflexivity.
  destruct Hf as (_ & _ & Hh & _ & Hl & _). state_simpl. done.
Qed.

(** ** The ancestry entry of an energy-cut drop (C3) *)

Lemma parentage_absent (m : gmap Z Z) (trackid : Z) :
  m !! trackid = None -> parentage m trackid = Some NoParticleId.
Proof. unfold parentage. cbn. by intros ->. Qed.

(** A track under the energy cut that the process-exclusion filter let
    through, and whose ID the parent-substitution map does not hold yet,
    is entered in the ancestry map under [sim::NoParticleId]: the walk of
    line 361 runs before line 365 enters the track. *)
Lemma energy_cut_files_under_NoParticleId track s pn s' :
  GetPrimaryParticle track = None ->
  GetCreatorProcess track = Some pn ->
  excluded_by (config s) pn = None ->
  below_energyCut track s = true ->
  fParentIDMap s !! trackID_of track s = None ->
  preUserTrackingAction track s = Returned tt s' ->
  fdroppedTracksMap s' =
    insert_dropped NoParticleId (trackID_of track s) (fdroppedTracksMap s).
Proof.
  intros Hpp Hcp Hex Hcut Hnone.
  unfold preUserTrackingAction. rewrite Hpp, Hcp. unfold admitSecondary.
  state_simpl. fold (trackID_of track s) (parentID_of track s).
  fold (entered track s). rewrite processExclusion_eq.
  change (config (entered track s)) with (config s). rewrite Hex. cbn [bind].
  fold (below_energyCut track (entered track s)).
  change (below_energyCut track (entered track s)) with (below_energyCut track s).
  rewrite Hcut, energyCutDrop_eq.
  change (fParentIDMap (entered track s)) with (fParentIDMap s).
  rewrite (parentage_absent _ _ Hnone).
  destruct (parentage _ _) as [a|]; [|discriminate].
  intros [= <-]. reflexivity.
Qed.

(** C3 (the code departs from it).  A primary track 1 is retained; its
    daughter 2, made by "eIoni" with kinetic energy 0.5 under a threshold
    of 1, is dropped by the energy cut.  The walk from the daughter ends
    at 1, and the process-exclusion filter files such a daughter under 1,
    but the energy cut files it under [sim::NoParticleId] and the ancestry
    map has no entry for 1; no record is created for the daughter. *)
Theorem energy_cut_ancestry_misfiled :
  let s := state_after (processOneTrack keep_all_points
                          (primary_track 1 "primary" 1,
                           [after_step (Some "Transportation"%string)
                              (primary_track 1 "primary" 1)])
                          (new_event energy_cut_1))
             (new_event energy_cut_1) in
  let daughter := secondary_track 2 1 11 "eIoni" 0x1p-1 in
  let s' := state_after (preUserTrackingAction daughter s) s in
  let sx := state_after (preUserTrackingAction (secondary_track 2 1 11 "phot" 1)
                           (state_after (processOneTrack keep_all_points
                              (primary_track 1 "primary" 1,
                               [after_step (Some "Transportation"%string)
                                  (primary_track 1 "primary" 1)])
                              (new_event no_shower_daughters))
                              (new_event no_shower_daughters)))
              (new_event no_shower_daughters) in
  PList.KnownParticle (fParticleList s) 1 = true
  ∧ preUserTrackingAction daughter s = Returned tt s'
  ∧ fdroppedTracksMap s' !! NoParticleId = Some {[2]}
  ∧ fdroppedTracksMap s' !! 1 = None
  ∧ parentage (fParentIDMap s') 2 = Some 1
  ∧ particle (fCurrentParticle s') = None
  ∧ heap s' = heap s
  ∧ fParticleList s' = fParticleList s
  ∧ fdroppedTracksMap sx !! 1 = Some {[2]}.
Proof.
  intros s daughter s' sx.
  split_and!; vm_compute; reflexivity.
Qed.

(** ** The truth index of the resolved parent (C4) *)

Lemma resolvedParent_Returned pn track s parent s2 :
  resolvedParent pn track s = Returned parent s2 ->
  ∃ notstore s1,
    processExclusion (trackID_of track s) (parentID_of track s) pn (entered track s)
      = Returned notstore s1
    ∧ resolveParent (trackID_of track s) (parentID_of track s) s1 = Returned parent s2
    ∧ config s2 = config s
    ∧ fMCTIndexMap s2 = fMCTIndexMap s
    ∧ fMCTPrimProcessKeepMap s2 = fMCTPrimProcessKeepMap s.
Proof.
  unfold resolvedParent. intros (notstore & s1 & Hex & Hres)%bind_Returned.
  exists notstore, s1. split; [exact Hex|]. split; [exact Hres|].
  apply processExclusion_Returned in Hex as [_ Hex].
  apply resolveParent_Returned in Hres.
  destruct (excluded_by _ _) as [q|].
  - destruct Hex as (_ & a & _ & ->).
    destruct Hres as [-> | ->]; done.
  - destruct Hex as (_ & ->). destruct Hres as [-> | ->]; done.
Qed.

(** C4.  Take a track without primary provenance that the energy cut lets
    through, and let [parent] be the parent ID that the exclusion filter
    and the parent resolution arrive at.  The admission throws a logic
    error exactly when the truth-index map has no entry for [parent];
    when it has one, the admission returns and the track's entries are
    the parent's truth index and the parent's primary-process flag. *)
Theorem missing_truth_index_is_fatal (track : G4Track) (s : State)
    (process_name : string) (parent : Z) (s2 : State) :
  GetPrimaryParticle track = None ->
  GetCreatorProcess track = Some process_name ->
  below_energyCut track s = false ->
  resolvedParent process_name track s = Returned parent s2 ->
  ((∃ e st, preUserTrackingAction track s = Thrown e st ∧ is_LogicError e = true)
   ↔ fMCTIndexMap s !! parent = None)
  ∧ (fMCTIndexMap s !! parent = None ->
     preUserTrackingAction track s = Thrown (LogicError_MCTIndex parent) s2)
  ∧ (∀ index, fMCTIndexMap s !! parent = Some index ->
       ∃ s', preUserTrackingAction track s = Returned tt s'
         ∧ fMCTIndexMap s' !! trackID_of track s = Some index
         ∧ fMCTPrimProcessKeepMap s' !! trackID_of track s
           = Some (default false (fMCTPrimProcessKeepMap s !! parent))).
Proof.
  intros Hpp Hcp Hcut Hres.
  apply resolvedParent_Returned in Hres
    as (notstore & s1 & Hex & Hres & Hcfg & Hidx & Hflag).
  assert (config s1 = config s) as Hcfg1.
  { apply processExclusion_Returned in Hex as [[Hc _] _]. exact Hc. }
  assert (preUserTrackingAction track s =
          match fMCTIndexMap s !! parent with
          | Some index =>
              createParticle track (trackID_of track s) (GetPDGEncoding track)
                process_name parent NoGeneratedParticleIndex index
                (subscript false parent (fMCTPrimProcessKeepMap s2)).1 notstore
                (set_fMCTPrimProcessKeepMap
                   (subscript false parent (fMCTPrimProcessKeepMap s2)).2 s2)
          | None => Thrown (LogicError_MCTIndex parent) s2
          end) as Heq.
  { unfold preUserTrackingAction. rewrite Hpp, Hcp. unfold admitSecondary.
    state_simpl. fold (trackID_of track s) (parentID_of track s).
    fold (entered track s). rewrite Hex. cbn [bind].
    fold (below_energyCut track s1).
    replace (below_energyCut track s1) with false
      by (unfold below_energyCut in *; rewrite Hcfg1; done).
    rewrite Hres. cbn [bind]. rewrite Hidx.
    destruct (fMCTIndexMap s !! parent); [|reflexivity].
    destruct (subscript false parent (fMCTPrimProcessKeepMap s2)); reflexivity. }
  split; [|split].
  - split.
    + intros (e & st & Hthrow & He). rewrite Heq in Hthrow.
      destruct (fMCTIndexMap s !! parent) as [index|]; [|reflexivity].
      match type of Hthrow with createParticle ?t ?i ?c ?n ?m ?pi ?pmi ?f ?ns ?st = _ =>
        destruct (createParticle_spec t i c n m pi pmi f ns st) as (s' & Hc & _) end.
      rewrite Hc in Hthrow. discriminate.
    + intros Hnone. rewrite Heq, Hnone. eauto.
  - intros Hnone. by rewrite Heq, Hnone.
  - intros index Hsome. rewrite Heq, Hsome.
    match goal with |- context [createParticle ?t ?i ?c ?n ?m ?pi ?pmi ?f ?ns ?st] =>
      destruct (createParticle_spec t i c n m pi pmi f ns st)
        as (s' & Hc & _ & _ & Hi & Hk & _) end.
    exists s'. split; [exact Hc|]. rewrite Hi, Hk, !lookup_insert_eq.
    split; [reflexivity|]. by rewrite subscript_value, Hflag.
Qed.

Lemma missing_truth_index_is_fatal_witness :
  let s := state_after (processOneTrack keep_all_points
                          (primary_track 1 "primary" 1,
                           [after_step (Some "Transportation"%string)
                              (primary_track 1 "primary" 1)])
                          (new_event default_parameters))
             (new_event default_parameters) in
  let daughter := secondary_track 2 1 11 "eIoni" 1 in
  let orphan := secondary_track 3 7 11 "eIoni" 1 in
  (∃ s', preUserTrackingAction daughter s = Returned tt s'
         ∧ fMCTIndexMap s' !! 2 = Some 0%N
         ∧ fMCTPrimProcessKeepMap s' !! 2 = Some true)
  ∧ ∃ st, preUserTrackingAction orphan s = Thrown (LogicError_MCTIndex 7) st.
Proof.
  intros s daughter orphan. split.
  - destruct (missing_truth_index_is_fatal daughter s "eIoni" 1
                (state_after (resolvedParent "eIoni" daughter s) s)
                eq_refl eq_refl ltac:(vm_compute; reflexivity)
                ltac:(vm_compute; reflexivity)) as (_ & _ & Hok).
    destruct (Hok 0%N ltac:(vm_compute; reflexivity)) as (s' & H1 & H2 & H3).
    exists s'. split; [exact H1|]. split; [exact H2|].
    transitivity (Some (default false (fMCTPrimProcessKeepMap s !! 1)));
      [exact H3|vm_compute; reflexivity].
  - destruct (missing_truth_index_is_fatal orphan s "eIoni" 7
                (state_after (resolvedParent "eIoni" orphan s) s)
                eq_refl eq_refl ltac:(vm_compute; reflexivity)
                ltac:(vm_compute; reflexivity)) as (_ & Hthrow & _).
    eexists. apply Hthrow. vm_compute. reflexivity.
Defined.

(** ** The track-ID offset across events (C1) *)

Lemma session_frame_refl s : session_frame s s.
Proof. by unfold session_frame. Qed.

Lemma session_frame_trans s s1 s2 :
  session_frame s s1 -> session_frame s1 s2 -> session_frame s s2.
Proof. unfold session_frame. intros (?&?&?) (?&?&?). split_and!; congruence. Qed.

Lemma preUserTrackingAction_session track s s' :
  preUserTrackingAction track s = Returned tt s' -> session_frame s s'.
Proof.
  intros [Hc|Hc]%preUserTrackingAction_Returned.
  - destruct Hc as (s1 & pn & parentID & pi & pmi & flag & notstore & Hc & Hf & _).
    match type of Hc with createParticle ?t ?i ?c ?n ?m ?pi ?pmi ?f ?ns ?st = _ =>
      destruct (createParticle_spec t i c n m pi pmi f ns st)
        as (s'' & Hc' & _ & _ & _ & _ & _ & _ & Hcfg & Hl & Ho & _) end.
    rewrite Hc in Hc'. injection Hc' as <-.
    destruct Hf as (Hcfg1 & Hl1 & _ & _ & _ & _ & Ho1 & _).
    unfold session_frame. split_and!; congruence.
  - destruct Hc as (_ & _ & s1 & a0 & a & -> & _ & Hf).
    destruct Hf as (Hcfg1 & Hl1 & _ & _ & _ & _ & Ho1 & _).
    unfold session_frame, cut_state. state_simpl. done.
Qed.

Lemma userSteppingAction_session trk s trk' s' :
  userSteppingAction trk s = Returned trk' s' -> session_frame s s'.
Proof.
  unfold userSteppingAction, AddPointToCurrentParticle.
  destruct (particle (fCurrentParticle s)) as [p|]; [|intros [= _ <-]; apply session_frame_refl].
  destruct (GetProcessDefinedStep _); [|intros [= _ <-]; apply session_frame_refl].
  destruct (deref p s) as [rec|]; [|discriminate].
  destruct (_ =? _)%nat; destruct (_ && _); intros [= _ <-];
    unfold session_frame; state_simpl; done.
Qed.

Lemma stepping_session steps last s last' s' :
  stepping steps last s = Returned last' s' -> session_frame s s'.
Proof.
  revert last s. induction steps as [|trk steps IH]; intros last s; cbn.
  - intros [= _ <-]. apply session_frame_refl.
  - intros (t & s1 & H1 & H2)%bind_Returned.
    eapply session_frame_trans; [eapply userSteppingAction_session|eapply IH]; eassumption.
Qed.

Lemma storeTruthRecord_session p s s' :
  storeTruthRecord p s = Returned tt s' -> session_frame s s'.
Proof.
  unfold storeTruthRecord.
  destruct (isPrimary _); [|intros [= <-]; apply session_frame_refl].
  destruct (deref p s); [|discriminate]. intros [= <-].
  unfold session_frame. state_simpl. done.
Qed.

Lemma postUserTrackingAction_session Sparsify aTrack s s' :
  postUserTrackingAction Sparsify aTrack s = Returned tt s' -> session_frame s s'.
Proof.
  unfold postUserTrackingAction, AddPointToCurrentParticle, discardCurrentParticle.
  destruct (particle (fCurrentParticle s)) as [p|]; [|intros [= <-]; apply session_frame_refl].
  destruct aTrack as [aTrack|]; [|apply storeTruthRecord_session].
  destruct (deref p s); [|discriminate].
  destruct (deref p (through _ _ _)) as [rec|];
    [|destruct (GetProcessDefinedStep _); discriminate].
  destruct (GetProcessDefinedStep _).
  - intros H%storeTruthRecord_session. revert H.
    state_simpl. destruct (negb _); [|destruct (fSparsifyTrajectories _)];
      unfold session_frame; state_simpl; done.
  - intros [= <-]. state_simpl.
    destruct (negb _); unfold session_frame; state_simpl; done.
Qed.

Lemma processOneTrack_session Sparsify track s s' :
  processOneTrack Sparsify track s = Returned tt s' -> session_frame s s'.
Proof.
  unfold processOneTrack.
  intros ([] & s1 & H1 & (last & s2 & H2 & H3)%bind_Returned)%bind_Returned.
  eapply session_frame_trans; [eapply preUserTrackingAction_session; eassumption|].
  eapply session_frame_trans; [eapply stepping_session; eassumption|].
  eapply postUserTrackingAction_session; eassumption.
Qed.

Lemma for_each_session {K} (f : K -> State -> Outcome unit) (l : list K) s s' :
  (∀ k s s', f k s = Returned tt s' -> session_frame s s') ->
  for_each f l s = Returned tt s' -> session_frame s s'.
Proof.
  intros Hf. revert s. induction l as [|k l IH]; intros s; cbn.
  - intros [= <-]. apply session_frame_refl.
  - intros ([] & s1 & H1 & H2)%bind_Returned.
    eapply session_frame_trans; [eapply Hf|eapply IH]; eassumption.
Qed.

Lemma endOfEventAction_offset s s' :
  endOfEventAction s = Returned tt s' -> fTrackIDOffset s' = 0.
Proof.
  unfold endOfEventAction.
  intros (? & s1 & _ & (pl & s2 & _ & (dl & s3 & _
            & (n & s4 & _ & H)%bind_Returned)%bind_Returned)%bind_Returned)%bind_Returned.
  injection H as <-. reflexivity.
Qed.

Lemma YieldList_offset s :
  ∃ s', YieldList s = Returned (fParticleList s) s'
    ∧ if (PList.size (fParticleList s) =? 0)%nat then s' = s
      else ∃ M, highest_of (yielded_ids s) M
                ∧ s' = set_fTrackIDOffset (wrap32 (M + 1)) s.
Proof.
  unfold YieldList, yielded_ids.
  destruct (PList.size (fParticleList s) =? 0)%nat; cbn [negb].
  - by exists s.
  - eexists. split; [reflexivity|].
    destruct (fdroppedParticleList s) as [dl|].
    + eexists. split; [apply highest_of_two|reflexivity].
    + eexists. rewrite app_nil_r. split; [apply highest_of_one|reflexivity].
Qed.

(** ** The ancestor walk (C2) *)

(** A key that lies on a cycle is never left. *)
Lemma GetParentage_loop_cycle (m : gmap Z Z) (x v : Z) :
  m !! x = Some v -> reaches m v x ->
  ∀ fuel y a, reaches m y x -> GetParentage_loop fuel m y a = None.
Proof.
  intros Hx Hback fuel. induction fuel as [|fuel IH]; intros y a Hy; [reflexivity|].
  cbn. destruct Hy as [y|y w z Hyw Hwz].
  - rewrite Hx. by apply IH.
  - rewrite Hyw. by apply IH.
Qed.

(** A walk that never comes to [x] does not see whether [x] has an
    entry. *)
Lemma GetParentage_loop_delete (m : gmap Z Z) (x : Z) fuel y a :
  ¬ reaches m y x ->
  GetParentage_loop fuel (delete x m) y a = GetParentage_loop fuel m y a.
Proof.
  revert y a. induction fuel as [|fuel IH]; intros y a Hy; [reflexivity|].
  cbn. assert (y ≠ x) as Hne by (intros ->; apply Hy; constructor).
  rewrite lookup_delete_ne by done.
  destruct (m !! y) as [w|] eqn:Hw; [|reflexivity].
  apply IH. intros Hr. apply Hy. by econstructor.
Qed.

(** A walk that ends at all ends within [size m + 1] turns: the bound of
    [GetParentage] loses no terminating walk. *)
Lemma GetParentage_loop_bounded (m : gmap Z Z) fuel x a r :
  GetParentage_loop fuel m x a = Some r ->
  GetParentage_loop (S (size m)) m x a = Some r.
Proof.
  remember (size m) as k eqn:Hk.
  assert (size m ≤ k)%nat as Hle by lia. clear Hk.
  revert m Hle fuel x a. induction k as [|k IH]; intros m Hle fuel x a Hrun.
  - assert (m = ∅) as -> by (apply map_size_empty_iff; lia).
    destruct fuel; [discriminate|]. cbn in *. by rewrite lookup_empty in *.
  - destruct fuel as [|fuel]; [discriminate|]. cbn in Hrun.
    change (GetParentage_loop (S (S k)) m x a)
      with (match m !! x with
            | None => Some a
            | Some second => GetParentage_loop (S k) m second second
            end).
    destruct (m !! x) as [v|] eqn:Hx; [|exact Hrun].
    assert (¬ reaches m v x) as Hno.
    { intros Hr.
      pose proof (GetParentage_loop_cycle m x v Hx Hr fuel v v Hr) as Hn.
      rewrite Hn in Hrun. discriminate. }
    rewrite <- (GetParentage_loop_delete m x) by done.
    apply (IH _ ltac:(rewrite map_size_delete, Hx; lia) fuel).
    by rewrite GetParentage_loop_delete.
Qed.

(** [parentage] gives up only on a walk that never ends. *)
Lemma parentage_None (m : gmap Z Z) (trackid : Z) :
  parentage m trackid = None
  ↔ ∀ fuel, GetParentage_loop fuel m trackid NoParticleId = None.
Proof.
  split; [|intros H; apply H].
  intros Hnone fuel.
  destruct (GetParentage_loop fuel m trackid NoParticleId) as [r|] eqn:Hr; [|done].
  apply GetParentage_loop_bounded in Hr. unfold parentage in Hnone. congruence.
Qed.

Lemma causal_no_return (m : gmap Z Z) (x y : Z) :
  causal m -> reaches m y x -> x <= y.
Proof.
  intros Hc Hr. induction Hr as [y|y w z Hyw _ IH]; [lia|].
  apply Hc in Hyw. lia.
Qed.

Lemma causal_delete (m : gmap Z Z) (x : Z) : causal m -> causal (delete x m).
Proof.
  intros Hc k v Hk. apply lookup_delete_Some in Hk as [_ Hk]. by apply Hc in Hk.
Qed.

(** On a causal map the walk ends from every track ID. *)
Lemma causal_parentage (m : gmap Z Z) (trackid a : Z) :
  causal m -> ∃ r, GetParentage_loop (S (size m)) m trackid a = Some r.
Proof.
  remember (size m) as k eqn:Hk.
  assert (size m ≤ k)%nat as Hle by lia. clear Hk.
  revert m Hle trackid a. induction k as [|k IH]; intros m Hle x a Hc.
  - assert (m = ∅) as -> by (apply map_size_empty_iff; lia).
    cbn. rewrite lookup_empty. eauto.
  - change (GetParentage_loop (S (S k)) m x a)
      with (match m !! x with
            | None => Some a
            | Some second => GetParentage_loop (S k) m second second
            end).
    destruct (m !! x) as [v|] eqn:Hx; [|eauto].
    assert (¬ reaches m v x) as Hno.
    { intros Hr%(causal_no_return _ _ _ Hc). apply Hc in Hx. lia. }
    rewrite <- (GetParentage_loop_delete m x) by done.
    apply IH; [rewrite map_size_delete, Hx; lia|by apply causal_delete].
Qed.

Lemma excluded_identity_known (pl : ParticleList) (ancestor : Z) :
  excluded_identity pl ancestor = NoParticleId
  ∨ PList.KnownParticle pl (excluded_identity pl ancestor) = true.
Proof.
  unfold excluded_identity.
  destruct (PList.KnownParticle pl (wrap32 (-1 * ancestor))) eqn:Hk; cbn; auto.
Qed.

(** The admission of a track that the exclusion filter drops and the
    energy cut lets through. *)
Lemma preUserTrackingAction_excluded track s pn q s' :
  GetPrimaryParticle track = None ->
  GetCreatorProcess track = Some pn ->
  excluded_by (config s) pn = Some q ->
  below_energyCut track s = false ->
  final_state (preUserTrackingAction track s) = Some s' ->
  ∃ a, parentage (<[trackID_of track s := parentID_of track s]> (fParentIDMap s))
         (trackID_of track s) = Some a
       ∧ fCurrentTrackID s' = excluded_identity (fParticleList s) a
       ∧ fTargetIDMap s' !! trackID_of track s
         = Some (excluded_identity (fParticleList s) a)
       ∧ fParticleList s' = fParticleList s
       ∧ fdroppedTracksMap s'
         = insert_dropped a (trackID_of track s) (fdroppedTracksMap s)
       ∧ fParentIDMap s'
         = <[trackID_of track s := parentID_of track s]> (fParentIDMap s).
Proof.
  intros Hpp Hcp Hex Hcut.
  unfold preUserTrackingAction. rewrite Hpp, Hcp. unfold admitSecondary.
  state_simpl. fold (trackID_of track s) (parentID_of track s).
  fold (entered track s). rewrite processExclusion_eq.
  change (config (entered track s)) with (config s). rewrite Hex.
  change (fParentIDMap (entered track s)) with (fParentIDMap s).
  destruct (parentage _ _) as [a|]; [|discriminate]. cbn [bind].
  set (s1 := excluded_state _ _ a q _).
  fold (below_energyCut track s1).
  change (below_energyCut track s1) with (below_energyCut track s). rewrite Hcut.
  intros Hfin. exists a. split; [reflexivity|].
  destruct (resolveParent _ _ s1) as [parent s2|e s2|w s2|] eqn:Hres;
    cbn [bind] in Hfin; try discriminate.
  2,3: unfold resolveParent in Hres; destruct (_ && _); try discriminate;
       rewrite GetParentage_parentage in Hres; destruct (parentage _ _);
       cbn [bind] in Hres; try discriminate; destruct (_ && _); discriminate.
  assert (fCurrentTrackID s2 = excluded_identity (fParticleList s) a
          ∧ fTargetIDMap s2 !! trackID_of track s
            = Some (excluded_identity (fParticleList s) a)
          ∧ fParticleList s2 = fParticleList s
          ∧ fdroppedTracksMap s2
            = insert_dropped a (trackID_of track s) (fdroppedTracksMap s)
          ∧ fParentIDMap s2
            = <[trackID_of track s := parentID_of track s]> (fParentIDMap s)) as H2.
  { apply resolveParent_Returned in Hres as [-> | ->]; subst s1;
      unfold excluded_state, entered; state_simpl;
      rewrite ?insert_insert_eq, lookup_insert_eq; done. }
  destruct H2 as (Hid & Htg & Hpl & Hdr & Hpm).
  destruct (fMCTIndexMap s2 !! parent) as [index|].
  - destruct (subscript false parent (fMCTPrimProcessKeepMap s2)) as [flag mk].
    match type of Hfin with context [createParticle ?t ?i ?c ?n ?m ?pi ?pmi ?f ?ns ?st] =>
      destruct (createParticle_spec t i c n m pi pmi f ns st)
        as (s'' & Hc & _ & _ & _ & _ & Hl & _ & _ & _ & _ & Hp & Ht & Hcur & Hd & _) end.
    rewrite Hc in Hfin. injection Hfin as <-.
    rewrite Hcur, Ht, Hd, Hl, Hp. state_simpl. rewrite orb_true_r. done.
  - injection Hfin as <-. done.
Qed.

(** C2, as the code has it.  On a map in causal order the ancestor walk
    ends from every track ID, within [size m + 1] look-ups.  For a track
    that the process-exclusion filter drops and the energy cut lets
    through, the identity left in [fCurrentTrackID] and in the track's
    entry of [fTargetIDMap] is the 'no particle' sentinel or the negated
    ancestor ID, and in the second case the retained list knows it. *)
Theorem ancestor_walk_on_causal_map :
  (∀ m trackid, causal m ->
     ∃ r, parentage m trackid = Some r ∧ GetParentage_terminates m trackid r)
  ∧ (∀ track s process_name s',
       GetPrimaryParticle track = None ->
       GetCreatorProcess track = Some process_name ->
       is_Some (excluded_by (config s) process_name) ->
       below_energyCut track s = false ->
       final_state (preUserTrackingAction track s) = Some s' ->
       ∃ ancestor identity,
         parentage (fParentIDMap s') (trackID_of track s) = Some ancestor
         ∧ fCurrentTrackID s' = identity
         ∧ fTargetIDMap s' !! trackID_of track s = Some identity
         ∧ (identity = NoParticleId
            ∨ identity = wrap32 (-1 * ancestor)
              ∧ PList.KnownParticle (fParticleList s') identity = true)).
Proof.
  split.
  - intros m trackid Hc.
    destruct (causal_parentage m trackid NoParticleId Hc) as [r Hr].
    exists r. split; [exact Hr|]. by exists (S (size m)).
  - intros track s pn s' Hpp Hcp [q Hq] Hcut Hfin.
    destruct (preUserTrackingAction_excluded track s pn q s' Hpp Hcp Hq Hcut Hfin)
      as (a & Ha & Hid & Htg & Hpl & _ & Hpm).
    exists a, (excluded_identity (fParticleList s) a).
    split; [by rewrite Hpm|]. split; [exact Hid|]. split; [exact Htg|].
    rewrite Hpl. unfold excluded_identity.
    destruct (PList.KnownParticle (fParticleList s) (wrap32 (-1 * a))) eqn:Hk;
      cbn; auto.
Qed.

(** The walk does not end on a track entered as its own parent, and the
    admission of such a track by the exclusion filter never returns.
    After a primary track 1 whose final step no process defined (so that
    it is erased), its daughter 2 under the energy cut is given the
    identity -1, which is neither the sentinel nor known to the retained
    list. *)
Lemma ancestor_walk_counterexample :
  (∀ fuel, GetParentage_loop fuel {[1 := 1]} 1 NoParticleId = None)
  ∧ preUserTrackingAction (secondary_track 1 1 22 "phot" 1)
      (new_event no_shower_daughters) = Diverges
  ∧ let s := state_after (processOneTrack keep_all_points
                            (primary_track 1 "primary" 1,
                             [after_step None (primary_track 1 "primary" 1)])
                            (new_event energy_cut_1))
               (new_event energy_cut_1) in
    let s' := state_after (preUserTrackingAction
                             (secondary_track 2 1 11 "eIoni" 0x1p-1) s) s in
    preUserTrackingAction (secondary_track 2 1 11 "eIoni" 0x1p-1) s = Returned tt s'
    ∧ fCurrentTrackID s' = -1
    ∧ fTargetIDMap s' !! 2 = Some (-1)
    ∧ -1 ≠ NoParticleId
    ∧ PList.KnownParticle (fParticleList s') (-1) = false.
Proof.
  split; [|split].
  - intros fuel.
    apply (GetParentage_loop_cycle {[1 := 1]} 1 1); [reflexivity|constructor..].
  - vm_compute. reflexivity.
  - intros s s'. split_and!; try (vm_compute; reflexivity). discriminate.
Qed.

Lemma ancestor_walk_on_causal_map_witness :
  let m : gmap Z Z := <[3 := 2]> (<[2 := 1]> ∅) in
  let s := state_after (processOneTrack keep_all_points
                          (primary_track 1 "primary" 1,
                           [after_step (Some "Transportation"%string)
                              (primary_track 1 "primary" 1)])
                          (new_event no_shower_daughters))
             (new_event no_shower_daughters) in
  let photon := secondary_track 2 1 22 "phot" 1 in
  parentage m 3 = Some 1
  ∧ ∃ s', preUserTrackingAction photon s = Returned tt s'
          ∧ fTargetIDMap s' !! 2 = Some (-1)
          ∧ PList.KnownParticle (fParticleList s') (-1) = true.
Proof.
  intros m s photon.
  destruct ancestor_walk_on_causal_map as [Hwalk Hid].
  split.
  - destruct (Hwalk m 3) as (r & Hr & _).
    { intros k v. unfold m. intros Hk.
      apply lookup_insert_Some in Hk as [[<- <-]|[_ Hk]]; [lia|].
      apply lookup_insert_Some in Hk as [[<- <-]|[_ Hk]]; [lia|].
      by rewrite lookup_empty in Hk. }
    rewrite Hr. vm_compute in Hr. symmetry. exact Hr.
  - exists (state_after (preUserTrackingAction photon s) s).
    split; [vm_compute; reflexivity|].
    destruct (Hid photon s "phot"%string
                (state_after (preUserTrackingAction photon s) s)
                eq_refl eq_refl ltac:(vm_compute; eauto)
                ltac:(vm_compute; reflexivity) ltac:(vm_compute; reflexivity))
      as (a & id & Ha & _ & Htg & Hk).
    split; vm_compute; reflexivity.
Defined.


(** ** Trajectory samples (C5) *)

Lemma set_heap_same s : set_heap (heap s) s = s.
Proof. by destruct s. Qed.

Lemma alter_insert {A} (f : A -> A) (l : list A) (i : nat) (a : A) :
  l !! i = Some a -> alter f i l = <[i := f a]> l.
Proof.
  revert i. induction l as [|b l IH]; intros [|i]; cbn; try done.
  - by intros [= ->].
  - intros H. f_equal. by apply IH.
Qed.

Lemma through_insert p f s rec :
  deref p s = Some rec ->
  through p f s = set_heap (<[p := f rec]> (heap s)) s.
Proof. intros H. unfold through. by rewrite (alter_insert _ _ _ _ H). Qed.

Lemma deref_set_heap_insert p rec h s :
  (p < length h)%nat -> deref p (set_heap (<[p := rec]> h) s) = Some rec.
Proof. intros H. unfold deref. state_simpl. by apply list_lookup_insert_eq. Qed.

Lemma step_result_process trk :
  GetProcessDefinedStep (GetPostStepPoint (GetStep (step_result trk)))
  = GetProcessDefinedStep (GetPostStepPoint (GetStep trk)).
Proof.
  unfold step_result.
  destruct (GetProcessDefinedStep (GetPostStepPoint (GetStep trk))) eqn:H;
    [|exact H].
  unfold fix_step_time. destruct (_ && _); exact H.
Qed.

Lemma userSteppingAction_active trk s p rec :
  particle (fCurrentParticle s) = Some p ->
  deref p s = Some rec ->
  userSteppingAction trk s =
    Returned (step_result trk)
      (set_heap (<[p := stepped (config s) (keepFullTrajectory (fCurrentParticle s))
                           trk rec]> (heap s)) s).
Proof.
  intros Hp Hrec. unfold userSteppingAction, step_result, stepped.
  rewrite Hp. destruct (GetProcessDefinedStep _) as [process|].
  2:{ rewrite list_insert_id by exact Hrec. by rewrite set_heap_same. }
  rewrite Hrec. unfold AddPointToCurrentParticle.
  assert (p < length (heap s))%nat as Hlt by (eapply lookup_lt_Some; exact Hrec).
  destruct (NumberTrajectoryPoints rec =? 0)%nat.
  - rewrite (through_insert _ _ _ _ Hrec). state_simpl.
    destruct (_ && _).
    + erewrite through_insert by (by apply deref_set_heap_insert).
      state_simpl. by rewrite list_insert_insert_eq.
    + reflexivity.
  - destruct (_ && _).
    + by rewrite (through_insert _ _ _ _ Hrec).
    + rewrite list_insert_id by exact Hrec. by rewrite set_heap_same.
Qed.

Lemma stepping_active steps last s p rec :
  particle (fCurrentParticle s) = Some p ->
  deref p s = Some rec ->
  stepping steps last s =
    Returned (last_step steps last)
      (set_heap (<[p := foldl (λ r trk, stepped (config s)
                                (keepFullTrajectory (fCurrentParticle s)) trk r)
                          rec steps]> (heap s)) s).
Proof.
  revert last s rec. induction steps as [|trk steps IH]; intros last s rec Hp Hrec.
  - cbn. rewrite list_insert_id by exact Hrec. by rewrite set_heap_same.
  - cbn [stepping]. rewrite (userSteppingAction_active _ _ _ _ Hp Hrec). cbn [bind].
    assert (p < length (heap s))%nat as Hlt by (eapply lookup_lt_Some; exact Hrec).
    erewrite IH; [|exact Hp|by apply deref_set_heap_insert].
    state_simpl. by rewrite list_insert_insert_eq.
Qed.

Lemma postUserTrackingAction_defined Sparsify aTrack s p rec process :
  particle (fCurrentParticle s) = Some p ->
  deref p s = Some rec ->
  GetProcessDefinedStep (GetPostStepPoint (GetStep aTrack)) = Some process ->
  let rec' := ended Sparsify (config s) (keepFullTrajectory (fCurrentParticle s))
                aTrack process rec in
  postUserTrackingAction Sparsify (Some aTrack) s =
    Returned tt (truth_recorded rec' (set_heap (<[p := rec']> (heap s)) s)).
Proof.
  intros Hp Hrec Hproc rec'. subst rec'.
  assert (p < length (heap s))%nat as Hlt by (eapply lookup_lt_Some; exact Hrec).
  unfold postUserTrackingAction, ended, AddPointToCurrentParticle.
  rewrite Hp, Hrec, Hproc.
  rewrite (through_insert _ _ _ _ Hrec).
  rewrite deref_set_heap_insert by done.
  erewrite through_insert by (by apply deref_set_heap_insert). state_simpl.
  rewrite list_insert_insert_eq.
  unfold storeTruthRecord, truth_recorded.
  destruct (keepFullTrajectory (fCurrentParticle s)); cbn [negb].
  - destruct (fSparsifyTrajectories (config s)).
    + erewrite through_insert by (by apply deref_set_heap_insert). state_simpl.
      rewrite list_insert_insert_eq.
      destruct (isPrimary _); [|reflexivity].
      rewrite deref_set_heap_insert by done. reflexivity.
    + destruct (isPrimary _); [|reflexivity].
      rewrite deref_set_heap_insert by done. reflexivity.
  - erewrite through_insert by (by apply deref_set_heap_insert). state_simpl.
    rewrite list_insert_insert_eq.
    destruct (isPrimary _); [|reflexivity].
    rewrite deref_set_heap_insert by done. reflexivity.
Qed.

Lemma postUserTrackingAction_undefined Sparsify aTrack s p rec :
  particle (fCurrentParticle s) = Some p ->
  deref p s = Some rec ->
  GetProcessDefinedStep (GetPostStepPoint (GetStep aTrack)) = None ->
  postUserTrackingAction Sparsify (Some aTrack) s =
    Returned tt
      (discardCurrentParticle p (SetWeight (GetWeight aTrack) rec)
         (set_heap (<[p := SetWeight (GetWeight aTrack) rec]> (heap s)) s)).
Proof.
  intros Hp Hrec Hproc.
  assert (p < length (heap s))%nat as Hlt by (eapply lookup_lt_Some; exact Hrec).
  unfold postUserTrackingAction. rewrite Hp, Hrec, Hproc.
  rewrite (through_insert _ _ _ _ Hrec).
  by rewrite deref_set_heap_insert by done.
Qed.

(** The record keeps its track ID through the steps and the end. *)
Lemma TrackId_stepped c keep trk rec : TrackId (stepped c keep trk rec) = TrackId rec.
Proof.
  unfold stepped. destruct (GetProcessDefinedStep _); [|reflexivity].
  destruct (_ =? _)%nat; destruct (_ && _); reflexivity.
Qed.

Lemma TrackId_foldl_stepped c keep steps rec :
  TrackId (foldl (λ r trk, stepped c keep trk r) rec steps) = TrackId rec.
Proof.
  revert rec. induction steps as [|t steps IH]; intros rec; [reflexivity|].
  cbn. by rewrite IH, TrackId_stepped.
Qed.

Lemma TrackId_ended Sparsify c keep aTrack process rec :
  TrackId (ended Sparsify c keep aTrack process rec) = TrackId rec.
Proof.
  unfold ended. destruct keep; cbn [negb]; [destruct (fSparsifyTrajectories c)|];
    reflexivity.
Qed.

Lemma stepped_keepless c trk rec :
  Trajectory rec = [] ∨ start_only rec ->
  let rec' := stepped c false trk rec in
  (Trajectory rec' = [] ∨ start_only rec')
  ∧ (is_Some (GetProcessDefinedStep (GetPostStepPoint (GetStep trk))) ->
     start_only rec').
Proof.
  intros H. unfold stepped.
  destruct (GetProcessDefinedStep _) as [process|]; cbn zeta.
  2:{ split; [exact H|]. by intros [? ?]. }
  rewrite andb_false_r.
  destruct H as [H|(a & H & Ha)].
  - unfold NumberTrajectoryPoints. rewrite H. cbn.
    assert (start_only (AddTrajectoryPoint
              (fourPos (GetPreStepPoint (GetStep (fix_step_time trk))))
              (fourMom (GetPreStepPoint (GetStep (fix_step_time trk))))
              "Start" (fKeepTransportation c) rec)) as Hs.
    { eexists. cbn. rewrite H. cbn. split; reflexivity. }
    split; [by right|done].
  - unfold NumberTrajectoryPoints. rewrite H. cbn.
    assert (start_only rec) by (by exists a). split; [by right|done].
Qed.

Lemma foldl_stepped_keepless c steps last rec :
  Trajectory rec = [] ∨ start_only rec ->
  let rec' := foldl (λ r trk, stepped c false trk r) rec steps in
  (Trajectory rec' = [] ∨ start_only rec')
  ∧ (steps ≠ [] ->
     is_Some (GetProcessDefinedStep (GetPostStepPoint (GetStep (last_step steps last)))) ->
     start_only rec').
Proof.
  revert last rec. induction steps as [|t steps IH] using rev_ind; intros last rec H.
  - cbn. split; [exact H|done].
  - cbn zeta. rewrite foldl_snoc. unfold last_step. rewrite foldl_snoc.
    destruct (IH last rec H) as [IH1 _].
    destruct (stepped_keepless c t _ IH1) as [H1 H2].
    split; [exact H1|]. intros _. rewrite step_result_process. exact H2.
Qed.

Lemma EndProcess_stepped c keep trk rec :
  EndProcess (stepped c keep trk rec) = EndProcess rec.
Proof.
  unfold stepped. destruct (GetProcessDefinedStep _); [|reflexivity].
  destruct (_ =? _)%nat; destruct (_ && _); reflexivity.
Qed.

Lemma ended_keepless Sparsify c aTrack process rec :
  start_only rec ->
  start_and_end (ended Sparsify c false aTrack process rec).
Proof.
  intros (a & H & Ha). unfold ended, start_and_end. cbn.
  rewrite H. cbn. eexists _, _. split; [reflexivity|]. split; [exact Ha|reflexivity].
Qed.

(** One track from its record's creation to its end. *)
Lemma processOneTrack_created Sparsify track steps s s1 s3 p rec0 :
  preUserTrackingAction track s = Returned tt s1 ->
  particle (fCurrentParticle s1) = Some p ->
  deref p s1 = Some rec0 ->
  Trajectory rec0 = [] ->
  processOneTrack Sparsify (track, steps) s = Returned tt s3 ->
  ∃ r3, heap s3 = <[p := r3]> (heap s1)
    ∧ TrackId r3 = TrackId rec0
    ∧ config s3 = config s1
    ∧ fMCTIndexMap s3 = fMCTIndexMap s1
    ∧ fMCTPrimProcessKeepMap s3 = fMCTPrimProcessKeepMap s1
    ∧ fMCTIndexToGeneratorMap s3 = fMCTIndexToGeneratorMap s1
    ∧ (fParticleList s3 = fParticleList s1
       ∧ (takes_a_step (track, steps) ->
          keepFullTrajectory (fCurrentParticle s1) = false -> start_and_end r3)
       ∨ fParticleList s3 = PList.erase (TrackId rec0) (fParticleList s1)).
Proof.
  intros Hpre Hp Hrec Htraj. unfold processOneTrack. cbn [fst snd].
  rewrite Hpre. cbn [bind].
  rewrite (stepping_active steps track s1 p rec0 Hp Hrec). cbn [bind].
  assert (p < length (heap s1))%nat as Hlt by (eapply lookup_lt_Some; exact Hrec).
  set (c := config s1). set (keep := keepFullTrajectory (fCurrentParticle s1)).
  set (r := foldl (λ r trk, stepped c keep trk r) rec0 steps).
  set (s2 := set_heap (<[p := r]> (heap s1)) s1).
  assert (deref p s2 = Some r) as Hr by (by apply deref_set_heap_insert).
  assert (TrackId r = TrackId rec0) as Hid by apply TrackId_foldl_stepped.
  destruct (GetProcessDefinedStep (GetPostStepPoint (GetStep (last_step steps track))))
    as [process|] eqn:Hproc.
  - rewrite (postUserTrackingAction_defined Sparsify _ s2 p r process Hp Hr Hproc).
    cbn zeta. intros [= <-].
    change (config s2) with c. change (keepFullTrajectory (fCurrentParticle s2)) with keep.
    set (r3 := ended Sparsify c keep (last_step steps track) process r).
    exists r3. unfold truth_recorded.
    assert (TrackId r3 = TrackId rec0) as Hid3
      by (unfold r3; by rewrite TrackId_ended).
    assert (takes_a_step (track, steps) -> keep = false -> start_and_end r3) as Hse.
    { intros Hstep Hk. unfold r3. rewrite Hk. apply ended_keepless.
      destruct (foldl_stepped_keepless c steps track rec0 (or_introl Htraj)) as [_ Hs].
      unfold r. rewrite Hk. apply Hs; [|by rewrite Hproc].
      intros ->. destruct Hstep as [Hstep|Hstep]; [done|].
      cbn in Hstep, Hproc. congruence. }
    destruct (isPrimary _); subst s2; state_simpl;
      rewrite list_insert_insert_eq; split_and!; try done; by left.
  - rewrite (postUserTrackingAction_undefined Sparsify _ s2 p r Hp Hr Hproc).
    intros [= <-]. exists (SetWeight (GetWeight (last_step steps track)) r).
    unfold discardCurrentParticle. subst s2. state_simpl.
    destruct (negb _); state_simpl; rewrite list_insert_insert_eq;
      split_and!; try done; right; by rewrite <- Hid.
Qed.

Lemma wrap32_range (z : Z) : int_range (wrap32 z).
Proof.
  unfold int_range, wrap32.
  pose proof (Z.mod_pos_bound (z + 2 ^ 31) (2 ^ 32) ltac:(lia)). lia.
Qed.

Lemma erase_nonneg (k : Z) (pl : ParticleList) :
  0 <= k -> int_range k ->
  m_particleList (PList.erase k pl) = delete k (m_particleList pl).
Proof.
  intros H0 Hr. unfold PList.erase. cbn.
  by rewrite Z.abs_eq, wrap32_id by done.
Qed.

Lemma keepFull_of_eq s s' k i f :
  fMCTIndexMap s !! k = Some i ->
  fMCTPrimProcessKeepMap s !! k = Some f ->
  fMCTIndexMap s' !! k = Some i ->
  fMCTPrimProcessKeepMap s' !! k = Some f ->
  config s' = config s ->
  (∀ j, storable s' j = storable s j) ->
  keepFull_of s' k = keepFull_of s k.
Proof.
  intros H1 H2 H3 H4 Hc Hs. unfold keepFull_of.
  by rewrite H1, H2, H3, H4, Hc, Hs.
Qed.

(** The invariant only reads the retained list, the records it points
    to, the configuration and the truth maps. *)
Lemma records_invariant_frame pl s s' :
  records_invariant pl s ->
  (∀ q rec, heap s !! q = Some rec -> heap s' !! q = Some rec) ->
  config s' = config s ->
  fMCTIndexMap s ⊆ fMCTIndexMap s' ->
  fMCTPrimProcessKeepMap s ⊆ fMCTPrimProcessKeepMap s' ->
  (∀ j, storable s' j = storable s j) ->
  records_invariant pl s'.
Proof.
  intros Hinv Hh Hc Hi Hf Hs k op Hk.
  destruct (Hinv k op Hk) as (p & rec & -> & Hp & Hid & [i Hi1] & [f Hf1] & Htwo).
  exists p, rec. split; [done|]. split; [by apply Hh|]. split; [done|].
  pose proof (lookup_weaken _ _ _ _ Hi1 Hi) as Hi2.
  pose proof (lookup_weaken _ _ _ _ Hf1 Hf) as Hf2.
  split; [by eexists|]. split; [by eexists|].
  by rewrite (keepFull_of_eq s s' k i f).
Qed.

(** The invariant survives a track whose ID is not negative and not yet
    in the retained list. *)
Lemma retained_invariant_track Sparsify track steps s s3 :
  retained_invariant s ->
  processOneTrack Sparsify (track, steps) s = Returned tt s3 ->
  takes_a_step (track, steps) ->
  0 <= trackID_of track s ->
  m_particleList (fParticleList s) !! trackID_of track s = None ->
  retained_invariant s3
  ∧ ∀ k, is_Some (m_particleList (fParticleList s3) !! k) ->
         k = trackID_of track s ∧ ¬ cut_by_energy track s
         ∨ is_Some (m_particleList (fParticleList s) !! k).
Proof.
  intros Hinv Hrun Hstep H0 Hfresh.
  set (tid := trackID_of track s) in *.
  assert (int_range tid) as Hrange by apply wrap32_range.
  pose proof Hrun as Hrun0. unfold processOneTrack in Hrun0. cbn [fst snd] in Hrun0.
  apply bind_Returned in Hrun0 as ([] & s1 & Hpre & Hrest).
  pose proof Hpre as Hpre0.
  apply preUserTrackingAction_Returned in Hpre0 as [Hc|Hc].
  - (* a record was created *)
    destruct Hc as (s0 & pn & parentID & pi & pmi & flag & notstore & Hc & Hf
                    & Hnocut & _).
    match type of Hc with createParticle ?t ?i ?c ?n ?m ?pi ?pmi ?f ?ns ?st = _ =>
      destruct (createParticle_spec t i c n m pi pmi f ns st)
        as (s'' & Hc' & Hslot & Hheap & Hidx & Hflag & Hlist & _ & Hcfg & _ & _ & _
            & _ & _ & _ & _ & Hsto) end.
    rewrite Hc in Hc'. injection Hc' as <-. fold tid in Hc, Hheap, Hidx, Hflag, Hlist.
    destruct Hf as (Hcfg0 & _ & Hheap0 & _ & Hlist0 & _ & _ & Hidx0 & Hgen0 & _ & Hflag0).
    set (p := length (heap s0)) in *.
    set (rec0 := created track tid (GetPDGEncoding track) pn parentID) in *.
    assert (length (heap s) = p) as Hlen by (unfold p; by rewrite Hheap0).
    assert (deref p s1 = Some rec0) as Hrec0.
    { unfold deref. rewrite Hheap. by rewrite lookup_app_r, Nat.sub_diag. }
    destruct (processOneTrack_created Sparsify track steps s s1 s3 p rec0 Hpre
                ltac:(by rewrite Hslot) Hrec0 eq_refl Hrun)
      as (r3 & Hh3 & Hid3 & Hc3 & Hi3 & Hf3 & Hg3 & Hl3).
    change (TrackId rec0) with tid in *.
    assert (∀ j, storable s3 j = storable s j) as Hsto3.
    { intros j. unfold storable. rewrite Hg3. fold (storable s1 j).
      rewrite Hsto. unfold storable. by rewrite Hgen0. }
    assert (config s3 = config s) as Hcfg3 by congruence.
    assert (m_particleList (fParticleList s3) !! tid = None
            ∨ m_particleList (fParticleList s3) !! tid = Some (Some p)
              ∧ fParticleList s3 = fParticleList s1) as Htid.
    { destruct Hl3 as [[Hl3 _]|Hl3].
      - rewrite Hl3, Hlist, Hlist0.
        destruct (_ || _); [left; done|right].
        split; [|reflexivity]. cbn. by rewrite lookup_insert_eq.
      - left. rewrite Hl3, erase_nonneg by done. by rewrite lookup_delete_eq. }
    assert (∀ k, k ≠ tid ->
              m_particleList (fParticleList s3) !! k
              = m_particleList (fParticleList s) !! k
              ∨ m_particleList (fParticleList s3) !! k = None) as Hother.
    { intros k Hk. destruct Hl3 as [[Hl3 _]|Hl3]; rewrite Hl3.
      - left. rewrite Hlist, Hlist0. destruct (_ || _); [done|].
        cbn. by rewrite lookup_insert_ne.
      - left. rewrite erase_nonneg by done. rewrite lookup_delete_ne by done.
        rewrite Hlist, Hlist0. destruct (_ || _); [done|].
        cbn. by rewrite lookup_insert_ne. }
    split.
    + intros k op Hk. destruct (decide (k = tid)) as [->|Hne].
      * destruct Htid as [Htid|[Htid Hsame]]; [congruence|].
        rewrite Htid in Hk. injection Hk as <-.
        exists p, r3. split; [done|].
        split. { rewrite Hh3. apply list_lookup_insert_eq. rewrite Hheap, length_app. cbn. lia. }
        split; [done|].
        split. { rewrite Hi3, Hidx, lookup_insert_eq. by eexists. }
        split. { rewrite Hf3, Hflag, lookup_insert_eq. by eexists. }
        intros Hkeep. destruct Hl3 as [[_ Hl3]|Hl3].
        2:{ rewrite Hl3, erase_nonneg, lookup_delete_eq in Htid by done. discriminate. }
        apply Hl3; [exact Hstep|]. rewrite Hslot. cbn.
        unfold keepFull_of in Hkeep.
        rewrite Hi3, Hf3, Hidx, Hflag, !lookup_insert_eq in Hkeep. cbn in Hkeep.
        rewrite Hc3, Hcfg in Hkeep.
        rewrite <- Hkeep. f_equal. unfold storable. by rewrite Hg3.
      * destruct (Hother k Hne) as [Hsame|Hnone]; [|congruence].
        rewrite Hsame in Hk.
        destruct (Hinv k op Hk) as (q & rec & -> & Hq & Hid & [i Hi1] & [f Hf1] & Htwo).
        assert (q < p)%nat as Hqp by (rewrite <- Hlen; by eapply lookup_lt_Some).
        exists q, rec. split; [done|].
        split. { rewrite Hh3, list_lookup_insert_ne by lia.
                 rewrite Hheap, Hheap0. by rewrite lookup_app_l by lia. }
        split; [done|].
        assert (fMCTIndexMap s3 !! k = Some i) as Hi2.
        { by rewrite Hi3, Hidx, lookup_insert_ne, Hidx0 by done. }
        assert (fMCTPrimProcessKeepMap s3 !! k = Some f) as Hf2.
        { rewrite Hf3, Hflag, lookup_insert_ne by done.
          by eapply lookup_weaken. }
        split; [by eexists|]. split; [by eexists|].
        by rewrite (keepFull_of_eq s s3 k i f).
    + intros k Hk. destruct (decide (k = tid)) as [->|Hne].
      { left. split; [done|]. intros [Hpp Hcut]. rewrite Hnocut in Hcut; done. }
      right. destruct (Hother k Hne) as [Hsame|Hnone]; [by rewrite <- Hsame|].
      rewrite Hnone in Hk. by destruct Hk.
  - (* the energy cut dropped the track *)
    subst tid.
    destruct Hc as (Hpp & Hcut & s0 & a0 & a & -> & _ & Hf).
    pose proof (processOneTrack_below_cut Sparsify track steps s Hpp Hcut) as Hb.
    rewrite Hrun in Hb. destruct Hb as (Hl & Hh & _).
    assert (s3 = cut_state (trackID_of track s) (parentID_of track s) a0 a s0) as ->.
    { destruct (stepping_idle steps track
                  (cut_state (trackID_of track s) (parentID_of track s) a0 a s0)
                  eq_refl) as [last Hst].
      cbn beta in Hrest. rewrite Hst in Hrest. cbn [bind] in Hrest.
      rewrite postUserTrackingAction_idle in Hrest by reflexivity. congruence. }
    destruct Hf as (Hcfg0 & _ & Hheap0 & _ & Hlist0 & _ & _ & Hidx0 & Hgen0 & _ & Hflag0).
    split.
    + unfold retained_invariant. rewrite Hl.
      apply (records_invariant_frame _ s); try done.
      * intros q rec. by rewrite Hh.
      * unfold cut_state. state_simpl. by rewrite Hidx0.
      * intros j. unfold storable, cut_state. state_simpl. by rewrite Hgen0.
    + intros k Hk. right. by rewrite <- Hl.
Qed.

(** The invariant over the tracks of an event. *)
Lemma retained_invariant_tracks Sparsify tracks (ids : list Z) s s' :
  retained_invariant s ->
  fTrackIDOffset s = 0 ->
  (∀ k, is_Some (m_particleList (fParticleList s) !! k) -> k ∈ ids) ->
  NoDup ((GetTrackID ∘ fst <$> tracks) ++ ids) ->
  Forall (λ t, 0 <= GetTrackID t.1 < 2 ^ 31) tracks ->
  Forall takes_a_step tracks ->
  for_each (processOneTrack Sparsify) tracks s = Returned tt s' ->
  retained_invariant s'
  ∧ ∀ k, is_Some (m_particleList (fParticleList s') !! k) ->
         k ∈ ids
         ∨ ∃ t, t ∈ tracks ∧ GetTrackID t.1 = k ∧ ¬ cut_by_energy t.1 s.
Proof.
  revert ids s. induction tracks as [|[track steps] tracks IH];
    intros ids s Hinv Hoff Hkeys Hnd Hrange Hsteps; cbn [for_each].
  - intros [= <-]. split; [done|]. intros k Hk. left. by apply Hkeys.
  - intros ([] & s1 & Hrun & Hrest)%bind_Returned.
    apply Forall_cons in Hrange as [Hr Hrange].
    apply Forall_cons in Hsteps as [Hst Hsteps].
    cbn in Hr. cbn [fmap list_fmap compose fst app] in Hnd.
    change (list_fmap _ _ (GetTrackID ∘ fst) tracks)
      with ((GetTrackID ∘ fst) <$> tracks) in Hnd.
    apply NoDup_cons in Hnd as [Hnew Hnd].
    assert (trackID_of track s = GetTrackID track) as Htid.
    { unfold trackID_of. rewrite Hoff, Z.add_0_r. apply wrap32_id.
      unfold int_range. lia. }
    destruct (retained_invariant_track Sparsify track steps s s1 Hinv Hrun Hst)
      as [Hinv1 Hkeys1].
    { rewrite Htid. lia. }
    { rewrite Htid.
      destruct (m_particleList (fParticleList s) !! GetTrackID track) eqn:Hl; [|done].
      exfalso. apply Hnew. apply elem_of_app. right. apply Hkeys. by eexists. }
    pose proof (processOneTrack_session _ _ _ _ Hrun) as (Hcfg1 & _ & Ho).
    set (kept := λ k, k = GetTrackID track ∧ ¬ cut_by_energy track s).
    destruct (IH (filter kept [GetTrackID track] ++ ids) s1) as [Hinv' Hkeys']; try done.
    + congruence.
    + intros k Hk. apply elem_of_app. apply Hkeys1 in Hk as [[-> Hk]|Hk].
      * left. apply list_elem_of_filter. rewrite Htid. split; [done|by left].
      * right. by apply Hkeys.
    + apply NoDup_app in Hnd as (Hnd1 & Hnd2 & Hnd3).
      apply NoDup_app. split; [exact Hnd1|]. split.
      * intros k Hk1 [Hk2|Hk2]%elem_of_app.
        -- apply list_elem_of_filter in Hk2 as [[-> _] _].
           apply Hnew. apply elem_of_app. by left.
        -- by apply (Hnd2 k).
      * apply NoDup_app. split; [apply NoDup_filter, NoDup_singleton|].
        split; [|exact Hnd3].
        intros k [[-> _] _]%list_elem_of_filter Hk2.
        apply Hnew. apply elem_of_app. by right.
    + split; [exact Hinv'|]. intros k Hk.
      destruct (Hkeys' k Hk) as [[Hin|Hin]%elem_of_app|(t & Ht & Hid & Hnc)].
      * apply list_elem_of_filter in Hin as [[-> Hnc] _].
        right. exists (track, steps). split; [by left|]. done.
      * by left.
      * right. exists t. split; [by right|]. split; [done|].
        intros [Hpp Hcut]. apply Hnc. split; [done|].
        unfold below_energyCut in *. by rewrite Hcfg1.
Qed.

(** ** The end of the event *)

Lemma elem_of_entries (pl : ParticleList) (k : Z) (op : option nat) :
  (k, op) ∈ PList.entries pl -> m_particleList pl !! k = Some op.
Proof.
  unfold PList.entries. intros (k' & _ & Hk)%list_elem_of_omap.
  destruct (m_particleList pl !! k') as [v|] eqn:Hv; [|discriminate].
  cbn in Hk. by injection Hk as -> ->.
Qed.

Lemma for_each_invariant {K} (P : State -> Prop) (f : K -> State -> Outcome unit)
    (l : list K) s s' :
  (∀ k s s', k ∈ l -> P s -> f k s = Returned tt s' -> P s') ->
  P s -> for_each f l s = Returned tt s' -> P s'.
Proof.
  revert s. induction l as [|k l IH]; intros s Hf HP; cbn.
  - by intros [= <-].
  - intros ([] & s1 & H1 & H2)%bind_Returned.
    apply (IH s1); [|eapply Hf; [by left|exact HP|exact H1]|exact H2].
    intros k' s0 s0' Hk'. apply Hf. by right.
Qed.

Lemma collecting_frame pl s s' :
  collecting pl s ->
  (∀ q rec, heap s !! q = Some rec -> heap s' !! q = Some rec) ->
  config s' = config s ->
  fMCTIndexMap s ⊆ fMCTIndexMap s' ->
  fMCTPrimProcessKeepMap s ⊆ fMCTPrimProcessKeepMap s' ->
  (∀ j, storable s' j = storable s j) ->
  partCol_ s' = partCol_ s ->
  collecting pl s'.
Proof.
  intros [Hinv Hcol] Hh Hc Hi Hf Hs Hp. split.
  - by apply (records_invariant_frame pl s).
  - intros rec Hrec. rewrite Hp in Hrec.
    destruct (Hcol rec Hrec) as ([H1 H2] & [i Hi1] & [f Hf1] & Hkey).
    pose proof (lookup_weaken _ _ _ _ Hi1 Hi) as Hi2.
    pose proof (lookup_weaken _ _ _ _ Hf1 Hf) as Hf2.
    split; [|split; [by eexists|split; [by eexists|exact Hkey]]].
    split; [done|]. by rewrite (keepFull_of_eq s s' _ i f).
Qed.

Lemma collectParticle_collecting pl mcl m n entry s s' :
  entry ∈ PList.entries pl ->
  collecting pl s ->
  collectParticle mcl m n entry s = Returned tt s' ->
  collecting pl s'.
Proof.
  destruct entry as [k op]. intros Hin%elem_of_entries [Hinv Hcol].
  destruct (Hinv k op Hin) as (p & rec & -> & Hp & Hid & [i Hi] & [f Hf] & Htwo).
  unfold collectParticle, deref. cbn [snd mbind option_bind]. rewrite Hp.
  unfold subscript. rewrite Hid, Hi.
  assert (collecting pl (set_fMCTIndexMap (fMCTIndexMap s) s)) as Hbase.
  { apply (collecting_frame pl s); done. }
  destruct (negb (i =? n)%N); [by intros [= <-]|].
  destruct (Nat.eqb_spec (NumberTrajectoryPoints rec) 0) as [|Hn]; [discriminate|].
  state_simpl.
  destruct (_ && _); [discriminate|]. intros [= <-].
  destruct Hbase as [Hinv' Hcol']. split.
  - apply (records_invariant_frame pl s); done.
  - state_simpl. intros r [Hr|Hr%list_elem_of_singleton]%elem_of_app; [|subst r].
    + destruct (Hcol r Hr) as ([H1 H2] & Hi2 & Hf2).
      split; [|done]. split; [done|]. exact H2.
    + split; [|rewrite Hid; split; [by eexists|split; by eexists]].
      split; [lia|]. intros Hk. apply Htwo. rewrite <- Hid. exact Hk.
Qed.

Lemma collectDropped_collecting pl origin entry s s' :
  collecting pl s ->
  collectDropped origin entry s = Returned tt s' ->
  collecting pl s'.
Proof.
  intros Hc. unfold collectDropped.
  destruct entry.2 as [p|]; [|by intros [= <-]].
  destruct (deref p s) as [rec|]; [|discriminate].
  destruct (isDropped _); [by intros [= <-]|].
  destruct (negb _); intros [= <-]; [done|].
  apply (collecting_frame pl s); done.
Qed.

Lemma truths_loop_collecting pl mcl m ts dropped n s n' s' :
  collecting pl s ->
  truths_loop mcl m ts (PList.entries pl) dropped n s = Returned n' s' ->
  collecting pl s'.
Proof.
  revert m n s. induction ts as [|mct ts IH]; intros m n s Hc; cbn [truths_loop].
  - by intros [= _ <-].
  - intros ([] & s1 & H1 & ([] & s2 & H2 & H3)%bind_Returned)%bind_Returned.
    apply (for_each_invariant (collecting pl)) in H1; [|
      intros; eapply collectParticle_collecting; eassumption|exact Hc].
    assert (collecting pl s2) as Hc2.
    { destruct (_ && _); [|by injection H2 as <-].
      apply (for_each_invariant (collecting pl)) in H2; [done| |exact H1].
      intros; eapply collectDropped_collecting; eassumption. }
    eapply IH; [|exact H3]. apply (collecting_frame pl s2); done.
Qed.

Lemma handles_loop_collecting pl mcl hs dropped n s n' s' :
  collecting pl s ->
  handles_loop mcl hs (PList.entries pl) dropped n s = Returned n' s' ->
  collecting pl s'.
Proof.
  revert mcl n s. induction hs as [|h hs IH]; intros mcl n s Hc; cbn [handles_loop].
  - by intros [= _ <-].
  - intros (n1 & s1 & H1 & H2)%bind_Returned.
    apply truths_loop_collecting in H1; [|exact Hc].
    by apply (IH _ _ _ H1 H2).
Qed.

Lemma records_invariant_through pl p f s :
  (∀ r, TrackId (f r) = TrackId r ∧ Trajectory (f r) = Trajectory r
        ∧ EndProcess (f r) = EndProcess r) ->
  records_invariant pl s -> records_invariant pl (through p f s).
Proof.
  intros Hf Hinv k op Hk.
  destruct (Hinv k op Hk) as (q & rec & -> & Hq & Hid & Hi & Hfl & Htwo).
  unfold through. state_simpl.
  destruct (decide (p = q)) as [->|Hne].
  - exists q, (f rec). destruct (Hf rec) as (H1 & H2 & H3).
    split; [done|]. split; [by rewrite list_lookup_alter_eq, Hq|].
    split; [congruence|]. split; [done|]. split; [done|].
    intros Hkeep. destruct (Htwo Hkeep) as (a & b & Ht & Ha & Hb).
    exists a, b. rewrite H2, H3. done.
  - exists q, rec. rewrite list_lookup_alter_ne by done. done.
Qed.

Lemma UpdateDaughterInformation_invariant pl particleID s s' :
  records_invariant pl s ->
  UpdateDaughterInformation particleID s = Returned tt s' ->
  records_invariant pl s'
  ∧ fParticleList s' = fParticleList s ∧ partCol_ s' = partCol_ s.
Proof.
  intros Hinv. unfold UpdateDaughterInformation.
  destruct (GetMotherOf _ _ _) as [parentID|]; [|discriminate].
  destruct (parentID <=? 0); [by intros [= <-]|].
  destruct (PList.find _ _) as [[parent|]|]; intros [= <-]; try done.
  split; [|done]. by apply records_invariant_through.
Qed.

Lemma YieldDroppedList_Returned s dl s' :
  YieldDroppedList s = Returned dl s' ->
  s' = s ∨ ∃ offset, s' = set_fTrackIDOffset offset s.
Proof.
  unfold YieldDroppedList. destruct (fdroppedParticleList s); [|discriminate].
  destruct (negb _); intros [= _ <-]; eauto.
Qed.

(** Every record that [endOfEventAction] puts into the retained output
    is well sampled and comes from the retained list, when that list was
    sound. *)
Lemma endOfEventAction_well_sampled s s' :
  retained_invariant s ->
  endOfEventAction s = Returned tt s' ->
  ∀ rec, rec ∈ default [] (partCol_ s') ->
    well_sampled s' rec
    ∧ is_Some (m_particleList (fParticleList s) !! TrackId rec).
Proof.
  intros Hinv. unfold endOfEventAction.
  set (pl := fParticleList s).
  set (sa := set_tpassn_ _ _).
  intros ([] & s1 & H1 & (particleList & s2 & H2 & (dl & s3 & H3
            & (n & s4 & H4 & H5)%bind_Returned)%bind_Returned)%bind_Returned)%bind_Returned.
  assert (records_invariant pl s1 ∧ fParticleList s1 = pl ∧ partCol_ s1 = Some [])
    as (Hinv1 & Hl1 & Hp1).
  { apply (for_each_invariant
             (λ s, records_invariant pl s ∧ fParticleList s = pl ∧ partCol_ s = Some []))
      in H1; [exact H1| |].
    - intros k s0 s0' _ (Ha & Hb & Hc) Hu.
      destruct (UpdateDaughterInformation_invariant pl k s0 s0' Ha Hu) as (? & ? & ?).
      split; [done|]. split; congruence.
    - split; [|done]. apply (records_invariant_frame pl s); done. }
  destruct (YieldList_offset s1) as (s2' & HY & Hs2).
  rewrite HY in H2. injection H2 as <- <-. rewrite Hl1 in *.
  assert (collecting pl s2') as Hc2.
  { split.
    - destruct (_ =? _)%nat; [by subst s2'|].
      destruct Hs2 as (M & _ & ->). apply (records_invariant_frame pl s1); done.
    - assert (partCol_ s2' = Some []) as ->.
      { destruct (_ =? _)%nat; [by subst s2'|]. by destruct Hs2 as (M & _ & ->). }
      intros rec Hrec. by apply elem_of_nil in Hrec. }
  assert (collecting pl s3) as Hc3.
  { cbn beta in H3. state_simpl.
    destruct (fdroppedParticleList s2').
    - apply bind_Returned in H3 as (dl' & s2'' & HD & HR). injection HR as _ <-.
      apply YieldDroppedList_Returned in HD as [->|[o ->]];
        apply (collecting_frame pl s2'); done.
    - injection H3 as _ <-. apply (collecting_frame pl s2'); done. }
  cbn beta in H4. apply handles_loop_collecting in H4; [|exact Hc3].
  injection H5 as <-. intros rec Hrec.
  destruct H4 as [_ Hcol]. destruct (Hcol rec Hrec) as (Hw & _ & _ & Hkey).
  split; [exact Hw|exact Hkey].
Qed.

Lemma start_and_end_two rec : start_and_end rec -> NumberTrajectoryPoints rec = 2%nat.
Proof. intros (a & b & H & _). unfold NumberTrajectoryPoints. by rewrite H. Qed.

(** C5.  Take an event whose tracks have distinct IDs that are not
    negative and take at least one step each.  Every particle of the retained output has at
    least one trajectory sample, and every one whose keep-full-trajectory
    decision is false has exactly two: the "Start" point recorded on its
    first step that a process defined, and the end point appended at
    track end.  A track with nonzero proper time at creation is never
    put into the retained list, so it is no exception. *)
Theorem retained_trajectory_samples
    (Sparsify : float -> bool -> list TrajectoryPoint -> list TrajectoryPoint)
    (tracks : list (G4Track * list G4Track)) (s s' : State) :
  engine_tracks tracks ->
  processEvent Sparsify tracks s = Returned tt s' ->
  ∀ rec, rec ∈ default [] (partCol_ s') ->
    (1 <= NumberTrajectoryPoints rec)%nat
    ∧ (keepFull_of s' (TrackId rec) = false ->
       NumberTrajectoryPoints rec = 2%nat ∧ start_and_end rec).
Proof.
  intros (Hnd & Hrange & Hsteps). unfold processEvent.
  intros ([] & s1 & Hrun & Hend)%bind_Returned rec Hrec.
  assert (retained_invariant s1) as Hinv.
  { eapply (retained_invariant_tracks Sparsify tracks [] (beginOfEventAction s) s1);
      [|reflexivity| |by rewrite app_nil_r|exact Hrange|exact Hsteps|exact Hrun].
    - intros k op Hk. cbn in Hk. by rewrite lookup_empty in Hk.
    - intros k [op Hk]. cbn in Hk. by rewrite lookup_empty in Hk. }
  destruct (endOfEventAction_well_sampled s1 s' Hinv Hend rec Hrec) as [[H1 H2] _].
  split; [exact H1|]. intros Hk. split; [|by apply H2].
  apply start_and_end_two. by apply H2.
Qed.

Lemma retained_trajectory_samples_witness :
  let s := service no_trajectories in
  let s' := state_after (processEvent keep_all_points two_tracks s) s in
  engine_tracks two_tracks
  ∧ processEvent keep_all_points two_tracks s = Returned tt s'
  ∧ TrackId <$> default [] (partCol_ s') = [1; 2]
  ∧ Forall (λ rec, NumberTrajectoryPoints rec = 2%nat) (default [] (partCol_ s')).
Proof.
  intros s s'.
  assert (engine_tracks two_tracks) as Heng.
  { split; [|split].
    - cbn. apply NoDup_cons. split; [by intros ?%list_elem_of_singleton|].
      apply NoDup_singleton.
    - repeat constructor; cbn; lia.
    - repeat constructor; left; discriminate. }
  assert (processEvent keep_all_points two_tracks s = Returned tt s') as Hrun
    by (vm_compute; reflexivity).
  split; [exact Heng|]. split; [exact Hrun|]. split; [vm_compute; reflexivity|].
  apply Forall_forall. intros rec Hrec.
  destruct (retained_trajectory_samples keep_all_points two_tracks s s' Heng Hrun
              rec Hrec) as [_ H].
  apply H. unfold keepFull_of.
  assert (fstoreTrajectories (config s') = false) as -> by (vm_compute; reflexivity).
  reflexivity.
Defined.

(** ** The energy cut over an event (C9) *)

Lemma NoDup_fmap_inj {A B} (f : A -> B) (l : list A) (a b : A) :
  NoDup (f <$> l) -> a ∈ l -> b ∈ l -> f a = f b -> a = b.
Proof.
  induction l as [|c l IH]; cbn; intros Hnd Ha Hb Hf.
  - by apply elem_of_nil in Ha.
  - apply NoDup_cons in Hnd as [Hc Hnd].
    apply elem_of_cons in Ha as [->|Ha]; apply elem_of_cons in Hb as [->|Hb].
    + done.
    + exfalso. apply Hc. rewrite Hf. by apply list_elem_of_fmap_2.
    + exfalso. apply Hc. rewrite <- Hf. by apply list_elem_of_fmap_2.
    + by apply IH.
Qed.

(** No record of the retained output carries the ID of a track that the
    energy cut dropped. *)
Lemma cut_track_not_in_output Sparsify tracks s s' t :
  engine_tracks tracks ->
  processEvent Sparsify tracks s = Returned tt s' ->
  t ∈ tracks ->
  cut_by_energy t.1 s ->
  ∀ rec, rec ∈ default [] (partCol_ s') -> TrackId rec ≠ GetTrackID t.1.
Proof.
  intros (Hnd & Hrange & Hsteps) Hrun Ht Hcut rec Hrec Hid.
  unfold processEvent in Hrun.
  apply bind_Returned in Hrun as ([] & s1 & Hrun & Hend).
  destruct (retained_invariant_tracks Sparsify tracks [] (beginOfEventAction s) s1)
    as [Hinv Hkeys];
    [|reflexivity| |by rewrite app_nil_r|exact Hrange|exact Hsteps|exact Hrun|].
  { intros k op Hk. cbn in Hk. by rewrite lookup_empty in Hk. }
  { intros k [op Hk]. cbn in Hk. by rewrite lookup_empty in Hk. }
  destruct (endOfEventAction_well_sampled s1 s' Hinv Hend rec Hrec) as [_ Hkey].
  destruct (Hkeys _ Hkey) as [Hin|(t' & Ht' & Hid' & Hnc)].
  { by apply elem_of_nil in Hin. }
  assert (t' = t) as ->.
  { apply (NoDup_fmap_inj (GetTrackID ∘ fst) tracks); try done. cbn. congruence. }
  apply Hnc. exact Hcut.
Qed.

(** C9.  A track without primary provenance whose kinetic energy is
    strictly below the threshold and whose particle code is not 0 leaves
    the retained list and the particle store as they were, however its
    steps and its end run, and gets no record; in an event of the engine's
    tracks, no record of the retained output carries its ID.  A track
    whose energy is not below the threshold always gets a record when its
    admission returns, and is admitted exactly as with any other energy
    that is not below the threshold. *)
Theorem energy_cut_decides
    (Sparsify : float -> bool -> list TrajectoryPoint -> list TrajectoryPoint)
    (track : G4Track) (s : State) :
  (GetPrimaryParticle track = None ->
   (GetKineticEnergy track <? fenergyCut (config s))%float = true ->
   GetPDGEncoding track ≠ 0 ->
   ∀ steps s',
     final_state (processOneTrack Sparsify (track, steps) s) = Some s' ->
     fParticleList s' = fParticleList s ∧ heap s' = heap s
     ∧ (processOneTrack Sparsify (track, steps) s = Returned tt s' ->
        particle (fCurrentParticle s') = None))
  ∧ (GetPrimaryParticle track = None ->
     (GetKineticEnergy track <? fenergyCut (config s))%float = true ->
     GetPDGEncoding track ≠ 0 ->
     ∀ tracks steps s',
       engine_tracks tracks ->
       (track, steps) ∈ tracks ->
       processEvent Sparsify tracks s = Returned tt s' ->
       ∀ rec, rec ∈ default [] (partCol_ s') -> TrackId rec ≠ GetTrackID track)
  ∧ ((GetKineticEnergy track <? fenergyCut (config s))%float = false ->
     (∀ s', preUserTrackingAction track s = Returned tt s' ->
            is_Some (particle (fCurrentParticle s')))
     ∧ ∀ e, (e <? fenergyCut (config s))%float = false ->
            preUserTrackingAction (SetKineticEnergy e track) s
            = preUserTrackingAction track s).
Proof.
  assert (GetPrimaryParticle track = None ->
          (GetKineticEnergy track <? fenergyCut (config s))%float = true ->
          GetPDGEncoding track ≠ 0 -> below_energyCut track s = true) as Hbelow.
  { intros _ Hlt Hpdg. unfold below_energyCut. rewrite Hlt. cbn.
    destruct (Z.eqb_spec (GetPDGEncoding track) 0); done. }
  split; [|split].
  - intros Hpp Hlt Hpdg steps s' Hfin.
    pose proof (Hbelow Hpp Hlt Hpdg) as Hcut.
    pose proof (processOneTrack_below_cut Sparsify track steps s Hpp Hcut) as Hrun.
    destruct (processOneTrack Sparsify (track, steps) s) as [[] sf|e sf|w sf|];
      try done; injection Hfin as ->.
    + destruct Hrun as (? & ? & ?). done.
    + subst s'. done.
  - intros Hpp Hlt Hpdg tracks steps s' Heng Hin Hrun.
    apply (cut_track_not_in_output Sparsify tracks s s' (track, steps)); try done.
    split; [exact Hpp|]. by apply Hbelow.
  - intros Hge. split.
    + intros s' Hpre.
      apply preUserTrackingAction_Returned in Hpre as [Hc|Hc].
      * destruct Hc as (s1 & pn & parentID & pi & pmi & flag & notstore & Hc & _).
        match type of Hc with createParticle ?t ?i ?c ?n ?m ?pi ?pmi ?f ?ns ?st = _ =>
          destruct (createParticle_spec t i c n m pi pmi f ns st)
            as (s'' & Hc' & Hslot & _) end.
        rewrite Hc in Hc'. injection Hc' as <-. rewrite Hslot. by eexists.
      * destruct Hc as (_ & Hcut & _). unfold below_energyCut in Hcut.
        rewrite Hge in Hcut. discriminate.
    + intros e He. unfold preUserTrackingAction, admitSecondary.
      cbn [SetKineticEnergy GetPDGEncoding GetTrackID GetParentID
           GetPrimaryParticle GetCreatorProcess GetKineticEnergy].
      destruct (GetPrimaryParticle track) as [pp|].
      { destruct (GetUserInformation pp); [destruct (primary_process_name _)|];
          apply createParticle_energy. }
      destruct (GetCreatorProcess track) as [pn|]; [|reflexivity].
      rewrite processExclusion_eq.
      destruct (excluded_by _ _) as [q|]; [destruct (parentage _ _) as [a|]|];
        cbn [bind]; [|reflexivity|]; state_simpl;
        unfold excluded_state; state_simpl; rewrite Hge, He; cbn [andb];
        (destruct (resolveParent _ _ _); cbn [bind]; [|reflexivity..]);
        (destruct (fMCTIndexMap _ !! _); [|reflexivity]);
        destruct (subscript _ _ _); apply createParticle_energy.
Qed.

Lemma energy_cut_decides_witness :
  let s := state_after (processOneTrack keep_all_points
                          (primary_track 1 "primary" 1,
                           [after_step (Some "Transportation"%string)
                              (primary_track 1 "primary" 1)])
                          (new_event energy_cut_1))
             (new_event energy_cut_1) in
  let low := secondary_track 2 1 11 "eIoni" 0x1p-1 in
  let high := secondary_track 2 1 11 "eIoni" 1 in
  (∃ s', processOneTrack keep_all_points (low, [after_step (Some "eIoni"%string) low]) s
         = Returned tt s'
         ∧ fParticleList s' = fParticleList s
         ∧ PList.KnownParticle (fParticleList s') 2 = false)
  ∧ (∃ s', processEvent keep_all_points (one_primary ++ [(low, [after_step (Some "eIoni"%string) low])])
             (service energy_cut_1) = Returned tt s'
           ∧ Forall (λ rec, TrackId rec ≠ 2) (default [] (partCol_ s')))
  ∧ (∃ s', preUserTrackingAction high s = Returned tt s'
           ∧ is_Some (particle (fCurrentParticle s'))
           ∧ PList.KnownParticle (fParticleList s') 2 = true)
  ∧ preUserTrackingAction (SetKineticEnergy 2 high) s = preUserTrackingAction high s.
Proof.
  intros s low high.
  destruct (energy_cut_decides keep_all_points low s) as [Hlow _].
  destruct (energy_cut_decides keep_all_points low (service energy_cut_1))
    as (_ & Hout & _).
  destruct (energy_cut_decides keep_all_points high s) as (_ & _ & Hhigh).
  specialize (Hhigh ltac:(vm_compute; reflexivity)) as [Hrec Hsame].
  split; [|split; [|split]].
  - eexists. split; [vm_compute; reflexivity|].
    match goal with |- fParticleList ?s' = _ ∧ _ =>
      destruct (Hlow eq_refl ltac:(vm_compute; reflexivity) ltac:(discriminate)
                  [after_step (Some "eIoni"%string) low] s'
                  ltac:(vm_compute; reflexivity)) as (Hl & _) end.
    split; [exact Hl|]. vm_compute. reflexivity.
  - eexists. split; [vm_compute; reflexivity|].
    apply Forall_forall.
    apply (Hout eq_refl ltac:(vm_compute; reflexivity) ltac:(discriminate)
             (one_primary ++ [(low, [after_step (Some "eIoni"%string) low])])
             [after_step (Some "eIoni"%string) low]).
    + split; [|split].
      * cbn. apply NoDup_cons. split; [by intros ?%list_elem_of_singleton|].
        apply NoDup_singleton.
      * repeat constructor; cbn; lia.
      * repeat constructor; left; discriminate.
    + apply elem_of_app. right. by left.
    + vm_compute. reflexivity.
  - eexists. split; [vm_compute; reflexivity|].
    split; [apply Hrec; vm_compute; reflexivity|]. vm_compute. reflexivity.
  - apply Hsame. vm_compute. reflexivity.
Defined.

(** ** The track IDs of an event (C1) *)

(** Every record of the retained output carries the ID that the engine
    gave to one of the event's tracks. *)
Lemma output_ids_are_engine_ids Sparsify tracks s s' :
  engine_tracks tracks ->
  processEvent Sparsify tracks s = Returned tt s' ->
  ∀ rec, rec ∈ default [] (partCol_ s') ->
    ∃ t, t ∈ tracks ∧ TrackId rec = GetTrackID t.1.
Proof.
  intros (Hnd & Hrange & Hsteps) Hrun rec Hrec.
  unfold processEvent in Hrun.
  apply bind_Returned in Hrun as ([] & s1 & Hrun & Hend).
  destruct (retained_invariant_tracks Sparsify tracks [] (beginOfEventAction s) s1)
    as [Hinv Hkeys];
    [|reflexivity| |by rewrite app_nil_r|exact Hrange|exact Hsteps|exact Hrun|].
  { intros k op Hk. cbn in Hk. by rewrite lookup_empty in Hk. }
  { intros k [op Hk]. cbn in Hk. by rewrite lookup_empty in Hk. }
  destruct (endOfEventAction_well_sampled s1 s' Hinv Hend rec Hrec) as [_ Hkey].
  destruct (Hkeys _ Hkey) as [Hin|(t & Ht & Hid & _)].
  { by apply elem_of_nil in Hin. }
  by exists t.
Qed.

(** C1, as the code has it.  During finalization [YieldList] sets the
    offset to one more than the highest retained (and, when kept,
    dropped) ID if the event retained a particle; [endOfEventAction] then
    resets the offset to 0 before it returns, and [beginOfEventAction]
    resets it to 0 again.  No hook changes it while the tracks of an
    event are processed, so in the next event every track ID is the
    engine's own ID, and so is the ID of every record of its retained
    output. *)
Theorem offset_is_reset_between_events
    (Sparsify : float -> bool -> list TrajectoryPoint -> list TrajectoryPoint) :
  (∀ s, PList.size (fParticleList s) ≠ 0%nat ->
        ∃ M s', highest_of (yielded_ids s) M
                ∧ YieldList s = Returned (fParticleList s) s'
                ∧ fTrackIDOffset s' = wrap32 (M + 1))
  ∧ (∀ s s', endOfEventAction s = Returned tt s' -> fTrackIDOffset s' = 0)
  ∧ (∀ s, fTrackIDOffset (beginOfEventAction s) = 0)
  ∧ (∀ tracks s s',
       for_each (processOneTrack Sparsify) tracks (beginOfEventAction s)
         = Returned tt s' ->
       fTrackIDOffset s' = 0
       ∧ ∀ track, int_range (GetTrackID track) ->
                  trackID_of track s' = GetTrackID track)
  ∧ (∀ tracks s s',
       engine_tracks tracks ->
       processEvent Sparsify tracks s = Returned tt s' ->
       ∀ rec, rec ∈ default [] (partCol_ s') ->
         ∃ t, t ∈ tracks ∧ TrackId rec = GetTrackID t.1).
Proof.
  split; [|split; [|split; [|split]]].
  - intros s Hsz. destruct (YieldList_offset s) as (s' & HY & Hs').
    destruct (Nat.eqb_spec (PList.size (fParticleList s)) 0) as [|_]; [done|].
    destruct Hs' as (M & HM & ->). exists M. eexists.
    split; [exact HM|]. split; [exact HY|]. reflexivity.
  - apply endOfEventAction_offset.
  - reflexivity.
  - intros tracks s s' Hrun.
    apply for_each_session in Hrun as (_ & _ & Ho);
      [|intros; eapply processOneTrack_session; eassumption].
    change (fTrackIDOffset (beginOfEventAction s)) with 0 in Ho.
    split; [exact Ho|]. intros track Hr. unfold trackID_of.
    rewrite Ho, Z.add_0_r. by apply wrap32_id.
  - intros tracks s s'. apply output_ids_are_engine_ids.
Qed.

(** Two events in a row, each with one primary track of ID 1: the first
    retains particle 1, so one more than the highest ID is 2; the offset
    the first event hands on is 0, it is 0 after the second
    [beginOfEventAction], and the particle of the second event has ID 1
    again. *)
Lemma offset_carry_over_counterexample :
  let s1 := state_after (processEvent keep_all_points one_primary
                           (service default_parameters))
              (service default_parameters) in
  let s2 := state_after (processEvent keep_all_points one_primary s1) s1 in
  processEvent keep_all_points one_primary (service default_parameters)
    = Returned tt s1
  ∧ TrackId <$> default [] (partCol_ s1) = [1]
  ∧ fTrackIDOffset s1 ≠ 1 + 1
  ∧ fTrackIDOffset (beginOfEventAction s1) ≠ 1 + 1
  ∧ processEvent keep_all_points one_primary s1 = Returned tt s2
  ∧ ¬ Forall (λ id, 1 + 1 <= id) (TrackId <$> default [] (partCol_ s2)).
Proof.
  intros s1 s2. split_and!; try (vm_compute; reflexivity).
  - vm_compute. discriminate.
  - vm_compute. discriminate.
  - assert (TrackId <$> default [] (partCol_ s2) = [1]) as H
      by (vm_compute; reflexivity).
    rewrite H. intros [HF _]%Forall_cons. lia.
Qed.

Lemma offset_is_reset_between_events_witness :
  let s1 := state_after (processEvent keep_all_points one_primary
                           (service default_parameters))
              (service default_parameters) in
  let s2 := state_after (for_each (processOneTrack keep_all_points) one_primary
                           (beginOfEventAction s1)) s1 in
  fTrackIDOffset s1 = 0
  ∧ fTrackIDOffset s2 = 0
  ∧ trackID_of (primary_track 1 "primary" 1) s2 = 1.
Proof.
  intros s1 s2.
  destruct (offset_is_reset_between_events keep_all_points)
    as (_ & Hend & _ & Hrun & _).
  split.
  - apply (Hend (state_after (for_each (processOneTrack keep_all_points) one_primary
                                (beginOfEventAction (service default_parameters)))
                   (service default_parameters))).
    vm_compute. reflexivity.
  - destruct (Hrun one_primary s1 s2 ltac:(vm_compute; reflexivity)) as [H0 Hid].
    split; [exact H0|]. apply Hid. unfold int_range. cbn. lia.
Defined.
(** ** Configuration and the generator map *)

(** Evaluation of the definitions on a sample input. *)
Ltac by_computation := vm_compute; reflexivity.

(** The engine's protocol for a sample event. *)
Ltac engine_tracks_sample :=
  split; [|split];
  [ refine (bool_decide_unpack _ _); vm_compute; exact I
  | repeat constructor; cbn; lia
  | repeat constructor; left; discriminate ].

Lemma lookup_foldl_emplace (l : list string) (m : gmap string Z) (q : string) :
  foldl (λ m i, emplace i 0 m) m l !! q =
    match m !! q with
    | Some v => Some v
    | None => if bool_decide (q ∈ l) then Some 0 else None
    end.
Proof.
  revert m. induction l as [|i l IH]; intros m; cbn [foldl].
  - destruct (m !! q); [done|]. by rewrite bool_decide_eq_false_2 by apply not_elem_of_nil.
  - rewrite IH. unfold emplace.
    destruct (m !! i) as [v|] eqn:Hi.
    + destruct (m !! q) as [w|] eqn:Hq; [done|].
      assert (q ≠ i) by congruence.
      rewrite (bool_decide_ext (q ∈ l) (q ∈ i :: l)); [done|].
      rewrite elem_of_cons. split; [by right|]. by intros [->|?].
    + destruct (decide (q = i)) as [->|Hne].
      * rewrite lookup_insert_eq, Hi.
        by rewrite bool_decide_eq_true_2 by (by left).
      * rewrite lookup_insert_ne by done.
        destruct (m !! q); [done|].
        rewrite (bool_decide_ext (q ∈ l) (q ∈ i :: l)); [done|].
      rewrite elem_of_cons. split; [by right|]. by intros [->|?].
Qed.

(** X1.  The constructor's handling of [NotStoredPhysics].  With
    [keepEMShowerDaughters] true (the default) the list that was given is
    kept as it is, no counter exists and no process name is ever
    excluded.  With [keepEMShowerDaughters] false the list is the one
    given or, when none or an empty one was given, the ten built-in
    names, and the counters are exactly one zero per listed name. *)
Theorem constructor_NotStoredPhysics (p : ParameterSet)
    (fCurrentTrackID0 fTrackIDOffset0 : Z) :
  let s := ParticleListActionService p fCurrentTrackID0 fTrackIDOffset0 in
  let given := default [] (p_NotStoredPhysics p) in
  if default true (p_keepEMShowerDaughters p)
  then fNotStoredPhysics (config s) = given
       ∧ fNotStoredCounterUMap s = ∅
       ∧ ∀ process_name, excluded_by (config s) process_name = None
  else fNotStoredPhysics (config s)
         = (if is_nil given then default_NotStoredPhysics else given)
       ∧ ∀ q, fNotStoredCounterUMap s !! q
              = if bool_decide (q ∈ fNotStoredPhysics (config s)) then Some 0 else None.
Proof.
  intros s given. subst s. unfold ParticleListActionService, excluded_by, make_Config.
  fold given. cbn [config fNotStoredCounterUMap fNotStoredPhysics fKeepEMShowerDaughters].
  destruct (default true (p_keepEMShowerDaughters p)); cbn [negb andb].
  - done.
  - split; [by destruct given|]. intros q.
    rewrite lookup_foldl_emplace, lookup_empty. reflexivity.
Qed.

(** The keep decision of lines 178-194 as a membership test. *)
Lemma keepGen_spec (c : Config) (g : string) :
  keepGen c g = bool_decide (fstoreTrajectories c = true
                             ∧ (fkeepGenTrajectories c = [] ∨ g ∈ fkeepGenTrajectories c)).
Proof.
  unfold keepGen. destruct (fstoreTrajectories c).
  2:{ symmetry. apply bool_decide_eq_false_2. by intros [? _]. }
  destruct (fkeepGenTrajectories c) as [|k l] eqn:Hl; cbn [is_nil negb].
  - symmetry. apply bool_decide_eq_true_2. auto.
  - destruct (existsb _ _) eqn:He; symmetry.
    + apply bool_decide_eq_true_2. split; [done|]. right.
      apply existsb_exists in He as (x & Hx & Heq).
      apply String.eqb_eq in Heq as ->. by apply list_elem_of_In.
    + apply bool_decide_eq_false_2. intros [_ [H|H]]; [done|].
      apply list_elem_of_In in H.
      assert (existsb (String.eqb g) (k :: l) = true) as He'.
      { apply existsb_exists. exists g. split; [done|apply String.eqb_refl]. }
      congruence.
Qed.

Lemma lookup_build_generator_map c handles mcti m i :
  (∀ j, (mcti <= j)%N -> m !! j = None) ->
  build_generator_map c mcti handles m !! i =
    if (i <? mcti)%N then m !! i
    else (λ h, (label h, keepGen c (label h))) <$> handles !! N.to_nat (i - mcti).
Proof.
  revert mcti m. induction handles as [|h rest IH]; intros mcti m Hfresh; cbn [build_generator_map].
  - destruct (N.ltb_spec i mcti); [done|]. rewrite lookup_nil. cbn. by apply Hfresh.
  - rewrite IH.
    2:{ intros j Hj. unfold emplace. rewrite Hfresh by lia.
        rewrite lookup_insert_ne by lia. apply Hfresh. lia. }
    unfold emplace. rewrite Hfresh by lia.
    destruct (N.ltb_spec i (mcti + 1)); destruct (N.ltb_spec i mcti); try lia.
    + by rewrite lookup_insert_ne by lia.
    + assert (i = mcti) as -> by lia. rewrite lookup_insert_eq, N.sub_diag. done.
    + replace (N.to_nat (i - mcti)) with (S (N.to_nat (i - (mcti + 1)))) by lia. done.
Qed.

(** X2.  After [beginOfEventAction] the generator map has one entry per
    truth handle and no other: entry [mcti] holds the label of handle
    [mcti] and whether its trajectory points are storable, which is the
    case when [storeTrajectories] is set and the keep list is empty or
    names the label. *)
Theorem beginOfEventAction_generator_map (s : State) (mcti : N) :
  fMCTIndexToGeneratorMap (beginOfEventAction s) !! mcti
  = (λ h, (label h,
           bool_decide (fstoreTrajectories (config s) = true
                        ∧ (fkeepGenTrajectories (config s) = []
                           ∨ label h ∈ fkeepGenTrajectories (config s)))))
      <$> fMCLists s !! N.to_nat mcti.
Proof.
  unfold beginOfEventAction. cbn.
  rewrite lookup_build_generator_map by (intros; apply lookup_empty).
  destruct (N.ltb_spec mcti 0); [lia|]. rewrite N.sub_0_r.
  destruct (fMCLists s !! N.to_nat mcti); cbn; [|done].
  by rewrite keepGen_spec.
Qed.

(** ** Where the ancestor walk ends *)

Lemma GetParentage_loop_root (m : gmap Z Z) fuel x a r :
  GetParentage_loop fuel m x a = Some r ->
  match m !! x with
  | None => r = a
  | Some parent => reaches m parent r ∧ m !! r = None
  end.
Proof.
  revert x a. induction fuel as [|fuel IH]; intros x a; [discriminate|].
  cbn. destruct (m !! x) as [v|] eqn:Hx; [|by intros [= <-]].
  intros Hrun. pose proof (IH _ _ Hrun) as Hv.
  destruct (m !! v) as [w|] eqn:Hw.
  - destruct Hv as [Hr Hn]. split; [|exact Hn]. by econstructor.
  - subst r. split; [constructor|exact Hw].
Qed.

Lemma reaches_GetParentage_loop (m : gmap Z Z) (y r : Z) :
  reaches m y r -> m !! r = None ->
  ∃ fuel, GetParentage_loop fuel m y y = Some r.
Proof.
  intros Hr Hn. induction Hr as [y|y w z Hyw _ IH].
  - exists 1%nat. cbn. by rewrite Hn.
  - destruct (IH Hn) as [fuel Hf]. exists (S fuel). cbn. by rewrite Hyw.
Qed.

(** X3.  [GetParentage] returns [a] exactly when the track has no entry in
    the parent map and [a] is the 'no particle' sentinel, or the track has
    one and [a] is the ID without an entry that the entries lead to from
    the track's parent; the call leaves the state as it was. *)
Theorem GetParentage_root (trackid : Z) (s : State) (a : Z) (s' : State) :
  GetParentage trackid s = Returned a s'
  ↔ s' = s
    ∧ match fParentIDMap s !! trackid with
      | None => a = NoParticleId
      | Some parent =>
          reaches (fParentIDMap s) parent a ∧ fParentIDMap s !! a = None
      end.
Proof.
  split.
  - intros [-> Hp]%GetParentage_Returned. split; [done|].
    by apply GetParentage_loop_root in Hp.
  - intros [-> H]. rewrite GetParentage_parentage.
    assert (parentage (fParentIDMap s) trackid = Some a) as ->; [|done].
    unfold parentage.
    destruct (fParentIDMap s !! trackid) as [parent|] eqn:Ht.
    + destruct H as [Hr Hn].
      destruct (reaches_GetParentage_loop _ _ _ Hr Hn) as [fuel Hf].
      apply (GetParentage_loop_bounded _ (S fuel)). cbn. by rewrite Ht.
    + subst a. cbn. by rewrite Ht.
Qed.

(** ** Admission *)

(** X4.  A track with a [G4PrimaryParticle] whose user information is not
    a [g4b::PrimaryParticleInformation] is admitted without the process
    filter, the energy cut, the parent resolution or the truth-index
    look-up: its record has process "unknown" and the engine's parent ID,
    truth index 0 and no generated-particle index, and enters the retained
    list unless its proper time is not zero. *)
Theorem primary_without_information_skips_filters (track : G4Track) (s : State)
    (primaryParticle : G4PrimaryParticle) :
  GetPrimaryParticle track = Some primaryParticle ->
  GetUserInformation primaryParticle = None ->
  ∃ s' p rec,
    preUserTrackingAction track s = Returned tt s'
    ∧ particle (fCurrentParticle s') = Some p
    ∧ truthIndex (fCurrentParticle s') = NoGeneratedParticleIndex
    ∧ deref p s' = Some rec
    ∧ TrackId rec = trackID_of track s
    ∧ Process rec = "unknown"%string
    ∧ Mother rec = parentID_of track s
    ∧ fMCTIndexMap s' !! trackID_of track s = Some 0%N
    ∧ fMCTPrimProcessKeepMap s' !! trackID_of track s = Some false
    ∧ fParticleList s'
      = (if (GetProperTime track =? 0)%float
         then PList.Add (trackID_of track s) p (fParticleList s)
         else fParticleList s)
    ∧ fdroppedParticleList s' = fdroppedParticleList s
    ∧ fParentIDMap s' = fParentIDMap s
    ∧ fdroppedTracksMap s' = fdroppedTracksMap s
    ∧ fCurrentTrackID s' = trackID_of track s.
Proof.
  intros Hpp Hinfo. unfold preUserTrackingAction. rewrite Hpp, Hinfo.
  state_simpl. fold (trackID_of track s) (parentID_of track s).
  match goal with |- context [createParticle ?t ?i ?c ?n ?m ?pi ?pmi ?f ?ns ?st] =>
    destruct (createParticle_spec t i c n m pi pmi f ns st)
      as (s' & Hc & Hslot & Hheap & Hidx & Hflag & Hlist & Hdl & _ & _ & _ & Hpm
          & _ & Hcur & Hdt & _) end.
  state_simpl.
  exists s', (length (heap s)),
    (created track (trackID_of track s) (GetPDGEncoding track) "unknown"
       (parentID_of track s)).
  split; [exact Hc|]. rewrite Hslot, Hidx, Hflag, Hlist, Hdl, Hpm, Hdt, Hcur.
  rewrite !lookup_insert_eq. cbn [particle truthIndex].
  split_and!; try done.
  - unfold deref. rewrite Hheap. by rewrite lookup_app_r, Nat.sub_diag.
  - rewrite orb_false_r. by destruct (GetProperTime track =? 0)%float.
  - by rewrite andb_false_r.
Qed.

Lemma primary_without_information_skips_filters_witness :
  let track := bare_primary_track 1 in
  let s := new_event energy_cut_1 in
  below_energyCut track s = true
  ∧ ∃ s' p,
      preUserTrackingAction track s = Returned tt s'
      ∧ particle (fCurrentParticle s') = Some p
      ∧ fParticleList s' = PList.Add 1 p (fParticleList s).
Proof.
  intros track s. split; [by_computation|].
  destruct (primary_without_information_skips_filters track s
              (mkG4PrimaryParticle None) eq_refl eq_refl)
    as (s' & p & rec & H1 & H2 & _ & _ & _ & _ & _ & _ & _ & H3 & _).
  exists s', p. split; [exact H1|]. split; [exact H2|exact H3].
Defined.

(** Lines 375-393, with the second test of the dropped list resolved: it
    repeats the first, which has failed. *)
Lemma resolveParent_spec t p s pid s1 :
  resolveParent t p s = Returned pid s1 ->
  if PList.KnownParticle (fParticleList s) p || droppedKnown s p
  then pid = p ∧ s1 = s
  else s1 = set_fParentIDMap (<[t := p]> (fParentIDMap s)) s
       ∧ ∃ a, parentage (<[t := p]> (fParentIDMap s)) p = Some a
              ∧ pid = if PList.KnownParticle (fParticleList s) a then a else p.
Proof.
  unfold resolveParent.
  destruct (PList.KnownParticle (fParticleList s) p) eqn:Hk; cbn [negb andb orb].
  { by intros [= <- <-]. }
  destruct (droppedKnown s p) eqn:Hd; cbn [negb andb orb].
  { by intros [= <- <-]. }
  rewrite GetParentage_parentage. state_simpl.
  destruct (parentage _ p) as [a|]; [|discriminate]. cbn [bind].
  change (droppedKnown (set_fParentIDMap _ s) p) with (droppedKnown s p).
  rewrite Hd. state_simpl. rewrite andb_true_r.
  destruct (PList.KnownParticle (fParticleList s) a) eqn:Hka; cbn [negb];
    intros [= <- <-]; (split; [done|]); exists a; by rewrite Hka.
Qed.

(** The state in which a secondary that passes the energy cut has its
    parent resolved. *)
Lemma admitSecondary_created track pn s s' :
  GetPrimaryParticle track = None ->
  GetCreatorProcess track = Some pn ->
  preUserTrackingAction track s = Returned tt s' ->
  below_energyCut track s = false ->
  ∃ notstore s1 parent s2 index,
    processExclusion (trackID_of track s) (parentID_of track s) pn (entered track s)
      = Returned notstore s1
    ∧ resolveParent (trackID_of track s) (parentID_of track s) s1 = Returned parent s2
    ∧ fMCTIndexMap s2 !! parent = Some index
    ∧ createParticle track (trackID_of track s) (GetPDGEncoding track) pn parent
        NoGeneratedParticleIndex index
        (subscript false parent (fMCTPrimProcessKeepMap s2)).1 notstore
        (set_fMCTPrimProcessKeepMap
           (subscript false parent (fMCTPrimProcessKeepMap s2)).2 s2)
      = Returned tt s'.
Proof.
  intros Hpp Hcp Hrun Hcut. unfold preUserTrackingAction in Hrun.
  rewrite Hpp, Hcp in Hrun. unfold admitSecondary in Hrun. state_simpl.
  fold (trackID_of track s) (parentID_of track s) in Hrun.
  fold (entered track s) in Hrun.
  apply bind_Returned in Hrun as (notstore & s1 & Hex & Hk).
  pose proof Hex as [[Hcfg _] _]%processExclusion_Returned.
  fold (below_energyCut track s1) in Hk.
  replace (below_energyCut track s1) with false in Hk
    by (unfold below_energyCut in *; rewrite Hcfg; done).
  apply bind_Returned in Hk as (parent & s2 & Hres & Hk).
  destruct (fMCTIndexMap s2 !! parent) as [index|] eqn:Hi; [|discriminate].
  exists notstore, s1, parent, s2, index.
  destruct (subscript false parent (fMCTPrimProcessKeepMap s2)); done.
Qed.

(** X5.  The parent that the record of a track without primary
    provenance names.  It is the engine's parent ID when the retained or
    the dropped list knows that ID; otherwise the track is entered in the
    parent map and the ancestor walk from the parent decides: the ID it
    ends at when the retained list knows it, the engine's parent ID when
    not. *)
Theorem secondary_mother_resolution (track : G4Track) (s s' : State)
    (process_name : string) (p : ptr) (rec : MCParticle) :
  GetPrimaryParticle track = None ->
  GetCreatorProcess track = Some process_name ->
  preUserTrackingAction track s = Returned tt s' ->
  particle (fCurrentParticle s') = Some p ->
  deref p s' = Some rec ->
  let trackID := trackID_of track s in
  let parentID := parentID_of track s in
  if PList.KnownParticle (fParticleList s) parentID || droppedKnown s parentID
  then Mother rec = parentID
  else ∃ pid,
      parentage (<[trackID := parentID]> (fParentIDMap s)) parentID = Some pid
      ∧ Mother rec = (if PList.KnownParticle (fParticleList s) pid
                      then pid else parentID)
      ∧ fParentIDMap s' !! trackID = Some parentID.
Proof.
  intros Hpp Hcp Hrun Hp Hrec trackID parentID.
  destruct (below_energyCut track s) eqn:Hcut.
  { pose proof (preUserTrackingAction_below_cut track s Hpp Hcut) as Hb.
    rewrite Hrun in Hb. destruct Hb as (s1 & a0 & a & -> & _).
    unfold cut_state in Hp. state_simpl. discriminate. }
  destruct (admitSecondary_created track process_name s s' Hpp Hcp Hrun Hcut)
    as (notstore & s1 & parent & s2 & index & Hex & Hres & Hidx & Hc).
  match type of Hc with createParticle ?t ?i ?c ?n ?m ?pi ?pmi ?f ?ns ?st = _ =>
    destruct (createParticle_spec t i c n m pi pmi f ns st)
      as (s'' & Hc' & Hslot & Hheap & _ & _ & _ & _ & _ & _ & _ & Hpm & _) end.
  rewrite Hc in Hc'. injection Hc' as <-.
  rewrite Hslot in Hp. cbn in Hp. injection Hp as <-.
  unfold deref in Hrec. rewrite Hheap, lookup_app_r, Nat.sub_diag in Hrec by done.
  injection Hrec as <-. cbn [Mother created SetPolarization new_MCParticle].
  state_simpl.
  apply processExclusion_Returned in Hex as [Hf Hex].
  assert (fParticleList s1 = fParticleList s
          ∧ fdroppedParticleList s1 = fdroppedParticleList s
          ∧ <[trackID := parentID]> (fParentIDMap s1)
            = <[trackID := parentID]> (fParentIDMap s)) as (Hl & Hd & Hm).
  { change (config (entered track s)) with (config s) in Hex.
    destruct (excluded_by (config s) process_name).
    - destruct Hex as (_ & a & _ & ->). unfold excluded_state, entered. state_simpl.
      by rewrite insert_insert_eq.
    - by destruct Hex as (_ & ->). }
  apply resolveParent_spec in Hres. fold trackID parentID in Hres.
  unfold droppedKnown in *. rewrite Hl, Hd, Hm in Hres.
  destruct (_ || _).
  - by destruct Hres as [-> _].
  - destruct Hres as (-> & a & Ha & ->). exists a. split; [exact Ha|]. split; [done|].
    rewrite Hpm. state_simpl. by rewrite lookup_insert_eq.
Qed.

Lemma secondary_mother_resolution_witness :
  let track := secondary_track 2 1 11 "eIoni" 1 in
  let s := after_tracks default_parameters one_primary in
  let s' := state_after (preUserTrackingAction track s) s in
  preUserTrackingAction track s = Returned tt s'
  ∧ ∃ p rec, particle (fCurrentParticle s') = Some p
             ∧ deref p s' = Some rec ∧ Mother rec = 1.
Proof.
  intros track s s'.
  assert (preUserTrackingAction track s = Returned tt s') as Hrun by by_computation.
  split; [exact Hrun|].
  destruct (particle (fCurrentParticle s')) as [p|] eqn:Hp;
    [|vm_compute in Hp; discriminate].
  destruct (deref p s') as [rec|] eqn:Hrec;
    [|vm_compute in Hp; injection Hp as <-; vm_compute in Hrec; discriminate].
  exists p, rec. split; [reflexivity|]. split; [exact Hrec|].
  pose proof (secondary_mother_resolution track s s' "eIoni" p rec eq_refl eq_refl
                Hrun Hp Hrec) as H.
  cbv zeta in H.
  assert (PList.KnownParticle (fParticleList s) (parentID_of track s)
          || droppedKnown s (parentID_of track s) = true) as Hk by by_computation.
  rewrite Hk in H. rewrite H. by_computation.
Defined.

(** Every admission that returns leaves exactly one new fact in
    [fTargetIDMap]: the track's entry is the identity left in
    [fCurrentTrackID], which is the track's own ID for a track with a
    [G4PrimaryParticle] and for a track that neither the energy cut nor
    the process filter drops. *)
Lemma preUserTrackingAction_target track s s' :
  preUserTrackingAction track s = Returned tt s' ->
  fTargetIDMap s' = <[trackID_of track s := fCurrentTrackID s']> (fTargetIDMap s)
  ∧ ((is_Some (GetPrimaryParticle track)
      ∨ below_energyCut track s = false
        ∧ ∀ pn, GetCreatorProcess track = Some pn -> excluded_by (config s) pn = None) ->
     fCurrentTrackID s' = trackID_of track s).
Proof.
  intros Hrun.
  destruct (GetPrimaryParticle track) as [pp|] eqn:Hpp.
  - unfold preUserTrackingAction in Hrun. rewrite Hpp in Hrun. state_simpl.
    fold (trackID_of track s) (parentID_of track s) in Hrun.
    assert (∃ pn par pi pmi flag,
              createParticle track (trackID_of track s) (GetPDGEncoding track) pn par
                pi pmi flag false (entered track s) = Returned tt s')
      as (pn & par & pi & pmi & flag & Hc).
    { destruct (GetUserInformation pp) as [ppi|].
      - destruct (primary_process_name _) as [pn flag]. by do 5 eexists.
      - by do 5 eexists. }
    destruct (createParticle_spec track (trackID_of track s) (GetPDGEncoding track)
                pn par pi pmi flag false (entered track s))
      as (s'' & Hc' & _ & _ & _ & _ & _ & _ & _ & _ & _ & _ & Ht & Hcur & _).
    rewrite Hc in Hc'. injection Hc' as <-. rewrite Ht, Hcur.
    unfold entered. state_simpl. done.
  - destruct (GetCreatorProcess track) as [pn|] eqn:Hcp.
    2:{ unfold preUserTrackingAction in Hrun. rewrite Hpp, Hcp in Hrun. discriminate. }
    destruct (below_energyCut track s) eqn:Hcut.
    + split.
      2:{ intros [[? [=]]|[[=] _]]. }
      unfold preUserTrackingAction in Hrun. rewrite Hpp, Hcp in Hrun.
      unfold admitSecondary in Hrun. state_simpl.
      fold (trackID_of track s) (parentID_of track s) in Hrun.
      fold (entered track s) in Hrun.
      apply bind_Returned in Hrun as (notstore & s1' & Hex & Hk).
      apply processExclusion_Returned in Hex as [Hf' Hex].
      fold (below_energyCut track s1') in Hk.
      replace (below_energyCut track s1') with true in Hk.
      2:{ destruct Hf' as [Hc _]. unfold below_energyCut in *. rewrite Hc. done. }
      rewrite energyCutDrop_eq in Hk.
      destruct (parentage (fParentIDMap s1') _) as [b0|]; [|discriminate].
      destruct (parentage (<[_:=_]> (fParentIDMap s1')) _) as [b|]; [|discriminate].
      injection Hk as <-.
      assert (fTargetIDMap s1'
              = <[trackID_of track s := fCurrentTrackID s1']> (fTargetIDMap s)) as Ht1.
      { change (config (entered track s)) with (config s) in Hex.
        destruct (excluded_by (config s) pn).
        - destruct Hex as (_ & c & _ & ->). unfold excluded_state, entered. state_simpl.
          by rewrite insert_insert_eq.
        - destruct Hex as (_ & ->). reflexivity. }
      unfold cut_state. state_simpl. rewrite Ht1. by rewrite insert_insert_eq.
    + destruct (admitSecondary_created track pn s s' Hpp Hcp Hrun Hcut)
        as (notstore & s1 & parent & s2 & index & Hex & Hres & Hidx & Hc).
      match type of Hc with createParticle ?t ?i ?c ?n ?m ?pi ?pmi ?f ?ns ?st = _ =>
        destruct (createParticle_spec t i c n m pi pmi f ns st)
          as (s'' & Hc' & _ & _ & _ & _ & _ & _ & _ & _ & _ & _ & Ht & Hcur & _) end.
      rewrite Hc in Hc'. injection Hc' as <-. rewrite Ht, Hcur. state_simpl.
      apply processExclusion_Returned in Hex as [_ Hex].
      change (config (entered track s)) with (config s) in Hex.
      assert (fTargetIDMap s2 = fTargetIDMap s1 ∧ fCurrentTrackID s2 = fCurrentTrackID s1)
        as [-> ->].
      { apply resolveParent_Returned in Hres as [-> | ->]; done. }
      destruct (excluded_by (config s) pn) as [q|] eqn:Hq.
      * destruct Hex as (_ & a & _ & ->). unfold excluded_state, entered. state_simpl.
        split; [by rewrite insert_insert_eq|].
        intros [[? [=]]|[_ H]]. specialize (H pn eq_refl). congruence.
      * destruct Hex as (_ & ->). unfold entered. state_simpl. done.
Qed.
(** ** The process filter *)

Lemma createParticle_counters track trackID pdgCode pn parentID pi pmi flag notstore s s' :
  createParticle track trackID pdgCode pn parentID pi pmi flag notstore s = Returned tt s' ->
  fNotStoredCounterUMap s' = fNotStoredCounterUMap s.
Proof.
  unfold createParticle, allocate, through.
  match goal with |- context [decide_keepFullTrajectory pmi flag ?s1] =>
    destruct (decide_keepFullTrajectory_spec pmi flag s1) as (m & -> & Hm) end.
  cbn -[new_MCParticle alter].
  destruct (GetProperTime track =? 0)%float; cbn -[new_MCParticle alter];
    [destruct notstore|]; intros [= <-]; reflexivity.
Qed.

Lemma find_first {A} (f : A -> bool) (l : list A) (x : A) :
  List.find f l = Some x ->
  ∃ l1 l2, l = l1 ++ x :: l2 ∧ f x = true ∧ Forall (λ y, f y = false) l1.
Proof.
  induction l as [|a l IH]; cbn; [discriminate|].
  destruct (f a) eqn:Ha.
  - intros [= ->]. exists [], l. split; [done|]. split; [done|constructor].
  - intros (l1 & l2 & -> & Hx & Hall)%IH. exists (a :: l1), l2.
    split; [done|]. split; [done|]. by constructor.
Qed.

(** X7.  A track that the process filter drops and the energy cut lets
    through.  The name that counts is the first name of
    [NotStoredPhysics] that occurs in the creator process name, and its
    counter goes up by one.  The track still gets a record, which is the
    active particle for the steps that follow; the record never enters
    the retained list and enters the dropped list when there is one and
    the proper time is zero. *)
Theorem excluded_track_is_diverted (track : G4Track) (s s' : State)
    (process_name q : string) :
  GetPrimaryParticle track = None ->
  GetCreatorProcess track = Some process_name ->
  excluded_by (config s) process_name = Some q ->
  below_energyCut track s = false ->
  preUserTrackingAction track s = Returned tt s' ->
  let trackID := trackID_of track s in
  (∃ before after,
      fNotStoredPhysics (config s) = before ++ q :: after
      ∧ string_contains q process_name = true
      ∧ Forall (λ p, string_contains p process_name = false) before)
  ∧ fNotStoredCounterUMap s'
    = <[q := wrap32 (default 0 (fNotStoredCounterUMap s !! q) + 1)]>
        (fNotStoredCounterUMap s)
  ∧ fParticleList s' = fParticleList s
  ∧ ∃ p rec,
      particle (fCurrentParticle s') = Some p
      ∧ deref p s' = Some rec
      ∧ TrackId rec = trackID
      ∧ Process rec = process_name
      ∧ fdroppedParticleList s'
        = (if (GetProperTime track =? 0)%float
           then PList.Add trackID p <$> fdroppedParticleList s
           else fdroppedParticleList s).
Proof.
  intros Hpp Hcp Hq Hcut Hrun trackID.
  split.
  { unfold excluded_by in Hq. destruct (negb _); [|discriminate].
    by apply find_first in Hq. }
  destruct (admitSecondary_created track process_name s s' Hpp Hcp Hrun Hcut)
    as (notstore & s1 & parent & s2 & index & Hex & Hres & Hidx & Hc).
  apply processExclusion_Returned in Hex as [_ Hex].
  change (config (entered track s)) with (config s) in Hex. rewrite Hq in Hex.
  destruct Hex as (-> & a & _ & ->).
  pose proof (createParticle_counters _ _ _ _ _ _ _ _ _ _ _ Hc) as Hcnt.
  match type of Hc with createParticle ?t ?i ?c ?n ?m ?pi ?pmi ?f ?ns ?st = _ =>
    destruct (createParticle_spec t i c n m pi pmi f ns st)
      as (s'' & Hc' & Hslot & Hheap & _ & _ & Hlist & Hdl & _) end.
  rewrite Hc in Hc'. injection Hc' as <-.
  rewrite Hcnt, Hlist, Hdl, Hslot, orb_true_r, andb_true_r, negb_involutive.
  state_simpl.
  assert (fNotStoredCounterUMap s2
          = count_NotStored q (fNotStoredCounterUMap s)
          ∧ fParticleList s2 = fParticleList s
          ∧ fdroppedParticleList s2 = fdroppedParticleList s
          ∧ length (heap s2) = length (heap s)) as (-> & -> & -> & Hlen).
  { apply resolveParent_Returned in Hres as [-> | ->]; done. }
  split; [reflexivity|]. split; [reflexivity|].
  exists (length (heap s2)), (created track trackID (GetPDGEncoding track) process_name parent).
  split; [reflexivity|].
  split. { unfold deref. rewrite Hheap. state_simpl. by rewrite lookup_app_r, Nat.sub_diag. }
  done.
Qed.

Lemma excluded_track_is_diverted_witness :
  let track := secondary_track 2 1 11 "eIoni" 1 in
  let s := after_tracks no_shower_daughters one_primary in
  let s' := state_after (preUserTrackingAction track s) s in
  excluded_by (config s) "eIoni" = Some "Ion"%string
  ∧ preUserTrackingAction track s = Returned tt s'
  ∧ fNotStoredCounterUMap s' !! "Ion"%string = Some 1
  ∧ fParticleList s' = fParticleList s.
Proof.
  intros track s s'.
  assert (excluded_by (config s) "eIoni" = Some "Ion"%string) as Hex by by_computation.
  assert (preUserTrackingAction track s = Returned tt s') as Hrun by by_computation.
  split; [exact Hex|]. split; [exact Hrun|].
  destruct (excluded_track_is_diverted track s s' "eIoni" "Ion" eq_refl eq_refl Hex
              ltac:(by_computation) Hrun) as (_ & Hc & Hl & _).
  split; [|exact Hl]. rewrite Hc, lookup_insert_eq. by_computation.
Defined.

(** ** A track from admission to its end *)

Lemma preUserTrackingAction_slot track s s1 p :
  preUserTrackingAction track s = Returned tt s1 ->
  particle (fCurrentParticle s1) = Some p ->
  ∃ pn parentID,
    p = length (heap s)
    ∧ heap s1 = heap s ++ [created track (trackID_of track s) (GetPDGEncoding track)
                             pn parentID]
    ∧ config s1 = config s
    ∧ fPrimaryTruthMap s1 = fPrimaryTruthMap s
    ∧ truthIndex (fCurrentParticle s1)
      = match GetPrimaryParticle track ≫= GetUserInformation with
        | Some ppi => MCParticleIndex ppi
        | None => NoGeneratedParticleIndex
        end.
Proof.
  intros Hpre Hp.
  assert (∃ s0 pn parentID pmi flag notstore,
            createParticle track (trackID_of track s) (GetPDGEncoding track) pn
              parentID
              match GetPrimaryParticle track ≫= GetUserInformation with
              | Some ppi => MCParticleIndex ppi
              | None => NoGeneratedParticleIndex
              end pmi flag notstore s0 = Returned tt s1
            ∧ admission_frame s s0)
    as (s0 & pn & parentID & pmi & flag & notstore & Hc & Hf).
  { destruct (GetPrimaryParticle track) as [pp|] eqn:Hpp.
    - unfold preUserTrackingAction in Hpre. rewrite Hpp in Hpre. state_simpl.
      fold (trackID_of track s) (parentID_of track s) in Hpre.
      fold (entered track s) in Hpre. cbn [mbind option_bind].
      destruct (GetUserInformation pp) as [ppi|].
      + destruct (primary_process_name _) as [pn flag].
        do 6 eexists. split; [exact Hpre|apply admission_frame_entered].
      + do 6 eexists. split; [exact Hpre|apply admission_frame_entered].
    - cbn [mbind option_bind].
      destruct (GetCreatorProcess track) as [pn|] eqn:Hcp.
      2:{ unfold preUserTrackingAction in Hpre. rewrite Hpp, Hcp in Hpre. discriminate. }
      destruct (below_energyCut track s) eqn:Hcut.
      { pose proof (preUserTrackingAction_below_cut track s Hpp Hcut) as Hb.
        rewrite Hpre in Hb. destruct Hb as (s0 & a0 & a & -> & _).
        unfold cut_state in Hp. state_simpl. discriminate. }
      destruct (admitSecondary_created track pn s s1 Hpp Hcp Hpre Hcut)
        as (notstore & s0 & parent & s2 & index & Hex & Hres & Hidx & Hc).
      do 6 eexists. split; [exact Hc|].
      apply processExclusion_Returned in Hex as [Hf1 _].
      apply resolveParent_frame in Hres.
      eapply admission_frame_trans; [apply admission_frame_entered|].
      eapply admission_frame_trans; [exact Hf1|].
      eapply admission_frame_trans; [exact Hres|].
      apply admission_frame_set_fMCTPrimProcessKeepMap. }
  match type of Hc with createParticle ?t ?i ?c ?n ?m ?pi ?pmi ?f ?ns ?st = _ =>
    destruct (createParticle_spec t i c n m pi pmi f ns st)
      as (s'' & Hc' & Hslot & Hheap & _ & _ & _ & _ & Hcfg & _ & _ & _ & _ & _ & _
          & Htr & _) end.
  rewrite Hc in Hc'. injection Hc' as <-.
  destruct Hf as (Hcfg0 & _ & Hheap0 & _ & _ & _ & _ & _ & _ & Htr0 & _).
  rewrite Hslot in Hp. cbn in Hp. injection Hp as <-.
  exists pn, parentID. rewrite Hheap, Hslot, Hheap0. cbn [truthIndex].
  split_and!; congruence.
Qed.

(** One track from admission to its end, for a track that got a
    record. *)
Lemma processOneTrack_lifecycle Sparsify track steps s s1 p rec0 :
  preUserTrackingAction track s = Returned tt s1 ->
  particle (fCurrentParticle s1) = Some p ->
  deref p s1 = Some rec0 ->
  let c := config s1 in
  let keep := keepFullTrajectory (fCurrentParticle s1) in
  let r := foldl (λ r trk, stepped c keep trk r) rec0 steps in
  let last := last_step steps track in
  processOneTrack Sparsify (track, steps) s =
    Returned tt
      match GetProcessDefinedStep (GetPostStepPoint (GetStep last)) with
      | Some process =>
          truth_recorded (ended Sparsify c keep last process r)
            (set_heap (<[p := ended Sparsify c keep last process r]> (heap s1)) s1)
      | None =>
          discardCurrentParticle p (SetWeight (GetWeight last) r)
            (set_heap (<[p := SetWeight (GetWeight last) r]> (heap s1)) s1)
      end.
Proof.
  intros Hpre Hp Hrec c keep r last. unfold processOneTrack. cbn [fst snd].
  rewrite Hpre. cbn [bind].
  rewrite (stepping_active steps track s1 p rec0 Hp Hrec). cbn [bind].
  assert (p < length (heap s1))%nat as Hlt by (eapply lookup_lt_Some; exact Hrec).
  fold c keep r last.
  set (s2 := set_heap (<[p := r]> (heap s1)) s1).
  assert (deref p s2 = Some r) as Hr by (by apply deref_set_heap_insert).
  destruct (GetProcessDefinedStep (GetPostStepPoint (GetStep last)))
    as [process|] eqn:Hproc.
  - rewrite (postUserTrackingAction_defined Sparsify _ s2 p r process Hp Hr Hproc).
    cbn zeta. subst s2. state_simpl. by rewrite list_insert_insert_eq.
  - rewrite (postUserTrackingAction_undefined Sparsify _ s2 p r Hp Hr Hproc).
    subst s2. state_simpl. by rewrite list_insert_insert_eq.
Qed.

Lemma Trajectory_created track tid pdg pn parent :
  Trajectory (created track tid pdg pn parent) = [].
Proof. reflexivity. Qed.

Lemma labels_stepped c keep trk rec :
  tp_process <$> Trajectory (stepped c keep trk rec)
  = (tp_process <$> Trajectory rec)
    ++ (if is_nil (Trajectory rec) && defined_step trk then ["Start"%string] else [])
    ++ (if keep then from_option (λ x, [x]) [] (recorded_process trk) else []).
Proof.
  unfold stepped, defined_step, recorded_process.
  destruct (GetProcessDefinedStep _) as [process|].
  2:{ rewrite andb_false_r. destruct keep; by rewrite !app_nil_r. }
  cbn zeta. unfold NumberTrajectoryPoints.
  destruct (Trajectory rec) as [|a t] eqn:Ht; cbn [length Nat.eqb is_nil andb].
  - destruct (string_contains "StepLimiter" process); cbn [negb andb].
    + cbn. rewrite Ht. by destruct keep.
    + destruct keep; cbn; rewrite Ht; reflexivity.
  - destruct (string_contains "StepLimiter" process); cbn [negb andb].
    + rewrite Ht. destruct keep; by rewrite !app_nil_r.
    + destruct keep; cbn; rewrite Ht; cbn; [|by rewrite app_nil_r].
      by rewrite fmap_app.
Qed.

Lemma labels_foldl_stepped c keep steps rec :
  tp_process <$> Trajectory (foldl (λ r trk, stepped c keep trk r) rec steps)
  = (tp_process <$> Trajectory rec)
    ++ (if is_nil (Trajectory rec) && existsb defined_step steps
        then ["Start"%string] else [])
    ++ (if keep then omap recorded_process steps else []).
Proof.
  revert rec. induction steps as [|t steps IH]; intros rec; cbn [foldl existsb].
  - rewrite andb_false_r. destruct keep; by rewrite !app_nil_r.
  - rewrite IH, labels_stepped.
    assert (is_nil (Trajectory (stepped c keep t rec))
            = is_nil (Trajectory rec) && negb (defined_step t)) as ->.
    { unfold stepped, defined_step.
      destruct (GetProcessDefinedStep _) as [process|]; [|by rewrite andb_true_r].
      cbn zeta. unfold NumberTrajectoryPoints.
      destruct (Trajectory rec) as [|a tr] eqn:Ht; cbn [length Nat.eqb is_nil andb negb].
      - destruct (_ && _); cbn; rewrite Ht; reflexivity.
      - destruct (_ && _); cbn; rewrite Ht; reflexivity. }
    assert (recorded_process t ≠ None -> defined_step t = true) as Hrd.
    { unfold recorded_process, defined_step.
      by destruct (GetProcessDefinedStep _). }
    assert (omap recorded_process (t :: steps)
            = match recorded_process t with
              | Some x => x :: omap recorded_process steps
              | None => omap recorded_process steps
              end) as -> by reflexivity.
    destruct (is_nil (Trajectory rec)), (defined_step t) eqn:Hd,
      (recorded_process t) as [x|] eqn:Hx, keep;
      cbn [andb orb negb from_option app]; rewrite <- ?app_assoc; try reflexivity;
      try (exfalso; by specialize (Hrd ltac:(done))).
Qed.
(** ** The record at track end *)

(** X8.  The record of a track whose final step a process defined, as
    track end leaves it: it has the track's weight and the final step's
    process as end process.  Its trajectory labels are "Start", when some
    step was defined by a process, followed for a full trajectory by the
    processes of the recorded steps in order, and otherwise by the end
    point alone, labelled with the end process; a full trajectory is
    then reduced by [Sparsify] when sparsification is enabled. *)
Theorem record_at_track_end
    (Sparsify : float -> bool -> list TrajectoryPoint -> list TrajectoryPoint)
    (track : G4Track) (steps : list G4Track) (s s1 s' : State) (p : ptr)
    (process : string) :
  preUserTrackingAction track s = Returned tt s1 ->
  particle (fCurrentParticle s1) = Some p ->
  processOneTrack Sparsify (track, steps) s = Returned tt s' ->
  GetProcessDefinedStep (GetPostStepPoint (GetStep (last_step steps track)))
  = Some process ->
  let keep := keepFullTrajectory (fCurrentParticle s1) in
  ∃ rec t,
    deref p s' = Some rec
    ∧ TrackId rec = trackID_of track s
    ∧ Weight rec = GetWeight (last_step steps track)
    ∧ EndProcess rec = process
    ∧ tp_process <$> t
      = (if existsb defined_step steps then ["Start"%string] else [])
        ++ (if keep then omap recorded_process steps else [process])
    ∧ Trajectory rec
      = if keep && fSparsifyTrajectories (config s)
        then Sparsify (fSparsifyMargin (config s)) (fKeepSecondToLast (config s)) t
        else t.
Proof.
  intros Hpre Hp Hrun Hproc keep.
  destruct (preUserTrackingAction_slot track s s1 p Hpre Hp)
    as (pn & parentID & -> & Hheap & Hcfg & _).
  set (rec0 := created track (trackID_of track s) (GetPDGEncoding track) pn parentID)
    in *.
  assert (deref (length (heap s)) s1 = Some rec0) as Hrec0.
  { unfold deref. rewrite Hheap. by rewrite lookup_app_r, Nat.sub_diag. }
  rewrite (processOneTrack_lifecycle Sparsify track steps s s1 _ rec0 Hpre Hp Hrec0)
    in Hrun.
  cbn zeta in Hrun. rewrite Hproc in Hrun. injection Hrun as <-.
  fold keep. rewrite Hcfg.
  set (r := foldl (λ r trk, stepped (config s) keep trk r) rec0 steps).
  pose proof (labels_foldl_stepped (config s) keep steps rec0) as Hlab.
  fold r in Hlab. cbn [Trajectory rec0 created SetPolarization new_MCParticle] in Hlab.
  cbn [fmap list_fmap is_nil andb app] in Hlab.
  assert (TrackId r = trackID_of track s) as Hid
    by (unfold r; by rewrite TrackId_foldl_stepped).
  assert (deref (length (heap s))
            (truth_recorded (ended Sparsify (config s) keep (last_step steps track) process r)
               (set_heap (<[length (heap s) :=
                            ended Sparsify (config s) keep (last_step steps track)
                              process r]> (heap s1)) s1))
          = Some (ended Sparsify (config s) keep (last_step steps track) process r))
    as Hd.
  { unfold truth_recorded, deref. destruct (isPrimary _); state_simpl;
      apply list_lookup_insert_eq; rewrite Hheap, length_app; cbn; lia. }
  exists (ended Sparsify (config s) keep (last_step steps track) process r),
    (if keep then Trajectory r
     else Trajectory r
          ++ [mkTrajectoryPoint
                (fourPos (GetPostStepPoint (GetStep (last_step steps track))))
                (fourMom (GetPostStepPoint (GetStep (last_step steps track))))
                process (fKeepTransportation (config s))]).
  split; [exact Hd|].
  unfold ended. destruct keep; cbn [negb andb].
  - destruct (fSparsifyTrajectories (config s)); cbn; split_and!; done.
  - cbn. split_and!; try done.
    rewrite fmap_app, Hlab. cbn. by rewrite app_nil_r.
Qed.

Lemma record_at_track_end_witness :
  let track := primary_track 1 "primary" 1 in
  let steps := [after_step (Some "eIoni"%string) track;
                after_step (Some "Transportation"%string) track] in
  let s := new_event default_parameters in
  let s' := state_after (processOneTrack keep_all_points (track, steps) s) s in
  processOneTrack keep_all_points (track, steps) s = Returned tt s'
  ∧ ∃ rec, deref 0%nat s' = Some rec
           ∧ EndProcess rec = "Transportation"%string
           ∧ tp_process <$> Trajectory rec = ["Start"; "eIoni"; "Transportation"]%string.
Proof.
  intros track steps s s'.
  assert (processOneTrack keep_all_points (track, steps) s = Returned tt s') as Hrun
    by by_computation.
  split; [exact Hrun|].
  destruct (record_at_track_end keep_all_points track steps s
              (state_after (preUserTrackingAction track s) s) s' 0%nat
              "Transportation" ltac:(by_computation) ltac:(by_computation) Hrun
              eq_refl) as (rec & t & Hrec & _ & _ & Hend & Hlab & Htraj).
  exists rec. split; [exact Hrec|]. split; [exact Hend|].
  assert (keepFullTrajectory
            (fCurrentParticle (state_after (preUserTrackingAction track s) s))
          && fSparsifyTrajectories (config s) = false) as Hk by by_computation.
  rewrite Hk in Htraj. rewrite Htraj, Hlab. by_computation.
Defined.

Lemma GetPrimaryTruthIndex_truth_recorded rec s k :
  GetPrimaryTruthIndex k (truth_recorded rec s)
  = if bool_decide (k = TrackId rec) && isPrimary (fCurrentParticle s)
    then truthInfoIndex (fCurrentParticle s)
    else GetPrimaryTruthIndex k s.
Proof.
  unfold truth_recorded, GetPrimaryTruthIndex.
  destruct (isPrimary _); [|by rewrite andb_false_r]. state_simpl.
  rewrite andb_true_r. case_bool_decide as Hk.
  - subst k. by rewrite lookup_insert_eq.
  - by rewrite lookup_insert_ne.
Qed.

(** X9.  Store and look-up of the generated-particle index.  After a
    track, [GetPrimaryTruthIndex] answers the track's ID with the
    [MCParticleIndex] of its [PrimaryParticleInformation] when the track
    has one, the index is a generated-particle index and a process
    defined the final step; every other answer is as it was before the
    track, and a track that ends on an undefined step or has no
    primary information stores nothing. *)
Theorem truth_index_after_track
    (Sparsify : float -> bool -> list TrajectoryPoint -> list TrajectoryPoint)
    (track : G4Track) (steps : list G4Track) (s s' : State) :
  processOneTrack Sparsify (track, steps) s = Returned tt s' ->
  ∀ trackId,
    GetPrimaryTruthIndex trackId s'
    = match GetPrimaryParticle track ≫= GetUserInformation with
      | Some ppi =>
          if bool_decide (trackId = trackID_of track s)
             && isGeneratedParticleIndex (MCParticleIndex ppi)
             && defined_step (last_step steps track)
          then MCParticleIndex ppi
          else GetPrimaryTruthIndex trackId s
      | None => GetPrimaryTruthIndex trackId s
      end.
Proof.
  intros Hrun k.
  pose proof Hrun as Hrun0. unfold processOneTrack in Hrun0. cbn [fst snd] in Hrun0.
  apply bind_Returned in Hrun0 as ([] & s1 & Hpre & Hrest).
  destruct (particle (fCurrentParticle s1)) as [p|] eqn:Hp.
  - destruct (preUserTrackingAction_slot track s s1 p Hpre Hp)
      as (pn & parentID & -> & Hheap & Hcfg & Htr & Hti).
    set (rec0 := created track (trackID_of track s) (GetPDGEncoding track) pn parentID)
      in *.
    assert (deref (length (heap s)) s1 = Some rec0) as Hrec0.
    { unfold deref. rewrite Hheap. by rewrite lookup_app_r, Nat.sub_diag. }
    rewrite (processOneTrack_lifecycle Sparsify track steps s s1 _ rec0 Hpre Hp Hrec0)
      in Hrun.
    cbn zeta in Hrun. unfold defined_step.
    destruct (GetProcessDefinedStep _) as [process|]; injection Hrun as <-.
    + rewrite GetPrimaryTruthIndex_truth_recorded. state_simpl.
      rewrite TrackId_ended, TrackId_foldl_stepped.
      change (TrackId rec0) with (trackID_of track s).
      unfold isPrimary, truthInfoIndex. rewrite Hti.
      unfold GetPrimaryTruthIndex. state_simpl. rewrite Htr.
      destruct (GetPrimaryParticle track ≫= GetUserInformation) as [ppi|].
      * by rewrite andb_true_r.
      * by rewrite andb_false_r.
    + unfold GetPrimaryTruthIndex, discardCurrentParticle.
      destruct (negb _); state_simpl; rewrite Htr;
        destruct (GetPrimaryParticle track ≫= GetUserInformation);
        by rewrite ?andb_false_r.
  - destruct (stepping_idle steps track s1 Hp) as [last Hst].
    cbn beta in Hrest. rewrite Hst in Hrest. cbn [bind] in Hrest.
    rewrite postUserTrackingAction_idle in Hrest by done. injection Hrest as <-.
    assert (GetPrimaryParticle track = None ∧ fPrimaryTruthMap s1 = fPrimaryTruthMap s)
      as [Hpp Htr].
    { apply preUserTrackingAction_Returned in Hpre as [Hc|Hc].
      - destruct Hc as (s0 & pn & parentID & pi & pmi & flag & notstore & Hc & _).
        match type of Hc with createParticle ?t ?i ?c ?n ?m ?pi ?pmi ?f ?ns ?st = _ =>
          destruct (createParticle_spec t i c n m pi pmi f ns st)
            as (s'' & Hc' & Hslot & _) end.
        rewrite Hc in Hc'. injection Hc' as <-. rewrite Hslot in Hp. discriminate.
      - destruct Hc as (Hpp & _ & s0 & a0 & a & -> & _ & Hf).
        split; [done|]. unfold cut_state. state_simpl.
        by destruct Hf as (_ & _ & _ & _ & _ & _ & _ & _ & _ & Htr & _). }
    rewrite Hpp. cbn. unfold GetPrimaryTruthIndex. by rewrite Htr.
Qed.

Lemma truth_index_after_track_witness :
  let track := primary_track 1 "primary" 1 in
  let steps := [after_step (Some "Transportation"%string) track] in
  let s := new_event default_parameters in
  let s' := state_after (processOneTrack keep_all_points (track, steps) s) s in
  processOneTrack keep_all_points (track, steps) s = Returned tt s'
  ∧ GetPrimaryTruthIndex 1 s' = 0%N
  ∧ GetPrimaryTruthIndex 2 s' = GetPrimaryTruthIndex 2 s.
Proof.
  intros track steps s s'.
  assert (processOneTrack keep_all_points (track, steps) s = Returned tt s') as Hrun
    by by_computation.
  split; [exact Hrun|].
  pose proof (truth_index_after_track keep_all_points track steps s s' Hrun) as H.
  split; [rewrite (H 1)|rewrite (H 2)]; by_computation.
Defined.

(** ** What a step changes *)

Lemma SetTrajectory_same rec : SetTrajectory (Trajectory rec ++ []) rec = rec.
Proof. destruct rec. unfold SetTrajectory. cbn. by rewrite app_nil_r. Qed.

Lemma stepped_extends c keep trk rec :
  ∃ added, stepped c keep trk rec = SetTrajectory (Trajectory rec ++ added) rec
           ∧ (length added <= 2)%nat.
Proof.
  unfold stepped. destruct (GetProcessDefinedStep _) as [process|].
  2:{ exists []. rewrite SetTrajectory_same. split; [done|cbn; lia]. }
  cbn zeta. destruct (_ =? _)%nat; destruct (_ && _).
  - eexists [_; _]. split; [|cbn; lia]. unfold AddTrajectoryPoint, SetTrajectory. cbn.
    by rewrite <- app_assoc.
  - eexists [_]. split; [|cbn; lia]. reflexivity.
  - eexists [_]. split; [|cbn; lia]. reflexivity.
  - exists []. rewrite SetTrajectory_same. split; [done|cbn; lia].
Qed.

(** X10.  A step changes nothing in the service but the store of
    records, and there nothing but the trajectory of the active
    particle's record, which gains at most two points at its end; no
    record is added or removed.  The step itself comes back as it was,
    except that for a track with particle code 0 and an active particle
    the post-step time may be replaced by the track's global time minus
    the step's time plus the step length over the track's velocity. *)
Theorem userSteppingAction_only_extends_trajectory (trk trk' : G4Track)
    (s s' : State) :
  userSteppingAction trk s = Returned trk' s' ->
  s' = set_heap (heap s') s
  ∧ length (heap s') = length (heap s)
  ∧ (∀ q rec, heap s !! q = Some rec ->
       ∃ added,
         heap s' !! q = Some (SetTrajectory (Trajectory rec ++ added) rec)
         ∧ (length added <= 2)%nat
         ∧ (particle (fCurrentParticle s) ≠ Some q -> added = []))
  ∧ (trk' = trk
     ∨ GetPDGEncoding trk = 0
       ∧ is_Some (particle (fCurrentParticle s))
       ∧ trk' = SetStep
                  (mkG4Step (GetPreStepPoint (GetStep trk))
                     (SetGlobalTime
                        (GetTrackGlobalTime trk - GetDeltaTime (GetStep trk)
                         + GetStepLength (GetStep trk) / GetVelocity trk)%float
                        (GetPostStepPoint (GetStep trk)))
                     (GetStepLength (GetStep trk)) (GetDeltaTime (GetStep trk)))
                  trk).
Proof.
  intros Hrun.
  assert (∀ q rec, heap s !! q = Some rec ->
            ∃ added, heap s !! q = Some (SetTrajectory (Trajectory rec ++ added) rec)
                     ∧ (length added <= 2)%nat
                     ∧ (particle (fCurrentParticle s) ≠ Some q -> added = []))
    as Hsame.
  { intros q rec Hq. exists []. rewrite SetTrajectory_same. split; [done|].
    split; [cbn; lia|done]. }
  destruct (particle (fCurrentParticle s)) as [p|] eqn:Hp.
  2:{ rewrite userSteppingAction_idle in Hrun by done. injection Hrun as <- <-.
      rewrite set_heap_same. split_and!; try done. by left. }
  destruct (deref p s) as [rec|] eqn:Hrec.
  2:{ unfold userSteppingAction in Hrun. rewrite Hp, Hrec in Hrun.
      destruct (GetProcessDefinedStep _); [discriminate|].
      injection Hrun as <- <-. rewrite set_heap_same. split_and!; try done. by left. }
  rewrite (userSteppingAction_active trk s p rec Hp Hrec) in Hrun.
  injection Hrun as <- <-. state_simpl.
  assert (p < length (heap s))%nat as Hlt by (eapply lookup_lt_Some; exact Hrec).
  split; [by destruct s|]. split; [apply length_insert|]. split.
  - intros q r Hq. destruct (decide (q = p)) as [->|Hne].
    + unfold deref in Hrec. rewrite Hrec in Hq. injection Hq as <-.
      destruct (stepped_extends (config s) (keepFullTrajectory (fCurrentParticle s))
                  trk rec) as (added & -> & Hlen).
      exists added. rewrite list_lookup_insert_eq by done. done.
    + exists []. rewrite list_lookup_insert_ne by done. rewrite SetTrajectory_same.
      split; [done|]. split; [cbn; lia|done].
  - unfold step_result, fix_step_time.
    destruct (GetProcessDefinedStep _); [|by left].
    destruct (Z.eqb_spec (GetPDGEncoding trk) 0) as [Hz|]; cbn [andb]; [|by left].
    destruct (_ <? _)%float; [|by left].
    right. split; [done|]. split; [by eexists|reflexivity].
Qed.

Lemma userSteppingAction_only_extends_trajectory_witness :
  let track := primary_track 1 "primary" 1 in
  let trk := after_step (Some "eIoni"%string) track in
  let s := state_after (preUserTrackingAction track (new_event default_parameters))
             (new_event default_parameters) in
  let s' := state_after (userSteppingAction trk s) s in
  userSteppingAction trk s = Returned trk s'
  ∧ s' = set_heap (heap s') s
  ∧ length (heap s') = length (heap s).
Proof.
  intros track trk s s'.
  assert (userSteppingAction trk s = Returned trk s') as Hrun by by_computation.
  split; [exact Hrun|].
  destruct (userSteppingAction_only_extends_trajectory trk trk s s' Hrun)
    as (H1 & H2 & _).
  split; [exact H1|exact H2].
Defined.

(** ** The collecting loops of [endOfEventAction] *)

Lemma collect_frame_refl s : collect_frame s s.
Proof. unfold collect_frame. split_and!; done. Qed.

Lemma collect_frame_trans s s1 s2 :
  collect_frame s s1 -> collect_frame s1 s2 -> collect_frame s s2.
Proof.
  unfold collect_frame. intros (?&?&?&?&?&Hi1) (?&?&?&?&?&Hi2).
  split_and!; first [congruence | intros k; by rewrite Hi2, Hi1].
Qed.

Lemma truth_index_of_subscript s k :
  ∀ trackId,
    truth_index_of (set_fMCTIndexMap (subscript 0%N k (fMCTIndexMap s)).2 s) trackId
    = truth_index_of s trackId.
Proof.
  intros id. unfold truth_index_of, subscript. state_simpl.
  destruct (fMCTIndexMap s !! k) eqn:Hk; cbn [snd]; [done|].
  destruct (decide (k = id)) as [->|Hne].
  - by rewrite lookup_insert_eq, Hk.
  - by rewrite lookup_insert_ne.
Qed.

Lemma truth_counter_succ j :
  ((truth_counter j + 1) mod 2 ^ 32)%N = truth_counter (S j).
Proof.
  unfold truth_counter. rewrite N.Div0.add_mod_idemp_l. f_equal. lia.
Qed.

(** One turn of the loop of lines 778-800. *)
Lemma collectParticle_Returned mcl m n entry s s' :
  collectParticle mcl m n entry s = Returned tt s' ->
  ∃ rec, entry.2 ≫= (λ p, deref p s) = Some rec
    ∧ collect_frame s s'
    ∧ droppedPartCol_ s' = droppedPartCol_ s ∧ droppedCol_ s' = droppedCol_ s
    ∧ if bool_decide (truth_index_of s (TrackId rec) = n)
      then Trajectory rec ≠ []
           ∧ (isGeneratedParticleIndex (GetPrimaryTruthIndex (TrackId rec) s) = true
              ∨ Mother rec ≠ 0)
           ∧ partCol_ s' = Some (default [] (partCol_ s) ++ [rec])
           ∧ tpassn_ s'
             = Some (default [] (tpassn_ s)
                     ++ [mkAssn mcl m (length (default [] (partCol_ s)))
                           (GetPrimaryTruthIndex (TrackId rec) s)])
      else partCol_ s' = partCol_ s ∧ tpassn_ s' = tpassn_ s.
Proof.
  unfold collectParticle.
  destruct (entry.2 ≫= (λ p, deref p s)) as [rec|]; [|discriminate].
  pose proof (truth_index_of_subscript s (TrackId rec)) as Hidx.
  pose proof (subscript_value 0%N (TrackId rec) (fMCTIndexMap s)) as Hval.
  destruct (subscript 0%N (TrackId rec) (fMCTIndexMap s)) as [gen_index im].
  cbn [fst snd] in Hidx, Hval. fold (truth_index_of s (TrackId rec)) in Hval.
  subst gen_index. intros Hrun. exists rec. split; [done|].
  assert (collect_frame s (set_fMCTIndexMap im s)) as Hf.
  { unfold collect_frame. state_simpl. split_and!; done. }
  destruct (N.eqb_spec (truth_index_of s (TrackId rec)) n) as [Heq|Hne];
    cbn [negb] in Hrun.
  2:{ injection Hrun as <-. rewrite bool_decide_eq_false_2 by done. done. }
  rewrite bool_decide_eq_true_2 by done.
  destruct (Nat.eqb_spec (NumberTrajectoryPoints rec) 0) as [|Hn]; [discriminate|].
  change (GetPrimaryTruthIndex (TrackId rec) (set_fMCTIndexMap im s))
    with (GetPrimaryTruthIndex (TrackId rec) s) in Hrun.
  destruct (negb (isGeneratedParticleIndex _) && _) eqn:Hprim; [discriminate|].
  injection Hrun as <-. state_simpl.
  split. { unfold collect_frame in *. state_simpl. done. }
  split; [done|]. split; [done|]. split.
  { intros Ht. apply Hn. unfold NumberTrajectoryPoints. by rewrite Ht. }
  split.
  { apply andb_false_iff in Hprim as [Hp|Hp].
    - left. by apply negb_false_iff.
    - right. by apply Z.eqb_neq. }
  split; [done|]. rewrite length_app. cbn [length].
  by replace (length (default [] (partCol_ s)) + 1 - 1)%nat
    with (length (default [] (partCol_ s))) by lia.
Qed.

(** One turn of the loop of lines 802-810. *)
Lemma collectDropped_Returned origin entry s s' :
  collectDropped origin entry s = Returned tt s' ->
  collect_frame s s'
  ∧ partCol_ s' = partCol_ s ∧ tpassn_ s' = tpassn_ s
  ∧ droppedCol_ s' = droppedCol_ s
  ∧ default [] (droppedPartCol_ s')
    = default [] (droppedPartCol_ s)
      ++ (lite origin <$> filter (λ rec, kept_dropped rec = true)
            (option_list (entry.2 ≫= (λ p, deref p s))))
  ∧ (is_Some (droppedPartCol_ s) -> is_Some (droppedPartCol_ s')).
Proof.
  unfold collectDropped.
  destruct (entry.2) as [p|]; cbn [mbind option_bind].
  2:{ intros [= <-]. rewrite app_nil_r. split; [apply collect_frame_refl|done]. }
  destruct (deref p s) as [rec|]; [|discriminate]. cbn [option_list option_rect].
  rewrite filter_cons, filter_nil. unfold kept_dropped.
  destruct (isDropped (Some rec)); cbn [negb andb].
  { intros [= <-]. rewrite decide_False by done. cbn. rewrite app_nil_r.
    split; [apply collect_frame_refl|done]. }
  destruct (StatusCode rec =? 1); cbn [negb].
  - intros [= <-]. rewrite decide_True by done. state_simpl.
    split; [|split_and!; try done; by eexists].
    unfold collect_frame. state_simpl. split_and!; done.
  - intros [= <-]. rewrite decide_False by done. cbn. rewrite app_nil_r.
    split; [apply collect_frame_refl|done].
Qed.

Lemma records_frame (l : list (Z * option nat)) s s' :
  heap s' = heap s ->
  omap (λ entry : Z * option nat, entry.2 ≫= (λ p, deref p s')) l
  = omap (λ entry : Z * option nat, entry.2 ≫= (λ p, deref p s)) l.
Proof. intros H. unfold deref. by rewrite H. Qed.

Lemma associated_frame s0 s s' :
  associated s0 s -> partCol_ s' = partCol_ s -> tpassn_ s' = tpassn_ s ->
  associated s0 s'.
Proof. unfold associated. by intros H -> ->. Qed.

Lemma associated_snoc s0 s s' a rec :
  associated s0 s ->
  partCol_ s' = Some (default [] (partCol_ s) ++ [rec]) ->
  tpassn_ s' = Some (default [] (tpassn_ s) ++ [a]) ->
  assn_particle a = length (default [] (partCol_ s)) ->
  association_of s0 a rec ->
  associated s0 s'.
Proof.
  intros [Hlen Hall] Hp Ha Hpos Hq. unfold associated. rewrite Hp, Ha. cbn [from_option id].
  split; [rewrite !length_app; cbn; lia|].
  intros i b Hb. apply lookup_app_Some in Hb as [Hb|[Hge Hb]].
  - destruct (Hall i b Hb) as (Hi & r & Hr & Hqr). split; [done|].
    exists r. split; [|done]. by apply lookup_app_l_Some.
  - apply list_lookup_singleton_Some in Hb as [Hi <-].
    assert (i = length (default [] (tpassn_ s))) as -> by lia.
    split; [congruence|]. exists rec. split; [|done].
    rewrite Hlen. by rewrite lookup_app_r, Nat.sub_diag.
Qed.

(** The loop of lines 778-800 over the entries [l]. *)
Lemma for_each_collectParticle s0 mcl m j h mct l s s' :
  for_each (collectParticle mcl m (truth_counter j)) l s = Returned tt s' ->
  collect_frame s0 s ->
  fMCLists s0 !! mcl = Some h -> truths h !! m = Some mct ->
  j = truth_number (fMCLists s0) mcl m ->
  collect_frame s s'
  ∧ droppedPartCol_ s' = droppedPartCol_ s ∧ droppedCol_ s' = droppedCol_ s
  ∧ default [] (partCol_ s')
    = default [] (partCol_ s)
      ++ collected_for s
           (omap (λ entry : Z * option nat, entry.2 ≫= (λ p, deref p s)) l) j
  ∧ (associated s0 s -> associated s0 s').
Proof.
  intros Hrun Hf0 Hh Hm Hj. revert s Hrun Hf0.
  induction l as [|entry l IH]; intros s Hrun Hf0; cbn [for_each] in Hrun.
  - injection Hrun as <-. split; [apply collect_frame_refl|].
    unfold collected_for. cbn [omap list_omap]. rewrite filter_nil, app_nil_r. done.
  - apply bind_Returned in Hrun as ([] & s1 & H1 & H2).
    apply collectParticle_Returned in H1
      as (rec & Hrec & Hf1 & Hd1 & Hc1 & Hsel).
    destruct (IH s1 H2 (collect_frame_trans _ _ _ Hf0 Hf1))
      as (Hf2 & Hd2 & Hc2 & Hp2 & Ha2).
    split; [by eapply collect_frame_trans|].
    split; [congruence|]. split; [congruence|].
    assert (heap s1 = heap s) as Hheap by (by destruct Hf1).
    rewrite (records_frame l s s1 Hheap) in Hp2.
    assert (∀ recs, collected_for s1 recs j = collected_for s recs j) as Hcf.
    { intros recs. unfold collected_for. apply list_filter_iff. intros r.
      destruct Hf1 as (_ & _ & _ & _ & _ & Hi). by rewrite Hi. }
    rewrite Hcf in Hp2. cbn [omap list_omap]. rewrite Hrec.
    unfold collected_for. rewrite filter_cons.
    fold (collected_for s
            (omap (λ entry : Z * option nat, entry.2 ≫= (λ p, deref p s)) l) j).
    case_bool_decide as Hb.
    + destruct Hsel as (Hne & Hprim & Hp1 & Ha1).
      rewrite decide_True by done. split.
      { rewrite Hp2, Hp1. cbn [from_option id]. by rewrite <- app_assoc. }
      intros Hass. apply Ha2.
      eapply associated_snoc; [exact Hass|exact Hp1|exact Ha1|reflexivity|].
      destruct Hf0 as (_ & _ & _ & _ & Htr & Hidx).
      unfold association_of. cbn [assn_truthInfo assn_handle assn_truth].
      unfold GetPrimaryTruthIndex in *. rewrite Htr in *.
      split; [done|]. split; [done|]. split; [by exists h, mct|].
      rewrite <- Hidx, Hb. by subst j.
    + destruct Hsel as (Hp1 & Ha1). rewrite decide_False by done. split.
      { rewrite Hp2. by rewrite Hp1. }
      intros Hass. apply Ha2. by eapply associated_frame.
Qed.

(** The loop of lines 802-810 over the entries [l]. *)
Lemma for_each_collectDropped origin l s s' :
  for_each (collectDropped origin) l s = Returned tt s' ->
  collect_frame s s'
  ∧ partCol_ s' = partCol_ s ∧ tpassn_ s' = tpassn_ s
  ∧ droppedCol_ s' = droppedCol_ s
  ∧ default [] (droppedPartCol_ s')
    = default [] (droppedPartCol_ s)
      ++ (lite origin <$> filter (λ rec, kept_dropped rec = true)
            (omap (λ entry : Z * option nat, entry.2 ≫= (λ p, deref p s)) l))
  ∧ (is_Some (droppedPartCol_ s) -> is_Some (droppedPartCol_ s')).
Proof.
  revert s. induction l as [|entry l IH]; intros s Hrun; cbn [for_each] in Hrun.
  - injection Hrun as <-. cbn [omap list_omap]. rewrite filter_nil.
    cbn [fmap list_fmap]. rewrite app_nil_r.
    split; [apply collect_frame_refl|done].
  - apply bind_Returned in Hrun as ([] & s1 & H1 & H2).
    apply collectDropped_Returned in H1 as (Hf1 & Hp1 & Ha1 & Hc1 & Hd1 & Hs1).
    destruct (IH s1 H2) as (Hf2 & Hp2 & Ha2 & Hc2 & Hd2 & Hs2).
    split; [by eapply collect_frame_trans|].
    split; [congruence|]. split; [congruence|]. split; [congruence|].
    split; [|by intros ?%Hs1%Hs2].
    assert (heap s1 = heap s) as Hheap by (by destruct Hf1).
    rewrite (records_frame l s s1 Hheap) in Hd2.
    rewrite Hd2, Hd1, <- app_assoc. f_equal.
    cbn [omap list_omap].
    destruct (entry.2 ≫= (λ p, deref p s)) as [rec|]; cbn [option_list option_rect].
    + rewrite !filter_cons, filter_nil.
      destruct (decide (kept_dropped rec = true)); reflexivity.
    + rewrite filter_nil. reflexivity.
Qed.
Lemma collected_for_frame s s' recs j :
  collect_frame s s' -> collected_for s' recs j = collected_for s recs j.
Proof.
  intros (_ & _ & _ & _ & _ & Hi). unfold collected_for.
  apply list_filter_iff. intros r. by rewrite Hi.
Qed.

(** The loop of lines 775-815 over the truth records [ts] of handle
    [mcl], from position [m]; [j] is the running number of the first. *)
Lemma truths_loop_output s0 mcl h entries dropped ts :
  ∀ tpre m j s n' s',
    truths_loop mcl m ts entries dropped (truth_counter j) s = Returned n' s' ->
    collect_frame s0 s ->
    fMCLists s0 !! mcl = Some h -> truths h = tpre ++ ts -> length tpre = m ->
    j = truth_number (fMCLists s0) mcl m ->
    n' = truth_counter (j + length ts)
    ∧ collect_frame s s'
    ∧ default [] (partCol_ s')
      = default [] (partCol_ s)
        ++ flat_map
             (collected_for s
                (omap (λ entry : Z * option nat, entry.2 ≫= (λ p, deref p s)) entries))
             (seq j (length ts))
    ∧ default [] (droppedPartCol_ s')
      = default [] (droppedPartCol_ s)
        ++ (if fStoreDroppedMCParticles (config s)
               && bool_decide (is_Some (droppedPartCol_ s))
            then flat_map
                   (λ mct, lite (Origin mct)
                           <$> filter (λ rec, kept_dropped rec = true)
                                 (omap (λ entry : Z * option nat,
                                          entry.2 ≫= (λ p, deref p s)) dropped))
                   ts
            else [])
    ∧ (is_Some (droppedPartCol_ s') ↔ is_Some (droppedPartCol_ s))
    ∧ droppedCol_ s'
      = (if is_nil ts then droppedCol_ s else Some (fdroppedTracksMap s))
    ∧ (associated s0 s -> associated s0 s').
Proof.
  induction ts as [|mct ts IH]; intros tpre m j s n' s' Hrun Hf0 Hh Ht Hm Hj;
    cbn [truths_loop] in Hrun.
  - injection Hrun as <- <-. cbn [length flat_map seq is_nil].
    rewrite Nat.add_0_r, !app_nil_r.
    split; [done|]. split; [apply collect_frame_refl|].
    split; [done|]. split; [destruct (_ && _); by rewrite app_nil_r|]. done.
  - apply bind_Returned in Hrun as ([] & s1 & H1 & Hrun).
    apply bind_Returned in Hrun as ([] & s2 & H2 & Hrun).
    assert (truths h !! m = Some mct) as Hmct.
    { rewrite Ht, <- Hm. by rewrite lookup_app_r, Nat.sub_diag. }
    destruct (for_each_collectParticle s0 mcl m j h mct entries s s1 H1 Hf0 Hh Hmct Hj)
      as (Hf1 & Hd1 & Hc1 & Hp1 & Ha1).
    assert (config s1 = config s ∧ heap s1 = heap s) as [Hcfg1 Hheap1]
      by (by destruct Hf1 as (? & ? & _)).
    assert (collect_frame s1 s2
            ∧ partCol_ s2 = partCol_ s1 ∧ tpassn_ s2 = tpassn_ s1
            ∧ default [] (droppedPartCol_ s2)
              = default [] (droppedPartCol_ s)
                ++ (if fStoreDroppedMCParticles (config s)
                       && bool_decide (is_Some (droppedPartCol_ s))
                    then lite (Origin mct)
                         <$> filter (λ rec, kept_dropped rec = true)
                               (omap (λ entry : Z * option nat,
                                        entry.2 ≫= (λ p, deref p s)) dropped)
                    else [])
            ∧ (is_Some (droppedPartCol_ s2) ↔ is_Some (droppedPartCol_ s)))
      as (Hf2 & Hp2 & Ha2 & Hd2 & Hs2).
    { rewrite Hcfg1, Hd1 in H2.
      destruct (fStoreDroppedMCParticles (config s)
                && bool_decide (is_Some (droppedPartCol_ s))) eqn:Hcond.
      - apply for_each_collectDropped in H2 as (Hf2 & Hp2 & Ha2 & _ & Hd2 & Hs2).
        rewrite (records_frame dropped s s1 Hheap1), Hd1 in Hd2.
        split; [done|]. split; [done|]. split; [done|]. split; [done|].
        apply andb_true_iff in Hcond as [_ Hsome]. apply bool_decide_eq_true in Hsome.
        split; [done|]. intros _. apply Hs2. by rewrite Hd1.
      - injection H2 as <-. rewrite app_nil_r, Hd1.
        split; [apply collect_frame_refl|done]. }
    set (s3 := set_droppedCol_ (Some (fdroppedTracksMap s2)) s2) in *.
    assert (collect_frame s2 s3) as Hf3.
    { unfold collect_frame, s3. state_simpl. split_and!; done. }
    assert (collect_frame s s3) as Hfs3.
    { eapply collect_frame_trans; [exact Hf1|].
      eapply collect_frame_trans; [exact Hf2|exact Hf3]. }
    rewrite truth_counter_succ in Hrun.
    destruct (IH (tpre ++ [mct]) (S m) (S j) s3 n' s' Hrun
                (collect_frame_trans _ _ _ Hf0 Hfs3) Hh)
      as (Hn & Hf4 & Hp4 & Hd4 & Hs4 & Hc4 & Ha4).
    { by rewrite <- app_assoc. }
    { rewrite length_app. cbn. lia. }
    { subst j. unfold truth_number. lia. }
    assert (config s3 = config s ∧ heap s3 = heap s
            ∧ fdroppedTracksMap s3 = fdroppedTracksMap s) as (Hcfg3 & Hheap3 & Hdt3)
      by (by destruct Hfs3 as (? & ? & _ & ? & _)).
    split. { rewrite Hn. cbn [length]. f_equal. lia. }
    split; [by eapply collect_frame_trans|].
    split.
    { rewrite Hp4. change (partCol_ s3) with (partCol_ s2). rewrite Hp2, Hp1.
      rewrite <- app_assoc. f_equal. cbn [length seq flat_map]. f_equal.
      rewrite (records_frame entries s s3 Hheap3).
      apply flat_map_ext. intros i. by apply collected_for_frame. }
    split.
    { rewrite Hd4. change (droppedPartCol_ s3) with (droppedPartCol_ s2).
      rewrite Hd2, Hcfg3, <- app_assoc. f_equal.
      rewrite (bool_decide_ext _ _ Hs2).
      rewrite (records_frame dropped s s3 Hheap3).
      by destruct (fStoreDroppedMCParticles (config s) && _). }
    split. { rewrite Hs4. exact Hs2. }
    split.
    { cbn [is_nil]. rewrite Hc4. destruct (is_nil ts); [|by rewrite Hdt3].
      unfold s3. state_simpl. f_equal.
      destruct Hf1 as (_ & _ & _ & Hx & _). destruct Hf2 as (_ & _ & _ & Hy & _).
      congruence. }
    intros Hass. apply Ha4. apply Ha1 in Hass.
    eapply associated_frame; [exact Hass| |]; unfold s3; state_simpl; done.
Qed.

Lemma all_truths_app hs1 hs2 :
  all_truths (hs1 ++ hs2) = all_truths hs1 ++ all_truths hs2.
Proof. unfold all_truths. apply flat_map_app. Qed.

(** The loop of lines 772-816 over the handles [hs], from handle [mcl];
    [j] is the running number of the first truth record that is left. *)
Lemma handles_loop_output s0 entries dropped hs :
  ∀ pre mcl j s n' s',
    handles_loop mcl hs entries dropped (truth_counter j) s = Returned n' s' ->
    collect_frame s0 s ->
    fMCLists s0 = pre ++ hs -> length pre = mcl ->
    j = length (all_truths pre) ->
    n' = truth_counter (j + length (all_truths hs))
    ∧ collect_frame s s'
    ∧ default [] (partCol_ s')
      = default [] (partCol_ s)
        ++ flat_map
             (collected_for s
                (omap (λ entry : Z * option nat, entry.2 ≫= (λ p, deref p s)) entries))
             (seq j (length (all_truths hs)))
    ∧ default [] (droppedPartCol_ s')
      = default [] (droppedPartCol_ s)
        ++ (if fStoreDroppedMCParticles (config s)
               && bool_decide (is_Some (droppedPartCol_ s))
            then flat_map
                   (λ mct, lite (Origin mct)
                           <$> filter (λ rec, kept_dropped rec = true)
                                 (omap (λ entry : Z * option nat,
                                          entry.2 ≫= (λ p, deref p s)) dropped))
                   (all_truths hs)
            else [])
    ∧ (is_Some (droppedPartCol_ s') ↔ is_Some (droppedPartCol_ s))
    ∧ droppedCol_ s'
      = (if is_nil (all_truths hs) then droppedCol_ s
         else Some (fdroppedTracksMap s))
    ∧ (associated s0 s -> associated s0 s').
Proof.
  induction hs as [|h hs IH]; intros pre mcl j s n' s' Hrun Hf0 Hhs Hlen Hj;
    cbn [handles_loop] in Hrun.
  - injection Hrun as <- <-. cbn [all_truths flat_map length seq is_nil].
    rewrite Nat.add_0_r, !app_nil_r.
    split; [done|]. split; [apply collect_frame_refl|].
    split; [done|]. split; [destruct (_ && _); by rewrite app_nil_r|]. done.
  - apply bind_Returned in Hrun as (n1 & s1 & H1 & Hrun).
    assert (fMCLists s0 !! mcl = Some h) as Hh.
    { rewrite Hhs, <- Hlen. by rewrite lookup_app_r, Nat.sub_diag. }
    destruct (truths_loop_output s0 mcl h entries dropped (truths h) [] 0%nat j s n1 s1
                H1 Hf0 Hh eq_refl eq_refl)
      as (Hn1 & Hf1 & Hp1 & Hd1 & Hs1 & Hc1 & Ha1).
    { unfold truth_number. rewrite Hhs, <- Hlen, take_app_length. lia. }
    subst n1.
    destruct (IH (pre ++ [h]) (S mcl) (j + length (truths h))%nat s1 n' s' Hrun
                (collect_frame_trans _ _ _ Hf0 Hf1))
      as (Hn & Hf2 & Hp2 & Hd2 & Hs2 & Hc2 & Ha2).
    { by rewrite <- app_assoc. }
    { rewrite length_app. cbn. lia. }
    { rewrite all_truths_app, length_app. unfold all_truths at 2. cbn.
      rewrite app_nil_r. lia. }
    assert (config s1 = config s ∧ heap s1 = heap s
            ∧ fdroppedTracksMap s1 = fdroppedTracksMap s) as (Hcfg1 & Hheap1 & Hdt1)
      by (by destruct Hf1 as (? & ? & _ & ? & _)).
    change (all_truths (h :: hs)) with (truths h ++ all_truths hs).
    rewrite length_app.
    split. { rewrite Hn. f_equal. lia. }
    split; [by eapply collect_frame_trans|].
    split.
    { rewrite Hp2, Hp1, <- app_assoc. f_equal.
      rewrite seq_app, flat_map_app. f_equal.
      rewrite (records_frame entries s s1 Hheap1).
      apply flat_map_ext. intros i. by apply collected_for_frame. }
    split.
    { rewrite Hd2, Hd1, Hcfg1, <- app_assoc. f_equal.
      rewrite (bool_decide_ext _ _ Hs1).
      rewrite (records_frame dropped s s1 Hheap1).
      destruct (fStoreDroppedMCParticles (config s) && _); [|done].
      by rewrite flat_map_app. }
    split. { rewrite Hs2. exact Hs1. }
    split.
    { rewrite Hc2, Hc1, Hdt1.
      destruct (truths h) as [|t ts]; cbn [is_nil app]; [done|].
      by destruct (is_nil (all_truths hs)). }
    intros Hass. by apply Ha2, Ha1.
Qed.
Lemma without_daughters_AddDaughter d r :
  without_daughters (AddDaughter d r) = without_daughters r.
Proof. reflexivity. Qed.

Lemma UpdateDaughterInformation_frame k s s' :
  UpdateDaughterInformation k s = Returned tt s' ->
  s' = set_heap (heap s') s
  ∧ ∀ p, without_daughters <$> heap s' !! p = without_daughters <$> heap s !! p.
Proof.
  unfold UpdateDaughterInformation.
  destruct (GetMotherOf _ _ _) as [parentID|]; [|discriminate].
  destruct (parentID <=? 0); [intros [= <-]; by rewrite set_heap_same|].
  destruct (PList.find _ _) as [[parent|]|]; intros [= <-];
    try (by rewrite set_heap_same).
  unfold through. state_simpl. split; [done|]. intros p.
  destruct (decide (parent = p)) as [->|Hne].
  - rewrite list_lookup_alter_eq. by destruct (heap s !! p).
  - by rewrite list_lookup_alter_ne.
Qed.

Lemma for_each_UpdateDaughterInformation_frame l s s' :
  for_each UpdateDaughterInformation l s = Returned tt s' ->
  s' = set_heap (heap s') s
  ∧ ∀ p, without_daughters <$> heap s' !! p = without_daughters <$> heap s !! p.
Proof.
  revert s. induction l as [|k l IH]; intros s Hrun; cbn [for_each] in Hrun.
  - injection Hrun as <-. by rewrite set_heap_same.
  - apply bind_Returned in Hrun as ([] & s1 & H1 & H2).
    apply UpdateDaughterInformation_frame in H1 as [E1 Hw1].
    apply IH in H2 as [E2 Hw2]. split.
    + rewrite E2 at 1. rewrite E1. reflexivity.
    + intros p. by rewrite Hw2, Hw1.
Qed.

Lemma without_daughters_records (l : list (Z * option nat)) s s' :
  (∀ p, without_daughters <$> heap s' !! p = without_daughters <$> heap s !! p) ->
  without_daughters
  <$> omap (λ entry : Z * option nat, entry.2 ≫= (λ p, deref p s')) l
  = without_daughters
    <$> omap (λ entry : Z * option nat, entry.2 ≫= (λ p, deref p s)) l.
Proof.
  intros Hw. induction l as [|[k op] l IH]; [done|].
  destruct op as [p|]; cbn [omap list_omap snd mbind option_bind]; [|exact IH].
  pose proof (Hw p) as Hp. fold (deref p s') (deref p s) in Hp.
  destruct (deref p s') as [r'|], (deref p s) as [r|]; cbn in Hp; try discriminate.
  - rewrite !fmap_cons.
    assert (without_daughters r' = without_daughters r) as -> by congruence.
    f_equal. exact IH.
  - exact IH.
Qed.

Lemma collected_for_fmap s (recs : list MCParticle) j :
  without_daughters <$> collected_for s recs j
  = collected_for s (without_daughters <$> recs) j.
Proof.
  unfold collected_for. induction recs as [|r recs IH]; [done|].
  rewrite fmap_cons, !filter_cons. cbn [TrackId without_daughters].
  destruct (decide _); [rewrite fmap_cons|]; by rewrite IH.
Qed.

Lemma fmap_flat_map {A B C} (f : B -> C) (g : A -> list B) (l : list A) :
  f <$> flat_map g l = flat_map (λ x, f <$> g x) l.
Proof.
  induction l as [|a l IH]; [done|]. cbn [flat_map]. by rewrite fmap_app, IH.
Qed.

Lemma lite_kept_fmap origin (recs : list MCParticle) :
  lite origin <$> filter (λ rec, kept_dropped rec = true) recs
  = lite origin
    <$> filter (λ rec, kept_dropped rec = true) (without_daughters <$> recs).
Proof.
  induction recs as [|r recs IH]; [done|].
  rewrite fmap_cons, !filter_cons.
  change (kept_dropped (without_daughters r)) with (kept_dropped r).
  destruct (decide _); [rewrite !fmap_cons|]; by rewrite IH.
Qed.

Lemma association_of_frame s0 s1 a rec :
  fMCLists s1 = fMCLists s0 -> fPrimaryTruthMap s1 = fPrimaryTruthMap s0 ->
  fMCTIndexMap s1 = fMCTIndexMap s0 ->
  association_of s1 a rec -> association_of s0 a rec.
Proof.
  unfold association_of, GetPrimaryTruthIndex, truth_index_of.
  by intros -> -> ->.
Qed.

(** What [endOfEventAction] leaves in the four output collections; [s1]
    is the state after the daughter update, whose records differ from
    those of [s] in their daughter sets only. *)
Lemma endOfEventAction_output s s' :
  endOfEventAction s = Returned tt s' ->
  let n := length (all_truths (fMCLists s)) in
  let dl := default PList.empty (fdroppedParticleList s) in
  ∃ s1,
    (∀ p, without_daughters <$> heap s1 !! p = without_daughters <$> heap s !! p)
    ∧ default [] (partCol_ s')
      = flat_map (collected_for s (records_of (fParticleList s) s1)) (seq 0 n)
    ∧ default [] (droppedPartCol_ s')
      = (if fStoreDroppedMCParticles (config s)
         then flat_map
                (λ mct, lite (Origin mct)
                        <$> filter (λ rec, kept_dropped rec = true) (records_of dl s1))
                (all_truths (fMCLists s))
         else [])
    ∧ droppedCol_ s'
      = Some (if is_nil (all_truths (fMCLists s)) then ∅ else fdroppedTracksMap s)
    ∧ associated s s'
    ∧ (∀ trackId, truth_index_of s' trackId = truth_index_of s trackId)
    ∧ ∃ s0, heap s0 = heap s ∧ fParticleList s0 = fParticleList s
            ∧ for_each UpdateDaughterInformation (PList.keys (fParticleList s0)) s0
              = Returned tt s1.
Proof.
  intros Hrun n dl. unfold endOfEventAction in Hrun.
  set (sa := set_tpassn_ _ _) in Hrun.
  apply bind_Returned in Hrun as ([] & s1 & H1 & Hrun).
  pose proof H1 as Hupdate.
  apply for_each_UpdateDaughterInformation_frame in H1 as [E1 Hw1].
  exists s1. split; [exact Hw1|].
  apply bind_Returned in Hrun as (pl & s2 & H2 & Hrun).
  destruct (YieldList_offset s1) as (s2' & HY & Hs2).
  rewrite HY in H2. injection H2 as <- <-.
  assert (∃ o, s2' = set_fTrackIDOffset o s1) as [o ->].
  { destruct (_ =? _)%nat.
    - subst s2'. exists (fTrackIDOffset s1). by destruct s1.
    - destruct Hs2 as (M & _ & ->). by eexists. }
  apply bind_Returned in Hrun as (dl' & s3 & H3 & Hrun).
  apply bind_Returned in Hrun as (n' & s4 & H4 & Hrun).
  injection Hrun as <-.
  assert (fParticleList s1 = fParticleList s) as Hpl by (rewrite E1; reflexivity).
  assert (dl' = dl
          ∧ ∃ o', s3 = set_fdroppedParticleList
                         ((λ _, PList.empty) <$> fdroppedParticleList s)
                         (set_fTrackIDOffset o'
                            (set_fParticleList PList.empty s1))) as (-> & o' & ->).
  { cbn beta in H3. state_simpl. subst dl.
    assert (fdroppedParticleList s1 = fdroppedParticleList s) as Hdl
      by (rewrite E1; reflexivity).
    rewrite Hdl in H3. destruct (fdroppedParticleList s) as [d|] eqn:Hd.
    - apply bind_Returned in H3 as (d' & s2'' & HD & HR). injection HR as <- <-.
      unfold YieldDroppedList in HD. state_simpl. rewrite Hdl in HD.
      destruct (negb _); injection HD as <- <-; (split; [done|]);
        eexists; state_simpl; reflexivity.
    - injection H3 as <- <-. split; [done|]. exists o.
      clear -Hdl. destruct s1. cbn in Hdl |- *. by subst. }
  set (s3 := set_fdroppedParticleList _ _) in *.
  assert (fMCLists s3 = fMCLists s ∧ fPrimaryTruthMap s3 = fPrimaryTruthMap s
          ∧ fMCTIndexMap s3 = fMCTIndexMap s ∧ config s3 = config s
          ∧ fdroppedTracksMap s3 = fdroppedTracksMap s
          ∧ heap s3 = heap s1
          ∧ partCol_ s3 = Some [] ∧ tpassn_ s3 = Some []
          ∧ droppedPartCol_ s3 = Some [] ∧ droppedCol_ s3 = Some ∅)
    as (Hl3 & Ht3 & Hi3 & Hc3 & Hd3 & Hh3 & Hp3 & Ha3 & Hdp3 & Hdc3).
  { unfold s3. state_simpl. rewrite E1. state_simpl. split_and!; reflexivity. }
  cbn beta in H4. rewrite Hpl in H4. change 0%N with (truth_counter 0) in H4.
  destruct (handles_loop_output s3 (PList.entries (fParticleList s)) (PList.entries dl)
              (fMCLists s3) [] 0%nat 0%nat s3 n' s4 H4 (collect_frame_refl s3)
              eq_refl eq_refl eq_refl)
    as (_ & Hf4 & Hp4 & Hdp4 & _ & Hdc4 & Ha4).
  state_simpl. rewrite Hp3, Hdp3, Hdc3, Hl3, Hc3, Hd3 in *. cbn [from_option id app] in *.
  assert (∀ l : list (Z * option nat),
            omap (λ entry : Z * option nat, entry.2 ≫= (λ p, deref p s3)) l
            = omap (λ entry : Z * option nat, entry.2 ≫= (λ p, deref p s1)) l) as Hrec
    by (intros l; by apply records_frame).
  rewrite !Hrec in *.
  assert (∀ recs j, collected_for s3 recs j = collected_for s recs j) as Hcf.
  { intros recs j. unfold collected_for, truth_index_of. by rewrite Hi3. }
  split. { rewrite Hp4. apply flat_map_ext. intros i. apply Hcf. }
  split.
  { rewrite Hdp4. rewrite bool_decide_eq_true_2 by (by eexists).
    by rewrite andb_true_r. }
  split. { rewrite Hdc4. by destruct (is_nil _). }
  assert (associated s3 s3) as Hass.
  { unfold associated. rewrite Hp3, Ha3. split; [done|]. intros i a Hi. done. }
  apply Ha4 in Hass. destruct Hass as [Hlen Hall]. split.
  - split; [exact Hlen|].
    intros i a Hi. destruct (Hall i a Hi) as (Hpos & rec & Hrec' & Hq).
    split; [exact Hpos|]. exists rec. split; [exact Hrec'|].
    by apply (association_of_frame s s3).
  - split.
    + intros trackId. destruct Hf4 as (_ & _ & _ & _ & _ & Hidx).
      unfold truth_index_of in *. state_simpl. by rewrite Hidx, Hi3.
    + exists sa. split; [reflexivity|]. split; [reflexivity|]. exact Hupdate.
Qed.
(** ** The outputs of an event *)

(** X11.  The retained output of an event that ends normally.  For each
    truth record, in the order of the handles and of the records in a
    handle, it holds the records of the retained list whose truth index is
    the running number of that truth record, in ascending order of the
    list's keys; a record whose truth index is the running number of no
    truth record is left out.  The records are those of the list, apart
    from the daughter sets that the end of the event fills in. *)
Theorem retained_output_grouped_by_truth (s s' : State) :
  endOfEventAction s = Returned tt s' ->
  without_daughters <$> default [] (partCol_ s')
  = flat_map
      (collected_for s (without_daughters <$> records_of (fParticleList s) s))
      (seq 0 (length (all_truths (fMCLists s)))).
Proof.
  intros Hrun. destruct (endOfEventAction_output s s' Hrun) as (s1 & Hw & Hp & _).
  rewrite Hp, fmap_flat_map. apply flat_map_ext. intros i.
  rewrite collected_for_fmap. f_equal. unfold records_of.
  by apply without_daughters_records.
Qed.

Lemma retained_output_grouped_by_truth_witness :
  let s := after_tracks default_parameters two_tracks in
  let s' := state_after (endOfEventAction s) s in
  endOfEventAction s = Returned tt s'
  ∧ TrackId <$> default [] (partCol_ s') = [1; 2]
  ∧ without_daughters <$> default [] (partCol_ s')
    = collected_for s (without_daughters <$> records_of (fParticleList s) s) 0.
Proof.
  intros s s'.
  assert (endOfEventAction s = Returned tt s') as Hrun by by_computation.
  split; [exact Hrun|]. split; [by_computation|].
  rewrite (retained_output_grouped_by_truth s s' Hrun).
  assert (length (all_truths (fMCLists s)) = 1%nat) as -> by by_computation.
  cbn [seq flat_map]. apply app_nil_r.
Defined.

(** X12.  The association list of an event that ends normally runs in
    step with the retained output: entry [i] points to particle [i],
    carries the generated-particle index that [GetPrimaryTruthIndex] gives
    for that particle, which is a real index unless the particle has a
    parent, and names an existing truth record, the one whose running
    number is the particle's truth index. *)
Theorem associations_follow_particles (s s' : State) :
  endOfEventAction s = Returned tt s' ->
  length (default [] (tpassn_ s')) = length (default [] (partCol_ s'))
  ∧ ∀ i a, default [] (tpassn_ s') !! i = Some a ->
      assn_particle a = i
      ∧ ∃ rec h mct,
          default [] (partCol_ s') !! i = Some rec
          ∧ assn_truthInfo a = GetPrimaryTruthIndex (TrackId rec) s
          ∧ (isGeneratedParticleIndex (assn_truthInfo a) = true ∨ Mother rec ≠ 0)
          ∧ fMCLists s !! assn_handle a = Some h
          ∧ truths h !! assn_truth a = Some mct
          ∧ truth_index_of s (TrackId rec)
            = truth_counter
                (truth_number (fMCLists s) (assn_handle a) (assn_truth a)).
Proof.
  intros Hrun.
  destruct (endOfEventAction_output s s' Hrun)
    as (s1 & _ & _ & _ & _ & (Hlen & Hall) & _).
  split; [exact Hlen|]. intros i a Hi.
  destruct (Hall i a Hi) as (Hpos & rec & Hrec & Hinfo & Hprim & (h & mct & Hh & Hm) & Hidx).
  split; [exact Hpos|]. by exists rec, h, mct.
Qed.

Lemma associations_follow_particles_witness :
  let s := after_tracks default_parameters two_tracks in
  let s' := state_after (endOfEventAction s) s in
  endOfEventAction s = Returned tt s'
  ∧ length (default [] (tpassn_ s')) = 2%nat
  ∧ ∀ i a, default [] (tpassn_ s') !! i = Some a -> assn_particle a = i.
Proof.
  intros s s'.
  assert (endOfEventAction s = Returned tt s') as Hrun by by_computation.
  split; [exact Hrun|].
  destruct (associations_follow_particles s s' Hrun) as [Hlen Hall].
  split; [rewrite Hlen; by_computation|].
  intros i a Ha. destruct (Hall i a Ha) as [Hi _]. exact Hi.
Defined.

(** X13.  The ancestry map is handed over inside the loop over the truth
    records: an event that ends normally publishes the dropped-tracks map
    when it has at least one truth record and an empty ancestry map when
    it has none, and in the second case the other three outputs are empty
    too, whatever the lists hold. *)
Theorem ancestry_output_needs_truth (s s' : State) :
  endOfEventAction s = Returned tt s' ->
  droppedCol_ s'
  = Some (if is_nil (all_truths (fMCLists s)) then ∅ else fdroppedTracksMap s)
  ∧ (all_truths (fMCLists s) = [] ->
     default [] (partCol_ s') = [] ∧ default [] (tpassn_ s') = []
     ∧ default [] (droppedPartCol_ s') = []).
Proof.
  intros Hrun.
  destruct (endOfEventAction_output s s' Hrun)
    as (s1 & _ & Hp & Hd & Hc & (Hlen & _) & _).
  split; [exact Hc|]. intros Hnone. rewrite Hnone in *. cbn in Hp, Hd.
  rewrite Hp in Hlen. split; [exact Hp|]. split.
  - by apply nil_length_inv.
  - rewrite Hd. by destruct (fStoreDroppedMCParticles _).
Qed.

Lemma ancestry_output_needs_truth_witness :
  let s := set_fMCLists [] (after_tracks energy_cut_1 three_tracks) in
  let s' := state_after (endOfEventAction s) s in
  endOfEventAction s = Returned tt s'
  ∧ fdroppedTracksMap s ≠ ∅
  ∧ droppedCol_ s' = Some ∅
  ∧ default [] (partCol_ s') = [].
Proof.
  intros s s'.
  assert (endOfEventAction s = Returned tt s') as Hrun by by_computation.
  split; [exact Hrun|]. split.
  { intros H. apply (f_equal (λ m : gmap Z (gset Z), bool_decide (m = ∅))) in H.
    vm_compute in H. discriminate. }
  destruct (ancestry_output_needs_truth s s' Hrun) as [Hd Hempty].
  split; [exact Hd|]. destruct (Hempty eq_refl) as [Hp _]. exact Hp.
Defined.

(** X14.  The dropped-particle output of an event that ends normally is
    empty unless [StoreDroppedMCParticles] is set.  When it is set, the
    output holds, for every truth record in turn, a reduced record of
    every live entry of the dropped list that has a trajectory point and
    status code 1, stamped with that truth record's origin: the loop does
    not compare truth indices, so such an entry appears once per truth
    record. *)
Theorem dropped_output_repeats_per_truth (s s' : State) :
  endOfEventAction s = Returned tt s' ->
  default [] (droppedPartCol_ s')
  = if fStoreDroppedMCParticles (config s)
    then flat_map
           (λ mct, lite (Origin mct)
                   <$> filter (λ rec, kept_dropped rec = true)
                         (records_of (default PList.empty (fdroppedParticleList s)) s))
           (all_truths (fMCLists s))
    else [].
Proof.
  intros Hrun. destruct (endOfEventAction_output s s' Hrun) as (s1 & Hw & _ & Hd & _).
  rewrite Hd. destruct (fStoreDroppedMCParticles _); [|done].
  apply flat_map_ext. intros mct.
  rewrite lite_kept_fmap, (lite_kept_fmap _ (records_of _ s)). do 2 f_equal.
  unfold records_of. by apply without_daughters_records.
Qed.

Lemma dropped_output_repeats_per_truth_witness :
  let s := after_dropped_daughter in
  let s' := state_after (endOfEventAction s) s in
  endOfEventAction s = Returned tt s'
  ∧ (λ rec, (TrackId rec, StatusCode rec, length (Trajectory rec)))
    <$> records_of (default PList.empty (fdroppedParticleList s)) s
    = [(2, 1, 2%nat)]
  ∧ TrackId <$> default [] (partCol_ s') = [1]
  ∧ default [] (droppedPartCol_ s')
    = [mkMCParticleLite 2 11 1; mkMCParticleLite 2 11 2].
Proof.
  intros s s'.
  assert (endOfEventAction s = Returned tt s') as Hrun by by_computation.
  split; [exact Hrun|]. split; [by_computation|]. split; [by_computation|].
  rewrite (dropped_output_repeats_per_truth s s' Hrun). by_computation.
Defined.

(** ** The daughter update *)

Lemma elem_of_keys (pl : ParticleList) (k : Z) :
  k ∈ PList.keys pl ↔ is_Some (m_particleList pl !! k).
Proof.
  unfold PList.keys. rewrite merge_sort_Permutation, elem_of_elements.
  apply elem_of_dom.
Qed.

Lemma well_keyed_find pl s k p :
  well_keyed pl s -> m_particleList pl !! k = Some (Some p) ->
  PList.find k pl = Some (Some p).
Proof.
  intros Hwk Hk. destruct (Hwk k _ Hk) as [Hr _].
  unfold PList.find. rewrite Z.abs_eq, wrap32_id by (unfold int_range; lia). done.
Qed.

(** One call on a key of a well-keyed list. *)
Lemma UpdateDaughterInformation_well_keyed pl s k q r :
  well_keyed pl s -> fParticleList s = pl ->
  m_particleList pl !! k = Some (Some q) -> heap s !! q = Some r ->
  UpdateDaughterInformation k s
  = Returned tt
      (if 0 <? Mother r
       then match m_particleList pl !! Mother r with
            | Some (Some parent) => through parent (AddDaughter k) s
            | _ => s
            end
       else s).
Proof.
  intros Hwk Hpl Hk Hq. unfold UpdateDaughterInformation, GetMotherOf. rewrite Hpl.
  rewrite (well_keyed_find pl s k q Hwk Hk). unfold deref. rewrite Hq. cbn [fmap option_fmap option_map].
  destruct (Z.leb_spec (Mother r) 0) as [Hle|Hgt].
  - by rewrite (proj2 (Z.ltb_ge 0 (Mother r))) by lia.
  - rewrite (proj2 (Z.ltb_lt 0 (Mother r))) by lia.
    destruct (Hwk k _ Hk) as (_ & q' & r' & [= <-] & Hq' & _ & Hm).
    rewrite Hq in Hq'. injection Hq' as <-.
    unfold PList.find. rewrite Z.abs_eq, wrap32_id by (unfold int_range in *; lia).
    by destruct (m_particleList pl !! Mother r) as [[parent|]|].
Qed.

Lemma well_keyed_through pl parent d s :
  well_keyed pl s -> well_keyed pl (through parent (AddDaughter d) s).
Proof.
  intros Hwk k op Hk. destruct (Hwk k op Hk) as (Hr & p & rec & -> & Hp & Hid & Hm).
  split; [done|]. unfold through. state_simpl.
  destruct (decide (parent = p)) as [->|Hne].
  - exists p, (AddDaughter d rec). rewrite list_lookup_alter_eq, Hp. done.
  - exists p, rec. rewrite list_lookup_alter_ne by done. done.
Qed.

Lemma for_each_UpdateDaughterInformation_daughters pl l :
  ∀ s, well_keyed pl s -> fParticleList s = pl ->
       (∀ k, k ∈ l -> is_Some (m_particleList pl !! k)) ->
  ∃ s', for_each UpdateDaughterInformation l s = Returned tt s'
    ∧ ∀ k p rec, m_particleList pl !! k = Some (Some p) -> heap s !! p = Some rec ->
        ∃ rec', heap s' !! p = Some rec'
          ∧ without_daughters rec' = without_daughters rec
          ∧ ∀ d, d ∈ Daughters rec'
                 ↔ d ∈ Daughters rec ∨ (0 < k ∧ d ∈ l ∧ daughter_of pl s k d).
Proof.
  induction l as [|a l IH]; intros s Hwk Hpl Hl; cbn [for_each].
  - exists s. split; [done|]. intros k p rec Hk Hp. exists rec.
    split; [done|]. split; [done|]. intros d. split; [by left|].
    intros [H|(_ & []%elem_of_nil & _)]; done.
  - destruct (Hl a ltac:(by left)) as [opa Ha].
    destruct (Hwk a opa Ha) as (Hra & q & r & -> & Hq & Hida & Hma).
    rewrite (UpdateDaughterInformation_well_keyed pl s a q r Hwk Hpl Ha Hq).
    cbn [bind].
    set (s1 := if 0 <? Mother r then _ else s).
    assert (well_keyed pl s1 ∧ fParticleList s1 = pl
            ∧ (∀ p, without_daughters <$> heap s1 !! p
                    = without_daughters <$> heap s !! p)
            ∧ ∀ k p rec, m_particleList pl !! k = Some (Some p) ->
                heap s !! p = Some rec ->
                ∃ rec1, heap s1 !! p = Some rec1
                  ∧ ∀ d, d ∈ Daughters rec1
                         ↔ d ∈ Daughters rec ∨ (0 < k ∧ d = a ∧ Mother r = k))
      as (Hwk1 & Hpl1 & Hw1 & Hd1).
    { unfold s1. destruct (Z.ltb_spec 0 (Mother r)) as [Hgt|Hle].
      2:{ split; [done|]. split; [done|]. split; [done|].
          intros k p rec Hk Hp. exists rec. split; [done|]. intros d.
          split; [by left|]. intros [H|(? & ? & ?)]; [done|lia]. }
      destruct (m_particleList pl !! Mother r) as [[parent|]|] eqn:Hpar.
      2,3: split; [done|]; split; [done|]; split; [done|];
           intros k p rec Hk Hp; exists rec; (split; [done|]); intros d;
           (split; [by left|]); intros [H|(? & ? & Hm)]; [done|];
           rewrite <- Hm, Hpar in Hk; discriminate.
      split; [by apply well_keyed_through|]. split; [done|]. split.
      { intros p. unfold through. state_simpl.
        destruct (decide (parent = p)) as [->|Hne].
        - rewrite list_lookup_alter_eq. by destruct (heap s !! p).
        - by rewrite list_lookup_alter_ne. }
      intros k p rec Hk Hp. unfold through. state_simpl.
      destruct (Hwk _ _ Hpar) as (_ & p' & rp & [= <-] & Hrp & Hidp & _).
      destruct (Hwk _ _ Hk) as (_ & p'' & rk & [= <-] & Hrk & Hidk & _).
      rewrite Hp in Hrk. injection Hrk as <-.
      destruct (decide (parent = p)) as [->|Hne].
      - rewrite Hp in Hrp. injection Hrp as <-.
        exists (AddDaughter a rec). rewrite list_lookup_alter_eq, Hp. split; [done|].
        intros d. cbn [Daughters AddDaughter]. rewrite elem_of_union, elem_of_singleton.
        split; [intros [->|H]; [right|left]; [|done]|intros [H|(_ & -> & _)]; auto].
        split_and!; [lia|done|congruence].
      - exists rec. rewrite list_lookup_alter_ne by done. split; [done|].
        intros d. split; [by left|]. intros [H|(_ & _ & Hm)]; [done|].
        exfalso. apply Hne. rewrite Hm, Hk in Hpar. congruence. }
    destruct (IH s1 Hwk1 Hpl1 ltac:(intros k Hk; apply Hl; by right))
      as (s' & Hrun & Hd').
    exists s'. split; [exact Hrun|]. intros k p rec Hk Hp.
    destruct (Hd1 k p rec Hk Hp) as (rec1 & Hp1 & Hds1).
    destruct (Hd' k p rec1 Hk Hp1) as (rec' & Hp' & Hw' & Hds').
    exists rec'. split; [exact Hp'|]. split.
    { rewrite Hw'. pose proof (Hw1 p) as Hwp. rewrite Hp1, Hp in Hwp.
      cbn in Hwp. congruence. }
    assert (∀ d, daughter_of pl s1 k d ↔ daughter_of pl s k d) as Hdo.
    { intros d. unfold daughter_of. split.
      - intros (q' & r' & Hq' & Hr' & Hm').
        pose proof (Hw1 q') as Hwq. rewrite Hr' in Hwq.
        destruct (heap s !! q') as [r0|] eqn:Hr0; [|discriminate].
        exists q', r0. split; [done|]. split; [done|].
        cbn in Hwq. assert (Mother r0 = Mother r') as Hmo
          by (change (Mother (without_daughters r0) = Mother (without_daughters r'));
              congruence).
        congruence.
      - intros (q' & r' & Hq' & Hr' & Hm').
        pose proof (Hw1 q') as Hwq. rewrite Hr' in Hwq.
        destruct (heap s1 !! q') as [r0|] eqn:Hr0; [|discriminate].
        exists q', r0. split; [done|]. split; [done|].
        cbn in Hwq. assert (Mother r0 = Mother r') as Hmo
          by (change (Mother (without_daughters r0) = Mother (without_daughters r'));
              congruence).
        congruence. }
    intros d. rewrite Hds', Hds1, Hdo, elem_of_cons. split.
    + intros [[H|(H0 & -> & Hm)]|(H0 & Hin & Hdau)]; auto.
      right. split; [done|]. split; [by left|]. by exists q, r.
    + intros [H|(H0 & [->|Hin] & Hdau)]; auto.
      left. right. split; [done|]. split; [done|].
      destruct Hdau as (q' & r' & Hq' & Hr' & Hm'). rewrite Ha in Hq'.
      injection Hq' as <-. rewrite Hq in Hr'. by injection Hr' as <-.
Qed.

(** X15.  The daughter update at the end of an event, on a retained list
    whose entries are live records under their own track IDs.  It never
    fails, it changes no record but in its daughter set, and the daughter
    set of a record with a positive ID gains exactly the IDs of the list's
    records that name it as their parent; a record with ID 0 gains none,
    since a parent ID of 0 marks a primary. *)
Theorem daughters_after_update (s : State) :
  well_keyed (fParticleList s) s ->
  ∃ s',
    for_each UpdateDaughterInformation (PList.keys (fParticleList s)) s = Returned tt s'
    ∧ ∀ k p rec,
        m_particleList (fParticleList s) !! k = Some (Some p) ->
        heap s !! p = Some rec ->
        ∃ rec', heap s' !! p = Some rec'
          ∧ without_daughters rec' = without_daughters rec
          ∧ ∀ d, d ∈ Daughters rec'
                 ↔ d ∈ Daughters rec ∨ (0 < k ∧ daughter_of (fParticleList s) s k d).
Proof.
  intros Hwk.
  destruct (for_each_UpdateDaughterInformation_daughters (fParticleList s)
              (PList.keys (fParticleList s)) s Hwk eq_refl) as (s' & Hrun & Hd).
  { intros k. apply elem_of_keys. }
  exists s'. split; [exact Hrun|]. intros k p rec Hk Hp.
  destruct (Hd k p rec Hk Hp) as (rec' & Hp' & Hw & Hds).
  exists rec'. split; [exact Hp'|]. split; [exact Hw|]. intros d. rewrite Hds.
  split; intros [H|H]; auto; right.
  - by destruct H as (? & _ & ?).
  - destruct H as [H0 Hdau]. split; [done|]. split; [|done].
    apply elem_of_keys. destruct Hdau as (q & r & Hq & _). by eexists.
Qed.

Lemma daughters_after_update_witness :
  let s := after_tracks default_parameters two_tracks in
  well_keyed (fParticleList s) s
  ∧ ∃ s' rec',
      for_each UpdateDaughterInformation (PList.keys (fParticleList s)) s
      = Returned tt s'
      ∧ heap s' !! 0%nat = Some rec' ∧ 2 ∈ Daughters rec'.
Proof.
  intros s.
  assert (m_particleList (fParticleList s)
          = <[1 := Some 0%nat]> (<[2 := Some 1%nat]> ∅)) as Hm by by_computation.
  destruct (heap s !! 0%nat) as [r0|] eqn:H0; [|vm_compute in H0; discriminate].
  destruct (heap s !! 1%nat) as [r1|] eqn:H1; [|vm_compute in H1; discriminate].
  assert (TrackId r0 = 1 ∧ Mother r0 = 0) as [Hi0 Hm0]
    by (vm_compute in H0; injection H0 as <-; split; reflexivity).
  assert (TrackId r1 = 2 ∧ Mother r1 = 1) as [Hi1 Hm1]
    by (vm_compute in H1; injection H1 as <-; split; reflexivity).
  assert (well_keyed (fParticleList s) s) as Hwk.
  { intros k op Hk. rewrite Hm in Hk.
    apply lookup_insert_Some in Hk as [[<- <-]|[_ Hk]].
    { split; [lia|]. exists 0%nat, r0. rewrite Hm0. unfold int_range.
      split; [reflexivity|]. split; [exact H0|]. split; [exact Hi0|lia]. }
    apply lookup_insert_Some in Hk as [[<- <-]|[_ Hk]].
    { split; [lia|]. exists 1%nat, r1. rewrite Hm1. unfold int_range.
      split; [reflexivity|]. split; [exact H1|]. split; [exact Hi1|lia]. }
    rewrite lookup_empty in Hk. discriminate. }
  split; [exact Hwk|].
  destruct (daughters_after_update s Hwk) as (s' & Hrun & Hall).
  destruct (Hall 1 0%nat r0 ltac:(rewrite Hm; apply lookup_insert_eq) H0)
    as (rec' & Hrec' & _ & Hd).
  exists s', rec'. split; [exact Hrun|]. split; [exact Hrec'|].
  apply Hd. right. split; [lia|]. exists 1%nat, r1.
  split; [|split; [exact H1|exact Hm1]].
  rewrite Hm. rewrite lookup_insert_ne by lia. apply lookup_insert_eq.
Defined.

(** ** The effect of one track on the store and the lists *)

Lemma insert_at_length {A} (l : list A) (a b : A) :
  <[length l := b]> (l ++ [a]) = l ++ [b].
Proof. induction l as [|c l IH]; cbn; [done|]. f_equal. exact IH. Qed.

(** What an admission that returns leaves behind. *)
Lemma preUserTrackingAction_effect track s s1 :
  preUserTrackingAction track s = Returned tt s1 ->
  let tid := trackID_of track s in
  let p := length (heap s) in
  let proper0 := (GetProperTime track =? 0)%float in
  config s1 = config s
  ∧ (fParentIDMap s1 = fParentIDMap s
     ∨ GetPrimaryParticle track = None
       ∧ fParentIDMap s1 = <[tid := parentID_of track s]> (fParentIDMap s))
  ∧ (cut_by_energy track s
     ∧ particle (fCurrentParticle s1) = None ∧ heap s1 = heap s
     ∧ fParticleList s1 = fParticleList s
     ∧ fdroppedParticleList s1 = fdroppedParticleList s
     ∨ ¬ cut_by_energy track s
       ∧ ∃ pn parentID (notstore : bool),
           particle (fCurrentParticle s1) = Some p
           ∧ heap s1 = heap s ++ [created track tid (GetPDGEncoding track) pn parentID]
           ∧ (notstore = true
              ↔ GetPrimaryParticle track = None
                ∧ ∃ pn, GetCreatorProcess track = Some pn
                        ∧ is_Some (excluded_by (config s) pn))
           ∧ fParticleList s1
             = (if negb proper0 || notstore then fParticleList s
                else PList.Add tid p (fParticleList s))
           ∧ fdroppedParticleList s1
             = (if proper0 && notstore
                then PList.Add tid p <$> fdroppedParticleList s
                else fdroppedParticleList s)).
Proof.
  intros Hrun tid p proper0.
  assert (∀ s0 pn parentID pi pmi flag notstore,
            createParticle track tid (GetPDGEncoding track) pn parentID pi pmi flag
              notstore s0 = Returned tt s1 ->
            heap s0 = heap s -> fParticleList s0 = fParticleList s ->
            fdroppedParticleList s0 = fdroppedParticleList s -> config s0 = config s ->
            config s1 = config s
            ∧ fParentIDMap s1 = fParentIDMap s0
            ∧ particle (fCurrentParticle s1) = Some p
            ∧ heap s1 = heap s ++ [created track tid (GetPDGEncoding track) pn parentID]
            ∧ fParticleList s1
              = (if negb proper0 || notstore then fParticleList s
                 else PList.Add tid p (fParticleList s))
            ∧ fdroppedParticleList s1
              = (if proper0 && notstore
                 then PList.Add tid p <$> fdroppedParticleList s
                 else fdroppedParticleList s)) as Hcreate.
  { intros s0 pn parentID pi pmi flag notstore Hc Hh Hl Hd Hcfg.
    destruct (createParticle_spec track tid (GetPDGEncoding track) pn parentID pi pmi
                flag notstore s0)
      as (s'' & Hc' & Hslot & Hheap & _ & _ & Hlist & Hdl & Hcfg' & _ & _ & Hpm & _).
    rewrite Hc in Hc'. injection Hc' as <-.
    rewrite Hslot, Hheap, Hlist, Hdl, Hh, Hl, Hd, negb_involutive. cbn [particle].
    split_and!; try done. congruence. }
  destruct (GetPrimaryParticle track) as [pp|] eqn:Hpp.
  - unfold preUserTrackingAction in Hrun. rewrite Hpp in Hrun. state_simpl.
    fold (trackID_of track s) (parentID_of track s) in Hrun. fold tid in Hrun.
    fold (entered track s) in Hrun.
    assert (∃ pn par pi pmi flag,
              createParticle track tid (GetPDGEncoding track) pn par
                pi pmi flag false (entered track s) = Returned tt s1)
      as (pn & par & pi & pmi & flag & Hc).
    { destruct (GetUserInformation pp) as [ppi|].
      - destruct (primary_process_name _) as [pn flag]. by do 5 eexists.
      - by do 5 eexists. }
    destruct (Hcreate _ _ _ _ _ _ _ Hc eq_refl eq_refl eq_refl eq_refl)
      as (Hcfg & Hpm & Hslot & Hheap & Hl & Hd).
    split; [done|]. split; [by left|]. right.
    split; [intros [? _]; congruence|]. exists pn, par, false.
    split_and!; try done. split; [done|]. intros [? _]; congruence.
  - destruct (GetCreatorProcess track) as [pn|] eqn:Hcp.
    2:{ unfold preUserTrackingAction in Hrun. rewrite Hpp, Hcp in Hrun. discriminate. }
    destruct (below_energyCut track s) eqn:Hcut.
    + unfold preUserTrackingAction in Hrun. rewrite Hpp, Hcp in Hrun.
      unfold admitSecondary in Hrun. state_simpl.
      fold (trackID_of track s) (parentID_of track s) in Hrun.
      fold (entered track s) in Hrun.
      apply bind_Returned in Hrun as (notstore & s1' & Hex & Hk).
      apply processExclusion_Returned in Hex as [Hf' Hex].
      fold (below_energyCut track s1') in Hk.
      replace (below_energyCut track s1') with true in Hk.
      2:{ destruct Hf' as [Hc _]. unfold below_energyCut in *. rewrite Hc. done. }
      rewrite energyCutDrop_eq in Hk.
      destruct (parentage (fParentIDMap s1') _) as [b0|]; [|discriminate].
      destruct (parentage (<[_:=_]> (fParentIDMap s1')) _) as [b|]; [|discriminate].
      injection Hk as <-.
      destruct Hf' as (Hcfg & _ & Hh & _ & Hl & Hd & _).
      unfold cut_state. state_simpl. split; [done|].
      split.
      { right. split; [done|].
        change (config (entered track s)) with (config s) in Hex.
        destruct (excluded_by (config s) pn).
        - destruct Hex as (_ & c & _ & ->). unfold excluded_state, entered. state_simpl.
          by rewrite insert_insert_eq.
        - by destruct Hex as (_ & ->). }
      left. split; [by split|]. done.
    + destruct (admitSecondary_created track pn s s1 Hpp Hcp Hrun Hcut)
        as (notstore & s1' & parent & s2 & index & Hex & Hres & Hidx & Hc).
      apply processExclusion_Returned in Hex as [Hf1 Hex].
      change (config (entered track s)) with (config s) in Hex.
      pose proof (resolveParent_frame _ _ _ _ _ Hres) as Hf2.
      apply resolveParent_Returned in Hres.
      assert (admission_frame s s2) as Hf.
      { eapply admission_frame_trans; [apply admission_frame_entered|].
        eapply admission_frame_trans; [exact Hf1|exact Hf2]. }
      destruct Hf as (Hcfg & _ & Hh & _ & Hl & Hd & _).
      destruct (Hcreate _ _ _ _ _ _ _ Hc Hh Hl Hd Hcfg)
        as (Hcfg1 & Hpm & Hslot & Hheap & Hl1 & Hd1).
      split; [done|]. split.
      { rewrite Hpm. state_simpl.
        assert (fParentIDMap s1' = fParentIDMap s
                ∨ fParentIDMap s1' = <[tid := parentID_of track s]> (fParentIDMap s))
          as Hm1.
        { destruct (excluded_by (config s) pn).
          - destruct Hex as (_ & c & _ & ->). by right.
          - destruct Hex as (_ & ->). by left. }
        destruct Hres as [-> | ->]; state_simpl.
        - destruct Hm1 as [->| ->]; [by left|by right].
        - right. split; [done|]. fold tid.
          destruct Hm1 as [->| ->]; [done|by rewrite insert_insert_eq]. }
      right. split; [intros [_ Hc']; congruence|].
      exists pn, parent, notstore. split_and!; try done.
      destruct (excluded_by (config s) pn) as [q|] eqn:Hq.
      * destruct Hex as (-> & _). split; [|done]. intros _. split; [done|].
        exists pn. split; [done|]. rewrite Hq. by eexists.
      * destruct Hex as (-> & _). split; [done|].
        intros (_ & pn' & [= <-] & Hs). rewrite Hq in Hs. by destruct Hs.
Qed.
Lemma SetTrajectory_Trajectory rec : SetTrajectory (Trajectory rec) rec = rec.
Proof. by destruct rec. Qed.

Lemma foldl_stepped_SetTrajectory c keep steps rec :
  ∃ t, foldl (λ r trk, stepped c keep trk r) rec steps = SetTrajectory t rec.
Proof.
  revert rec. induction steps as [|trk steps IH]; intros rec; cbn [foldl].
  - exists (Trajectory rec). by rewrite SetTrajectory_Trajectory.
  - destruct (stepped_extends c keep trk rec) as (added & -> & _).
    destruct (IH (SetTrajectory (Trajectory rec ++ added) rec)) as [t ->].
    by exists t.
Qed.

Lemma processOneTrack_effect Sparsify track steps s s3 :
  processOneTrack Sparsify (track, steps) s = Returned tt s3 ->
  let tid := trackID_of track s in
  let p := length (heap s) in
  let proper0 := (GetProperTime track =? 0)%float in
  let last := last_step steps track in
  config s3 = config s
  ∧ (fParentIDMap s3 = fParentIDMap s
     ∨ GetPrimaryParticle track = None
       ∧ fParentIDMap s3 = <[tid := parentID_of track s]> (fParentIDMap s))
  ∧ (cut_by_energy track s
     ∧ heap s3 = heap s
     ∧ fParticleList s3 = fParticleList s
     ∧ fdroppedParticleList s3 = fdroppedParticleList s
     ∨ ¬ cut_by_energy track s
       ∧ ∃ pn parentID (notstore keep : bool) r3,
           heap s3 = heap s ++ [r3]
           ∧ (notstore = true
              ↔ GetPrimaryParticle track = None
                ∧ ∃ pn, GetCreatorProcess track = Some pn
                        ∧ is_Some (excluded_by (config s) pn))
           ∧ let r := foldl (λ r trk, stepped (config s) keep trk r)
                        (created track tid (GetPDGEncoding track) pn parentID) steps in
             let L1 := if negb proper0 || notstore then fParticleList s
                       else PList.Add tid p (fParticleList s) in
             let D1 := if proper0 && notstore
                       then PList.Add tid p <$> fdroppedParticleList s
                       else fdroppedParticleList s in
             match GetProcessDefinedStep (GetPostStepPoint (GetStep last)) with
             | Some process =>
                 r3 = ended Sparsify (config s) keep last process r
                 ∧ fParticleList s3 = L1 ∧ fdroppedParticleList s3 = D1
             | None =>
                 r3 = SetWeight (GetWeight last) r
                 ∧ fParticleList s3 = PList.erase tid L1
                 ∧ fdroppedParticleList s3
                   = (if keep then D1 else PList.Archive tid parentID <$> D1)
             end).
Proof.
  intros Hrun tid p proper0 last.
  pose proof Hrun as Hrun0. unfold processOneTrack in Hrun0. cbn [fst snd] in Hrun0.
  apply bind_Returned in Hrun0 as ([] & s1 & Hpre & Hrest).
  destruct (preUserTrackingAction_effect track s s1 Hpre) as (Hcfg & Hpm & Hcase).
  fold tid p proper0 in Hcase, Hpm.
  destruct Hcase as [(Hcut & Hslot & Hh & Hl & Hd)|(Hnc & pn & parentID & notstore
                       & Hslot & Hheap & Hns & Hl & Hd)].
  - destruct (stepping_idle steps track s1 Hslot) as [last' Hst].
    cbn beta in Hrest. rewrite Hst in Hrest. cbn [bind] in Hrest.
    rewrite postUserTrackingAction_idle in Hrest by done. injection Hrest as <-.
    split; [done|]. split; [done|]. by left.
  - set (rec0 := created track tid (GetPDGEncoding track) pn parentID) in *.
    assert (deref p s1 = Some rec0) as Hrec0.
    { unfold deref. rewrite Hheap. by rewrite lookup_app_r, Nat.sub_diag. }
    rewrite (processOneTrack_lifecycle Sparsify track steps s s1 p rec0 Hpre Hslot Hrec0)
      in Hrun.
    cbn zeta in Hrun. fold last in Hrun. rewrite Hcfg in Hrun.
    set (keep := keepFullTrajectory (fCurrentParticle s1)) in *.
    set (r := foldl (λ r trk, stepped (config s) keep trk r) rec0 steps) in *.
    destruct (foldl_stepped_SetTrajectory (config s) keep steps rec0) as [t Hr].
    fold r in Hr.
    destruct (GetProcessDefinedStep (GetPostStepPoint (GetStep last)))
      as [process|] eqn:Hproc; injection Hrun as <-.
    + split. { unfold truth_recorded. by destruct (isPrimary _). }
      split. { unfold truth_recorded. by destruct (isPrimary _). }
      right. split; [done|].
      exists pn, parentID, notstore, keep,
        (ended Sparsify (config s) keep last process r).
      split.
      { unfold truth_recorded. destruct (isPrimary _); state_simpl;
          rewrite Hheap; apply insert_at_length. }
      split; [done|]. cbn zeta. fold rec0 r.
      unfold truth_recorded. destruct (isPrimary _); state_simpl; done.
    + unfold discardCurrentParticle. state_simpl. fold keep.
      assert (TrackId (SetWeight (GetWeight last) r) = tid
              ∧ Mother (SetWeight (GetWeight last) r) = parentID) as [-> ->].
      { rewrite Hr. done. }
      split. { destruct keep; state_simpl; exact Hcfg. }
      split. { destruct keep; state_simpl; exact Hpm. }
      right. split; [done|].
      exists pn, parentID, notstore, keep, (SetWeight (GetWeight last) r).
      split. { destruct keep; state_simpl; rewrite Hheap; apply insert_at_length. }
      split; [done|]. cbn zeta. fold rec0 r.
      split; [done|].
      destruct keep; cbn [negb]; state_simpl; rewrite Hl, Hd; done.
Qed.
(** ** The tracks behind the outputs *)

Lemma lookup_erase_Some (k tid : Z) (pl : ParticleList) op :
  m_particleList (PList.erase tid pl) !! k = Some op ->
  m_particleList pl !! k = Some op.
Proof.
  unfold PList.erase. cbn. intros H. apply lookup_delete_Some in H. by destruct H.
Qed.

(** The keys that one track leaves in the retained list. *)
Lemma processOneTrack_keys Sparsify track steps s s3 :
  processOneTrack Sparsify (track, steps) s = Returned tt s3 ->
  0 <= trackID_of track s ->
  ∀ k, is_Some (m_particleList (fParticleList s3) !! k) ->
       k = trackID_of track s ∧ retained_track s (track, steps)
       ∨ is_Some (m_particleList (fParticleList s) !! k).
Proof.
  intros Hrun H0 k [op Hk].
  destruct (processOneTrack_effect Sparsify track steps s s3 Hrun)
    as (_ & _ & [(_ & _ & Hl & _)|(Hnc & pn & parentID & notstore & keep & r3 & _ & Hns & Hm)]).
  { right. rewrite <- Hl. by eexists. }
  cbn zeta in Hm.
  assert (int_range (trackID_of track s)) as Hr by apply wrap32_range.
  set (L1 := if negb (GetProperTime track =? 0)%float || notstore then fParticleList s
             else PList.Add (trackID_of track s) (length (heap s)) (fParticleList s)) in *.
  assert (m_particleList L1 !! k = Some op ->
          defined_step (last_step steps track) = true ->
          k = trackID_of track s ∧ retained_track s (track, steps)
          ∨ is_Some (m_particleList (fParticleList s) !! k)) as HL1.
  { unfold L1. intros HkL Hdef.
    destruct (GetProperTime track =? 0)%float eqn:Hp0; cbn [negb orb] in HkL;
      [|right; by eexists].
    destruct notstore; [right; by eexists|].
    cbn in HkL. destruct (decide (k = trackID_of track s)) as [->|Hne].
    - left. split; [done|]. split; [done|]. split; [|done].
      intros Hex. apply Hns in Hex. discriminate.
    - rewrite lookup_insert_ne in HkL by done. right. by eexists. }
  unfold defined_step in HL1.
  destruct (GetProcessDefinedStep _) as [process|].
  - destruct Hm as (_ & Hl & _). rewrite Hl in Hk. by apply HL1.
  - destruct Hm as (_ & Hl & _). rewrite Hl in Hk.
    rewrite erase_nonneg in Hk by done.
    apply lookup_delete_Some in Hk as [Hne Hk]. right.
    unfold L1 in Hk. destruct (_ || _); [by eexists|].
    cbn in Hk. rewrite lookup_insert_ne in Hk by done. by eexists.
Qed.

Lemma retained_track_config s s' t :
  config s' = config s -> retained_track s' t ↔ retained_track s t.
Proof.
  intros Hc. unfold retained_track, cut_by_energy, below_energyCut. by rewrite Hc.
Qed.

Lemma tracks_keys Sparsify tracks :
  ∀ s s', for_each (processOneTrack Sparsify) tracks s = Returned tt s' ->
    fTrackIDOffset s = 0 ->
    Forall (λ t : G4Track * list G4Track, 0 <= GetTrackID t.1 < 2 ^ 31) tracks ->
    ∀ k, is_Some (m_particleList (fParticleList s') !! k) ->
         is_Some (m_particleList (fParticleList s) !! k)
         ∨ ∃ t, t ∈ tracks ∧ GetTrackID t.1 = k ∧ retained_track s t.
Proof.
  induction tracks as [|[track steps] tracks IH]; intros s s' Hrun Hoff Hrange k Hk;
    cbn [for_each] in Hrun.
  - injection Hrun as <-. by left.
  - apply bind_Returned in Hrun as ([] & s1 & H1 & H2).
    apply Forall_cons in Hrange as [Hr Hrange]. cbn in Hr.
    assert (trackID_of track s = GetTrackID track) as Htid.
    { unfold trackID_of. rewrite Hoff, Z.add_0_r. apply wrap32_id.
      unfold int_range. lia. }
    pose proof (processOneTrack_session _ _ _ _ H1) as (Hcfg1 & _ & Ho).
    destruct (IH s1 s' H2 ltac:(congruence) Hrange k Hk) as [Hk1|(t & Ht & Hid & Hret)].
    + destruct (processOneTrack_keys Sparsify track steps s s1 H1 ltac:(lia) k Hk1)
        as [[-> Hret]|Hk0]; [|by left].
      right. exists (track, steps). split; [by left|]. done.
    + right. exists t. split; [by right|]. split; [done|].
      by apply (retained_track_config s s1).
Qed.

(** X16.  Where the retained output of an event comes from.  In an event
    of engine tracks that ends normally, every particle of the retained
    output carries the ID of a track of the event that the energy cut and
    the process filter let through, whose proper time at creation was
    zero and whose final step a process defined. *)
Theorem retained_output_provenance
    (Sparsify : float -> bool -> list TrajectoryPoint -> list TrajectoryPoint)
    (tracks : list (G4Track * list G4Track)) (s s' : State) :
  engine_tracks tracks ->
  processEvent Sparsify tracks s = Returned tt s' ->
  ∀ rec, rec ∈ default [] (partCol_ s') ->
    ∃ t, t ∈ tracks ∧ TrackId rec = GetTrackID t.1 ∧ retained_track s t.
Proof.
  intros (Hnd & Hrange & Hsteps) Hrun rec Hrec.
  unfold processEvent in Hrun.
  apply bind_Returned in Hrun as ([] & s1 & Hrun & Hend).
  destruct (retained_invariant_tracks Sparsify tracks [] (beginOfEventAction s) s1)
    as [Hinv _];
    [|reflexivity| |by rewrite app_nil_r|exact Hrange|exact Hsteps|exact Hrun|].
  { intros k op Hk. cbn in Hk. by rewrite lookup_empty in Hk. }
  { intros k [op Hk]. cbn in Hk. by rewrite lookup_empty in Hk. }
  destruct (endOfEventAction_well_sampled s1 s' Hinv Hend rec Hrec) as [_ Hkey].
  destruct (tracks_keys Sparsify tracks (beginOfEventAction s) s1 Hrun eq_refl Hrange
              _ Hkey) as [[op Hk]|(t & Ht & Hid & Hret)].
  { cbn in Hk. by rewrite lookup_empty in Hk. }
  exists t. split; [done|]. split; [done|].
  by apply (retained_track_config s (beginOfEventAction s)).
Qed.

Lemma retained_output_provenance_witness :
  let s := service energy_cut_1 in
  let s' := state_after (processEvent keep_all_points three_tracks s) s in
  engine_tracks three_tracks
  ∧ processEvent keep_all_points three_tracks s = Returned tt s'
  ∧ Forall (λ rec, ∃ t, t ∈ three_tracks ∧ TrackId rec = GetTrackID t.1
                        ∧ retained_track s t)
      (default [] (partCol_ s')).
Proof.
  intros s s'.
  assert (engine_tracks three_tracks) as Heng by engine_tracks_sample.
  assert (processEvent keep_all_points three_tracks s = Returned tt s') as Hrun
    by by_computation.
  split; [exact Heng|]. split; [exact Hrun|].
  apply Forall_forall.
  exact (retained_output_provenance keep_all_points three_tracks s s' Heng Hrun).
Defined.
(** ** Events that end normally or in a logic error *)

Lemma bind_completes {A B} (o : Outcome A) (k : A -> State -> Outcome B) :
  completes_or_LogicError o ->
  (∀ a s1, o = Returned a s1 -> completes_or_LogicError (k a s1)) ->
  completes_or_LogicError (bind o k).
Proof. destruct o; cbn; intros Ho Hk; try done. by apply Hk. Qed.

Lemma causal_insert (m : gmap Z Z) (k v : Z) :
  causal m -> v < k -> causal (<[k := v]> m).
Proof.
  intros Hc Hv k' v' Hk'. apply lookup_insert_Some in Hk' as [[<- <-]|[_ Hk']]; [done|].
  by apply Hc in Hk'.
Qed.

Lemma parentage_causal (m : gmap Z Z) (trackid : Z) :
  causal m -> ∃ a, parentage m trackid = Some a.
Proof. intros Hc. by apply causal_parentage. Qed.

Lemma preUserTrackingAction_completes track s :
  causal (fParentIDMap s) ->
  (GetPrimaryParticle track = None ->
   is_Some (GetCreatorProcess track) ∧ parentID_of track s < trackID_of track s) ->
  completes_or_LogicError (preUserTrackingAction track s).
Proof.
  intros Hc Hsec. unfold preUserTrackingAction. state_simpl.
  fold (trackID_of track s) (parentID_of track s). fold (entered track s).
  assert (∀ pn par pi pmi flag ns s0,
            completes_or_LogicError
              (createParticle track (trackID_of track s) (GetPDGEncoding track) pn par
                 pi pmi flag ns s0)) as Hcreate.
  { intros pn par pi pmi flag ns s0.
    destruct (createParticle_spec track (trackID_of track s) (GetPDGEncoding track)
                pn par pi pmi flag ns s0) as (s' & -> & _). done. }
  destruct (GetPrimaryParticle track) as [pp|].
  - destruct (GetUserInformation pp) as [ppi|]; [|apply Hcreate].
    destruct (primary_process_name _). apply Hcreate.
  - destruct (Hsec eq_refl) as [[pn ->] Hlt].
    set (tid := trackID_of track s) in *. set (pid := parentID_of track s) in *.
    unfold admitSecondary. rewrite processExclusion_eq.
    change (fParentIDMap (entered track s)) with (fParentIDMap s).
    pose proof (causal_insert _ tid pid Hc Hlt) as Hci.
    assert (∀ s1, fParentIDMap s1 = fParentIDMap s
                  ∨ fParentIDMap s1 = <[tid := pid]> (fParentIDMap s) ->
              completes_or_LogicError
                (if (GetKineticEnergy track <? fenergyCut (config s1))%float
                    && negb (GetPDGEncoding track =? 0)
                 then energyCutDrop tid pid s1
                 else
                   bind (resolveParent tid pid s1) (λ parentID s2,
                     match fMCTIndexMap s2 !! parentID with
                     | Some primarymctIndex =>
                         let '(isFromMCTProcessPrimary, m) :=
                           subscript false parentID (fMCTPrimProcessKeepMap s2) in
                         createParticle track tid (GetPDGEncoding track) pn parentID
                           NoGeneratedParticleIndex primarymctIndex
                           isFromMCTProcessPrimary
                           (bool_decide (is_Some (excluded_by (config s) pn)))
                           (set_fMCTPrimProcessKeepMap m s2)
                     | None => Thrown (LogicError_MCTIndex parentID) s2
                     end))) as Hrest.
    { intros s1 Hm1.
      assert (causal (fParentIDMap s1)) as Hc1 by (destruct Hm1 as [->| ->]; done).
      assert (causal (<[tid := pid]> (fParentIDMap s1))) as Hc1i
        by (by apply causal_insert).
      destruct (_ && _).
      - rewrite energyCutDrop_eq.
        destruct (parentage_causal _ tid Hc1) as [a0 ->].
        destruct (parentage_causal _ tid Hc1i) as [a ->]. done.
      - apply bind_completes.
        + unfold resolveParent. destruct (_ && _); [|done].
          rewrite GetParentage_parentage. state_simpl.
          destruct (parentage_causal _ pid Hc1i) as [a ->]. cbn [bind].
          by destruct (_ && _).
        + intros parent s2 _. destruct (fMCTIndexMap s2 !! parent); [|done].
          destruct (subscript false parent (fMCTPrimProcessKeepMap s2)).
          apply Hcreate. }
    change (config (entered track s)) with (config s).
    destruct (excluded_by (config s) pn) as [q|] eqn:Hq.
    + destruct (parentage_causal _ tid Hci) as [a ->]. cbn [bind].
      specialize (Hrest (excluded_state tid pid a q (entered track s)) (or_intror eq_refl)).
      rewrite bool_decide_eq_true_2 in Hrest by (by eexists). exact Hrest.
    + cbn [bind]. specialize (Hrest (entered track s) (or_introl eq_refl)).
      rewrite bool_decide_eq_false_2 in Hrest by (by intros [? ?]). exact Hrest.
Qed.

Lemma processOneTrack_completes Sparsify track steps s :
  causal (fParentIDMap s) ->
  (GetPrimaryParticle track = None ->
   is_Some (GetCreatorProcess track) ∧ parentID_of track s < trackID_of track s) ->
  completes_or_LogicError (processOneTrack Sparsify (track, steps) s).
Proof.
  intros Hc Hsec.
  pose proof (preUserTrackingAction_completes track s Hc Hsec) as Hpre.
  destruct (preUserTrackingAction track s) as [[] s1|e s1|w s1|] eqn:Hrun;
    try done.
  2:{ unfold processOneTrack. cbn [fst snd]. by rewrite Hrun. }
  destruct (preUserTrackingAction_effect track s s1 Hrun)
    as (_ & _ & [(_ & Hslot & _)|(_ & pn & parentID & notstore & Hslot & Hheap & _)]).
  - unfold processOneTrack. cbn [fst snd]. rewrite Hrun. cbn [bind].
    destruct (stepping_idle steps track s1 Hslot) as [last ->]. cbn [bind].
    by rewrite postUserTrackingAction_idle.
  - rewrite (processOneTrack_lifecycle Sparsify track steps s s1 _
               (created track (trackID_of track s) (GetPDGEncoding track) pn parentID)
               Hrun Hslot); [done|].
    unfold deref. rewrite Hheap. by rewrite lookup_app_r, Nat.sub_diag.
Qed.
Lemma defined_step_result trk : defined_step (step_result trk) = defined_step trk.
Proof. unfold defined_step. by rewrite step_result_process. Qed.

Lemma last_step_defined steps track :
  steps ≠ [] -> defined_step (last_step steps track) = true ->
  existsb defined_step steps = true.
Proof.
  destruct steps as [|t steps _] using rev_ind; [done|]. intros _.
  unfold last_step. rewrite foldl_snoc, defined_step_result, existsb_app. cbn.
  intros ->. by rewrite orb_true_r.
Qed.

Lemma foldl_stepped_nonempty c keep steps track rec :
  steps ≠ [] -> defined_step (last_step steps track) = true ->
  Trajectory (foldl (λ r trk, stepped c keep trk r) rec steps) ≠ [].
Proof.
  intros Hne Hdef Hnil.
  pose proof (labels_foldl_stepped c keep steps rec) as Hlab.
  rewrite Hnil, (last_step_defined steps track Hne Hdef), andb_true_r in Hlab.
  destruct (Trajectory rec); cbn in Hlab; discriminate.
Qed.

Lemma ended_nonempty Sparsify c keep last process r :
  keeps_a_point Sparsify ->
  (keep = true -> Trajectory r ≠ []) ->
  Trajectory (ended Sparsify c keep last process r) ≠ [].
Proof.
  intros Hs Hr. unfold ended. destruct keep; cbn [negb].
  - destruct (fSparsifyTrajectories c); cbn; [apply Hs|]; by apply Hr.
  - cbn. intros H. by apply app_nil in H as [_ ?].
Qed.

Lemma takes_a_step_nonempty track steps :
  takes_a_step (track, steps) -> defined_step (last_step steps track) = true ->
  steps ≠ [].
Proof.
  intros [H|H] Hdef; [done|]. intros ->. cbn in H, Hdef.
  unfold defined_step in Hdef. by rewrite H in Hdef.
Qed.

(** The invariants of an event over one track. *)
Lemma sampled_track Sparsify track steps s s3 :
  sampled s ->
  (∀ k q, m_particleList (fParticleList s) !! k = Some (Some q) ->
          (q < length (heap s))%nat) ->
  keeps_a_point Sparsify -> takes_a_step (track, steps) ->
  0 <= trackID_of track s ->
  processOneTrack Sparsify (track, steps) s = Returned tt s3 ->
  sampled s3
  ∧ ∀ k q, m_particleList (fParticleList s3) !! k = Some (Some q) ->
           (q < length (heap s3))%nat.
Proof.
  intros Hsam Hval Hkeep Hstep H0 Hrun.
  destruct (processOneTrack_effect Sparsify track steps s s3 Hrun)
    as (_ & _ & [(_ & Hh & Hl & _)|(_ & pn & parentID & notstore & keep & r3 & Hh & _ & Hm)]).
  { unfold sampled. rewrite Hh, Hl. done. }
  cbn zeta in Hm.
  assert (int_range (trackID_of track s)) as Hr by apply wrap32_range.
  set (tid := trackID_of track s) in *. set (p := length (heap s)) in *.
  set (L1 := if negb (GetProperTime track =? 0)%float || notstore then fParticleList s
             else PList.Add tid p (fParticleList s)) in *.
  assert (∀ k q, m_particleList L1 !! k = Some (Some q) ->
                 k ≠ tid -> m_particleList (fParticleList s) !! k = Some (Some q))
    as Hold.
  { intros k q Hk Hne. unfold L1 in Hk. destruct (_ || _); [done|].
    cbn in Hk. by rewrite lookup_insert_ne in Hk. }
  assert (∀ k q, m_particleList L1 !! k = Some (Some q) ->
                 q = p ∨ m_particleList (fParticleList s) !! k = Some (Some q))
    as Hin.
  { intros k q Hk. unfold L1 in Hk. destruct (_ || _); [by right|].
    cbn in Hk. destruct (decide (k = tid)) as [->|Hne].
    - rewrite lookup_insert_eq in Hk. left. congruence.
    - rewrite lookup_insert_ne in Hk by done. by right. }
  assert (∀ q rec, (q < p)%nat -> heap s3 !! q = Some rec -> heap s !! q = Some rec)
    as Hheap_old.
  { intros q rec Hq. rewrite Hh. by rewrite lookup_app_l. }
  assert (length (heap s3) = S p) as Hlen by (rewrite Hh, length_app; cbn; lia).
  destruct (GetProcessDefinedStep (GetPostStepPoint (GetStep (last_step steps track))))
    as [process|] eqn:Hproc.
  - destruct Hm as (-> & Hl & _). unfold sampled. rewrite Hl. split.
    + intros k q rec Hk Hrec. destruct (Hin k q Hk) as [->|Hk0].
      * rewrite Hh, lookup_app_r, Nat.sub_diag in Hrec by done. injection Hrec as <-.
        apply ended_nonempty; [done|]. intros _.
        assert (defined_step (last_step steps track) = true) as Hdef
          by (unfold defined_step; by rewrite Hproc).
        apply (foldl_stepped_nonempty _ _ _ track); [|done].
        by apply (takes_a_step_nonempty track).
      * pose proof (Hval k q Hk0) as Hq. eapply Hsam; [exact Hk0|]. by apply Hheap_old.
    + intros k q Hk. destruct (Hin k q Hk) as [->|Hk0]; [lia|].
      pose proof (Hval k q Hk0). lia.
  - destruct Hm as (-> & Hl & _). unfold sampled. rewrite Hl. split.
    + intros k q rec Hk Hrec. rewrite erase_nonneg in Hk by done.
      apply lookup_delete_Some in Hk as [Hne Hk].
      pose proof (Hold k q Hk ltac:(done)) as Hk0.
      pose proof (Hval k q Hk0) as Hq. eapply Hsam; [exact Hk0|]. by apply Hheap_old.
    + intros k q Hk. rewrite erase_nonneg in Hk by done.
      apply lookup_delete_Some in Hk as [Hne Hk].
      pose proof (Hval k q (Hold k q Hk ltac:(done))). lia.
Qed.

Lemma dropped_valid_track Sparsify track steps s s3 :
  dropped_valid s ->
  processOneTrack Sparsify (track, steps) s = Returned tt s3 ->
  dropped_valid s3.
Proof.
  intros Hval Hrun.
  destruct (processOneTrack_effect Sparsify track steps s s3 Hrun)
    as (_ & _ & [(_ & Hh & _ & Hd)|(_ & pn & parentID & notstore & keep & r3 & Hh & _ & Hm)]).
  { unfold dropped_valid. by rewrite Hh, Hd. }
  cbn zeta in Hm. intros dl k q Hdl3 Hk.
  rewrite Hh, length_app. cbn [length].
  set (D1 := if (GetProperTime track =? 0)%float && notstore
             then PList.Add (trackID_of track s) (length (heap s))
                  <$> fdroppedParticleList s
             else fdroppedParticleList s) in *.
  assert (∀ dl1, D1 = Some dl1 -> ∀ k q, m_particleList dl1 !! k = Some (Some q) ->
                 (q < length (heap s) + 1)%nat) as HD1.
  { unfold D1. intros dl1 Hdl1 k' q' Hk'. destruct (_ && _).
    2:{ pose proof (Hval dl1 k' q' Hdl1 Hk'). lia. }
    destruct (fdroppedParticleList s) as [dl0|] eqn:Hdl0; [|discriminate].
    injection Hdl1 as <-. cbn in Hk'.
    destruct (decide (trackID_of track s = k')) as [<-|Hne].
    - rewrite lookup_insert_eq in Hk'. injection Hk' as <-. lia.
    - rewrite lookup_insert_ne in Hk' by done.
      pose proof (Hval dl0 k' q' Hdl0 Hk'). lia. }
  destruct (GetProcessDefinedStep _).
  - destruct Hm as (_ & _ & Hd). rewrite Hd in Hdl3. by eapply HD1.
  - destruct Hm as (_ & _ & Hd). rewrite Hd in Hdl3.
    destruct keep; [by eapply HD1|].
    destruct D1 as [dl1|] eqn:HD; [|discriminate]. injection Hdl3 as <-.
    cbn in Hk. destruct (decide (trackID_of track s = k)) as [<-|Hne].
    + by rewrite lookup_insert_eq in Hk.
    + rewrite lookup_insert_ne in Hk by done. by eapply HD1.
Qed.

Lemma event_invariant_track Sparsify track steps ids s :
  event_invariant ids s ->
  keeps_a_point Sparsify -> takes_a_step (track, steps) ->
  0 <= GetTrackID track < 2 ^ 31 -> GetTrackID track ∉ ids ->
  (GetPrimaryParticle track = None ->
   is_Some (GetCreatorProcess track)
   ∧ - 2 ^ 31 <= GetParentID track < GetTrackID track) ->
  completes_or_LogicError (processOneTrack Sparsify (track, steps) s)
  ∧ ∀ s3, processOneTrack Sparsify (track, steps) s = Returned tt s3 ->
          event_invariant (GetTrackID track :: ids) s3.
Proof.
  intros (Hinv & Hoff & Hkeys & Hids & Hsam & Hdv & Hc) Hkeep Hstep Hr Hnew Hsec.
  assert (trackID_of track s = GetTrackID track) as Htid.
  { unfold trackID_of. rewrite Hoff, Z.add_0_r. apply wrap32_id. unfold int_range. lia. }
  assert (GetPrimaryParticle track = None ->
          is_Some (GetCreatorProcess track)
          ∧ parentID_of track s < trackID_of track s) as Hsec'.
  { intros Hpp. destruct (Hsec Hpp) as [Hcp Hpar]. split; [done|].
    rewrite Htid. unfold parentID_of. rewrite Hoff, Z.add_0_r, wrap32_id; [lia|].
    unfold int_range. lia. }
  split; [by apply processOneTrack_completes|].
  intros s3 Hrun.
  destruct (retained_invariant_track Sparsify track steps s s3 Hinv Hrun Hstep)
    as [Hinv3 Hkeys3].
  { rewrite Htid. lia. }
  { rewrite Htid.
    destruct (m_particleList (fParticleList s) !! GetTrackID track) eqn:Hl; [|done].
    exfalso. apply Hnew, Hkeys. by eexists. }
  pose proof (processOneTrack_session _ _ _ _ Hrun) as (_ & _ & Ho).
  destruct (sampled_track Sparsify track steps s s3 Hsam) as [Hsam3 _]; try done.
  { intros k q Hk. destruct (Hinv k _ Hk) as (p & rec & [= <-] & Hp & _).
    by eapply lookup_lt_Some. }
  { rewrite Htid. lia. }
  split; [done|]. split; [congruence|]. split.
  { intros k Hk. destruct (Hkeys3 k Hk) as [[-> _]|Hk0].
    - rewrite Htid. by left.
    - right. by apply Hkeys. }
  split. { intros k [->|Hk]%elem_of_cons; [done|by apply Hids]. }
  split; [done|]. split; [by eapply dropped_valid_track|].
  destruct (processOneTrack_effect Sparsify track steps s s3 Hrun)
    as (_ & [-> |[Hpp ->]] & _); [done|].
  apply causal_insert; [done|]. by apply Hsec'.
Qed.

Lemma event_invariant_tracks Sparsify tracks :
  ∀ ids s,
    event_invariant ids s ->
    keeps_a_point Sparsify ->
    NoDup ((GetTrackID ∘ fst <$> tracks) ++ ids) ->
    Forall (λ t : G4Track * list G4Track, 0 <= GetTrackID t.1 < 2 ^ 31) tracks ->
    Forall takes_a_step tracks ->
    engine_secondaries tracks ->
    completes_or_LogicError (for_each (processOneTrack Sparsify) tracks s)
    ∧ ∀ s', for_each (processOneTrack Sparsify) tracks s = Returned tt s' ->
            ∃ ids', event_invariant ids' s'.
Proof.
  induction tracks as [|[track steps] tracks IH];
    intros ids s Hinv Hkeep Hnd Hrange Hsteps Hsec; cbn [for_each].
  - split; [done|]. intros s' [= <-]. by exists ids.
  - apply Forall_cons in Hrange as [Hr Hrange].
    apply Forall_cons in Hsteps as [Hst Hsteps].
    apply Forall_cons in Hsec as [Hse Hsec].
    cbn in Hr, Hse. cbn [fmap list_fmap compose fst app] in Hnd.
    change (list_fmap _ _ (GetTrackID ∘ fst) tracks)
      with ((GetTrackID ∘ fst) <$> tracks) in Hnd.
    apply NoDup_cons in Hnd as [Hnew Hnd].
    destruct (event_invariant_track Sparsify track steps ids s Hinv Hkeep Hst Hr)
      as [Hsafe Hnext]; [|done|].
    { intros Hin. apply Hnew. apply elem_of_app. by right. }
    assert (∀ s1, processOneTrack Sparsify (track, steps) s = Returned tt s1 ->
              completes_or_LogicError (for_each (processOneTrack Sparsify) tracks s1)
              ∧ ∀ s', for_each (processOneTrack Sparsify) tracks s1 = Returned tt s' ->
                      ∃ ids', event_invariant ids' s') as Hrest.
    { intros s1 H1. apply (IH (GetTrackID track :: ids)); try done; [by apply Hnext|].
      apply NoDup_app in Hnd as (Hnd1 & Hnd2 & Hnd3).
      apply NoDup_app. split; [done|]. split.
      - intros k Hk1 [->|Hk2]%elem_of_cons.
        + apply Hnew. apply elem_of_app. by left.
        + by apply (Hnd2 k).
      - apply NoDup_cons. split; [|done]. intros Hin. apply Hnew.
        apply elem_of_app. by right. }
    split.
    + apply bind_completes; [done|]. intros [] s1 H1. by apply Hrest.
    + intros s' ([] & s1 & H1 & H2)%bind_Returned. by apply (Hrest s1 H1).
Qed.
Lemma for_each_completes {K} (P : State -> Prop) (f : K -> State -> Outcome unit)
    (l : list K) :
  ∀ s, P s ->
    (∀ k s, k ∈ l -> P s ->
       completes_or_LogicError (f k s) ∧ ∀ s', f k s = Returned tt s' -> P s') ->
    completes_or_LogicError (for_each f l s)
    ∧ ∀ s', for_each f l s = Returned tt s' -> P s'.
Proof.
  induction l as [|k l IH]; intros s HP Hf; cbn [for_each].
  - split; [done|]. by intros s' [= <-].
  - destruct (Hf k s ltac:(by left) HP) as [Hk Hk'].
    assert (∀ s1, f k s = Returned tt s1 ->
              completes_or_LogicError (for_each f l s1)
              ∧ ∀ s', for_each f l s1 = Returned tt s' -> P s') as Hrest.
    { intros s1 H1. apply IH; [by apply Hk'|].
      intros k' s0 Hk0. apply Hf. by right. }
    split.
    + apply bind_completes; [done|]. intros [] s1 H1. by apply Hrest.
    + intros s' ([] & s1 & H1 & H2)%bind_Returned. by apply (Hrest s1 H1).
Qed.

Lemma collectParticle_completes mcl m n entry s rec :
  entry.2 ≫= (λ p, deref p s) = Some rec -> Trajectory rec ≠ [] ->
  completes_or_LogicError (collectParticle mcl m n entry s).
Proof.
  intros Hrec Hne. unfold collectParticle. rewrite Hrec.
  destruct (subscript 0%N (TrackId rec) (fMCTIndexMap s)) as [gen_index im].
  destruct (negb _); [done|].
  destruct (Nat.eqb_spec (NumberTrajectoryPoints rec) 0) as [Hz|_].
  { exfalso. apply Hne. by apply nil_length_inv. }
  by destruct (_ && _).
Qed.

Lemma collectDropped_completes origin entry s :
  (∀ p, entry.2 = Some p -> is_Some (deref p s)) ->
  completes_or_LogicError (collectDropped origin entry s).
Proof.
  intros Hp. unfold collectDropped. destruct (entry.2) as [p|]; [|done].
  destruct (Hp p eq_refl) as [rec ->].
  destruct (isDropped _); [done|]. by destruct (negb _).
Qed.

Lemma truths_loop_completes (h0 : list MCParticle) mcl entries dropped ts :
  (∀ entry, entry ∈ entries ->
     ∃ rec, entry.2 ≫= (λ p, h0 !! p) = Some rec ∧ Trajectory rec ≠ []) ->
  (∀ entry p, entry ∈ dropped -> entry.2 = Some p -> is_Some (h0 !! p)) ->
  ∀ m n s, heap s = h0 ->
    completes_or_LogicError (truths_loop mcl m ts entries dropped n s)
    ∧ ∀ n' s', truths_loop mcl m ts entries dropped n s = Returned n' s' ->
               heap s' = h0.
Proof.
  intros Hent Hdr. induction ts as [|mct ts IH]; intros m n s Hh; cbn [truths_loop].
  - split; [done|]. by intros n' s' [= _ <-].
  - destruct (for_each_completes (λ s, heap s = h0) (collectParticle mcl m n) entries
                s Hh) as [Hc1 Hh1].
    { intros entry s0 Hin Hh0. destruct (Hent entry Hin) as (rec & Hrec & Hne).
      split.
      - apply (collectParticle_completes _ _ _ _ _ rec); [|done].
        unfold deref. by rewrite Hh0.
      - intros s' (rec' & _ & (Hheap & _) & _)%collectParticle_Returned. congruence. }
    assert (∀ s1, heap s1 = h0 ->
              completes_or_LogicError
                (if fStoreDroppedMCParticles (config s1)
                    && bool_decide (is_Some (droppedPartCol_ s1))
                 then for_each (collectDropped (Origin mct)) dropped s1
                 else Returned tt s1)
              ∧ ∀ s2, (if fStoreDroppedMCParticles (config s1)
                          && bool_decide (is_Some (droppedPartCol_ s1))
                       then for_each (collectDropped (Origin mct)) dropped s1
                       else Returned tt s1) = Returned tt s2 -> heap s2 = h0) as Hd.
    { intros s1 Hheap1. destruct (_ && _).
      - apply (for_each_completes (λ s, heap s = h0)); [done|].
        intros entry s0 Hin Hh0. split.
        + apply collectDropped_completes. intros p Hp. unfold deref. rewrite Hh0.
          by eapply Hdr.
        + intros s' ((Hheap & _) & _)%collectDropped_Returned. congruence.
      - split; [done|]. by intros s2 [= <-]. }
    split.
    + apply bind_completes; [done|]. intros [] s1 H1.
      pose proof (Hh1 s1 H1) as Hheap1. destruct (Hd s1 Hheap1) as [Hc2 Hh2].
      apply bind_completes; [done|]. intros [] s2 H2.
      apply IH. state_simpl. by apply Hh2.
    + intros n' s' ([] & s1 & H1 & ([] & s2 & H2 & H3)%bind_Returned)%bind_Returned.
      pose proof (Hh1 s1 H1) as Hheap1. destruct (Hd s1 Hheap1) as [_ Hh2].
      eapply IH; [|exact H3]. state_simpl. by apply Hh2.
Qed.

Lemma handles_loop_completes (h0 : list MCParticle) entries dropped hs :
  (∀ entry, entry ∈ entries ->
     ∃ rec, entry.2 ≫= (λ p, h0 !! p) = Some rec ∧ Trajectory rec ≠ []) ->
  (∀ entry p, entry ∈ dropped -> entry.2 = Some p -> is_Some (h0 !! p)) ->
  ∀ mcl n s, heap s = h0 ->
    completes_or_LogicError (handles_loop mcl hs entries dropped n s)
    ∧ ∀ n' s', handles_loop mcl hs entries dropped n s = Returned n' s' ->
               heap s' = h0.
Proof.
  intros Hent Hdr. induction hs as [|h hs IH]; intros mcl n s Hh; cbn [handles_loop].
  - split; [done|]. by intros n' s' [= _ <-].
  - destruct (truths_loop_completes h0 mcl entries dropped (truths h) Hent Hdr 0%nat n
                s Hh) as [Hc1 Hh1].
    split.
    + apply bind_completes; [done|]. intros n1 s1 H1. apply IH. by eapply Hh1.
    + intros n' s' (n1 & s1 & H1 & H2)%bind_Returned.
      eapply IH; [|exact H2]. by eapply Hh1.
Qed.

Lemma UpdateDaughterInformation_total pl s k :
  records_invariant pl s -> fParticleList s = pl ->
  0 <= k < 2 ^ 31 -> is_Some (m_particleList pl !! k) ->
  ∃ s', UpdateDaughterInformation k s = Returned tt s'.
Proof.
  intros Hinv Hpl Hr [op Hk].
  destruct (Hinv k op Hk) as (p & rec & -> & Hp & _).
  unfold UpdateDaughterInformation, GetMotherOf, PList.find. rewrite Hpl.
  rewrite Z.abs_eq, wrap32_id by (unfold int_range; lia). rewrite Hk.
  unfold deref. rewrite Hp. cbn.
  destruct (Mother rec <=? 0); [eexists; reflexivity|].
  destruct (m_particleList pl !! wrap32 _) as [[parent|]|]; eexists; reflexivity.
Qed.

Lemma endOfEventAction_completes ids s :
  event_invariant ids s -> completes_or_LogicError (endOfEventAction s).
Proof.
  intros (Hinv & Hoff & Hkeys & Hids & Hsam & Hdv & Hc).
  unfold endOfEventAction.
  set (sa := set_tpassn_ _ _). set (pl := fParticleList s).
  change (fParticleList sa) with pl.
  set (Q := λ s0 : State,
         records_invariant pl s0 ∧ fParticleList s0 = pl
         ∧ fdroppedParticleList s0 = fdroppedParticleList s
         ∧ length (heap s0) = length (heap s)
         ∧ ∀ k q rec, m_particleList pl !! k = Some (Some q) ->
                      heap s0 !! q = Some rec -> Trajectory rec ≠ []).
  assert (Q sa) as HQ.
  { split; [|done]. apply (records_invariant_frame pl s); done. }
  destruct (for_each_completes Q UpdateDaughterInformation (PList.keys pl) sa HQ)
    as [Hc1 HQ1].
  { intros k s0 Hk (Hi0 & Hl0 & Hd0 & Hn0 & Hs0).
    apply elem_of_keys in Hk.
    destruct (UpdateDaughterInformation_total pl s0 k Hi0 Hl0) as [s' Hrun];
      [by apply Hids, Hkeys|done|].
    rewrite Hrun. split; [done|]. intros s'' [= <-].
    destruct (UpdateDaughterInformation_invariant pl k s0 s' Hi0 Hrun) as (Hi' & Hl' & _).
    apply UpdateDaughterInformation_frame in Hrun as [E Hw].
    split; [done|]. split; [congruence|].
    split; [rewrite E; state_simpl; done|]. split.
    { rewrite <- Hn0. apply Nat.le_antisymm.
      - destruct (decide (length (heap s') <= length (heap s0))%nat); [done|].
        exfalso. pose proof (Hw (length (heap s0))) as Hx.
        rewrite (lookup_ge_None_2 (heap s0)) in Hx by lia.
        destruct (lookup_lt_is_Some_2 (heap s') (length (heap s0)) ltac:(lia)) as [x Hx'].
        rewrite Hx' in Hx. discriminate.
      - destruct (decide (length (heap s0) <= length (heap s'))%nat); [done|].
        exfalso. pose proof (Hw (length (heap s'))) as Hx.
        rewrite (lookup_ge_None_2 (heap s')) in Hx by lia.
        destruct (lookup_lt_is_Some_2 (heap s0) (length (heap s')) ltac:(lia)) as [x Hx'].
        rewrite Hx' in Hx. discriminate. }
    intros k' q rec Hk' Hrec. pose proof (Hw q) as Hx. rewrite Hrec in Hx.
    destruct (heap s0 !! q) as [rec0|] eqn:Hrec0; [|discriminate].
    assert (Trajectory rec = Trajectory rec0) as ->
      by (change (Trajectory (without_daughters rec)
                  = Trajectory (without_daughters rec0)); cbn in Hx; congruence).
    by eapply Hs0. }
  apply bind_completes; [done|]. intros [] s1 H1.
  destruct (HQ1 s1 H1) as (Hi1 & Hl1 & Hd1 & Hn1 & Hs1).
  destruct (YieldList_offset s1) as (s2 & -> & Hs2). cbn [bind].
  assert (heap s2 = heap s1 ∧ fdroppedParticleList s2 = fdroppedParticleList s1
          ∧ fMCLists s2 = fMCLists s1) as (Hh2 & Hd2 & Hm2).
  { destruct (_ =? _)%nat; [by subst s2|]. by destruct Hs2 as (M & _ & ->). }
  rewrite Hl1.
  set (dl := default PList.empty (fdroppedParticleList s)).
  assert (∃ s3, match fdroppedParticleList (set_fParticleList PList.empty s2) with
                | Some _ =>
                    bind (YieldDroppedList (set_fParticleList PList.empty s2))
                      (λ droppedParticleList s,
                         Returned droppedParticleList
                           (set_fdroppedParticleList (Some PList.empty) s))
                | None => Returned PList.empty (set_fParticleList PList.empty s2)
                end = Returned dl s3
                ∧ heap s3 = heap s1) as (s3 & -> & Hh3).
  { state_simpl. rewrite Hd2, Hd1. unfold dl.
    destruct (fdroppedParticleList s) as [d|] eqn:Hd.
    - unfold YieldDroppedList. state_simpl. rewrite Hd2, Hd1, ?Hd.
      destruct (negb _); cbn [bind]; eexists; (split; [reflexivity|]); by state_simpl.
    - eexists. split; [reflexivity|]. by state_simpl. }
  cbn [bind].
  destruct (handles_loop_completes (heap s1) (PList.entries pl) (PList.entries dl)
              (fMCLists s3)) with (mcl := 0%nat) (n := 0%N) (s := s3) as [Hc4 _];
    [| |exact Hh3|].
  - intros [k op] Hin. apply elem_of_entries in Hin.
    destruct (Hi1 k op Hin) as (p & rec & -> & Hp & _).
    exists rec. split; [done|]. by eapply Hs1.
  - intros [k op] p Hin Hop. apply elem_of_entries in Hin. cbn in Hop. subst op.
    unfold dl in Hin. destruct (fdroppedParticleList s) as [d|] eqn:Hd.
    + apply lookup_lt_is_Some_2. rewrite Hn1. by eapply Hdv.
    + cbn in Hin. by rewrite lookup_empty in Hin.
  - apply bind_completes; [done|]. done.
Qed.

(** X18.  Take an event of engine tracks in which every track without a
    primary particle has a creator process and a parent ID below its own
    ID, and a trajectory reduction that leaves a point of every
    trajectory that has one.  The event comes to its end, or leaves by
    one of the two logic errors (no truth index for the parent of a
    track, or a parentless particle without a generated-particle index): the ancestor
    walks end, no null pointer is dereferenced, no look-up of the
    particle list misses, [YieldDroppedList] is only called on a dropped
    list that exists, and the assertion of line 785 holds. *)
Theorem event_completes_or_LogicError
    (Sparsify : float -> bool -> list TrajectoryPoint -> list TrajectoryPoint)
    (tracks : list (G4Track * list G4Track)) (s : State) :
  engine_tracks tracks ->
  engine_secondaries tracks ->
  keeps_a_point Sparsify ->
  completes_or_LogicError (processEvent Sparsify tracks s).
Proof.
  intros (Hnd & Hrange & Hsteps) Hsec Hkeep. unfold processEvent.
  assert (event_invariant [] (beginOfEventAction s)) as Hinv.
  { split.
    { intros k op Hk. cbn in Hk. by rewrite lookup_empty in Hk. }
    split; [reflexivity|]. split.
    { intros k [op Hk]. cbn in Hk. by rewrite lookup_empty in Hk. }
    split.
    { intros k Hk. by apply elem_of_nil in Hk. }
    split.
    { intros k q rec Hk. cbn in Hk. by rewrite lookup_empty in Hk. }
    split.
    { intros dl k q Hd Hk. cbn in Hd.
      destruct (fdroppedParticleList s); [|discriminate]. injection Hd as <-.
      cbn in Hk. by rewrite lookup_empty in Hk. }
    intros k v Hk. cbn in Hk. by rewrite lookup_empty in Hk. }
  destruct (event_invariant_tracks Sparsify tracks [] (beginOfEventAction s) Hinv Hkeep)
    as [Hc1 Hnext]; try done.
  { by rewrite app_nil_r. }
  apply bind_completes; [done|]. intros [] s1 H1.
  destruct (Hnext s1 H1) as [ids' Hinv1]. by eapply endOfEventAction_completes.
Qed.

Lemma event_completes_or_LogicError_witness :
  let s := service default_parameters in
  engine_tracks orphan_event
  ∧ engine_secondaries orphan_event
  ∧ keeps_a_point keep_all_points
  ∧ completes_or_LogicError (processEvent keep_all_points orphan_event s)
  ∧ ∃ st, processEvent keep_all_points orphan_event s
          = Thrown (LogicError_MCTIndex 7) st.
Proof.
  intros s.
  assert (engine_tracks orphan_event) as Heng by engine_tracks_sample.
  assert (engine_secondaries orphan_event) as Hsec.
  { apply Forall_cons. split; [|apply Forall_nil_2].
    intros _. cbn. split; [by eexists|lia]. }
  assert (keeps_a_point keep_all_points) as Hkeep.
  { intros margin keep t Ht. exact Ht. }
  split; [exact Heng|]. split; [exact Hsec|]. split; [exact Hkeep|].
  split; [exact (event_completes_or_LogicError keep_all_points orphan_event s
                   Heng Hsec Hkeep)|].
  eexists. by_computation.
Defined.
(** ** The tracks that reach the retained output *)

(** The keys that one track leaves alone, and the key it adds. *)
Lemma processOneTrack_keeps Sparsify track steps s s3 :
  processOneTrack Sparsify (track, steps) s = Returned tt s3 ->
  0 <= trackID_of track s ->
  (∀ k, k ≠ trackID_of track s ->
        is_Some (m_particleList (fParticleList s) !! k) ->
        is_Some (m_particleList (fParticleList s3) !! k))
  ∧ (retained_track s (track, steps) ->
     is_Some (m_particleList (fParticleList s3) !! trackID_of track s)).
Proof.
  intros Hrun H0.
  destruct (processOneTrack_effect Sparsify track steps s s3 Hrun)
    as (_ & _ & [(Hcut & _ & Hl & _)|(Hnc & pn & parentID & notstore & keep & r3 & _ & Hns & Hm)]).
  { rewrite Hl. split; [done|]. by intros [Hnc _]. }
  cbn zeta in Hm.
  assert (int_range (trackID_of track s)) as Hr by apply wrap32_range.
  set (tid := trackID_of track s) in *.
  set (L1 := if negb (GetProperTime track =? 0)%float || notstore then fParticleList s
             else PList.Add tid (length (heap s)) (fParticleList s)) in *.
  assert (∀ k, k ≠ tid -> is_Some (m_particleList (fParticleList s) !! k) ->
               is_Some (m_particleList L1 !! k)) as Hold.
  { intros k Hne Hk. unfold L1. destruct (_ || _); [done|].
    cbn. by rewrite lookup_insert_ne. }
  assert (retained_track s (track, steps) -> is_Some (m_particleList L1 !! tid)) as Hnew.
  { intros (_ & Hnex & Hp0 & _). cbn [fst] in Hnex, Hp0. unfold L1. rewrite Hp0.
    destruct notstore.
    - exfalso. apply Hnex. by apply Hns.
    - cbn. rewrite lookup_insert_eq. by eexists. }
  destruct (GetProcessDefinedStep (GetPostStepPoint (GetStep (last_step steps track))))
    as [process|] eqn:Hproc.
  - destruct Hm as (_ & -> & _). done.
  - destruct Hm as (_ & -> & _). rewrite erase_nonneg by done. split.
    + intros k Hne Hk. rewrite lookup_delete_ne by done. by apply Hold.
    + intros (_ & _ & _ & Hdef). cbn [fst snd] in Hdef. unfold defined_step in Hdef.
      by rewrite Hproc in Hdef.
Qed.

Lemma tracks_keep Sparsify tracks :
  ∀ s s', for_each (processOneTrack Sparsify) tracks s = Returned tt s' ->
    fTrackIDOffset s = 0 ->
    NoDup (GetTrackID ∘ fst <$> tracks) ->
    Forall (λ t : G4Track * list G4Track, 0 <= GetTrackID t.1 < 2 ^ 31) tracks ->
    (∀ k, k ∉ (GetTrackID ∘ fst <$> tracks) ->
          is_Some (m_particleList (fParticleList s) !! k) ->
          is_Some (m_particleList (fParticleList s') !! k))
    ∧ ∀ t, t ∈ tracks -> retained_track s t ->
           is_Some (m_particleList (fParticleList s') !! GetTrackID t.1).
Proof.
  induction tracks as [|[track steps] tracks IH]; intros s s' Hrun Hoff Hnd Hrange;
    cbn [for_each] in Hrun.
  - injection Hrun as <-. split; [done|]. intros t Ht. by apply elem_of_nil in Ht.
  - apply bind_Returned in Hrun as ([] & s1 & H1 & H2).
    apply Forall_cons in Hrange as [Hr Hrange]. cbn in Hr.
    cbn [fmap list_fmap compose fst] in Hnd |- *.
    change (list_fmap _ _ (GetTrackID ∘ fst) tracks)
      with ((GetTrackID ∘ fst) <$> tracks) in Hnd |- *.
    apply NoDup_cons in Hnd as [Hnew Hnd].
    assert (trackID_of track s = GetTrackID track) as Htid.
    { unfold trackID_of. rewrite Hoff, Z.add_0_r. apply wrap32_id.
      unfold int_range. lia. }
    pose proof (processOneTrack_session _ _ _ _ H1) as (Hcfg1 & _ & Ho).
    destruct (processOneTrack_keeps Sparsify track steps s s1 H1 ltac:(lia))
      as [Hold1 Hnew1].
    rewrite Htid in Hold1, Hnew1.
    destruct (IH s1 s' H2 ltac:(congruence) Hnd Hrange) as [Hold Hret].
    split.
    + intros k Hk Hin. apply not_elem_of_cons in Hk as [Hne Hk].
      apply Hold; [done|]. by apply Hold1.
    + intros t [->|Ht]%elem_of_cons Hrt.
      * cbn [fst]. apply Hold; [done|]. by apply Hnew1.
      * apply Hret; [done|]. by apply (retained_track_config s s1).
Qed.

(** X19.  The converse for the retained output.  In an event of engine
    tracks that ends normally, a track that the energy cut and the
    process filter let through, with zero proper time and a final step
    that a process defined, has a particle with its ID in the retained
    output as soon as its truth index is the running number of one of
    the event's truth records. *)
Theorem retained_track_is_output
    (Sparsify : float -> bool -> list TrajectoryPoint -> list TrajectoryPoint)
    (tracks : list (G4Track * list G4Track)) (s s' : State)
    (t : G4Track * list G4Track) (i : nat) :
  engine_tracks tracks ->
  processEvent Sparsify tracks s = Returned tt s' ->
  t ∈ tracks ->
  retained_track s t ->
  (i < length (all_truths (fMCLists s)))%nat ->
  truth_index_of s' (GetTrackID t.1) = truth_counter i ->
  ∃ rec, rec ∈ default [] (partCol_ s') ∧ TrackId rec = GetTrackID t.1.
Proof.
  intros (Hnd & Hrange & Hsteps) Hrun Ht Hret Hi Hidx.
  unfold processEvent in Hrun.
  apply bind_Returned in Hrun as ([] & s1 & Hrun & Hend).
  destruct (retained_invariant_tracks Sparsify tracks [] (beginOfEventAction s) s1)
    as [Hinv _];
    [|reflexivity| |by rewrite app_nil_r|exact Hrange|exact Hsteps|exact Hrun|].
  { intros k op Hk. cbn in Hk. by rewrite lookup_empty in Hk. }
  { intros k [op Hk]. cbn in Hk. by rewrite lookup_empty in Hk. }
  destruct (tracks_keep Sparsify tracks (beginOfEventAction s) s1 Hrun eq_refl Hnd Hrange)
    as [_ Hkeep].
  destruct (Hkeep t Ht) as [op Hk].
  { by apply (retained_track_config s (beginOfEventAction s)). }
  destruct (Hinv _ _ Hk) as (p & rec & -> & Hp & Hid & _).
  destruct (endOfEventAction_output s1 s' Hend) as (s2 & Hw & Hpc & _ & _ & _ & Hti & _).
  assert (fMCLists s1 = fMCLists s) as Hml.
  { assert (session_frame (beginOfEventAction s) s1) as (_ & Hm & _).
    { eapply (for_each_session (processOneTrack Sparsify)); [|exact Hrun].
      intros k s0 s0'. apply processOneTrack_session. }
    rewrite Hm. reflexivity. }
  pose proof (Hw p) as Hwp. rewrite Hp in Hwp.
  destruct (heap s2 !! p) as [rec2|] eqn:Hp2; [|discriminate].
  assert (TrackId rec2 = GetTrackID t.1) as Hid2.
  { rewrite <- Hid. change (TrackId (without_daughters rec2) = TrackId (without_daughters rec)).
    cbn in Hwp. congruence. }
  exists rec2. split; [|exact Hid2].
  rewrite Hpc, Hml. apply list_elem_of_In, in_flat_map. exists i. split.
  { apply in_seq. lia. }
  apply list_elem_of_In. unfold collected_for. apply list_elem_of_filter. split.
  { rewrite Hid2, <- Hti. exact Hidx. }
  unfold records_of. apply list_elem_of_omap.
  exists (GetTrackID t.1, Some p). split; [|cbn; unfold deref; by rewrite Hp2].
  unfold PList.entries. apply list_elem_of_omap. exists (GetTrackID t.1).
  split; [|by rewrite Hk]. apply elem_of_keys. by eexists.
Qed.

Lemma retained_track_is_output_witness :
  let s := service default_parameters in
  let s' := state_after (processEvent keep_all_points two_tracks s) s in
  let t := (secondary_track 2 1 11 "eIoni" 1,
            [after_step (Some "eIoni"%string) (secondary_track 2 1 11 "eIoni" 1)]) in
  engine_tracks two_tracks
  ∧ processEvent keep_all_points two_tracks s = Returned tt s'
  ∧ retained_track s t
  ∧ ∃ rec, rec ∈ default [] (partCol_ s') ∧ TrackId rec = 2.
Proof.
  intros s s' t.
  assert (engine_tracks two_tracks) as Heng by engine_tracks_sample.
  assert (processEvent keep_all_points two_tracks s = Returned tt s') as Hrun
    by by_computation.
  assert (retained_track s t) as Hret.
  { split; [|split; [|split]].
    - intros [_ Hb]. vm_compute in Hb. discriminate.
    - intros [_ (pn & Hpn & Hex)]. injection Hpn as <-. vm_compute in Hex.
      destruct Hex as [? ?]. discriminate.
    - by_computation.
    - by_computation. }
  split; [exact Heng|]. split; [exact Hrun|]. split; [exact Hret|].
  exact (retained_track_is_output keep_all_points two_tracks s s' t 0 Heng Hrun
           ltac:(right; left) Hret ltac:(vm_compute; lia) ltac:(by_computation)).
Defined.

Lemma NoDup_fmap_filter {A B} (f : A -> B) (P : A -> Prop) `{∀ x, Decision (P x)}
    (l : list A) :
  NoDup (f <$> l) -> NoDup (f <$> filter P l).
Proof.
  induction l as [|a l IH]; [done|]. rewrite fmap_cons, filter_cons.
  intros [Ha Hl]%NoDup_cons. destruct (decide (P a)); [|by apply IH].
  rewrite fmap_cons. apply NoDup_cons. split; [|by apply IH].
  intros (x & Hx & [_ Hin]%list_elem_of_filter)%list_elem_of_fmap.
  apply Ha. rewrite Hx. by apply list_elem_of_fmap_2.
Qed.

Lemma NoDup_fmap_flat_map_filter {A B C} (f : A -> B) (h : A -> C) (g : nat -> C)
    `{EqDecision C} (l : list A) (js : list nat) :
  NoDup (f <$> l) -> NoDup js ->
  (∀ i j, i ∈ js -> j ∈ js -> g i = g j -> i = j) ->
  NoDup (f <$> flat_map (λ i, filter (λ x, h x = g i) l) js).
Proof.
  intros Hl. induction js as [|i js IH]; intros Hjs Hg; cbn [flat_map]; [constructor|].
  apply NoDup_cons in Hjs as [Hi Hjs]. rewrite fmap_app. apply NoDup_app.
  split; [by apply NoDup_fmap_filter|]. split.
  - intros b (x & -> & [Hx Hxl]%list_elem_of_filter)%list_elem_of_fmap
           (y & Hxy & Hy)%list_elem_of_fmap.
    apply list_elem_of_In, in_flat_map in Hy as (j & Hj & Hy).
    apply list_elem_of_In in Hj. apply list_elem_of_In, list_elem_of_filter in Hy as [Hy Hyl].
    assert (x = y) as <- by (by apply (NoDup_fmap_inj f l)).
    apply Hi. rewrite (Hg i j); [done|by left|by right|congruence].
  - apply IH; [done|]. intros a b Ha Hb. apply Hg; by right.
Qed.

Lemma truth_counter_inj i j :
  (i < 2 ^ 32)%nat -> (j < 2 ^ 32)%nat -> truth_counter i = truth_counter j -> i = j.
Proof.
  unfold truth_counter. intros Hi Hj.
  assert (N.of_nat (2 ^ 32) = (2 ^ 32)%N) as Hpow.
  { rewrite Nat2N.inj_pow. reflexivity. }
  rewrite !N.mod_small by lia. lia.
Qed.

Lemma NoDup_keys (pl : ParticleList) : NoDup (PList.keys pl).
Proof.
  unfold PList.keys. rewrite merge_sort_Permutation. apply NoDup_elements.
Qed.

Lemma TrackId_records_of pl s s2 :
  records_invariant pl s ->
  (∀ p, without_daughters <$> heap s2 !! p = without_daughters <$> heap s !! p) ->
  TrackId <$> records_of pl s2 = PList.keys pl.
Proof.
  intros Hinv Hw. unfold records_of, PList.entries.
  assert (∀ k, k ∈ PList.keys pl -> is_Some (m_particleList pl !! k)) as Hk
    by (intros k; apply elem_of_keys).
  induction (PList.keys pl) as [|k ks IH]; [done|].
  destruct (Hk k ltac:(by left)) as [op Hop].
  destruct (Hinv k op Hop) as (p & rec & -> & Hp & Hid & _).
  cbn [omap list_omap]. rewrite Hop. cbn [fmap option_fmap option_map snd mbind option_bind].
  pose proof (Hw p) as Hwp. rewrite Hp in Hwp. unfold deref.
  cbn [omap list_omap snd mbind option_bind].
  destruct (heap s2 !! p) as [rec2|]; [|discriminate].
  rewrite fmap_cons. f_equal.
  - rewrite <- Hid. change (TrackId (without_daughters rec2) = TrackId (without_daughters rec)).
    cbn in Hwp. congruence.
  - apply IH. intros k' Hk'. apply Hk. by right.
Qed.

(** X20.  No particle is put out twice.  In an event of engine tracks
    that ends normally, with no more truth records than the counter of
    line 767 can tell apart, the particles of the retained output have
    track IDs that differ from one another. *)
Theorem retained_output_ids_distinct
    (Sparsify : float -> bool -> list TrajectoryPoint -> list TrajectoryPoint)
    (tracks : list (G4Track * list G4Track)) (s s' : State) :
  engine_tracks tracks ->
  processEvent Sparsify tracks s = Returned tt s' ->
  (length (all_truths (fMCLists s)) <= 2 ^ 32)%nat ->
  NoDup (TrackId <$> default [] (partCol_ s')).
Proof.
  intros (Hnd & Hrange & Hsteps) Hrun Hn.
  unfold processEvent in Hrun.
  apply bind_Returned in Hrun as ([] & s1 & Hrun & Hend).
  destruct (retained_invariant_tracks Sparsify tracks [] (beginOfEventAction s) s1)
    as [Hinv _];
    [|reflexivity| |by rewrite app_nil_r|exact Hrange|exact Hsteps|exact Hrun|].
  { intros k op Hk. cbn in Hk. by rewrite lookup_empty in Hk. }
  { intros k [op Hk]. cbn in Hk. by rewrite lookup_empty in Hk. }
  destruct (endOfEventAction_output s1 s' Hend) as (s2 & Hw & Hpc & _).
  assert (fMCLists s1 = fMCLists s) as Hml.
  { assert (session_frame (beginOfEventAction s) s1) as (_ & Hm & _).
    { eapply (for_each_session (processOneTrack Sparsify)); [|exact Hrun].
      intros k s0 s0'. apply processOneTrack_session. }
    rewrite Hm. reflexivity. }
  rewrite Hpc, Hml. unfold collected_for.
  apply (NoDup_fmap_flat_map_filter TrackId
           (λ rec, truth_index_of s1 (TrackId rec)) truth_counter).
  - rewrite (TrackId_records_of _ s1 s2 Hinv Hw). apply NoDup_keys.
  - apply NoDup_ListNoDup, seq_NoDup.
  - intros i j Hi%list_elem_of_In%in_seq Hj%list_elem_of_In%in_seq.
    apply truth_counter_inj; lia.
Qed.

Lemma retained_output_ids_distinct_witness :
  let s := service default_parameters in
  let s' := state_after (processEvent keep_all_points two_tracks s) s in
  engine_tracks two_tracks
  ∧ processEvent keep_all_points two_tracks s = Returned tt s'
  ∧ NoDup (TrackId <$> default [] (partCol_ s')).
Proof.
  intros s s'.
  assert (engine_tracks two_tracks) as Heng by engine_tracks_sample.
  assert (processEvent keep_all_points two_tracks s = Returned tt s') as Hrun
    by by_computation.
  split; [exact Heng|]. split; [exact Hrun|].
  apply (retained_output_ids_distinct keep_all_points two_tracks s s' Heng Hrun).
  assert (length (all_truths (fMCLists s)) = 1%nat) as -> by by_computation.
  apply (Nat.pow_le_mono_r 2 0 32); lia.
Defined.

(** ** The ancestry map of an event *)

Lemma filed_insert_dropped a t m k :
  filed (insert_dropped a t m) k ↔ k = t ∨ filed m k.
Proof.
  unfold filed, insert_dropped. split.
  - intros (b & ids & Hb & Hk). apply lookup_insert_Some in Hb as [[<- <-]|[Hne Hb]].
    + apply elem_of_union in Hk as [Hk|Hk]; [left; set_solver|].
      right. destruct (m !! a) as [ids0|] eqn:Ha; [|set_solver].
      by exists a, ids0.
    + right. by exists b, ids.
  - intros [->|(b & ids & Hb & Hk)].
    + eexists a, _. rewrite lookup_insert_eq. split; [done|]. set_solver.
    + destruct (decide (a = b)) as [->|Hne].
      * eexists b, _. rewrite lookup_insert_eq. split; [done|].
        rewrite Hb. cbn. set_solver.
      * exists b, ids. by rewrite lookup_insert_ne.
Qed.

(** What steps and track end leave of the admission's bookkeeping. *)
Lemma processOneTrack_bookkeeping Sparsify track steps s s3 :
  processOneTrack Sparsify (track, steps) s = Returned tt s3 ->
  ∃ s1, preUserTrackingAction track s = Returned tt s1
        ∧ fdroppedTracksMap s3 = fdroppedTracksMap s1
        ∧ fTargetIDMap s3 = fTargetIDMap s1
        ∧ fCurrentTrackID s3 = fCurrentTrackID s1.
Proof.
  intros Hrun.
  pose proof Hrun as Hrun0. unfold processOneTrack in Hrun0. cbn [fst snd] in Hrun0.
  apply bind_Returned in Hrun0 as ([] & s1 & Hpre & Hrest).
  exists s1. split; [done|].
  destruct (preUserTrackingAction_effect track s s1 Hpre)
    as (_ & _ & [(_ & Hslot & _)|(_ & pn & parentID & notstore & Hslot & Hheap & _)]).
  - destruct (stepping_idle steps track s1 Hslot) as [last' Hst].
    cbn beta in Hrest. rewrite Hst in Hrest. cbn [bind] in Hrest.
    rewrite postUserTrackingAction_idle in Hrest by done. by injection Hrest as <-.
  - rewrite (processOneTrack_lifecycle Sparsify track steps s s1 _
               (created track (trackID_of track s) (GetPDGEncoding track) pn parentID)
               Hpre Hslot) in Hrun.
    2:{ unfold deref. rewrite Hheap. by rewrite lookup_app_r, Nat.sub_diag. }
    cbn zeta in Hrun.
    destruct (GetProcessDefinedStep _); injection Hrun as <-.
    + unfold truth_recorded. by destruct (isPrimary _).
    + unfold discardCurrentParticle. by destruct (negb _).
Qed.

Lemma preUserTrackingAction_filed track s s1 :
  preUserTrackingAction track s = Returned tt s1 ->
  ∀ k, filed (fdroppedTracksMap s1) k
       ↔ filed (fdroppedTracksMap s) k
         ∨ k = trackID_of track s ∧ dropped_track s track.
Proof.
  intros Hrun k. unfold dropped_track, excluded_track, cut_by_energy.
  destruct (GetPrimaryParticle track) as [pp|] eqn:Hpp.
  - unfold preUserTrackingAction in Hrun. rewrite Hpp in Hrun. state_simpl.
    fold (trackID_of track s) (parentID_of track s) in Hrun.
    fold (entered track s) in Hrun.
    assert (∃ pn par pi pmi flag,
              createParticle track (trackID_of track s) (GetPDGEncoding track) pn par
                pi pmi flag false (entered track s) = Returned tt s1)
      as (pn & par & pi & pmi & flag & Hc).
    { destruct (GetUserInformation pp) as [ppi|].
      - destruct (primary_process_name _) as [pn flag]. by do 5 eexists.
      - by do 5 eexists. }
    destruct (createParticle_spec track (trackID_of track s) (GetPDGEncoding track)
                pn par pi pmi flag false (entered track s))
      as (s'' & Hc' & _ & _ & _ & _ & _ & _ & _ & _ & _ & _ & _ & _ & Hdt & _).
    rewrite Hc in Hc'. injection Hc' as <-. rewrite Hdt. cbn.
    split; [by left|]. intros [H|(_ & [[[=] _]|[[=] _]])]. done.
  - destruct (GetCreatorProcess track) as [pn|] eqn:Hcp.
    2:{ unfold preUserTrackingAction in Hrun. rewrite Hpp, Hcp in Hrun. discriminate. }
    assert (∀ s1', (match excluded_by (config s) pn with
                    | None => s1' = entered track s
                    | Some q => ∃ a, s1' = excluded_state (trackID_of track s)
                                             (parentID_of track s) a q (entered track s)
                    end) ->
              ∀ k, filed (fdroppedTracksMap s1') k
                   ↔ filed (fdroppedTracksMap s) k
                     ∨ k = trackID_of track s ∧ is_Some (excluded_by (config s) pn))
      as Hex1.
    { intros s1' Hs1' k'. destruct (excluded_by (config s) pn) as [q|].
      - destruct Hs1' as [a ->]. unfold excluded_state, entered. state_simpl.
        rewrite filed_insert_dropped. split; [intros [->|H]; [right|left]|]; try done.
        intros [H|[-> _]]; [by right|by left].
      - subst s1'. cbn. split; [by left|]. intros [H|[_ [? [=]]]]. done. }
    assert (is_Some (excluded_by (config s) pn)
            ↔ ∃ pn0, Some pn = Some pn0 ∧ is_Some (excluded_by (config s) pn0)) as Hiff.
    { split; [intros H; by exists pn|]. by intros (pn0 & [= <-] & H). }
    destruct (below_energyCut track s) eqn:Hcut.
    + unfold preUserTrackingAction in Hrun. rewrite Hpp, Hcp in Hrun.
      unfold admitSecondary in Hrun. state_simpl.
      fold (trackID_of track s) (parentID_of track s) in Hrun.
      fold (entered track s) in Hrun.
      apply bind_Returned in Hrun as (notstore & s1' & Hex & Hk).
      apply processExclusion_Returned in Hex as [Hf' Hex].
      change (config (entered track s)) with (config s) in Hex.
      fold (below_energyCut track s1') in Hk.
      replace (below_energyCut track s1') with true in Hk.
      2:{ destruct Hf' as [Hc _]. unfold below_energyCut in *. rewrite Hc. done. }
      rewrite energyCutDrop_eq in Hk.
      destruct (parentage (fParentIDMap s1') _) as [b0|]; [|discriminate].
      destruct (parentage (<[_:=_]> (fParentIDMap s1')) _) as [b|]; [|discriminate].
      injection Hk as <-. unfold cut_state. state_simpl.
      rewrite filed_insert_dropped, Hex1.
      2:{ destruct (excluded_by (config s) pn); [|by destruct Hex].
          destruct Hex as (_ & a & _ & ->). by exists a. }
      split.
      * intros [->|[H|[-> _]]]; [right|by left|right]; (split; [done|]); by left.
      * intros [H|[-> _]]; [right; by left|by left].
    + destruct (admitSecondary_created track pn s s1 Hpp Hcp Hrun Hcut)
        as (notstore & s1' & parent & s2 & index & Hex & Hres & Hidx & Hc).
      match type of Hc with createParticle ?t ?i ?c ?n ?m ?pi ?pmi ?f ?ns ?st = _ =>
        destruct (createParticle_spec t i c n m pi pmi f ns st)
          as (s'' & Hc' & _ & _ & _ & _ & _ & _ & _ & _ & _ & _ & _ & _ & Hdt & _) end.
      rewrite Hc in Hc'. injection Hc' as <-. rewrite Hdt. state_simpl.
      apply processExclusion_Returned in Hex as [_ Hex].
      change (config (entered track s)) with (config s) in Hex.
      assert (fdroppedTracksMap s2 = fdroppedTracksMap s1') as ->.
      { apply resolveParent_Returned in Hres as [-> | ->]; done. }
      rewrite Hex1.
      2:{ destruct (excluded_by (config s) pn); [|by destruct Hex].
          destruct Hex as (_ & a & _ & ->). by exists a. }
      rewrite Hiff. split.
      * intros [H|[-> H]]; [by left|]. right. split; [done|]. by right.
      * intros [H|[-> [[_ [=]]|[_ H]]]]; [by left|]. by right.
Qed.

Lemma dropped_track_config s s' t :
  config s' = config s -> dropped_track s' t ↔ dropped_track s t.
Proof.
  intros Hc. unfold dropped_track, cut_by_energy, below_energyCut. by rewrite Hc.
Qed.

Lemma tracks_filed Sparsify tracks :
  ∀ s s', for_each (processOneTrack Sparsify) tracks s = Returned tt s' ->
    fTrackIDOffset s = 0 ->
    Forall (λ t : G4Track * list G4Track, 0 <= GetTrackID t.1 < 2 ^ 31) tracks ->
    ∀ k, filed (fdroppedTracksMap s') k
         ↔ filed (fdroppedTracksMap s) k
           ∨ ∃ t, t ∈ tracks ∧ GetTrackID t.1 = k ∧ dropped_track s t.1.
Proof.
  induction tracks as [|[track steps] tracks IH]; intros s s' Hrun Hoff Hrange k;
    cbn [for_each] in Hrun.
  - injection Hrun as <-. split; [by left|]. intros [H|(t & []%elem_of_nil & _)]. done.
  - apply bind_Returned in Hrun as ([] & s1 & H1 & H2).
    apply Forall_cons in Hrange as [Hr Hrange]. cbn in Hr.
    assert (trackID_of track s = GetTrackID track) as Htid.
    { unfold trackID_of. rewrite Hoff, Z.add_0_r. apply wrap32_id.
      unfold int_range. lia. }
    pose proof (processOneTrack_session _ _ _ _ H1) as (Hcfg1 & _ & Ho).
    destruct (processOneTrack_bookkeeping Sparsify track steps s s1 H1)
      as (s0 & Hpre & Hdt & _).
    rewrite (IH s1 s' H2 ltac:(congruence) Hrange k), Hdt,
      (preUserTrackingAction_filed track s s0 Hpre k), Htid.
    split.
    + intros [[H|[-> Hd]]|(t & Ht & Hid & Hd)]; [by left| |].
      * right. exists (track, steps). split; [by left|]. done.
      * right. exists t. split; [by right|]. split; [done|].
        by apply (dropped_track_config s s1).
    + intros [H|(t & [->|Ht]%elem_of_cons & Hid & Hd)]; [by left; left| |].
      * left. right. done.
      * right. exists t. split; [done|]. split; [done|].
        by apply (dropped_track_config s s1).
Qed.

(** X21.  Who is filed in the ancestry output.  In an event that ends
    normally and has a truth record, a track ID is a member of some set
    of the ancestry map exactly when it is the ID of a track of the event
    that the energy cut or the process filter dropped: no dropped track
    is left out, and no other track is filed. *)
Theorem ancestry_output_members
    (Sparsify : float -> bool -> list TrajectoryPoint -> list TrajectoryPoint)
    (tracks : list (G4Track * list G4Track)) (s s' : State) :
  Forall (λ t : G4Track * list G4Track, 0 <= GetTrackID t.1 < 2 ^ 31) tracks ->
  processEvent Sparsify tracks s = Returned tt s' ->
  all_truths (fMCLists s) ≠ [] ->
  ∀ k, filed (default ∅ (droppedCol_ s')) k
       ↔ ∃ t, t ∈ tracks ∧ GetTrackID t.1 = k ∧ dropped_track s t.1.
Proof.
  intros Hrange Hrun Hne k.
  unfold processEvent in Hrun.
  apply bind_Returned in Hrun as ([] & s1 & Hrun & Hend).
  destruct (endOfEventAction_output s1 s' Hend) as (s2 & _ & _ & _ & Hdc & _).
  assert (fMCLists s1 = fMCLists s) as Hml.
  { assert (session_frame (beginOfEventAction s) s1) as (_ & Hm & _).
    { eapply (for_each_session (processOneTrack Sparsify)); [|exact Hrun].
      intros k0 s0 s0'. apply processOneTrack_session. }
    rewrite Hm. reflexivity. }
  rewrite Hdc, Hml. destruct (all_truths (fMCLists s)); [done|]. cbn [is_nil from_option id].
  rewrite (tracks_filed Sparsify tracks (beginOfEventAction s) s1 Hrun eq_refl Hrange k).
  split.
  - intros [(a & ids & Ha & _)|(t & Ht & Hid & Hd)].
    + cbn in Ha. by rewrite lookup_empty in Ha.
    + exists t. split; [done|]. split; [done|].
      by apply (dropped_track_config s (beginOfEventAction s)).
  - intros (t & Ht & Hid & Hd). right. exists t. split; [done|]. split; [done|].
    by apply (dropped_track_config s (beginOfEventAction s)).
Qed.

Lemma ancestry_output_members_witness :
  let s := service energy_cut_1 in
  let s' := state_after (processEvent keep_all_points three_tracks s) s in
  processEvent keep_all_points three_tracks s = Returned tt s'
  ∧ filed (default ∅ (droppedCol_ s')) 3
  ∧ ¬ filed (default ∅ (droppedCol_ s')) 2.
Proof.
  intros s s'.
  assert (processEvent keep_all_points three_tracks s = Returned tt s') as Hrun
    by by_computation.
  split; [exact Hrun|].
  pose proof (ancestry_output_members keep_all_points three_tracks s s'
                ltac:(repeat constructor; cbn; lia) Hrun ltac:(discriminate)) as H.
  split.
  - apply H. exists (low_energy_daughter 3).
    split; [apply elem_of_app; right; left|]. split; [reflexivity|].
    left. split; by_computation.
  - intros (t & Ht & Hid & Hd)%H.
    apply elem_of_app in Ht as [Ht|Ht%list_elem_of_singleton].
    + apply elem_of_cons in Ht as [->|Ht%list_elem_of_singleton]; [discriminate|].
      subst t. destruct Hd as [[_ Hb]|[_ (pn & Hpn & Hex)]].
      * vm_compute in Hb. discriminate.
      * injection Hpn as <-. vm_compute in Hex. destruct Hex as [? ?]. discriminate.
    + subst t. discriminate.
Defined.

(** * The target map of an event *)

(** [endOfEventAction] and its loops leave [fTargetIDMap] alone. *)
Lemma collectParticle_target mcl m n entry s s' :
  collectParticle mcl m n entry s = Returned tt s' ->
  fTargetIDMap s' = fTargetIDMap s.
Proof.
  unfold collectParticle.
  destruct (entry.2 ≫= _) as [rec|]; [|discriminate].
  destruct (subscript 0%N (TrackId rec) (fMCTIndexMap s)) as [gen_index im].
  destruct (negb _); [by intros [= <-]|].
  destruct (_ =? _)%nat; [discriminate|].
  destruct (_ && _); [discriminate|]. by intros [= <-].
Qed.

Lemma collectDropped_target origin entry s s' :
  collectDropped origin entry s = Returned tt s' ->
  fTargetIDMap s' = fTargetIDMap s.
Proof.
  unfold collectDropped. destruct (entry.2) as [p|]; [|by intros [= <-]].
  destruct (deref p s) as [rec|]; [|discriminate].
  destruct (isDropped _); [by intros [= <-]|].
  destruct (negb _); by intros [= <-].
Qed.

Lemma truths_loop_target mcl entries dropped ts :
  ∀ m n s n' s',
    truths_loop mcl m ts entries dropped n s = Returned n' s' ->
    fTargetIDMap s' = fTargetIDMap s.
Proof.
  induction ts as [|mct ts IH]; intros m n s n' s'; cbn [truths_loop].
  - by intros [= _ <-].
  - intros ([] & s1 & H1 & ([] & s2 & H2 & H3)%bind_Returned)%bind_Returned.
    apply (for_each_invariant (λ s0, fTargetIDMap s0 = fTargetIDMap s)) in H1;
      [|intros k s0 s0' _ <-; apply collectParticle_target|done].
    assert (fTargetIDMap s2 = fTargetIDMap s) as H2'.
    { destruct (_ && _); [|by injection H2 as <-].
      apply (for_each_invariant (λ s0, fTargetIDMap s0 = fTargetIDMap s)) in H2;
        [done|intros k s0 s0' _ <-; apply collectDropped_target|done]. }
    apply IH in H3. by rewrite H3.
Qed.

Lemma handles_loop_target entries dropped hs :
  ∀ mcl n s n' s',
    handles_loop mcl hs entries dropped n s = Returned n' s' ->
    fTargetIDMap s' = fTargetIDMap s.
Proof.
  induction hs as [|h hs IH]; intros mcl n s n' s'; cbn [handles_loop].
  - by intros [= _ <-].
  - intros (n1 & s1 & H1 & H2)%bind_Returned.
    apply truths_loop_target in H1. apply IH in H2. congruence.
Qed.

Lemma endOfEventAction_target s s' :
  endOfEventAction s = Returned tt s' -> fTargetIDMap s' = fTargetIDMap s.
Proof.
  unfold endOfEventAction.
  intros ([] & s1 & H1 & (pl & s2 & H2 & (dl & s3 & H3
            & (n & s4 & H4 & H5)%bind_Returned)%bind_Returned)%bind_Returned)%bind_Returned.
  apply for_each_UpdateDaughterInformation_frame in H1 as [E1 _].
  assert (fTargetIDMap s1 = fTargetIDMap s) as Ht1 by (rewrite E1; reflexivity).
  assert (fTargetIDMap s2 = fTargetIDMap s1) as Ht2.
  { unfold YieldList in H2. destruct (negb _); by injection H2 as _ <-. }
  assert (fTargetIDMap s3 = fTargetIDMap s2) as Ht3.
  { cbn beta in H3. destruct (fdroppedParticleList _).
    - apply bind_Returned in H3 as (d & s2' & HD & HR). injection HR as _ <-.
      apply YieldDroppedList_Returned in HD as [->|[o ->]]; reflexivity.
    - by injection H3 as _ <-. }
  apply handles_loop_target in H4. injection H5 as <-. state_simpl. congruence.
Qed.

Lemma tracks_target Sparsify tracks :
  ∀ s s', for_each (processOneTrack Sparsify) tracks s = Returned tt s' ->
    fTrackIDOffset s = 0 ->
    NoDup (GetTrackID ∘ fst <$> tracks) ->
    Forall (λ t : G4Track * list G4Track, 0 <= GetTrackID t.1 < 2 ^ 31) tracks ->
    (∀ k, k ∉ (GetTrackID ∘ fst <$> tracks) ->
          fTargetIDMap s' !! k = fTargetIDMap s !! k)
    ∧ ∀ t, t ∈ tracks ->
        ∃ v, fTargetIDMap s' !! GetTrackID t.1 = Some v
             ∧ (¬ dropped_track s t.1 -> v = GetTrackID t.1).
Proof.
  induction tracks as [|[track steps] tracks IH]; intros s s' Hrun Hoff Hnd Hrange;
    cbn [for_each] in Hrun.
  - injection Hrun as <-. split; [done|]. intros t Ht. by apply elem_of_nil in Ht.
  - apply bind_Returned in Hrun as ([] & s1 & H1 & H2).
    apply Forall_cons in Hrange as [Hr Hrange]. cbn in Hr.
    cbn [fmap list_fmap compose fst] in Hnd |- *.
    change (list_fmap _ _ (GetTrackID ∘ fst) tracks)
      with ((GetTrackID ∘ fst) <$> tracks) in Hnd |- *.
    apply NoDup_cons in Hnd as [Hnew Hnd].
    assert (trackID_of track s = GetTrackID track) as Htid.
    { unfold trackID_of. rewrite Hoff, Z.add_0_r. apply wrap32_id.
      unfold int_range. lia. }
    pose proof (processOneTrack_session _ _ _ _ H1) as (Hcfg1 & _ & Ho).
    destruct (processOneTrack_bookkeeping Sparsify track steps s s1 H1)
      as (s0 & Hpre & _ & Htg & Hcur).
    destruct (preUserTrackingAction_target track s s0 Hpre) as [Hmap Hown].
    rewrite Htid in Hmap, Hown. rewrite <- Htg, <- Hcur in Hmap. rewrite <- Hcur in Hown.
    destruct (IH s1 s' H2 ltac:(congruence) Hnd Hrange) as [Hold Hall].
    split.
    + intros k Hk. apply not_elem_of_cons in Hk as [Hne Hk].
      rewrite (Hold k Hk), Hmap. by rewrite lookup_insert_ne.
    + intros t [->|Ht]%elem_of_cons.
      * cbn [fst]. exists (fCurrentTrackID s1). split.
        { rewrite (Hold _ Hnew), Hmap. by rewrite lookup_insert_eq. }
        intros Hnd'. apply Hown.
        destruct (GetPrimaryParticle track) as [pp|] eqn:Hpp; [left; by eexists|].
        right. split.
        { destruct (below_energyCut track s) eqn:Hb; [|done].
          exfalso. apply Hnd'. left. by split. }
        intros pn Hpn. destruct (excluded_by (config s) pn) as [q|] eqn:Hq; [|done].
        exfalso. apply Hnd'. right. split; [done|]. exists pn. split; [done|].
        rewrite Hq. by eexists.
      * destruct (Hall t Ht) as (v & Hv & Hown'). exists v. split; [done|].
        intros Hnd'. apply Hown'. by rewrite (dropped_track_config s s1).
Qed.

(** X6. When an event has run, [fTargetIDMap] has an entry for every
    track of the event, and the entry of a track that neither the energy
    cut nor the process filter drops is the track's own ID. *)
Theorem target_map_after_event
    (Sparsify : float -> bool -> list TrajectoryPoint -> list TrajectoryPoint)
    (tracks : list (G4Track * list G4Track)) (s s' : State)
    (t : G4Track * list G4Track) :
  engine_tracks tracks ->
  processEvent Sparsify tracks s = Returned tt s' ->
  t ∈ tracks ->
  ∃ v, fTargetIDMap s' !! GetTrackID t.1 = Some v
       ∧ (¬ dropped_track s t.1 -> v = GetTrackID t.1).
Proof.
  intros (Hnd & Hrange & Hsteps) Hrun Ht.
  unfold processEvent in Hrun.
  apply bind_Returned in Hrun as ([] & s1 & Hrun & Hend).
  destruct (tracks_target Sparsify tracks (beginOfEventAction s) s1 Hrun eq_refl Hnd Hrange)
    as [_ Hall].
  destruct (Hall t Ht) as (v & Hv & Hown). exists v.
  rewrite (endOfEventAction_target s1 s' Hend). split; [done|].
  intros Hnd'. apply Hown. by rewrite (dropped_track_config s (beginOfEventAction s)).
Qed.

Lemma target_map_after_event_witness :
  let s := service energy_cut_1 in
  let s' := state_after (processEvent keep_all_points three_tracks s) s in
  engine_tracks three_tracks
  ∧ processEvent keep_all_points three_tracks s = Returned tt s'
  ∧ fTargetIDMap s' !! 2 = Some 2
  ∧ is_Some (fTargetIDMap s' !! 3).
Proof.
  intros s s'.
  assert (engine_tracks three_tracks) as Heng by engine_tracks_sample.
  assert (processEvent keep_all_points three_tracks s = Returned tt s') as Hrun
    by by_computation.
  split; [exact Heng|]. split; [exact Hrun|]. split.
  - destruct (target_map_after_event keep_all_points three_tracks s s'
                (secondary_track 2 1 11 "eIoni" 1,
                 [after_step (Some "eIoni"%string) (secondary_track 2 1 11 "eIoni" 1)])
                Heng Hrun ltac:(apply elem_of_app; left; right; left))
      as (v & Hv & Hown).
    cbn [fst GetTrackID secondary_track] in Hv, Hown.
    rewrite Hv. f_equal. apply Hown.
    intros [[_ Hb]|[_ (pn & Hpn & Hex)]].
    + vm_compute in Hb. discriminate.
    + injection Hpn as <-. vm_compute in Hex. destruct Hex as [? ?]. discriminate.
  - destruct (target_map_after_event keep_all_points three_tracks s s'
                (low_energy_daughter 3) Heng Hrun
                ltac:(apply elem_of_app; right; left)) as (v & Hv & _).
    exists v. exact Hv.
Defined.
(** * The rejection counters of an event *)

Lemma preUserTrackingAction_counters track s s' :
  preUserTrackingAction track s = Returned tt s' ->
  fNotStoredCounterUMap s'
  = match matched_name (config s) track with
    | Some q => count_NotStored q (fNotStoredCounterUMap s)
    | None => fNotStoredCounterUMap s
    end.
Proof.
  unfold preUserTrackingAction, matched_name. state_simpl.
  fold (trackID_of track s) (parentID_of track s). fold (entered track s).
  destruct (GetPrimaryParticle track) as [pp|].
  - destruct (GetUserInformation pp) as [ppi|];
      [destruct (primary_process_name _) as [pn flag]|];
      intros Hc%createParticle_counters; exact Hc.
  - destruct (GetCreatorProcess track) as [pn|]; [|discriminate]. cbn [mbind option_bind].
    unfold admitSecondary.
    intros (notstore & s1 & Hex & Hrest)%bind_Returned.
    apply processExclusion_Returned in Hex as [_ Hex].
    change (config (entered track s)) with (config s) in Hex.
    assert (fNotStoredCounterUMap s1
            = match excluded_by (config s) pn with
              | Some q => count_NotStored q (fNotStoredCounterUMap s)
              | None => fNotStoredCounterUMap s
              end) as <-.
    { destruct (excluded_by (config s) pn) as [q|].
      - destruct Hex as (_ & a & _ & ->). reflexivity.
      - destruct Hex as [_ ->]. reflexivity. }
    cbn beta zeta in Hrest.
    destruct (_ && _).
    + rewrite energyCutDrop_eq in Hrest.
      repeat match type of Hrest with
             | context [parentage ?m ?k] => destruct (parentage m k)
             end; try discriminate Hrest.
      by injection Hrest as <-.
    + apply bind_Returned in Hrest as (pid & s2 & Hres & Hrest).
      assert (fNotStoredCounterUMap s2 = fNotStoredCounterUMap s1) as <-
        by (apply resolveParent_Returned in Hres as [->| ->]; reflexivity).
      destruct (fMCTIndexMap s2 !! pid) as [idx|]; [|discriminate Hrest].
      destruct (subscript false pid (fMCTPrimProcessKeepMap s2)) as [flag m].
      by apply createParticle_counters in Hrest.
Qed.

Lemma processOneTrack_counters Sparsify track steps s s3 :
  processOneTrack Sparsify (track, steps) s = Returned tt s3 ->
  config s3 = config s
  ∧ fNotStoredCounterUMap s3
    = match matched_name (config s) track with
      | Some q => count_NotStored q (fNotStoredCounterUMap s)
      | None => fNotStoredCounterUMap s
      end.
Proof.
  intros Hrun.
  pose proof (processOneTrack_session _ _ _ _ Hrun) as (Hcfg & _).
  split; [done|].
  pose proof Hrun as Hrun0. unfold processOneTrack in Hrun0. cbn [fst snd] in Hrun0.
  apply bind_Returned in Hrun0 as ([] & s1 & Hpre & Hrest).
  rewrite <- (preUserTrackingAction_counters track s s1 Hpre).
  destruct (preUserTrackingAction_effect track s s1 Hpre)
    as (_ & _ & [(_ & Hslot & _)|(_ & pn & parentID & notstore & Hslot & Hheap & _)]).
  - destruct (stepping_idle steps track s1 Hslot) as [last' Hst].
    cbn beta in Hrest. rewrite Hst in Hrest. cbn [bind] in Hrest.
    rewrite postUserTrackingAction_idle in Hrest by done. by injection Hrest as <-.
  - rewrite (processOneTrack_lifecycle Sparsify track steps s s1 _
               (created track (trackID_of track s) (GetPDGEncoding track) pn parentID)
               Hpre Hslot) in Hrun.
    2:{ unfold deref. rewrite Hheap. by rewrite lookup_app_r, Nat.sub_diag. }
    cbn zeta in Hrun.
    destruct (GetProcessDefinedStep _); injection Hrun as <-.
    + unfold truth_recorded. by destruct (isPrimary _).
    + unfold discardCurrentParticle. by destruct (negb _).
Qed.

Lemma wrap32_succ (z : Z) : wrap32 (wrap32 z + 1) = wrap32 (z + 1).
Proof.
  unfold wrap32.
  replace ((z + 2 ^ 31) mod 2 ^ 32 - 2 ^ 31 + 1 + 2 ^ 31)
    with ((z + 2 ^ 31) mod 2 ^ 32 + 1) by lia.
  rewrite Z.add_mod_idemp_l by lia. f_equal. f_equal. lia.
Qed.

Lemma counter_of_succ (n : nat) (m : gmap string Z) (q : string) :
  m !! q = counter_of n ->
  count_NotStored q m !! q = counter_of (S n).
Proof.
  intros Hm. unfold count_NotStored. rewrite lookup_insert_eq, Hm.
  unfold counter_of. cbn [Nat.eqb]. f_equal.
  destruct n as [|n]; cbn [Nat.eqb from_option id]; [reflexivity|].
  rewrite wrap32_succ. f_equal. lia.
Qed.

Lemma tracks_counters Sparsify tracks :
  ∀ s s' q base,
    for_each (processOneTrack Sparsify) tracks s = Returned tt s' ->
    fNotStoredCounterUMap s !! q = counter_of base ->
    fNotStoredCounterUMap s' !! q
    = counter_of (base + matches_of (config s) q tracks).
Proof.
  induction tracks as [|[track steps] tracks IH]; intros s s' q base Hrun Hq;
    cbn [for_each] in Hrun.
  - injection Hrun as <-. unfold matches_of. cbn. by rewrite Nat.add_0_r.
  - apply bind_Returned in Hrun as ([] & s1 & H1 & H2).
    apply processOneTrack_counters in H1 as [Hcfg Hc].
    unfold matches_of. rewrite filter_cons. cbn [fst].
    rewrite <- Hcfg. fold (matches_of (config s1) q tracks). rewrite Hcfg.
    destruct (decide (matched_name (config s) track = Some q)) as [Hm|Hm].
    + rewrite Hm in Hc. cbn [length]. rewrite Nat.add_succ_r, <- Nat.add_succ_l.
      rewrite <- Hcfg. apply (IH s1 s' q (S base) H2).
      rewrite Hc. by apply counter_of_succ.
    + rewrite <- Hcfg. apply (IH s1 s' q base H2). rewrite Hc, <- Hq.
      destruct (matched_name (config s) track) as [q'|]; [|done].
      unfold count_NotStored. rewrite lookup_insert_ne; [done|congruence].
Qed.

Lemma collectParticle_counters mcl m n entry s s' :
  collectParticle mcl m n entry s = Returned tt s' ->
  fNotStoredCounterUMap s' = fNotStoredCounterUMap s.
Proof.
  unfold collectParticle.
  destruct (entry.2 ≫= _) as [rec|]; [|discriminate].
  destruct (subscript 0%N (TrackId rec) (fMCTIndexMap s)) as [gen_index im].
  destruct (negb _); [by intros [= <-]|].
  destruct (_ =? _)%nat; [discriminate|].
  destruct (_ && _); [discriminate|]. by intros [= <-].
Qed.

Lemma collectDropped_counters origin entry s s' :
  collectDropped origin entry s = Returned tt s' ->
  fNotStoredCounterUMap s' = fNotStoredCounterUMap s.
Proof.
  unfold collectDropped. destruct (entry.2) as [p|]; [|by intros [= <-]].
  destruct (deref p s) as [rec|]; [|discriminate].
  destruct (isDropped _); [by intros [= <-]|].
  destruct (negb _); by intros [= <-].
Qed.

Lemma truths_loop_counters mcl entries dropped ts :
  ∀ m n s n' s',
    truths_loop mcl m ts entries dropped n s = Returned n' s' ->
    fNotStoredCounterUMap s' = fNotStoredCounterUMap s.
Proof.
  induction ts as [|mct ts IH]; intros m n s n' s'; cbn [truths_loop].
  - by intros [= _ <-].
  - intros ([] & s1 & H1 & ([] & s2 & H2 & H3)%bind_Returned)%bind_Returned.
    apply (for_each_invariant
             (λ s0, fNotStoredCounterUMap s0 = fNotStoredCounterUMap s)) in H1;
      [|intros k s0 s0' _ <-; apply collectParticle_counters|done].
    assert (fNotStoredCounterUMap s2 = fNotStoredCounterUMap s) as H2'.
    { destruct (_ && _); [|by injection H2 as <-].
      apply (for_each_invariant
               (λ s0, fNotStoredCounterUMap s0 = fNotStoredCounterUMap s)) in H2;
        [done|intros k s0 s0' _ <-; apply collectDropped_counters|done]. }
    apply IH in H3. by rewrite H3.
Qed.

Lemma handles_loop_counters entries dropped hs :
  ∀ mcl n s n' s',
    handles_loop mcl hs entries dropped n s = Returned n' s' ->
    fNotStoredCounterUMap s' = fNotStoredCounterUMap s.
Proof.
  induction hs as [|h hs IH]; intros mcl n s n' s'; cbn [handles_loop].
  - by intros [= _ <-].
  - intros (n1 & s1 & H1 & H2)%bind_Returned.
    apply truths_loop_counters in H1. apply IH in H2. congruence.
Qed.

Lemma endOfEventAction_counters s s' :
  endOfEventAction s = Returned tt s' ->
  fNotStoredCounterUMap s' = fNotStoredCounterUMap s.
Proof.
  unfold endOfEventAction.
  intros ([] & s1 & H1 & (pl & s2 & H2 & (dl & s3 & H3
            & (n & s4 & H4 & H5)%bind_Returned)%bind_Returned)%bind_Returned)%bind_Returned.
  apply for_each_UpdateDaughterInformation_frame in H1 as [E1 _].
  assert (fNotStoredCounterUMap s1 = fNotStoredCounterUMap s) as Ht1
    by (rewrite E1; reflexivity).
  assert (fNotStoredCounterUMap s2 = fNotStoredCounterUMap s1) as Ht2.
  { unfold YieldList in H2. destruct (negb _); by injection H2 as _ <-. }
  assert (fNotStoredCounterUMap s3 = fNotStoredCounterUMap s2) as Ht3.
  { cbn beta in H3. destruct (fdroppedParticleList _).
    - apply bind_Returned in H3 as (d & s2' & HD & HR). injection HR as _ <-.
      apply YieldDroppedList_Returned in HD as [->|[o ->]]; reflexivity.
    - by injection H3 as _ <-. }
  apply handles_loop_counters in H4. injection H5 as <-. state_simpl. congruence.
Qed.

(** X22.  The rejection counters that the end-of-event report prints.
    After an event that ends normally, the counter of a name [q] is the
    number of the event's tracks for which the process filter found [q],
    and a name that the filter found for no track has no counter: the
    zero counters of the constructor are cleared when the event begins,
    and a track is counted whether or not the energy cut drops it
    afterwards. *)
Theorem rejection_counters_of_event
    (Sparsify : float -> bool -> list TrajectoryPoint -> list TrajectoryPoint)
    (tracks : list (G4Track * list G4Track)) (s s' : State) (q : string) :
  processEvent Sparsify tracks s = Returned tt s' ->
  fNotStoredCounterUMap s' !! q = counter_of (matches_of (config s) q tracks).
Proof.
  unfold processEvent. intros ([] & s1 & Hrun & Hend)%bind_Returned.
  rewrite (endOfEventAction_counters s1 s' Hend).
  apply (tracks_counters Sparsify tracks (beginOfEventAction s) s1 q 0 Hrun).
  reflexivity.
Qed.

Lemma rejection_counters_of_event_witness :
  let s := service no_shower_daughters in
  let s' := state_after (processEvent keep_all_points three_tracks s) s in
  processEvent keep_all_points three_tracks s = Returned tt s'
  ∧ fNotStoredCounterUMap s !! "conv"%string = Some 0
  ∧ fNotStoredCounterUMap s' !! "conv"%string = None
  ∧ fNotStoredCounterUMap s' !! "Ion"%string = Some 2.
Proof.
  intros s s'.
  assert (processEvent keep_all_points three_tracks s = Returned tt s') as Hrun
    by by_computation.
  split; [exact Hrun|]. split; [by_computation|].
  split; rewrite (rejection_counters_of_event keep_all_points three_tracks s s' _ Hrun);
    by_computation.
Defined.
(** * The order of the retained output *)

Lemma StronglySorted_strict (l : list Z) :
  StronglySorted Z.le l -> NoDup l -> StronglySorted Z.lt l.
Proof.
  induction 1 as [|a l Hl IH Ha]; intros Hnd; constructor.
  - apply IH. by apply NoDup_cons in Hnd as [_ ?].
  - apply NoDup_cons in Hnd as [Hnew _].
    apply Forall_forall. intros b Hb.
    pose proof (proj1 (Forall_forall _ _) Ha b Hb) as Hle.
    assert (a ≠ b) by (intros ->; done). lia.
Qed.

Lemma StronglySorted_keys (pl : ParticleList) : StronglySorted Z.lt (PList.keys pl).
Proof.
  apply StronglySorted_strict; [|apply NoDup_keys].
  unfold PList.keys. apply (StronglySorted_merge_sort Z.le); apply _.
Qed.

Lemma StronglySorted_fmap_inv {A B} (f : A -> B) (R1 : relation A) (R2 : relation B)
    (l : list A) :
  (∀ x y, R2 (f x) (f y) -> R1 x y) ->
  StronglySorted R2 (f <$> l) -> StronglySorted R1 l.
Proof.
  intros HR. induction l as [|a l IH]; [constructor|].
  rewrite fmap_cons. intros [Hl Ha]%StronglySorted_inv. constructor; [by apply IH|].
  apply Forall_forall. intros b Hb. apply HR.
  apply (proj1 (Forall_forall _ _) Ha). by apply list_elem_of_fmap_2.
Qed.

Lemma group_sorted (h : MCParticle -> N) (c : N) (recs : list MCParticle) :
  StronglySorted (λ r1 r2, TrackId r1 < TrackId r2) recs ->
  StronglySorted (λ r1 r2, (h r1 < h r2)%N ∨ h r1 = h r2 ∧ TrackId r1 < TrackId r2)
    (filter (λ rec, h rec = c) recs).
Proof.
  induction 1 as [|a l Hl IH Ha]; [constructor|].
  rewrite filter_cons. destruct (decide (h a = c)) as [Hc|]; [|done].
  constructor; [done|]. apply Forall_forall.
  intros b [Hb Hin]%list_elem_of_filter. right. split; [congruence|].
  by apply (proj1 (Forall_forall _ _) Ha).
Qed.

Lemma truth_counter_small (i : nat) :
  (i < 2 ^ 32)%nat -> truth_counter i = N.of_nat i.
Proof.
  intros Hi. unfold truth_counter.
  assert (N.of_nat (2 ^ 32) = (2 ^ 32)%N) as Hpow by (rewrite Nat2N.inj_pow; reflexivity).
  apply N.mod_small. lia.
Qed.

Lemma groups_sorted (h : MCParticle -> N) (recs : list MCParticle) (n : nat) :
  StronglySorted (λ r1 r2, TrackId r1 < TrackId r2) recs ->
  ∀ start, (start + n <= 2 ^ 32)%nat ->
    StronglySorted (λ r1 r2, (h r1 < h r2)%N ∨ h r1 = h r2 ∧ TrackId r1 < TrackId r2)
      (flat_map (λ i, filter (λ rec, h rec = truth_counter i) recs) (seq start n)).
Proof.
  intros Hrecs. induction n as [|n IH]; intros start Hn; cbn [seq flat_map];
    [constructor|].
  apply StronglySorted_app_2.
  - intros r1 r2 [H1 _]%list_elem_of_filter
      (j & [Hj Hlt]%in_seq & [H2 _]%list_elem_of_In%list_elem_of_filter)%list_elem_of_In%in_flat_map.
    left. rewrite H1, H2, !truth_counter_small by lia. lia.
  - by apply group_sorted.
  - apply IH. lia.
Qed.

(** X23.  The order of the retained output.  In an event of engine
    tracks that ends normally, with no more truth records than the
    counter of line 767 can tell apart, the particles of the retained
    output are sorted by truth index and, among the particles of one
    truth record, by ascending track ID: every particle stands before
    every particle that comes later in the output. *)
Theorem retained_output_order
    (Sparsify : float -> bool -> list TrajectoryPoint -> list TrajectoryPoint)
    (tracks : list (G4Track * list G4Track)) (s s' : State) :
  engine_tracks tracks ->
  processEvent Sparsify tracks s = Returned tt s' ->
  (length (all_truths (fMCLists s)) <= 2 ^ 32)%nat ->
  StronglySorted (before_in_output s') (default [] (partCol_ s')).
Proof.
  intros (Hnd & Hrange & Hsteps) Hrun Hn.
  unfold processEvent in Hrun.
  apply bind_Returned in Hrun as ([] & s1 & Hrun & Hend).
  destruct (retained_invariant_tracks Sparsify tracks [] (beginOfEventAction s) s1)
    as [Hinv _];
    [|reflexivity| |by rewrite app_nil_r|exact Hrange|exact Hsteps|exact Hrun|].
  { intros k op Hk. cbn in Hk. by rewrite lookup_empty in Hk. }
  { intros k [op Hk]. cbn in Hk. by rewrite lookup_empty in Hk. }
  destruct (endOfEventAction_output s1 s' Hend) as (s2 & Hw & Hpc & _ & _ & _ & Hidx & _).
  assert (fMCLists s1 = fMCLists s) as Hml.
  { assert (session_frame (beginOfEventAction s) s1) as (_ & Hm & _).
    { eapply (for_each_session (processOneTrack Sparsify)); [|exact Hrun].
      intros k s0 s0'. apply processOneTrack_session. }
    rewrite Hm. reflexivity. }
  apply (StronglySorted_fmap_inv id _
           (λ r1 r2, (truth_index_of s1 (TrackId r1) < truth_index_of s1 (TrackId r2))%N
                     ∨ truth_index_of s1 (TrackId r1) = truth_index_of s1 (TrackId r2)
                       ∧ TrackId r1 < TrackId r2)).
  { intros x y. unfold before_in_output. rewrite !Hidx. done. }
  rewrite list_fmap_id, Hpc, Hml. unfold collected_for.
  apply (groups_sorted (λ rec, truth_index_of s1 (TrackId rec))); [|lia].
  apply (StronglySorted_fmap_inv TrackId _ Z.lt); [done|].
  rewrite (TrackId_records_of _ s1 s2 Hinv Hw). apply StronglySorted_keys.
Qed.

Lemma retained_output_order_witness :
  let s := service default_parameters in
  let s' := state_after (processEvent keep_all_points two_tracks s) s in
  engine_tracks two_tracks
  ∧ processEvent keep_all_points two_tracks s = Returned tt s'
  ∧ TrackId <$> default [] (partCol_ s') = [1; 2]
  ∧ StronglySorted (before_in_output s') (default [] (partCol_ s')).
Proof.
  intros s s'.
  assert (engine_tracks two_tracks) as Heng by engine_tracks_sample.
  assert (processEvent keep_all_points two_tracks s = Returned tt s') as Hrun
    by by_computation.
  split; [exact Heng|]. split; [exact Hrun|]. split; [by_computation|].
  apply (retained_output_order keep_all_points two_tracks s s' Heng Hrun).
  assert (length (all_truths (fMCLists s)) = 1%nat) as -> by by_computation.
  apply (Nat.pow_le_mono_r 2 0 32); lia.
Defined.
(** * Parents and daughters in the retained output *)

Lemma GetParentage_loop_range (m : gmap Z Z) (fuel : nat) :
  ranged m -> ∀ key acc a, int_range acc ->
    GetParentage_loop fuel m key acc = Some a -> int_range a.
Proof.
  intros Hm. induction fuel as [|fuel IH]; intros key acc a Hacc; cbn [GetParentage_loop];
    [discriminate|].
  destruct (m !! key) as [second|] eqn:Hk.
  - apply IH. by apply (Hm key).
  - by intros [= <-].
Qed.

Lemma parentage_range (m : gmap Z Z) (k a : Z) :
  ranged m -> parentage m k = Some a -> int_range a.
Proof.
  intros Hm. unfold parentage. apply GetParentage_loop_range; [done|].
  unfold int_range, NoParticleId. lia.
Qed.

Lemma ranged_insert (m : gmap Z Z) (k v : Z) :
  ranged m -> int_range v -> ranged (<[k := v]> m).
Proof.
  intros Hm Hv k' v' [[_ <-]|[_ H]]%lookup_insert_Some; [done|by apply (Hm k')].
Qed.

Lemma preUserTrackingAction_Mother track s s1 p rec :
  preUserTrackingAction track s = Returned tt s1 ->
  ranged (fParentIDMap s) ->
  particle (fCurrentParticle s1) = Some p ->
  deref p s1 = Some rec ->
  int_range (Mother rec) ∧ Daughters rec = ∅.
Proof.
  intros Hpre Hm Hp Hrec.
  assert (∃ s0 pn par pi pmi flag notstore,
            createParticle track (trackID_of track s) (GetPDGEncoding track) pn par
              pi pmi flag notstore s0 = Returned tt s1
            ∧ int_range par) as (s0 & pn & par & pi & pmi & flag & notstore & Hc & Hpar).
  { assert (int_range (parentID_of track s)) as Hpid by apply wrap32_range.
    destruct (GetPrimaryParticle track) as [pp|] eqn:Hpp.
    - unfold preUserTrackingAction in Hpre. rewrite Hpp in Hpre. state_simpl.
      fold (trackID_of track s) (parentID_of track s) in Hpre.
      fold (entered track s) in Hpre.
      destruct (GetUserInformation pp) as [ppi|].
      + destruct (primary_process_name _) as [pn flag].
        do 7 eexists. split; [exact Hpre|]. unfold int_range. lia.
      + do 7 eexists. split; [exact Hpre|exact Hpid].
    - destruct (GetCreatorProcess track) as [pn|] eqn:Hcp.
      2:{ unfold preUserTrackingAction in Hpre. rewrite Hpp, Hcp in Hpre. discriminate. }
      destruct (below_energyCut track s) eqn:Hcut.
      { pose proof (preUserTrackingAction_below_cut track s Hpp Hcut) as Hb.
        rewrite Hpre in Hb. destruct Hb as (s0 & a0 & a & -> & _).
        unfold cut_state in Hp. state_simpl. discriminate. }
      destruct (admitSecondary_created track pn s s1 Hpp Hcp Hpre Hcut)
        as (notstore & s0 & parent & s2 & index & Hex & Hres & Hidx & Hc).
      do 7 eexists. split; [exact Hc|].
      assert (ranged (fParentIDMap s0)) as Hm0.
      { apply processExclusion_Returned in Hex as [_ Hex].
        destruct (excluded_by _ pn) as [q|].
        - destruct Hex as (_ & a & _ & ->). unfold excluded_state. state_simpl.
          by apply ranged_insert.
        - destruct Hex as [_ ->]. exact Hm. }
      apply resolveParent_spec in Hres.
      destruct (_ || _); [by destruct Hres as [-> _]|].
      destruct Hres as (_ & a & Ha & ->).
      destruct (PList.KnownParticle _ a); [|done].
      apply (parentage_range _ _ _ (ranged_insert _ _ _ Hm0 Hpid) Ha). }
  destruct (createParticle_spec track (trackID_of track s) (GetPDGEncoding track)
              pn par pi pmi flag notstore s0) as (s'' & Hc' & Hslot & Hheap & _).
  rewrite Hc in Hc'. injection Hc' as <-.
  rewrite Hslot in Hp. cbn in Hp. injection Hp as <-.
  unfold deref in Hrec. rewrite Hheap, lookup_app_r, Nat.sub_diag in Hrec by done.
  injection Hrec as <-. split; [exact Hpar|reflexivity].
Qed.
Lemma Mother_foldl_stepped c keep steps rec :
  Mother (foldl (λ r trk, stepped c keep trk r) rec steps) = Mother rec
  ∧ Daughters (foldl (λ r trk, stepped c keep trk r) rec steps) = Daughters rec.
Proof. by destruct (foldl_stepped_SetTrajectory c keep steps rec) as [t ->]. Qed.

Lemma Mother_ended Sparsify c keep aTrack process rec :
  Mother (ended Sparsify c keep aTrack process rec) = Mother rec
  ∧ Daughters (ended Sparsify c keep aTrack process rec) = Daughters rec.
Proof.
  unfold ended. destruct keep; cbn [negb]; [destruct (fSparsifyTrajectories c)|];
    split; reflexivity.
Qed.

Lemma heap_truth_recorded rec s : heap (truth_recorded rec s) = heap s.
Proof. unfold truth_recorded. by destruct (isPrimary _). Qed.

Lemma heap_discardCurrentParticle p rec s :
  heap (discardCurrentParticle p rec s) = heap s.
Proof. unfold discardCurrentParticle. by destruct (negb _). Qed.

Lemma genealogy_track Sparsify track steps base s s3 :
  genealogy base s -> (base <= length (heap s))%nat ->
  processOneTrack Sparsify (track, steps) s = Returned tt s3 ->
  genealogy base s3 ∧ (base <= length (heap s3))%nat.
Proof.
  intros (Hrec & Hlist & Hmap) Hbase Hrun.
  assert (int_range (parentID_of track s)) as Hpid by apply wrap32_range.
  destruct (processOneTrack_effect Sparsify track steps s s3 Hrun)
    as (_ & Hpm & Hcase).
  assert (ranged (fParentIDMap s3)) as Hmap3.
  { destruct Hpm as [->|[_ ->]]; [done|by apply ranged_insert]. }
  destruct Hcase as [(_ & Hh & Hl & _)
                    |(Hnc & pn & parentID & notstore & keep & r3 & Hh & _ & Hm)].
  { rewrite Hh. split; [|done]. split; [by rewrite Hh|]. split; [by rewrite Hl|done]. }
  cbn zeta in Hm.
  assert (int_range (Mother r3) ∧ Daughters r3 = ∅) as Hr3.
  { pose proof Hrun as Hrun0. unfold processOneTrack in Hrun0. cbn [fst snd] in Hrun0.
    apply bind_Returned in Hrun0 as ([] & s1 & Hpre & _).
    destruct (preUserTrackingAction_effect track s s1 Hpre)
      as (_ & _ & [(Hcut & _)|(_ & pn' & parentID' & notstore' & Hslot & Hheap & _)]);
      [done|].
    assert (deref (length (heap s)) s1
            = Some (created track (trackID_of track s) (GetPDGEncoding track) pn' parentID'))
      as Hrec0.
    { unfold deref. rewrite Hheap. by rewrite lookup_app_r, Nat.sub_diag. }
    destruct (preUserTrackingAction_Mother track s s1 _ _ Hpre Hmap Hslot Hrec0)
      as [Hmo Hda].
    rewrite (processOneTrack_lifecycle Sparsify track steps s s1 _ _ Hpre Hslot Hrec0)
      in Hrun.
    cbn zeta in Hrun.
    assert (heap s3 !! length (heap s) = Some r3) as Hat
      by (by rewrite Hh, lookup_app_r, Nat.sub_diag).
    assert (length (heap s) < length (heap s1))%nat as Hlt
      by (rewrite Hheap, length_app; cbn; lia).
    clear Hpm Hm Hh.
    destruct (Mother_foldl_stepped (config s1)
                (keepFullTrajectory (fCurrentParticle s1)) steps
                (created track (trackID_of track s) (GetPDGEncoding track) pn'
                   parentID')) as [Hm1 Hd1].
    destruct (GetProcessDefinedStep _) as [process|]; injection Hrun as Hs3;
      rewrite <- Hs3 in Hat.
    - rewrite heap_truth_recorded in Hat. cbn [heap set_heap] in Hat.
      rewrite list_lookup_insert_eq in Hat by done. injection Hat as <-.
      match goal with |- context [ended ?S ?c ?k ?t ?p ?r] =>
        destruct (Mother_ended S c k t p r) as [-> ->] end.
      rewrite Hm1, Hd1. done.
    - rewrite heap_discardCurrentParticle in Hat. cbn [heap set_heap] in Hat.
      rewrite list_lookup_insert_eq in Hat by done. injection Hat as <-.
      cbn [Mother Daughters SetWeight]. rewrite Hm1, Hd1. done. }
  split; [|rewrite Hh, length_app; cbn; lia]. split; [|split; [|exact Hmap3]].
  - intros q rec Hq Hrec'. rewrite Hh in Hrec'.
    apply lookup_app_Some in Hrec' as [Hrec'|[_ Hrec']]; [by eapply Hrec|].
    apply list_lookup_singleton_Some in Hrec' as [_ <-]. exact Hr3.
  - intros k q Hk.
    set (L1 := if negb (GetProperTime track =? 0)%float || notstore then fParticleList s
               else PList.Add (trackID_of track s) (length (heap s)) (fParticleList s)) in *.
    assert (∀ k q, m_particleList L1 !! k = Some (Some q) -> (base <= q)%nat) as HL1.
    { unfold L1. intros k' q' Hk'. destruct (_ || _); [by eapply Hlist|].
      cbn in Hk'. apply lookup_insert_Some in Hk' as [[_ [= <-]]|[_ Hk']];
        [done|by eapply Hlist]. }
    destruct (GetProcessDefinedStep _).
    + destruct Hm as (_ & Hl & _). rewrite Hl in Hk. by eapply HL1.
    + destruct Hm as (_ & Hl & _). rewrite Hl in Hk.
      apply lookup_erase_Some in Hk. by eapply HL1.
Qed.

Lemma genealogy_tracks Sparsify tracks base :
  ∀ s s', genealogy base s -> (base <= length (heap s))%nat ->
    for_each (processOneTrack Sparsify) tracks s = Returned tt s' ->
    genealogy base s'.
Proof.
  induction tracks as [|[track steps] tracks IH]; intros s s' Hf Hb Hrun;
    cbn [for_each] in Hrun.
  - by injection Hrun as <-.
  - apply bind_Returned in Hrun as ([] & s1 & H1 & H2).
    destruct (genealogy_track Sparsify track steps base s s1 Hf Hb H1) as [Hf1 Hb1].
    by apply (IH s1).
Qed.
Lemma output_record s1 s2 s' (r : MCParticle) :
  retained_invariant s1 ->
  (∀ p, without_daughters <$> heap s2 !! p = without_daughters <$> heap s1 !! p) ->
  default [] (partCol_ s')
  = flat_map (collected_for s1 (records_of (fParticleList s1) s2))
      (seq 0 (length (all_truths (fMCLists s1)))) ->
  r ∈ default [] (partCol_ s') ->
  ∃ p rec1, m_particleList (fParticleList s1) !! TrackId r = Some (Some p)
            ∧ heap s1 !! p = Some rec1 ∧ heap s2 !! p = Some r
            ∧ without_daughters r = without_daughters rec1.
Proof.
  intros Hinv Hw Hpc Hr. rewrite Hpc in Hr.
  apply list_elem_of_In, in_flat_map in Hr as (i & _ & Hr).
  apply list_elem_of_In in Hr. unfold collected_for in Hr.
  apply list_elem_of_filter in Hr as [_ Hr].
  unfold records_of in Hr. apply list_elem_of_omap in Hr as ([k op] & Hin & Hrec).
  apply elem_of_entries in Hin. cbn [snd fst] in *.
  destruct (Hinv k op Hin) as (p & rec1 & -> & Hp & Hid & _).
  cbn in Hrec. unfold deref in Hrec.
  pose proof (Hw p) as Hwp. rewrite Hrec, Hp in Hwp. cbn in Hwp.
  assert (without_daughters r = without_daughters rec1) as Hwd by congruence.
  assert (TrackId r = k) as ->.
  { rewrite <- Hid. change (TrackId (without_daughters r) = TrackId (without_daughters rec1)).
    by rewrite Hwd. }
  by exists p, rec1.
Qed.

(** X24.  Parents and daughters in the retained output of an event of
    engine tracks that ends normally.  A particle of the output with a
    positive ID lists as daughter every particle of the output that names
    it as its parent.  Every daughter that a particle of the output lists
    is the ID of a track of the event that entered the retained list and
    stayed there, the listing particle has a positive ID, and a particle
    of the output with the daughter's ID names the listing particle as
    its parent. *)
Theorem output_daughters
    (Sparsify : float -> bool -> list TrajectoryPoint -> list TrajectoryPoint)
    (tracks : list (G4Track * list G4Track)) (s s' : State) (r : MCParticle) :
  engine_tracks tracks ->
  processEvent Sparsify tracks s = Returned tt s' ->
  r ∈ default [] (partCol_ s') ->
  (∀ r', r' ∈ default [] (partCol_ s') -> 0 < TrackId r -> Mother r' = TrackId r ->
         TrackId r' ∈ Daughters r)
  ∧ ∀ d, d ∈ Daughters r ->
      0 < TrackId r
      ∧ (∃ t, t ∈ tracks ∧ GetTrackID t.1 = d ∧ retained_track s t)
      ∧ ∀ r', r' ∈ default [] (partCol_ s') -> TrackId r' = d -> Mother r' = TrackId r.
Proof.
  intros (Hnd & Hrange & Hsteps) Hrun Hr.
  unfold processEvent in Hrun.
  apply bind_Returned in Hrun as ([] & s1 & Hrun & Hend).
  destruct (retained_invariant_tracks Sparsify tracks [] (beginOfEventAction s) s1)
    as [Hinv _];
    [|reflexivity| |by rewrite app_nil_r|exact Hrange|exact Hsteps|exact Hrun|].
  { intros k op Hk. cbn in Hk. by rewrite lookup_empty in Hk. }
  { intros k [op Hk]. cbn in Hk. by rewrite lookup_empty in Hk. }
  assert (genealogy (length (heap s)) s1) as (Hgen & Hlist & _).
  { apply (genealogy_tracks Sparsify tracks _ (beginOfEventAction s) s1);
      [|done|exact Hrun].
    split; [|split].
    - intros q rec Hq Hrec. apply lookup_lt_Some in Hrec.
      change (heap (beginOfEventAction s)) with (heap s) in Hrec. lia.
    - intros k q Hk. cbn in Hk. by rewrite lookup_empty in Hk.
    - intros k v Hk. cbn in Hk. by rewrite lookup_empty in Hk. }
  assert (∀ k, is_Some (m_particleList (fParticleList s1) !! k) ->
               ∃ t, t ∈ tracks ∧ GetTrackID t.1 = k ∧ retained_track s t) as Hkeys.
  { intros k Hk.
    destruct (tracks_keys Sparsify tracks (beginOfEventAction s) s1 Hrun eq_refl Hrange
                k Hk) as [[op Hop]|(t & Ht & Hid & Hret)].
    { cbn in Hop. by rewrite lookup_empty in Hop. }
    exists t. split; [done|]. split; [done|].
    by apply (retained_track_config s (beginOfEventAction s)). }
  destruct (endOfEventAction_output s1 s' Hend)
    as (s2 & Hw & Hpc & _ & _ & _ & _ & s0 & Hh0 & Hl0 & Hupd).
  assert (well_keyed (fParticleList s0) s0) as Hwk.
  { intros k op Hk. rewrite Hl0 in Hk.
    destruct (Hinv k op Hk) as (p & rec & -> & Hp & Hid & _). split.
    - destruct (Hkeys k ltac:(by eexists)) as (t & Ht & <- & _).
      apply (proj1 (Forall_forall _ _) Hrange t Ht).
    - exists p, rec. rewrite Hh0. split; [done|]. split; [done|]. split; [done|].
      apply (Hgen p rec); [by eapply Hlist|done]. }
  destruct (for_each_UpdateDaughterInformation_daughters (fParticleList s0)
              (PList.keys (fParticleList s0)) s0 Hwk eq_refl)
    as (s2' & Hupd' & Hd). { intros k. apply elem_of_keys. }
  rewrite Hupd in Hupd'. injection Hupd' as <-.
  rewrite Hl0 in Hd.
  assert (∀ x, x ∈ default [] (partCol_ s') ->
               ∃ p rec1, m_particleList (fParticleList s1) !! TrackId x = Some (Some p)
                         ∧ heap s1 !! p = Some rec1 ∧ Mother rec1 = Mother x
                         ∧ Daughters rec1 = ∅
                         ∧ ∀ d, d ∈ Daughters x
                                ↔ 0 < TrackId x
                                  ∧ daughter_of (fParticleList s1) s0 (TrackId x) d)
    as Hout.
  { intros x Hx.
    destruct (output_record s1 s2 s' x Hinv Hw Hpc Hx) as (p & rec1 & Hk & Hp & Hp2 & Hwd).
    exists p, rec1. split; [done|]. split; [done|].
    split. { change (Mother (without_daughters rec1) = Mother (without_daughters x)).
             by rewrite Hwd. }
    destruct (Hgen p rec1 ltac:(by eapply Hlist) Hp) as [_ Hnone].
    split; [done|]. intros d.
    destruct (Hd (TrackId x) p rec1 Hk ltac:(by rewrite Hh0)) as (x' & Hx' & _ & Hds).
    rewrite Hp2 in Hx'. injection Hx' as <-. rewrite Hds, Hnone. split.
    - intros [[]%elem_of_empty|(H0 & _ & Hdau)]. done.
    - intros [H0 Hdau]. right. split; [done|]. split; [|done].
      apply elem_of_keys. destruct Hdau as (q & r0 & Hq & _). by eexists. }
  destruct (Hout r Hr) as (p & rec1 & Hk & Hp & Hmo & _ & Hds).
  split.
  - intros r' Hr' H0 Hm.
    destruct (Hout r' Hr') as (p' & rec1' & Hk' & Hp' & Hmo' & _).
    apply Hds. split; [done|]. exists p', rec1'. rewrite Hh0. split; [done|].
    split; [done|]. congruence.
  - intros d [H0 (q & r0 & Hq & Hr0 & Hm0)]%Hds. split; [done|]. split.
    + apply Hkeys. by eexists.
    + intros r' Hr' <-.
      destruct (Hout r' Hr') as (p' & rec1' & Hk' & Hp' & Hmo' & _).
      rewrite Hq in Hk'. injection Hk' as <-. rewrite Hh0, Hp' in Hr0.
      injection Hr0 as <-. congruence.
Qed.

Lemma output_daughters_witness :
  let s := service default_parameters in
  let s' := state_after (processEvent keep_all_points two_tracks s) s in
  engine_tracks two_tracks
  ∧ processEvent keep_all_points two_tracks s = Returned tt s'
  ∧ TrackId <$> default [] (partCol_ s') = [1; 2]
  ∧ Forall (λ r, TrackId r = 1 -> 2 ∈ Daughters r) (default [] (partCol_ s')).
Proof.
  intros s s'.
  assert (engine_tracks two_tracks) as Heng by engine_tracks_sample.
  assert (processEvent keep_all_points two_tracks s = Returned tt s') as Hrun
    by by_computation.
  split; [exact Heng|]. split; [exact Hrun|]. split; [by_computation|].
  destruct (default [] (partCol_ s') !! 1%nat) as [r'|] eqn:Hr';
    [|vm_compute in Hr'; discriminate].
  assert (TrackId r' = 2 ∧ Mother r' = 1) as [Hid' Hmo']
    by (vm_compute in Hr'; injection Hr' as <-; split; reflexivity).
  apply list_elem_of_lookup_2 in Hr'.
  apply Forall_forall. intros r Hr Hid.
  destruct (output_daughters keep_all_points two_tracks s s' r Heng Hrun Hr) as [Hda _].
  rewrite <- Hid'. apply Hda; [exact Hr'|lia|congruence].
Defined.
(** * The truth index of an output particle *)

Lemma preUserTrackingAction_truth_index track s s1 :
  preUserTrackingAction track s = Returned tt s1 ->
  particle (fCurrentParticle s1) = None ∧ fMCTIndexMap s1 = fMCTIndexMap s
  ∨ ∃ pn par idx,
      particle (fCurrentParticle s1) = Some (length (heap s))
      ∧ heap s1 = heap s ++ [created track (trackID_of track s) (GetPDGEncoding track)
                               pn par]
      ∧ fMCTIndexMap s1 = <[trackID_of track s := idx]> (fMCTIndexMap s)
      ∧ expected_index track (fMCTIndexMap s) par = Some idx.
Proof.
  intros Hpre.
  assert (particle (fCurrentParticle s1) = None ∧ fMCTIndexMap s1 = fMCTIndexMap s
          ∨ ∃ s0 pn par pi idx flag notstore,
              createParticle track (trackID_of track s) (GetPDGEncoding track) pn par
                pi idx flag notstore s0 = Returned tt s1
              ∧ heap s0 = heap s ∧ fMCTIndexMap s0 = fMCTIndexMap s
              ∧ expected_index track (fMCTIndexMap s) par = Some idx)
    as [H|(s0 & pn & par & pi & idx & flag & notstore & Hc & Hh & Hm & Hidx)];
    [|by left|].
  { unfold expected_index.
    destruct (GetPrimaryParticle track) as [pp|] eqn:Hpp.
    - right. unfold preUserTrackingAction in Hpre. rewrite Hpp in Hpre. state_simpl.
      fold (trackID_of track s) (parentID_of track s) in Hpre.
      fold (entered track s) in Hpre.
      destruct (GetUserInformation pp) as [ppi|].
      + destruct (primary_process_name _) as [pn flag].
        do 7 eexists. split; [exact Hpre|]. done.
      + do 7 eexists. split; [exact Hpre|]. done.
    - destruct (GetCreatorProcess track) as [pn|] eqn:Hcp.
      2:{ unfold preUserTrackingAction in Hpre. rewrite Hpp, Hcp in Hpre. discriminate. }
      destruct (below_energyCut track s) eqn:Hcut.
      { left. pose proof (preUserTrackingAction_below_cut track s Hpp Hcut) as Hb.
        rewrite Hpre in Hb. destruct Hb as (s0 & a0 & a & -> & _ & Hf).
        unfold cut_state. state_simpl. split; [done|].
        by destruct Hf as (_ & _ & _ & _ & _ & _ & _ & -> & _). }
      right.
      destruct (admitSecondary_created track pn s s1 Hpp Hcp Hpre Hcut)
        as (notstore & s0 & parent & s2 & index & Hex & Hres & Hidx & Hc).
      apply processExclusion_Returned in Hex as [Hf1 _].
      apply resolveParent_frame in Hres.
      pose proof (admission_frame_trans _ _ _
                    (admission_frame_trans _ _ _ (admission_frame_entered track s) Hf1)
                    Hres) as (_ & _ & Hh & _ & _ & _ & _ & Hm & _).
      do 7 eexists. split; [exact Hc|]. state_simpl.
      split; [done|]. split; [done|]. by rewrite <- Hm. }
  right.
  destruct (createParticle_spec track (trackID_of track s) (GetPDGEncoding track)
              pn par pi idx flag notstore s0) as (s'' & Hc' & Hslot & Hheap & Hmap & _).
  rewrite Hc in Hc'. injection Hc' as <-.
  exists pn, par, idx. rewrite Hslot, Hheap, Hmap, Hh, Hm. done.
Qed.

Lemma processOneTrack_truth_index Sparsify track steps s s3 :
  processOneTrack Sparsify (track, steps) s = Returned tt s3 ->
  heap s3 = heap s ∧ fMCTIndexMap s3 = fMCTIndexMap s
  ∨ ∃ r3 idx,
      heap s3 = heap s ++ [r3]
      ∧ TrackId r3 = trackID_of track s
      ∧ fMCTIndexMap s3 = <[trackID_of track s := idx]> (fMCTIndexMap s)
      ∧ expected_index track (fMCTIndexMap s) (Mother r3) = Some idx.
Proof.
  intros Hrun.
  pose proof Hrun as Hrun0. unfold processOneTrack in Hrun0. cbn [fst snd] in Hrun0.
  apply bind_Returned in Hrun0 as ([] & s1 & Hpre & Hrest).
  destruct (preUserTrackingAction_truth_index track s s1 Hpre)
    as [[Hslot Hm]|(pn & par & idx & Hslot & Hheap & Hm & Hidx)].
  - left. destruct (stepping_idle steps track s1 Hslot) as [last' Hst].
    cbn beta in Hrest. rewrite Hst in Hrest. cbn [bind] in Hrest.
    rewrite postUserTrackingAction_idle in Hrest by done. injection Hrest as <-.
    split; [|done].
    destruct (preUserTrackingAction_effect track s s1 Hpre)
      as (_ & _ & [(_ & _ & Hh & _)|(_ & pn & parentID & notstore & Hslot' & _)]);
      [done|congruence].
  - right.
    set (rec0 := created track (trackID_of track s) (GetPDGEncoding track) pn par) in *.
    assert (deref (length (heap s)) s1 = Some rec0) as Hrec0.
    { unfold deref. rewrite Hheap. by rewrite lookup_app_r, Nat.sub_diag. }
    rewrite (processOneTrack_lifecycle Sparsify track steps s s1 _ _ Hpre Hslot Hrec0)
      in Hrun.
    cbn zeta in Hrun.
    destruct (Mother_foldl_stepped (config s1)
                (keepFullTrajectory (fCurrentParticle s1)) steps rec0) as [Hm1 _].
    pose proof (TrackId_foldl_stepped (config s1)
                  (keepFullTrajectory (fCurrentParticle s1)) steps rec0) as Hi1.
    destruct (GetProcessDefinedStep _) as [process|]; injection Hrun as <-.
    + eexists _, idx. split.
      { rewrite heap_truth_recorded. cbn [heap set_heap]. rewrite Hheap.
        apply insert_at_length. }
      rewrite TrackId_ended, Hi1.
      match goal with |- context [ended ?S ?c ?k ?t ?p ?r] =>
        destruct (Mother_ended S c k t p r) as [-> _] end.
      rewrite Hm1. split; [done|]. split; [|done].
      unfold truth_recorded. by destruct (isPrimary _).
    + eexists _, idx. split.
      { rewrite heap_discardCurrentParticle. cbn [heap set_heap]. rewrite Hheap.
        apply insert_at_length. }
      cbn [TrackId Mother SetWeight]. rewrite Hi1, Hm1. split; [done|]. split; [|done].
      unfold discardCurrentParticle. by destruct (negb _).
Qed.
Lemma inheriting_track Sparsify all base ids track steps s s3 :
  inheriting base all ids s -> (base <= length (heap s))%nat ->
  NoDup (GetTrackID ∘ fst <$> all) ->
  (track, steps) ∈ all ->
  trackID_of track s = GetTrackID track ->
  GetTrackID track ∉ ids ->
  processOneTrack Sparsify (track, steps) s = Returned tt s3 ->
  inheriting base all (GetTrackID track :: ids) s3 ∧ (base <= length (heap s3))%nat.
Proof.
  intros [Hkeys Hrecs] Hbase Hnd Hin Htid Hnew Hrun.
  destruct (processOneTrack_truth_index Sparsify track steps s s3 Hrun)
    as [[Hh Hm]|(r3 & idx & Hh & Hid & Hm & Hidx)].
  - unfold inheriting. rewrite Hh, Hm. split; [|done]. split.
    + intros k Hk. right. by apply Hkeys.
    + intros q rec Hq Hrec. destruct (Hrecs q rec Hq Hrec) as (Hi & Hs & Hall).
      split; [by right|]. done.
  - unfold inheriting. rewrite Htid in *.
    split; [|rewrite Hh, length_app; cbn; lia]. split.
    + intros k. rewrite Hm. intros [<-|Hk]%lookup_insert_is_Some'; [by left|].
      right. by apply Hkeys.
    + intros q rec Hq Hrec. rewrite Hh in Hrec.
      apply lookup_app_Some in Hrec as [Hrec|[_ Hrec]].
      * destruct (Hrecs q rec Hq Hrec) as (Hi & Hs & Hall).
        assert (TrackId rec ≠ GetTrackID track) as Hne by (intros E; by rewrite E in Hi).
        split; [by right|]. rewrite Hm, lookup_insert_ne by done. split; [done|].
        intros t Ht Hidt. pose proof (Hall t Ht Hidt) as Hexp.
        rewrite Hexp in Hs |- *. unfold expected_index in Hs |- *.
        destruct (GetPrimaryParticle t.1); [done|].
        rewrite lookup_insert_ne; [done|].
        intros E. apply Hnew, Hkeys. by rewrite E.
      * apply list_lookup_singleton_Some in Hrec as [_ <-]. rewrite Hid.
        split; [by left|]. rewrite Hm, lookup_insert_eq. split; [by eexists|].
        intros t Ht Hidt.
        assert (t = (track, steps)) as ->
          by (by apply (NoDup_fmap_inj (GetTrackID ∘ fst) all)).
        cbn [fst]. rewrite <- Hidx. unfold expected_index.
        destruct (GetPrimaryParticle track) eqn:Hpp; [done|].
        rewrite lookup_insert_ne; [done|].
        intros E. apply Hnew, Hkeys. rewrite E.
        unfold expected_index in Hidx. rewrite Hpp in Hidx. by eexists.
Qed.

Lemma inheriting_tracks Sparsify all base tracks :
  ∀ ids s s',
    inheriting base all ids s -> (base <= length (heap s))%nat ->
    fTrackIDOffset s = 0 ->
    NoDup (GetTrackID ∘ fst <$> all) ->
    (∀ t, t ∈ tracks -> t ∈ all) ->
    NoDup ((GetTrackID ∘ fst <$> tracks) ++ ids) ->
    Forall (λ t : G4Track * list G4Track, 0 <= GetTrackID t.1 < 2 ^ 31) tracks ->
    for_each (processOneTrack Sparsify) tracks s = Returned tt s' ->
    ∃ ids', inheriting base all ids' s'.
Proof.
  induction tracks as [|[track steps] tracks IH];
    intros ids s s' Hinv Hbase Hoff Hall Hsub Hnd Hrange Hrun; cbn [for_each] in Hrun.
  - injection Hrun as <-. by exists ids.
  - apply bind_Returned in Hrun as ([] & s1 & H1 & H2).
    apply Forall_cons in Hrange as [Hr Hrange]. cbn in Hr.
    cbn [fmap list_fmap compose fst app] in Hnd.
    change (list_fmap _ _ (GetTrackID ∘ fst) tracks)
      with ((GetTrackID ∘ fst) <$> tracks) in Hnd.
    apply NoDup_cons in Hnd as [Hnew Hnd].
    assert (trackID_of track s = GetTrackID track) as Htid.
    { unfold trackID_of. rewrite Hoff, Z.add_0_r. apply wrap32_id.
      unfold int_range. lia. }
    pose proof (processOneTrack_session _ _ _ _ H1) as (_ & _ & Ho).
    destruct (inheriting_track Sparsify all base ids track steps s s1 Hinv Hbase Hall)
      as [Hinv1 Hbase1]; try done.
    { apply Hsub. by left. }
    { intros Hi. apply Hnew. apply elem_of_app. by right. }
    apply (IH (GetTrackID track :: ids) s1 s'); try done.
    + congruence.
    + intros t Ht. apply Hsub. by right.
    + apply NoDup_app in Hnd as (Hnd1 & Hnd2 & Hnd3).
      apply NoDup_app. split; [exact Hnd1|]. split.
      * intros k Hk [->|Hk']%elem_of_cons.
        -- apply Hnew. apply elem_of_app. by left.
        -- by apply (Hnd2 k).
      * apply NoDup_cons. split; [|exact Hnd3].
        intros Hi. apply Hnew. apply elem_of_app. by right.
Qed.

(** X25.  Where the truth index of an output particle comes from.  In
    an event of engine tracks that ends normally, the truth index of a
    particle of the retained output is the [MCTruthIndex] of its track's
    [PrimaryParticleInformation], 0 for a track with a primary particle
    that has none, and for a track without a primary particle the truth
    index of the parent that the particle names: a particle is collected
    under the truth record of its parent. *)
Theorem truth_index_is_inherited
    (Sparsify : float -> bool -> list TrajectoryPoint -> list TrajectoryPoint)
    (tracks : list (G4Track * list G4Track)) (s s' : State) (r : MCParticle)
    (t : G4Track * list G4Track) :
  engine_tracks tracks ->
  processEvent Sparsify tracks s = Returned tt s' ->
  r ∈ default [] (partCol_ s') ->
  t ∈ tracks ->
  GetTrackID t.1 = TrackId r ->
  truth_index_of s' (TrackId r)
  = match GetPrimaryParticle t.1 with
    | Some primaryParticle =>
        match GetUserInformation primaryParticle with
        | Some ppi => MCTruthIndex ppi
        | None => 0%N
        end
    | None => truth_index_of s' (Mother r)
    end.
Proof.
  intros (Hnd & Hrange & Hsteps) Hrun Hr Ht Hid.
  unfold processEvent in Hrun.
  apply bind_Returned in Hrun as ([] & s1 & Hrun & Hend).
  destruct (retained_invariant_tracks Sparsify tracks [] (beginOfEventAction s) s1)
    as [Hinv _];
    [|reflexivity| |by rewrite app_nil_r|exact Hrange|exact Hsteps|exact Hrun|].
  { intros k op Hk. cbn in Hk. by rewrite lookup_empty in Hk. }
  { intros k [op Hk]. cbn in Hk. by rewrite lookup_empty in Hk. }
  assert (genealogy (length (heap s)) s1) as (_ & Hlist & _).
  { apply (genealogy_tracks Sparsify tracks _ (beginOfEventAction s) s1);
      [|done|exact Hrun].
    split; [|split].
    - intros q rec Hq Hrec. apply lookup_lt_Some in Hrec.
      change (heap (beginOfEventAction s)) with (heap s) in Hrec. lia.
    - intros k q Hk. cbn in Hk. by rewrite lookup_empty in Hk.
    - intros k v Hk. cbn in Hk. by rewrite lookup_empty in Hk. }
  destruct (inheriting_tracks Sparsify tracks (length (heap s)) tracks []
              (beginOfEventAction s) s1) as (ids & _ & Hrecs); try done.
  { split.
    - intros k [v Hk]. cbn in Hk. by rewrite lookup_empty in Hk.
    - intros q rec Hq Hrec. apply lookup_lt_Some in Hrec.
      change (heap (beginOfEventAction s)) with (heap s) in Hrec. lia. }
  { by rewrite app_nil_r. }
  destruct (endOfEventAction_output s1 s' Hend) as (s2 & Hw & Hpc & _ & _ & _ & Hidx & _).
  destruct (output_record s1 s2 s' r Hinv Hw Hpc Hr) as (p & rec1 & Hk & Hp & _ & Hwd).
  assert (TrackId rec1 = TrackId r ∧ Mother rec1 = Mother r) as [Hi1 Hm1].
  { split; [change (TrackId (without_daughters rec1) = TrackId (without_daughters r))
           |change (Mother (without_daughters rec1) = Mother (without_daughters r))];
      by rewrite Hwd. }
  destruct (Hrecs p rec1 ltac:(by eapply Hlist) Hp) as (_ & _ & Hexp).
  specialize (Hexp t Ht ltac:(congruence)). rewrite Hi1, Hm1 in Hexp.
  rewrite !Hidx. unfold truth_index_of. rewrite Hexp. unfold expected_index.
  by destruct (GetPrimaryParticle t.1).
Qed.


Lemma truth_index_is_inherited_witness :
  let s := service default_parameters in
  let s' := state_after (processEvent keep_all_points two_tracks s) s in
  engine_tracks two_tracks
  ∧ processEvent keep_all_points two_tracks s = Returned tt s'
  ∧ TrackId <$> default [] (partCol_ s') = [1; 2]
  ∧ Forall (λ r, TrackId r = 2 ->
                 truth_index_of s' (TrackId r) = truth_index_of s' (Mother r))
      (default [] (partCol_ s')).
Proof.
  intros s s'.
  assert (engine_tracks two_tracks) as Heng by engine_tracks_sample.
  assert (processEvent keep_all_points two_tracks s = Returned tt s') as Hrun
    by by_computation.
  split; [exact Heng|]. split; [exact Hrun|]. split; [by_computation|].
  apply Forall_forall.
  intros r Hr Hid.
  assert ((secondary_track 2 1 11 "eIoni" 1,
                 [after_step (Some "eIoni"%string) (secondary_track 2 1 11 "eIoni" 1)]) ∈ two_tracks) as Ht by (right; left).
  rewrite (truth_index_is_inherited keep_all_points two_tracks s s' r
                (secondary_track 2 1 11 "eIoni" 1,
                 [after_step (Some "eIoni"%string) (secondary_track 2 1 11 "eIoni" 1)])
                Heng Hrun Hr Ht (eq_sym Hid)).
  reflexivity.
Defined.
